(** * Technical-indicator engine of the chart service (utils.py)

    A shallow embedding of [backend/chart-engine/utils.py]: the indicator
    library ([calculate_sma] ... [calculate_adx]), the orchestrator
    [add_indicators] with its data-sufficiency gates, and the final
    forward/backward/zero gap filling; and of its two callers, the panel
    layout of [generate_candlestick.py] and the pane layout of
    [generate_indicators.py], as far as they decide which computed
    column is drawn where.

    Numbers.  A float64 cell is modelled by [f64]: an exact rational, a signed
    infinity, or NaN.  Rounding and overflow are not modelled; what is
    modelled is everything the code branches on: NaN as the absent-value
    marker, division by zero, comparisons that are false on NaN.

    Arrays.  An array is the list of its cells; its dtype is carried beside
    it.  pandas reads a price column as int64 when every value of the
    request is a whole JSON number, and as float64 otherwise.  The dtype
    matters where the library allocates a result with [np.zeros_like(close)]:
    that array has the dtype of the close column, and a store into an
    int64 array drops the fractional part of the value and raises on NaN
    and on an infinity ([store]).  Every function that allocates this way
    takes the dtype of the close column as [dt] and is named [..._at]; the
    source name stands for its float64 instance, so [calculate_rsi] is
    [calculate_rsi_at float64].  Wrap-around of int64 beyond 2^63 is, like
    the rounding of float64, not modelled.

    Exceptions.  Code that can raise returns [result]; the constructors of
    [exn] are the Python exception classes the modelled fragment raises.
    The diagnostics printed to stderr are not part of the result and are
    left out. *)

From Stdlib Require Import ZArith QArith Qabs Lia Lqa List Bool Ascii String.
From stdpp Require Import base option list strings pretty.

Local Open Scope string_scope.
Local Open Scope Z_scope.

(* ===================================================================== *)
(** ** Exceptions and the result monad *)
(* ===================================================================== *)

Inductive exn := ValueError | IndexError | KeyError | OverflowError.

Inductive result (A : Type) :=
  | Ok (a : A)
  | Raise (e : exn).
Arguments Ok {A} a.
Arguments Raise {A} e.

Definition bind {A B} (m : result A) (k : A -> result B) : result B :=
  match m with
  | Ok a => k a
  | Raise e => Raise e
  end.

Notation "'let*' x ':=' m 'in' k" := (bind m (fun x => k))
  (at level 10, x pattern, m at level 100, k at level 200).

(** [for i in range(lo, hi): s = body(i, s)], stopping at the first
    exception. *)
Fixpoint for_each {S} (l : list Z) (body : Z -> S -> result S) (s : S) : result S :=
  match l with
  | [] => Ok s
  | i :: l' => let* s' := body i s in for_each l' body s'
  end.

Definition range (lo hi : Z) : list Z :=
  map (fun k => lo + Z.of_nat k) (seq 0 (Z.to_nat (hi - lo))).

Definition for_range {S} (lo hi : Z) (body : Z -> S -> result S) (s : S) : result S :=
  for_each (range lo hi) body s.

(* ===================================================================== *)
(** ** float64 cells *)
(* ===================================================================== *)

Inductive f64 :=
  | Fin (q : Q)
  | Inf (neg : bool)
  | NaN.

Definition Qneg_b (q : Q) : bool := negb (Qle_bool 0 q).
Definition Qzero_b (q : Q) : bool := Qeq_bool q 0.

Definition fneg (a : f64) : f64 :=
  match a with
  | Fin q => Fin (- q)
  | Inf s => Inf (negb s)
  | NaN => NaN
  end.

Definition fadd (a b : f64) : f64 :=
  match a, b with
  | NaN, _ | _, NaN => NaN
  | Fin x, Fin y => Fin (x + y)
  | Inf s, Fin _ | Fin _, Inf s => Inf s
  | Inf s, Inf t => if eqb s t then Inf s else NaN
  end.

Definition fsub (a b : f64) : f64 := fadd a (fneg b).

Definition fmul (a b : f64) : f64 :=
  match a, b with
  | NaN, _ | _, NaN => NaN
  | Fin x, Fin y => Fin (x * y)
  | Inf s, Fin y | Fin y, Inf s =>
      if Qzero_b y then NaN else Inf (xorb s (Qneg_b y))
  | Inf s, Inf t => Inf (xorb s t)
  end.

(** numpy float division: [x / 0] is a signed infinity, [0 / 0] is NaN
    (a RuntimeWarning, no exception). *)
Definition fdiv (a b : f64) : f64 :=
  match a, b with
  | NaN, _ | _, NaN => NaN
  | Fin x, Fin y =>
      if Qzero_b y then (if Qzero_b x then NaN else Inf (Qneg_b x))
      else Fin (x / y)
  | Fin _, Inf _ => Fin 0
  | Inf s, Fin y => Inf (xorb s (Qneg_b y))
  | Inf _, Inf _ => NaN
  end.

Definition fabs (a : f64) : f64 :=
  match a with
  | Fin q => Fin (Qabs q)
  | Inf _ => Inf false
  | NaN => NaN
  end.

(** [a < b]; false as soon as one side is NaN. *)
Definition flt (a b : f64) : bool :=
  match a, b with
  | NaN, _ | _, NaN => false
  | Fin x, Fin y => negb (Qle_bool y x)
  | Fin _, Inf s => negb s
  | Inf s, Fin _ => s
  | Inf s, Inf t => s && negb t
  end.

Definition fgt (a b : f64) : bool := flt b a.

(** [a == b]; false on NaN. *)
Definition feq (a b : f64) : bool :=
  match a, b with
  | Fin x, Fin y => Qeq_bool x y
  | Inf s, Inf t => eqb s t
  | _, _ => false
  end.

Definition fne (a b : f64) : bool := negb (feq a b).

Definition isna (a : f64) : bool :=
  match a with NaN => true | _ => false end.

Definition of_Z (z : Z) : f64 := Fin (inject_Z z).

(** Python's builtin [max(a, b)] and [min(a, b)]: the first argument is kept
    unless the second compares strictly beyond it. *)
Definition py_max (a b : f64) : f64 := if fgt b a then b else a.
Definition py_min (a b : f64) : f64 := if flt b a then b else a.

(** [np.maximum] / [np.minimum]: NaN wins. *)
Definition np_maximum1 (a b : f64) : f64 :=
  if isna a || isna b then NaN else if flt a b then b else a.
Definition np_minimum1 (a b : f64) : f64 :=
  if isna a || isna b then NaN else if flt b a then b else a.

(* ===================================================================== *)
(** ** numpy arrays: indexing, slicing, reductions *)
(* ===================================================================== *)

Abbreviation array := (list f64).

Definition len {A} (a : list A) : Z := Z.of_nat (length a).

(** [a[i]] with Python's negative indices. *)
Definition norm_index (n : Z) (i : Z) : result nat :=
  if (0 <=? i) && (i <? n) then Ok (Z.to_nat i)
  else if (- n <=? i) && (i <? 0) then Ok (Z.to_nat (n + i))
  else Raise IndexError.

Definition getitem (a : array) (i : Z) : result f64 :=
  let* k := norm_index (len a) i in
  match a !! k with
  | Some x => Ok x
  | None => Raise IndexError
  end.

Definition setitem (a : array) (i : Z) (v : f64) : result array :=
  let* k := norm_index (len a) i in
  Ok (<[k := v]> a).

(** The element type of an array.  pandas gives a price column the dtype
    [int64] when every value of the request is a whole JSON number, and
    [float64] otherwise; [np.zeros_like(a)] has the dtype of [a].  The
    cells of an [int64] array are the whole numbers among the [Fin]
    cells. *)
Inductive dtype := float64 | int64.

(** Truncation toward zero, the C conversion of a float to an integer. *)
Definition Qtrunc (q : Q) : Z := Z.quot (Qnum q) (Z.pos (Qden q)).

(** The value an [int64] array keeps of a stored number: the fractional
    part is dropped; NaN has no integer value (ValueError) and neither has
    an infinity (OverflowError). *)
Definition to_int64 (v : f64) : result f64 :=
  match v with
  | Fin q => Ok (of_Z (Qtrunc q))
  | Inf _ => Raise OverflowError
  | NaN => Raise ValueError
  end.

(** [a[i] = v] on an array of dtype [dt]: the index is resolved first,
    then the value is converted to the dtype of the array. *)
Definition store (dt : dtype) (a : array) (i : Z) (v : f64) : result array :=
  match dt with
  | float64 => setitem a i v
  | int64 =>
      let* k := norm_index (len a) i in
      let* c := to_int64 v in
      Ok (<[k := c]> a)
  end.

(** [a[start:stop]]; an omitted bound is passed as [0] or [len a]. *)
Definition clamp (n i : Z) : Z :=
  if i <? 0 then Z.max (i + n) 0 else Z.min i n.

Definition slice {A} (a : list A) (start stop : Z) : list A :=
  let s := clamp (len a) start in
  let e := clamp (len a) stop in
  take (Z.to_nat (e - s)) (drop (Z.to_nat s) a).

(** [np.zeros_like(a)]: the cells; the result has the dtype of [a], which
    the caller passes to every [store] into it. *)
Definition np_zeros_like (a : array) : array := map (fun _ => Fin 0) a.

Definition np_sum (a : array) : f64 := fold_left fadd a (Fin 0).

(** [np.mean] of an empty array is NaN (a warning, no exception). *)
Definition np_mean (a : array) : f64 := fdiv (np_sum a) (of_Z (len a)).

(** [np.max] / [np.min] raise ValueError on an empty array. *)
Definition np_max (a : array) : result f64 :=
  match a with
  | [] => Raise ValueError
  | x :: a' => Ok (fold_left np_maximum1 a' x)
  end.

Definition np_min (a : array) : result f64 :=
  match a with
  | [] => Raise ValueError
  | x :: a' => Ok (fold_left np_minimum1 a' x)
  end.

Fixpoint zip_with_f (op : f64 -> f64 -> f64) (a b : array) : array :=
  match a, b with
  | x :: a', y :: b' => op x y :: zip_with_f op a' b'
  | _, _ => []
  end.

(** Elementwise binary operation with numpy broadcasting of 1-d shapes:
    equal lengths, or one side of length 1; anything else is a ValueError. *)
Definition broadcast (op : f64 -> f64 -> f64) (a b : array) : result array :=
  if (length a =? length b)%nat then Ok (zip_with_f op a b)
  else match a, b with
       | [x], _ => Ok (map (op x) b)
       | _, [y] => Ok (map (fun x => op x y) a)
       | _, _ => Raise ValueError
       end.

Definition np_abs (a : array) : array := map fabs a.

(** [np.diff(a)]: [a[1:] - a[:-1]]. *)
Definition np_diff (a : array) : array :=
  zip_with_f fsub (slice a 1 (len a)) (slice a 0 (-1)).

Definition np_where (c : f64 -> bool) (f : f64 -> f64) (other : f64) (a : array) : array :=
  map (fun x => if c x then f x else other) a.

Definition np_arange (lo hi : Z) : array := map of_Z (range lo hi).

Fixpoint cumsum_from (acc : f64) (a : array) : array :=
  match a with
  | [] => []
  | x :: a' => fadd acc x :: cumsum_from (fadd acc x) a'
  end.

Definition np_cumsum (a : array) : array := cumsum_from (Fin 0) a.

Declare Scope f64_scope.
Delimit Scope f64_scope with f.
Bind Scope f64_scope with f64.
Infix "+" := fadd : f64_scope.
Infix "-" := fsub : f64_scope.
Infix "*" := fmul : f64_scope.
Infix "/" := fdiv : f64_scope.
Notation "- a" := (fneg a) : f64_scope.

(** Scalar on the right of an elementwise operation. *)
Definition scalar (op : f64 -> f64 -> f64) (a : array) (c : f64) : array :=
  map (fun x => op x c) a.

(* ===================================================================== *)
(** ** pandas: rolling windows and exponentially weighted mean *)
(* ===================================================================== *)

(** [pd.Series(a).rolling(window=w).agg()]: a negative window is rejected
    with ValueError; position [i] is NaN until the window is full
    ([min_periods] defaults to the window) and for an empty window. *)
Definition rolling (agg : array -> f64) (a : array) (window : Z) : result array :=
  if window <? 0 then Raise ValueError
  else Ok (map (fun i =>
                  if (window =? 0) || (i + 1 <? window) then NaN
                  else agg (slice a (i + 1 - window) (i + 1)))
               (range 0 (len a))).

(** Square root truncated to 53 fractional bits (the only operation of the
    library without an exact rational value). *)
Definition Qsqrt (q : Q) : Q :=
  Qmake (Z.sqrt (Z.shiftl (Qnum q) 106 / Z.pos (Qden q))) (2 ^ 53)%positive.

Definition fsqrt (a : f64) : f64 :=
  match a with
  | Fin q => if Qneg_b q then NaN else Fin (Qsqrt q)
  | Inf false => Inf false
  | _ => NaN
  end.

(** Sample standard deviation of one window ([ddof=1], pandas' default):
    NaN unless the window holds at least two observations. *)
Definition std_window (w : array) : f64 :=
  if len w <=? 1 then NaN
  else
    let m := np_mean w in
    let sq := map (fun x => ((x - m) * (x - m))%f) w in
    fsqrt (np_sum sq / of_Z (len w - 1))%f.

(** [pd.Series(a).ewm(span=s, adjust=False).mean()].  pandas rejects a span
    below 1.  The carried state is the running mean and the weight of the
    history, which decays across NaN gaps ([ignore_na=False]).  The result
    is a float64 array whatever the dtype of [a].  pandas computes
    [(span - 1) / 2] on the Python integer, which raises OverflowError for
    a span beyond the float range; spans that large are outside the model
    (see [float_span]). *)
Definition alpha (span : Z) : Q := 2 / (inject_Z span + 1).

Fixpoint ewm_from (a : Q) (weighted old_wt : f64) (xs : array) : array :=
  match xs with
  | [] => []
  | cur :: xs' =>
      let '(weighted', old_wt') :=
        if isna weighted then (cur, old_wt)
        else
          let old_wt1 := (old_wt * Fin (1 - a))%f in
          if isna cur then (weighted, old_wt1)
          else (((old_wt1 * weighted + Fin a * cur) / (old_wt1 + Fin a))%f, Fin 1)
      in
      weighted' :: ewm_from a weighted' old_wt' xs'
  end.

Definition ewm_mean (xs : array) (span : Z) : result array :=
  if span <? 1 then Raise ValueError
  else Ok (match xs with
           | [] => []
           | x0 :: xs' => x0 :: ewm_from (alpha span) x0 (Fin 1) xs'
           end).

(* ===================================================================== *)
(** ** The indicator library *)
(* ===================================================================== *)

Definition calculate_sma (prices : array) (period : Z) : result array :=
  rolling np_mean prices period.

Definition calculate_ema (prices : array) (period : Z) : result array :=
  ewm_mean prices period.

Record bollinger := { bb_middle : array; bb_upper : array; bb_lower : array }.

Definition calculate_bollinger_bands (prices : array) (period : Z) (std_dev : f64)
  : result bollinger :=
  let* sma := calculate_sma prices period in
  let* rolling_std := rolling std_window prices period in
  let* upper_band := broadcast fadd sma (scalar fmul rolling_std std_dev) in
  let* lower_band := broadcast fsub sma (scalar fmul rolling_std std_dev) in
  Ok {| bb_middle := sma; bb_upper := upper_band; bb_lower := lower_band |}.

Record macd := { macd_macd : array; macd_signal : array; macd_histogram : array }.

Definition calculate_macd (prices : array) (fast_period slow_period signal_period : Z)
  : result macd :=
  let* fast_ema := calculate_ema prices fast_period in
  let* slow_ema := calculate_ema prices slow_period in
  let* macd_line := broadcast fsub fast_ema slow_ema in
  let* macd_signal := calculate_ema macd_line signal_period in
  let* macd_histogram := broadcast fsub macd_line macd_signal in
  Ok {| macd_macd := macd_line; macd_signal := macd_signal;
        macd_histogram := macd_histogram |}.

(** The two Wilder averages of [calculate_rsi] (lines 40-58). *)
Definition rsi_averages_at (dt : dtype) (prices : array) (period : Z)
  : result (array * array) :=
  let deltas := np_diff prices in
  let deltas := (deltas ++ [Fin 0])%list in
  let gains := np_where (fun d => fgt d (Fin 0)) (fun d => d) (Fin 0) deltas in
  let losses := np_where (fun d => flt d (Fin 0)) fneg (Fin 0) deltas in
  let avg_gains := np_zeros_like prices in
  let avg_losses := np_zeros_like prices in
  let* avg_gains := store dt avg_gains period (np_mean (slice gains 0 period)) in
  let* avg_losses := store dt avg_losses period (np_mean (slice losses 0 period)) in
  for_range (period + 1) (len prices)
    (fun i '(avg_gains, avg_losses) =>
       let* g1 := getitem avg_gains (i - 1) in
       let* g := getitem gains i in
       let* avg_gains := store dt avg_gains i ((g1 * of_Z (period - 1) + g) / of_Z period)%f in
       let* l1 := getitem avg_losses (i - 1) in
       let* l := getitem losses i in
       let* avg_losses := store dt avg_losses i ((l1 * of_Z (period - 1) + l) / of_Z period)%f in
       Ok (avg_gains, avg_losses))
    (avg_gains, avg_losses).

Abbreviation rsi_averages := (rsi_averages_at float64).

Definition calculate_rsi_at (dt : dtype) (prices : array) (period : Z) : result array :=
  let* (avg_gains, avg_losses) := rsi_averages_at dt prices period in
  let rs := np_zeros_like prices in
  let rsi := np_zeros_like prices in
  let* (rs, rsi) :=
    for_range period (len prices)
      (fun i '(rs, rsi) =>
         let* l := getitem avg_losses i in
         if feq l (Fin 0) then
           let* rsi := store dt rsi i (Fin 100) in
           Ok (rs, rsi)
         else
           let* g := getitem avg_gains i in
           let* rs := store dt rs i (g / l)%f in
           let* r := getitem rs i in
           let* rsi := store dt rsi i (Fin 100 - Fin 100 / (Fin 1 + r))%f in
           Ok (rs, rsi))
      (rs, rsi) in
  Ok rsi.

Abbreviation calculate_rsi := (calculate_rsi_at float64).

(** True range of [calculate_atr] (lines 75-81). *)
Definition true_range (high low close : array) : result array :=
  let* high_low := broadcast fsub high low in
  let* hc := broadcast fsub (slice high 1 (len high)) (slice close 0 (-1)) in
  let high_close_prev := Fin 0 :: np_abs hc in
  let* lc := broadcast fsub (slice low 1 (len low)) (slice close 0 (-1)) in
  let low_close_prev := Fin 0 :: np_abs lc in
  let* m := broadcast np_maximum1 high_close_prev low_close_prev in
  broadcast np_maximum1 high_low m.

Definition calculate_atr_at (dt : dtype) (high low close : array) (period : Z)
  : result array :=
  let* tr := true_range high low close in
  let atr := np_zeros_like close in
  let* atr := store dt atr (period - 1) (np_mean (slice tr 0 period)) in
  for_range period (len close)
    (fun i atr =>
       let* a1 := getitem atr (i - 1) in
       let* t := getitem tr i in
       store dt atr i ((a1 * of_Z (period - 1) + t) / of_Z period)%f)
    atr.

Abbreviation calculate_atr := (calculate_atr_at float64).

Record stochastic := { stoch_k : array; stoch_d : array }.

(** Highest high and lowest low of the window that ends at [i]. *)
Definition window_extremes (high low : array) (i period : Z) : result (f64 * f64) :=
  let* highest_high := np_max (slice high (i - (period - 1)) (i + 1)) in
  let* lowest_low := np_min (slice low (i - (period - 1)) (i + 1)) in
  Ok (highest_high, lowest_low).

Definition calculate_stochastic_at (dt : dtype) (high low close : array)
    (k_period d_period slowing : Z)
  : result stochastic :=
  let k_raw := np_zeros_like close in
  let* k_raw :=
    for_range (k_period - 1) (len close)
      (fun i k_raw =>
         let* (highest_high, lowest_low) := window_extremes high low i k_period in
         if fne highest_high lowest_low then
           let* c := getitem close i in
           store dt k_raw i ((c - lowest_low) / (highest_high - lowest_low) * Fin 100)%f
         else store dt k_raw i (Fin 50))
      k_raw in
  let k := np_zeros_like close in
  let* k :=
    if 1 <? slowing then
      for_range (k_period + slowing - 2) (len close)
        (fun i k => store dt k i (np_mean (slice k_raw (i - (slowing - 1)) (i + 1))))
        k
    else Ok k_raw in
  let* d := calculate_sma k d_period in
  Ok {| stoch_k := k; stoch_d := d |}.

Abbreviation calculate_stochastic := (calculate_stochastic_at float64).

Definition calculate_wma_at (dt : dtype) (prices : array) (period : Z) : result array :=
  let wma := np_zeros_like prices in
  let weights := np_arange 1 (period + 1) in
  let sum_weights := np_sum weights in
  for_range (period - 1) (len prices)
    (fun i wma =>
       let* weighted := broadcast fmul (slice prices (i - (period - 1)) (i + 1)) weights in
       store dt wma i (np_sum weighted / sum_weights)%f)
    wma.

Abbreviation calculate_wma := (calculate_wma_at float64).

Definition calculate_vwap_at (dt : dtype) (prices volumes : array) (period : option Z)
  : result array :=
  let vwap := np_zeros_like prices in
  let* price_volume := broadcast fmul prices volumes in
  match period with
  | None =>
      let cumulative_pv := np_cumsum price_volume in
      let cumulative_volume := np_cumsum volumes in
      let volume_nonzero :=
        np_where (fun v => fgt v (Fin 0)) (fun v => v) (Fin 1) cumulative_volume in
      broadcast fdiv cumulative_pv volume_nonzero
  | Some period =>
      for_range (period - 1) (len prices)
        (fun i vwap =>
           let window_volume := np_sum (slice volumes (i - (period - 1)) (i + 1)) in
           if fgt window_volume (Fin 0) then
             store dt vwap i
               (np_sum (slice price_volume (i - (period - 1)) (i + 1)) / window_volume)%f
           else
             let* p := getitem prices i in
             store dt vwap i p)
        vwap
  end.

Abbreviation calculate_vwap := (calculate_vwap_at float64).

(** State carried by the loop of [calculate_parabolic_sar]. *)
Record sar_state := {
  sar : array;
  trend : Z;
  extreme_point : f64;
  af : f64
}.

Definition calculate_parabolic_sar_at (dt : dtype) (high low close : array)
    (af_start af_increment af_max : f64) : result array :=
  let sar0 := np_zeros_like close in
  if len close <? 2 then Ok sar0
  else
    let* h0 := getitem high 0 in
    let* l0 := getitem low 0 in
    let* sar0 := store dt sar0 0 l0 in
    let* st :=
      for_range 1 (len close)
        (fun i st =>
           let* prev := getitem (sar st) (i - 1) in
           let* s := store dt (sar st) i (prev + af st * (extreme_point st - prev))%f in
           let* v := getitem s i in
           if trend st =? 1 then
             let* l1 := getitem low (i - 1) in
             let* s :=
               if 2 <=? i then
                 let* l2 := getitem low (i - 2) in store dt s i (py_min v (py_min l1 l2))
               else store dt s i (py_min v l1) in
             let* lo := getitem low i in
             let* v := getitem s i in
             if flt lo v then
               let* s := store dt s i (extreme_point st) in
               Ok {| sar := s; trend := -1; extreme_point := lo; af := af_start |}
             else
               let* hi := getitem high i in
               if fgt hi (extreme_point st) then
                 Ok {| sar := s; trend := trend st; extreme_point := hi;
                       af := py_min (af st + af_increment)%f af_max |}
               else
                 Ok {| sar := s; trend := trend st;
                       extreme_point := extreme_point st; af := af st |}
           else
             let* h1 := getitem high (i - 1) in
             let* s :=
               if 2 <=? i then
                 let* h2 := getitem high (i - 2) in store dt s i (py_max v (py_max h1 h2))
               else store dt s i (py_max v h1) in
             let* hi := getitem high i in
             let* v := getitem s i in
             if fgt hi v then
               let* s := store dt s i (extreme_point st) in
               Ok {| sar := s; trend := 1; extreme_point := hi; af := af_start |}
             else
               let* lo := getitem low i in
               if flt lo (extreme_point st) then
                 Ok {| sar := s; trend := trend st; extreme_point := lo;
                       af := py_min (af st + af_increment)%f af_max |}
               else
                 Ok {| sar := s; trend := trend st;
                       extreme_point := extreme_point st; af := af st |})
        {| sar := sar0; trend := 1; extreme_point := h0; af := af_start |} in
    Ok (sar st).

Abbreviation calculate_parabolic_sar := (calculate_parabolic_sar_at float64).

Definition calculate_williams_r_at (dt : dtype) (high low close : array) (period : Z)
  : result array :=
  let williams_r := np_zeros_like close in
  for_range (period - 1) (len close)
    (fun i williams_r =>
       let* (highest_high, lowest_low) := window_extremes high low i period in
       if fne highest_high lowest_low then
         let* c := getitem close i in
         store dt williams_r i
           ((highest_high - c) / (highest_high - lowest_low) * Fin (-100))%f
       else store dt williams_r i (Fin (-50)))
    williams_r.

Abbreviation calculate_williams_r := (calculate_williams_r_at float64).

(** [(high + low + close) / 3]. *)
Definition typical_price (high low close : array) : result array :=
  let* hl := broadcast fadd high low in
  let* hlc := broadcast fadd hl close in
  Ok (scalar fdiv hlc (Fin 3)).

Definition calculate_cci_at (dt : dtype) (high low close : array) (period : Z)
  : result array :=
  let* typical_price := typical_price high low close in
  let tp_sma := np_zeros_like close in
  let cci := np_zeros_like close in
  let* tp_sma :=
    for_range (period - 1) (len close)
      (fun i tp_sma =>
         store dt tp_sma i (np_mean (slice typical_price (i - (period - 1)) (i + 1))))
      tp_sma in
  for_range (period - 1) (len close)
    (fun i cci =>
       let* m := getitem tp_sma i in
       let mean_dev :=
         np_mean (np_abs (scalar fsub (slice typical_price (i - (period - 1)) (i + 1)) m)) in
       if feq mean_dev (Fin 0) then store dt cci i (Fin 0)
       else
         let* tp := getitem typical_price i in
         store dt cci i ((tp - m) / (Fin (15 # 1000) * mean_dev))%f)
    cci.

Abbreviation calculate_cci := (calculate_cci_at float64).

(** [price_shift = zeros; price_shift[1:] = typical_price[:-1]]. *)
Definition shifted (a : array) : array :=
  match a with
  | [] => []
  | _ :: _ => Fin 0 :: slice a 0 (-1)
  end.

Definition calculate_mfi_at (dt : dtype) (high low close volume : array) (period : Z)
  : result array :=
  let* typical_price := typical_price high low close in
  let* money_flow := broadcast fmul typical_price volume in
  let price_shift := shifted typical_price in
  let positive_flow := np_zeros_like money_flow in
  let negative_flow := np_zeros_like money_flow in
  let* (positive_flow, negative_flow) :=
    for_range 1 (len close)
      (fun i '(positive_flow, negative_flow) =>
         let* tp := getitem typical_price i in
         let* ps := getitem price_shift i in
         if fgt tp ps then
           let* mf := getitem money_flow i in
           let* positive_flow := setitem positive_flow i mf in
           Ok (positive_flow, negative_flow)
         else if flt tp ps then
           let* mf := getitem money_flow i in
           let* negative_flow := setitem negative_flow i mf in
           Ok (positive_flow, negative_flow)
         else Ok (positive_flow, negative_flow))
      (positive_flow, negative_flow) in
  let mfi := np_zeros_like close in
  for_range period (len close)
    (fun i mfi =>
       let positive_sum := np_sum (slice positive_flow (i - (period - 1)) (i + 1)) in
       let negative_sum := np_sum (slice negative_flow (i - (period - 1)) (i + 1)) in
       if feq negative_sum (Fin 0) then store dt mfi i (Fin 100)
       else
         let money_ratio := (positive_sum / negative_sum)%f in
         store dt mfi i (Fin 100 - Fin 100 / (Fin 1 + money_ratio))%f)
    mfi.

Abbreviation calculate_mfi := (calculate_mfi_at float64).

Definition calculate_obv_at (dt : dtype) (close volume : array) : result array :=
  let obv := np_zeros_like close in
  for_range 1 (len close)
    (fun i obv =>
       let* c := getitem close i in
       let* c1 := getitem close (i - 1) in
       let* o1 := getitem obv (i - 1) in
       if fgt c c1 then
         let* v := getitem volume i in store dt obv i (o1 + v)%f
       else if flt c c1 then
         let* v := getitem volume i in store dt obv i (o1 - v)%f
       else store dt obv i o1)
    obv.

Abbreviation calculate_obv := (calculate_obv_at float64).

Record adx := { adx_adx : array; adx_plus_di : array; adx_minus_di : array }.

(** Per-bar true range and directional movements (lines 316-341). *)
Definition directional_movement_at (dt : dtype) (high low close : array)
  : result (array * array * array) :=
  let tr := np_zeros_like close in
  let plus_dm := np_zeros_like close in
  let minus_dm := np_zeros_like close in
  for_range 1 (len close)
    (fun i '(tr, plus_dm, minus_dm) =>
       let* h := getitem high i in
       let* h1 := getitem high (i - 1) in
       let high_diff := (h - h1)%f in
       let* l1 := getitem low (i - 1) in
       let* l := getitem low i in
       let low_diff := (l1 - l)%f in
       let* plus_dm :=
         store dt plus_dm i
           (if fgt high_diff low_diff && fgt high_diff (Fin 0) then high_diff else Fin 0) in
       let* minus_dm :=
         store dt minus_dm i
           (if fgt low_diff high_diff && fgt low_diff (Fin 0) then low_diff else Fin 0) in
       let* c1 := getitem close (i - 1) in
       let* tr :=
         store dt tr i (py_max (py_max (h - l) (fabs (h - c1))) (fabs (l - c1)))%f in
       Ok (tr, plus_dm, minus_dm))
    (tr, plus_dm, minus_dm).

Abbreviation directional_movement := (directional_movement_at float64).

(** Wilder running sum of one series (lines 344-357); the source smooths
    its three series in one loop, each with this recurrence. *)
Definition wilder_sum_at (dt : dtype) (x close : array) (period : Z) : result array :=
  let smoothed := np_zeros_like close in
  let* smoothed := store dt smoothed period (np_sum (slice x 1 (period + 1))) in
  for_range (period + 1) (len close)
    (fun i smoothed =>
       let* s1 := getitem smoothed (i - 1) in
       let* xi := getitem x i in
       store dt smoothed i (s1 - s1 / of_Z period + xi)%f)
    smoothed.

Abbreviation wilder_sum := (wilder_sum_at float64).

Definition calculate_adx_at (dt : dtype) (high low close : array) (period : Z)
  : result adx :=
  let* (tr, plus_dm, minus_dm) := directional_movement_at dt high low close in
  let* smoothed_tr := wilder_sum_at dt tr close period in
  let* smoothed_plus_dm := wilder_sum_at dt plus_dm close period in
  let* smoothed_minus_dm := wilder_sum_at dt minus_dm close period in
  let plus_di := np_zeros_like close in
  let minus_di := np_zeros_like close in
  let* (plus_di, minus_di) :=
    for_range period (len close)
      (fun i '(plus_di, minus_di) =>
         let* st := getitem smoothed_tr i in
         if feq st (Fin 0) then
           let* plus_di := store dt plus_di i (Fin 0) in
           let* minus_di := store dt minus_di i (Fin 0) in
           Ok (plus_di, minus_di)
         else
           let* sp := getitem smoothed_plus_dm i in
           let* plus_di := store dt plus_di i (Fin 100 * sp / st)%f in
           let* sm := getitem smoothed_minus_dm i in
           let* minus_di := store dt minus_di i (Fin 100 * sm / st)%f in
           Ok (plus_di, minus_di))
      (plus_di, minus_di) in
  let dx := np_zeros_like close in
  let* dx :=
    for_range period (len close)
      (fun i dx =>
         let* p := getitem plus_di i in
         let* m := getitem minus_di i in
         if feq (p + m)%f (Fin 0) then store dt dx i (Fin 0)
         else store dt dx i (Fin 100 * fabs (p - m) / (p + m))%f)
      dx in
  let adx := np_zeros_like close in
  let* adx :=
    if 2 * period <=? len close then
      let* adx := store dt adx (2 * period - 1) (np_mean (slice dx period (2 * period))) in
      for_range (2 * period) (len close)
        (fun i adx =>
           let* a1 := getitem adx (i - 1) in
           let* d := getitem dx i in
           store dt adx i ((of_Z (period - 1) * a1 + d) / of_Z period)%f)
        adx
    else Ok adx in
  Ok {| adx_adx := adx; adx_plus_di := plus_di; adx_minus_di := minus_di |}.

Abbreviation calculate_adx := (calculate_adx_at float64).

(* ===================================================================== *)
(** ** Data frames and indicator requests *)
(* ===================================================================== *)

(** A data frame: its number of rows and its columns in insertion order.
    Every array the orchestrator assigns has the length of the column it
    was computed from. *)
Record DataFrame := {
  rows : nat;
  columns : list (string * array)
}.

Definition df_len (df : DataFrame) : Z := Z.of_nat (rows df).

Fixpoint lookup_col (name : string) (cols : list (string * array)) : option array :=
  match cols with
  | [] => None
  | (n, a) :: cols' => if String.eqb n name then Some a else lookup_col name cols'
  end.

(** [df[name].values]: KeyError when the column is missing. *)
Definition df_get (df : DataFrame) (name : string) : result array :=
  match lookup_col name (columns df) with
  | Some a => Ok a
  | None => Raise KeyError
  end.

Fixpoint assign_col (name : string) (a : array) (cols : list (string * array))
  : list (string * array) :=
  match cols with
  | [] => [(name, a)]
  | (n, b) :: cols' =>
      if String.eqb n name then (n, a) :: cols'
      else (n, b) :: assign_col name a cols'
  end.

(** [df[name] = a]: overwrites the column of that name in place, or appends
    a new column. *)
Definition df_set (df : DataFrame) (name : string) (a : array) : DataFrame :=
  {| rows := rows df; columns := assign_col name a (columns df) |}.

(** The [params] mapping of a request, restricted to the keys
    [add_indicators] reads: integer periods, float factors.  A missing key
    is [None]. *)
Record Params := {
  period : option Z;
  stdDev : option Q;
  fastPeriod : option Z;
  slowPeriod : option Z;
  signalPeriod : option Z;
  kPeriod : option Z;
  dPeriod : option Z;
  slowing : option Z;
  afStart : option Q;
  afIncrement : option Q;
  afMax : option Q
}.

Definition no_params : Params :=
  {| period := None; stdDev := None; fastPeriod := None; slowPeriod := None;
     signalPeriod := None; kPeriod := None; dPeriod := None; slowing := None;
     afStart := None; afIncrement := None; afMax := None |}.

Definition with_period (p : Z) : Params :=
  {| period := Some p; stdDev := None; fastPeriod := None; slowPeriod := None;
     signalPeriod := None; kPeriod := None; dPeriod := None; slowing := None;
     afStart := None; afIncrement := None; afMax := None |}.

(** One request: [indicator.get('type', '')] and [indicator.get('params', {})]. *)
Record indicator := {
  ind_type : string;
  ind_params : Params
}.

Definition lower_ascii (c : ascii) : ascii :=
  let n := nat_of_ascii c in
  if (65 <=? n)%nat && (n <=? 90)%nat then ascii_of_nat (n + 32) else c.

Fixpoint lower (s : string) : string :=
  match s with
  | EmptyString => EmptyString
  | String c s' => String (lower_ascii c) (lower s')
  end.

Definition is_in (t : string) (names : list string) : bool :=
  existsb (String.eqb t) names.

Definition fmt (prefix : string) (n : Z) : string := prefix +:+ pretty n.

(* ===================================================================== *)
(** ** The orchestrator *)
(* ===================================================================== *)

(** One iteration of the loop of [add_indicators] (lines 408-622). *)
Definition add_indicator_at (dt : dtype) (result_df : DataFrame) (indicator : indicator)
  : result DataFrame :=
  let indicator_type := lower (ind_type indicator) in
  let params := ind_params indicator in
  if is_in indicator_type ["sma"; "ma"] then
    let period := default 20 (period params) in
    if period <=? df_len result_df then
      let* close := df_get result_df "close" in
      let* sma := calculate_sma close period in
      Ok (df_set result_df (fmt "sma_" period) sma)
    else Ok result_df
  else if is_in indicator_type ["ema"] then
    let period := default 20 (period params) in
    if period <=? df_len result_df then
      let* close := df_get result_df "close" in
      let* ema := calculate_ema close period in
      Ok (df_set result_df (fmt "ema_" period) ema)
    else Ok result_df
  else if is_in indicator_type ["bb"; "bollingerbands"] then
    let period := default 20 (period params) in
    let std_dev := Fin (default 2%Q (stdDev params)) in
    if period <=? df_len result_df then
      let* close := df_get result_df "close" in
      let* bb := calculate_bollinger_bands close period std_dev in
      let result_df := df_set result_df (fmt "bb_middle_" period) (bb_middle bb) in
      let result_df := df_set result_df (fmt "bb_upper_" period) (bb_upper bb) in
      Ok (df_set result_df (fmt "bb_lower_" period) (bb_lower bb))
    else Ok result_df
  else if is_in indicator_type ["macd"] then
    let fast_period := default 12 (fastPeriod params) in
    let slow_period := default 26 (slowPeriod params) in
    let signal_period := default 9 (signalPeriod params) in
    if slow_period + signal_period <=? df_len result_df then
      let* close := df_get result_df "close" in
      let* macd := calculate_macd close fast_period slow_period signal_period in
      let result_df := df_set result_df "macd_line" (macd_macd macd) in
      let result_df := df_set result_df "macd_signal" (macd_signal macd) in
      Ok (df_set result_df "macd_histogram" (macd_histogram macd))
    else Ok result_df
  else if is_in indicator_type ["rsi"] then
    let period := default 14 (period params) in
    if period + 1 <=? df_len result_df then
      let* close := df_get result_df "close" in
      let* rsi := calculate_rsi_at dt close period in
      Ok (df_set result_df "rsi" rsi)
    else Ok result_df
  else if is_in indicator_type ["atr"] then
    let period := default 14 (period params) in
    if period + 1 <=? df_len result_df then
      let* high := df_get result_df "high" in
      let* low := df_get result_df "low" in
      let* close := df_get result_df "close" in
      let* atr := calculate_atr_at dt high low close period in
      Ok (df_set result_df "atr" atr)
    else Ok result_df
  else if is_in indicator_type ["stochastic"; "stoch"; "stochasticoscillator"] then
    let k_period := default 14 (kPeriod params) in
    let d_period := default 3 (dPeriod params) in
    let slowing := default 1 (slowing params) in
    if k_period + d_period <=? df_len result_df then
      let* high := df_get result_df "high" in
      let* low := df_get result_df "low" in
      let* close := df_get result_df "close" in
      let* stoch := calculate_stochastic_at dt high low close k_period d_period slowing in
      let result_df := df_set result_df "stoch_k" (stoch_k stoch) in
      Ok (df_set result_df "stoch_d" (stoch_d stoch))
    else Ok result_df
  else if is_in indicator_type ["wma"] then
    let period := default 20 (period params) in
    if period <=? df_len result_df then
      let* close := df_get result_df "close" in
      let* wma := calculate_wma_at dt close period in
      Ok (df_set result_df (fmt "wma_" period) wma)
    else Ok result_df
  else if is_in indicator_type ["vwap"] then
    let period := period params in
    if 0 <? df_len result_df then
      let* close := df_get result_df "close" in
      let* volume := df_get result_df "volume" in
      let* vwap := calculate_vwap_at dt close volume period in
      Ok (df_set result_df "vwap" vwap)
    else Ok result_df
  else if is_in indicator_type ["psar"; "parabolicsar"] then
    let af_start := Fin (default (2 # 100) (afStart params)) in
    let af_increment := Fin (default (2 # 100) (afIncrement params)) in
    let af_max := Fin (default (2 # 10) (afMax params)) in
    if 2 <=? df_len result_df then
      let* high := df_get result_df "high" in
      let* low := df_get result_df "low" in
      let* close := df_get result_df "close" in
      let* psar := calculate_parabolic_sar_at dt high low close af_start af_increment af_max in
      Ok (df_set result_df "psar" psar)
    else Ok result_df
  else if is_in indicator_type ["williamsr"; "williams%r"; "percentr"] then
    let period := default 14 (period params) in
    if period <=? df_len result_df then
      let* high := df_get result_df "high" in
      let* low := df_get result_df "low" in
      let* close := df_get result_df "close" in
      let* williams_r := calculate_williams_r_at dt high low close period in
      Ok (df_set result_df "williams_r" williams_r)
    else Ok result_df
  else if is_in indicator_type ["cci"] then
    let period := default 20 (period params) in
    if period <=? df_len result_df then
      let* high := df_get result_df "high" in
      let* low := df_get result_df "low" in
      let* close := df_get result_df "close" in
      let* cci := calculate_cci_at dt high low close period in
      Ok (df_set result_df "cci" cci)
    else Ok result_df
  else if is_in indicator_type ["mfi"] then
    let period := default 14 (period params) in
    if period + 1 <=? df_len result_df then
      let* high := df_get result_df "high" in
      let* low := df_get result_df "low" in
      let* close := df_get result_df "close" in
      let* volume := df_get result_df "volume" in
      let* mfi := calculate_mfi_at dt high low close volume period in
      Ok (df_set result_df "mfi" mfi)
    else Ok result_df
  else if is_in indicator_type ["obv"] then
    if 2 <=? df_len result_df then
      let* close := df_get result_df "close" in
      let* volume := df_get result_df "volume" in
      let* obv := calculate_obv_at dt close volume in
      Ok (df_set result_df "obv" obv)
    else Ok result_df
  else if is_in indicator_type ["adx"] then
    let period := default 14 (period params) in
    if 2 * period <=? df_len result_df then
      let* high := df_get result_df "high" in
      let* low := df_get result_df "low" in
      let* close := df_get result_df "close" in
      let* adx_result := calculate_adx_at dt high low close period in
      let result_df := df_set result_df "adx" (adx_adx adx_result) in
      let result_df := df_set result_df "plus_di" (adx_plus_di adx_result) in
      Ok (df_set result_df "minus_di" (adx_minus_di adx_result))
    else Ok result_df
  else Ok result_df.

Abbreviation add_indicator := (add_indicator_at float64).

(** The loop over the requests, in list order. *)
Fixpoint process_indicators_at (dt : dtype) (result_df : DataFrame)
    (indicators : list indicator) : result DataFrame :=
  match indicators with
  | [] => Ok result_df
  | indicator :: rest =>
      let* result_df := add_indicator_at dt result_df indicator in
      process_indicators_at dt result_df rest
  end.

Abbreviation process_indicators := (process_indicators_at float64).

(* ===================================================================== *)
(** ** Gap filling *)
(* ===================================================================== *)

(** [ffill]: a NaN takes the last valid value before it, if any. *)
Fixpoint ffill_from (last : f64) (a : array) : array :=
  match a with
  | [] => []
  | x :: a' =>
      let v := if isna x then last else x in
      v :: ffill_from v a'
  end.

Definition ffill (a : array) : array := ffill_from NaN a.

(** [bfill]: a NaN takes the next valid value after it, if any. *)
Fixpoint bfill (a : array) : array :=
  match a with
  | [] => []
  | x :: a' =>
      let r := bfill a' in
      (if isna x then hd NaN r else x) :: r
  end.

Definition fillna (v : f64) (a : array) : array :=
  map (fun x => if isna x then v else x) a.

Definition df_map (f : array -> array) (df : DataFrame) : DataFrame :=
  {| rows := rows df;
     columns := map (fun c => (fst c, f (snd c))) (columns df) |}.

Definition has_nan (a : array) : bool := existsb isna a.

(** Lines 624-638: forward fill, backward fill, then zeros where a column
    still holds NaN. *)
Definition fill_gaps (result_df : DataFrame) : DataFrame :=
  let result_df := df_map bfill (df_map ffill result_df) in
  let nan_columns := filter (fun c => has_nan (snd c)) (columns result_df) in
  match nan_columns with
  | [] => result_df
  | _ :: _ => df_map (fillna (Fin 0)) result_df
  end.

Definition add_indicators_at (dt : dtype) (df : DataFrame) (indicators : list indicator)
  : result DataFrame :=
  let* result_df := process_indicators_at dt df indicators in
  Ok (fill_gaps result_df).

Abbreviation add_indicators := (add_indicators_at float64).

(* ===================================================================== *)
(** ** Vocabulary of the statements *)
(* ===================================================================== *)

(** A frame without any NaN cell. *)
Definition clean (df : DataFrame) : Prop :=
  Forall (fun c => has_nan (snd c) = false) (columns df).

(** The catalogue of indicator kinds and the type strings that select them
    (case-insensitive), as the dispatch of [add_indicators] lists them. *)
Inductive kind :=
  | SMA | EMA | BB | MACD | RSI | ATR | STOCH | WMA | VWAP | PSAR | WILLR
  | CCI | MFI | OBV | ADX.

Definition kind_of (type : string) : option kind :=
  let t := lower type in
  if is_in t ["sma"; "ma"] then Some SMA
  else if is_in t ["ema"] then Some EMA
  else if is_in t ["bb"; "bollingerbands"] then Some BB
  else if is_in t ["macd"] then Some MACD
  else if is_in t ["rsi"] then Some RSI
  else if is_in t ["atr"] then Some ATR
  else if is_in t ["stochastic"; "stoch"; "stochasticoscillator"] then Some STOCH
  else if is_in t ["wma"] then Some WMA
  else if is_in t ["vwap"] then Some VWAP
  else if is_in t ["psar"; "parabolicsar"] then Some PSAR
  else if is_in t ["williamsr"; "williams%r"; "percentr"] then Some WILLR
  else if is_in t ["cci"] then Some CCI
  else if is_in t ["mfi"] then Some MFI
  else if is_in t ["obv"] then Some OBV
  else if is_in t ["adx"] then Some ADX
  else None.

(** The minimum series length of a request, in the words of the
    sufficiency gate of the specification: SMA/EMA/WMA/BB/CCI/Williams %R
    need [period] bars; RSI/ATR/MFI need [period + 1]; MACD needs
    [slow + signal]; Stochastic needs [kPeriod + dPeriod]; ADX needs
    [2 * period]; Parabolic SAR and OBV need 2; VWAP needs 1.  Missing
    parameters take the defaults of the request parser. *)
Definition minimum_length (ind : indicator) : option Z :=
  let params := ind_params ind in
  match kind_of (ind_type ind) with
  | Some (SMA | EMA | BB | WMA | CCI) => Some (default 20 (period params))
  | Some WILLR => Some (default 14 (period params))
  | Some (RSI | ATR | MFI) => Some (default 14 (period params) + 1)
  | Some MACD =>
      Some (default 26 (slowPeriod params) + default 9 (signalPeriod params))
  | Some STOCH => Some (default 14 (kPeriod params) + default 3 (dPeriod params))
  | Some ADX => Some (2 * default 14 (period params))
  | Some (PSAR | OBV) => Some 2
  | Some VWAP => Some 1
  | None => None
  end.

Definition request (type : string) (p : Z) : indicator :=
  {| ind_type := type; ind_params := with_period p |}.

(** An OHLCV frame built from integer closes: each bar opens at its close,
    ranges one unit above and below it, and trades 1000 units. *)
Definition bars (closes : list Z) : DataFrame :=
  {| rows := length closes;
     columns := [("open", map of_Z closes);
                 ("high", map (fun c => of_Z (c + 1)) closes);
                 ("low", map (fun c => of_Z (c - 1)) closes);
                 ("close", map of_Z closes);
                 ("volume", map (fun _ => of_Z 1000) closes)] |}.

Definition column_names (df : DataFrame) : list string := map fst (columns df).

(** Sample frames used by the closed examples. *)
Definition bars3 : DataFrame := bars [1; 2; 3].
Definition bars5 : DataFrame := bars [10; 11; 12; 11; 13].
Definition bars25 : DataFrame :=
  bars [10; 11; 12; 11; 13; 14; 13; 15; 16; 15; 17; 18; 17; 19; 20; 19; 21;
        22; 21; 23; 24; 23; 25; 26; 25].

(** Exact sum and arithmetic mean of rationals, summed left to right from 0
    as [np.sum] does. *)
Definition Qsum (l : list Q) : Q := fold_left Qplus l 0%Q.
Definition Qmean (l : list Q) : Q := (Qsum l / inject_Z (len l))%Q.

(** An array of finite numbers. *)
Definition fin (l : list Q) : array := map Fin l.

(** The [period] values that end at index [i]: [l[i+1-period : i+1]]. *)
Definition trailing {A} (l : list A) (i period : Z) : list A :=
  slice l (i + 1 - period) (i + 1).

Definition count_nan (a : array) : nat := length (List.filter isna a).

(** The cells below index [lo] of an array of length [n] all hold the
    number 0. *)
Definition zero_below (lo : Z) (n : nat) (a : array) : Prop :=
  length a = n /\ forall k, Z.of_nat k < lo -> (k < n)%nat -> a !! k = Some (Fin 0).

(** Maximum and minimum of a window of rationals, folded from the first
    element as [np.max] and [np.min] do. *)
Definition Qmax2 (a b : Q) : Q := if negb (Qle_bool b a) then b else a.
Definition Qmin2 (a b : Q) : Q := if negb (Qle_bool a b) then b else a.

Definition Qmaximum (w : list Q) : Q :=
  match w with [] => 0%Q | x :: w' => fold_left Qmax2 w' x end.
Definition Qminimum (w : list Q) : Q :=
  match w with [] => 0%Q | x :: w' => fold_left Qmin2 w' x end.

(** A finite, non-negative cell. *)
Definition nonneg (x : f64) : Prop := exists q, x = Fin q /\ (0 <= q)%Q.

(** A cell that is a finite number or NaN. *)
Definition no_inf (x : f64) : Prop :=
  match x with Inf _ => False | _ => True end.

(** Gains and losses of [calculate_rsi] (lines 40-45). *)
Definition rsi_gains (prices : array) : array :=
  np_where (fun d => fgt d (Fin 0)) (fun d => d) (Fin 0) (np_diff prices ++ [Fin 0])%list.
Definition rsi_losses (prices : array) : array :=
  np_where (fun d => flt d (Fin 0)) fneg (Fin 0) (np_diff prices ++ [Fin 0])%list.

(** Wilder's recurrence [(prev * (period - 1) + x) / period]. *)
Definition wilder (prev x : f64) (period : Z) : f64 :=
  ((prev * of_Z (period - 1) + x) / of_Z period)%f.

(** The RSI value written for the averages [g] and [l] (lines 65-69). *)
Definition rsi_cell (g l : f64) : f64 :=
  if feq l (Fin 0) then Fin 100
  else (Fin 100 - Fin 100 / (Fin 1 + g / l))%f.

(** Elementwise product of two rational series. *)
Fixpoint Qproducts (a b : list Q) : list Q :=
  match a, b with
  | x :: a', y :: b' => (x * y)%Q :: Qproducts a' b'
  | _, _ => []
  end.

(** Sum of the first [k + 1] values, from 0. *)
Definition Qprefix_sum (l : list Q) (k : nat) : Q := Qsum (take (S k) l).

(** The exponentially weighted mean on finite input, as the recurrence the
    pandas loop computes for [adjust=False] when no value is missing. *)
Definition ema_step (a w x : Q) : Q :=
  ((1 * (1 - a) * w + a * x) / (1 * (1 - a) + a))%Q.

Fixpoint ema_from (a w : Q) (xs : list Q) : list Q :=
  match xs with
  | [] => []
  | x :: xs' => ema_step a w x :: ema_from a (ema_step a w x) xs'
  end.

Definition ema_q (a : Q) (xs : list Q) : list Q :=
  match xs with
  | [] => []
  | x0 :: xs' => x0 :: ema_from a x0 xs'
  end.

(** Elementwise difference of two rational series. *)
Fixpoint Qdiffs (a b : list Q) : list Q :=
  match a, b with
  | x :: a', y :: b' => (x + - y)%Q :: Qdiffs a' b'
  | _, _ => []
  end.

(** The MACD line of finite closes for the default periods 12 and 26. *)
Definition macd_line_q (closes : list Q) : list Q :=
  Qdiffs (ema_q (alpha 12) closes) (ema_q (alpha 26) closes).

(** A strictly increasing series, and a series that rises by the constant
    step [d]. *)
Fixpoint increasing (l : list Q) : Prop :=
  match l with
  | x :: l' =>
      match l' with
      | y :: _ => (x < y)%Q /\ increasing l'
      | [] => True
      end
  | [] => True
  end.

Fixpoint steps_by (d : Q) (l : list Q) : Prop :=
  match l with
  | x :: l' =>
      match l' with
      | y :: _ => (y == x + d)%Q /\ steps_by d l'
      | [] => True
      end
  | [] => True
  end.

(** Forty strictly increasing closes: a jump of 1001 after the first bar,
    then steps of 1. *)
Definition jump40 : list Q :=
  0%Q :: map (fun t => inject_Z (1000 + Z.of_nat t)) (seq 1 39).

(** Forty closes rising by 1 from 100. *)
Definition ramp40 : list Q := map (fun t => inject_Z (100 + Z.of_nat t)) (seq 0 40).

(** The column names a request of a given kind writes when it passes its
    gate: the moving averages and the Bollinger bands append the period,
    every other kind uses fixed names. *)
Definition output_names (k : kind) (params : Params) : list string :=
  match k with
  | SMA => [fmt "sma_" (default 20 (period params))]
  | EMA => [fmt "ema_" (default 20 (period params))]
  | WMA => [fmt "wma_" (default 20 (period params))]
  | BB =>
      let p := default 20 (period params) in
      [fmt "bb_middle_" p; fmt "bb_upper_" p; fmt "bb_lower_" p]
  | MACD => ["macd_line"; "macd_signal"; "macd_histogram"]
  | RSI => ["rsi"]
  | ATR => ["atr"]
  | STOCH => ["stoch_k"; "stoch_d"]
  | VWAP => ["vwap"]
  | PSAR => ["psar"]
  | WILLR => ["williams_r"]
  | CCI => ["cci"]
  | MFI => ["mfi"]
  | OBV => ["obv"]
  | ADX => ["adx"; "plus_di"; "minus_di"]
  end.

Definition period_qualified (k : kind) : bool :=
  match k with SMA | EMA | WMA | BB => true | _ => false end.

(** The last valid value at or before index [k], NaN when there is none. *)
Fixpoint last_valid (a : array) (k : nat) : f64 :=
  let x := default NaN (a !! k) in
  if isna x then
    match k with
    | O => NaN
    | S k' => last_valid a k'
    end
  else x.

(** The first valid value of an array, NaN when there is none. *)
Fixpoint first_valid (a : array) : f64 :=
  match a with
  | [] => NaN
  | x :: a' => if isna x then first_valid a' else x
  end.

(** What the three passes do to one column. *)
Definition fill_column (a : array) : array := fillna (Fin 0) (bfill (ffill a)).

(** The OHLCV columns of the input. *)
Definition price_columns : list string := ["open"; "high"; "low"; "close"; "volume"].

(** Every value of a rational series lies in [[lo, hi]]. *)
Definition within (lo hi : Q) (l : list Q) : Prop :=
  Forall (fun x => (lo <= x <= hi)%Q) l.

(** A cell that holds a finite number of [[lo, hi]]. *)
Definition cell_within (lo hi : Q) (x : f64) : Prop :=
  exists q, x = Fin q /\ (lo <= q <= hi)%Q.

(** The raw %K and the %R written for a window with highest high [h],
    lowest low [l] and close [c]. *)
Definition stoch_q (h l c : Q) : Q :=
  if Qeq_bool h l then 50 else ((c - l) / (h - l) * 100)%Q.
Definition williams_q (h l c : Q) : Q :=
  if Qeq_bool h l then (-50)%Q else ((h - c) / (h - l) * -100)%Q.

(** Bars whose close lies between their low and their high. *)
Definition bars_ordered (high low close : list Q) : Prop :=
  forall k h l c,
    high !! k = Some h -> low !! k = Some l -> close !! k = Some c ->
    (l <= c <= h)%Q.

(** A cell that holds a number (neither NaN nor an infinity). *)
Definition finite (x : f64) : Prop := exists q, x = Fin q.

(** Volume traded on bars [1 .. k]. *)
Definition volume_since_first (volume : list Q) (k : nat) : Q :=
  Qsum (slice volume 1 (Z.of_nat k + 1)).

(** A series that never falls. *)
Fixpoint nondecreasing (l : list Q) : Prop :=
  match l with
  | x :: l' =>
      match l' with
      | y :: _ => (x <= y)%Q /\ nondecreasing l'
      | [] => True
      end
  | [] => True
  end.

(** A cell that holds a number equal to 0. *)
Definition is_zero (x : f64) : Prop := exists q, x = Fin q /\ (q == 0)%Q.

(** A frame whose five price columns are present with one cell per row. *)
Definition ohlcv (df : DataFrame) : Prop :=
  forall name, In name price_columns ->
    exists c, df_get df name = Ok c /\ length c = rows df.

(** A parameter that is absent or at least 1. *)
Definition positive (o : option Z) : Prop :=
  match o with
  | Some p => 1 <= p
  | None => True
  end.

Definition positive_periods (p : Params) : Prop :=
  positive (period p) /\ positive (fastPeriod p) /\ positive (slowPeriod p) /\
  positive (signalPeriod p) /\ positive (kPeriod p) /\ positive (dPeriod p).

(** The price columns the branch of each kind reads, in the order it
    reads them. *)
Definition required_columns (k : kind) : list string :=
  match k with
  | SMA | EMA | BB | MACD | RSI | WMA => ["close"]
  | ATR | STOCH | PSAR | WILLR | CCI | ADX => ["high"; "low"; "close"]
  | VWAP | OBV => ["close"; "volume"]
  | MFI => ["high"; "low"; "close"; "volume"]
  end.

(** A request that passes the dispatch and its length gate on [df]. *)
Definition effective (df : DataFrame) (ind : indicator) : bool :=
  match minimum_length ind with
  | Some m => m <=? df_len df
  | None => false
  end.

(* ===================================================================== *)
(** ** The chart layout of [generate_candlestick.py] *)
(* ===================================================================== *)

(** The ten lists the categorisation loop fills (lines 145-200): the
    overlays of the price chart and one list per oscillator pane. *)
Inductive pane :=
  | Overlay | MacdPane | RsiPane | AtrPane | StochPane | WilliamsPane
  | CciPane | MfiPane | ObvPane | AdxPane.

Definition pane_eqb (a b : pane) : bool :=
  match a, b with
  | Overlay, Overlay | MacdPane, MacdPane | RsiPane, RsiPane | AtrPane, AtrPane
  | StochPane, StochPane | WilliamsPane, WilliamsPane | CciPane, CciPane
  | MfiPane, MfiPane | ObvPane, ObvPane | AdxPane, AdxPane => true
  | _, _ => false
  end.

Definition pane_of (ind_type : string) : option pane :=
  if is_in ind_type ["ma"; "sma"; "ema"; "wma"; "bb"; "bollingerbands"; "vwap";
                     "psar"; "parabolicsar"] then Some Overlay
  else if is_in ind_type ["macd"; "macdline"; "macdsignal"; "macdhistogram"]
       then Some MacdPane
  else if is_in ind_type ["rsi"] then Some RsiPane
  else if is_in ind_type ["atr"] then Some AtrPane
  else if is_in ind_type ["stochastic"; "stoch"; "stochasticoscillator"]
       then Some StochPane
  else if is_in ind_type ["williamsr"; "williams%r"; "percentr"] then Some WilliamsPane
  else if is_in ind_type ["cci"] then Some CciPane
  else if is_in ind_type ["mfi"] then Some MfiPane
  else if is_in ind_type ["obv"] then Some ObvPane
  else if is_in ind_type ["adx"] then Some AdxPane
  else None.

(** The loop over the requests: each one is appended to the list of its
    pane; an unknown type is only logged. *)
Definition categorize (indicators : list indicator) : pane -> list indicator :=
  fold_left
    (fun lists indicator =>
       match pane_of (lower (ind_type indicator)) with
       | Some p => fun q => if pane_eqb q p then (lists q ++ [indicator])%list else lists q
       | None => lists
       end)
    indicators (fun _ => []).

(** [mpf.make_addplot(data, panel=panel, ...)]: the series drawn and the
    panel it is drawn in (colours, widths and labels are left out). *)
Record addplot := make_addplot { data : array; panel : Z }.

(** [series.notna().any()]. *)
Definition notna_any (a : array) : bool := existsb (fun x => negb (isna x)) a.

(** One iteration of the overlay loop (lines 210-268). *)
Definition add_overlay (df : DataFrame) (addplots : list addplot) (indicator : indicator)
  : list addplot :=
  let ind_type := lower (ind_type indicator) in
  let params := ind_params indicator in
  let line col_name :=
    match lookup_col col_name (columns df) with
    | Some c => if notna_any c then (addplots ++ [make_addplot c 0])%list else addplots
    | None => addplots
    end in
  if is_in ind_type ["sma"; "ma"] then
    line (fmt "sma_" (default 20 (period params)))
  else if String.eqb ind_type "ema" then
    line (fmt "ema_" (default 12 (period params)))
  else if String.eqb ind_type "wma" then
    line (fmt "wma_" (default 20 (period params)))
  else if String.eqb ind_type "vwap" then line "vwap"
  else if is_in ind_type ["psar"; "parabolicsar"] then line "psar"
  else if is_in ind_type ["bb"; "bollingerbands"] then
    let period := default 20 (period params) in
    match lookup_col (fmt "bb_middle_" period) (columns df),
          lookup_col (fmt "bb_upper_" period) (columns df),
          lookup_col (fmt "bb_lower_" period) (columns df) with
    | Some mid, Some upper, Some lower =>
        (addplots ++ [make_addplot mid 0; make_addplot upper 0; make_addplot lower 0])%list
    | _, _, _ => addplots
    end
  else addplots.

(** The state of the panel set-up (lines 270-397). *)
Record layout := {
  addplots : list addplot;
  panel_count : Z;
  panel_map : list (string * Z)
}.

(** One oscillator block: its series go to panel [panel_count], which is
    recorded under [key] and then incremented. *)
Definition new_panel (key : string) (first : array) (others : list array) (st : layout)
  : layout :=
  {| addplots :=
       (addplots st ++
        map (fun d => make_addplot d (panel_count st)) (first :: others))%list;
     panel_count := panel_count st + 1;
     panel_map := (panel_map st ++ [(key, panel_count st)])%list |}.

(** [[v] * len(df)]: a horizontal guide line. *)
Definition level (df : DataFrame) (v : Z) : array := repeat (of_Z v) (rows df).

Definition fle (a b : f64) : bool := flt a b || feq a b.

(** The two halves of the MACD histogram (lines 287-290). *)
Definition pos_hist (h : array) : array :=
  map (fun x => if fle x (Fin 0) then NaN else x) h.
Definition neg_hist (h : array) : array :=
  map (fun x => if fgt x (Fin 0) then NaN else x) h.

Definition requested (l : list indicator) : bool :=
  match l with [] => false | _ :: _ => true end.

Definition macd_panel (df : DataFrame) (macd_indicators : list indicator) (st : layout) :=
  match requested macd_indicators,
        lookup_col "macd_line" (columns df), lookup_col "macd_signal" (columns df),
        lookup_col "macd_histogram" (columns df) with
  | true, Some macd_line, Some macd_signal, Some macd_histogram =>
      new_panel "macd" macd_line
        [macd_signal; pos_hist macd_histogram; neg_hist macd_histogram] st
  | _, _, _, _ => st
  end.

Definition rsi_panel (df : DataFrame) (rsi_indicators : list indicator) (st : layout) :=
  match requested rsi_indicators, lookup_col "rsi" (columns df) with
  | true, Some rsi => new_panel "rsi" rsi [level df 70; level df 30] st
  | _, _ => st
  end.

Definition atr_panel (df : DataFrame) (atr_indicators : list indicator) (st : layout) :=
  match requested atr_indicators, lookup_col "atr" (columns df) with
  | true, Some atr => new_panel "atr" atr [] st
  | _, _ => st
  end.

Definition stoch_panel (df : DataFrame) (stoch_indicators : list indicator) (st : layout) :=
  match requested stoch_indicators,
        lookup_col "stoch_k" (columns df), lookup_col "stoch_d" (columns df) with
  | true, Some stoch_k, Some stoch_d =>
      new_panel "stoch" stoch_k [stoch_d; level df 80; level df 20] st
  | _, _, _ => st
  end.

Definition williams_r_panel (df : DataFrame) (williams_r_indicators : list indicator)
    (st : layout) :=
  match requested williams_r_indicators, lookup_col "williams_r" (columns df) with
  | true, Some williams_r =>
      new_panel "williams_r" williams_r [level df (-20); level df (-80)] st
  | _, _ => st
  end.

Definition cci_panel (df : DataFrame) (cci_indicators : list indicator) (st : layout) :=
  match requested cci_indicators, lookup_col "cci" (columns df) with
  | true, Some cci => new_panel "cci" cci [level df 100; level df (-100)] st
  | _, _ => st
  end.

Definition mfi_panel (df : DataFrame) (mfi_indicators : list indicator) (st : layout) :=
  match requested mfi_indicators, lookup_col "mfi" (columns df) with
  | true, Some mfi => new_panel "mfi" mfi [level df 80; level df 20] st
  | _, _ => st
  end.

Definition obv_panel (df : DataFrame) (obv_indicators : list indicator) (st : layout) :=
  match requested obv_indicators, lookup_col "obv" (columns df) with
  | true, Some obv => new_panel "obv" obv [] st
  | _, _ => st
  end.

Definition adx_panel (df : DataFrame) (adx_indicators : list indicator) (st : layout) :=
  match requested adx_indicators,
        lookup_col "adx" (columns df), lookup_col "plus_di" (columns df),
        lookup_col "minus_di" (columns df) with
  | true, Some adx, Some plus_di, Some minus_di =>
      new_panel "adx" adx [plus_di; minus_di; level df 25] st
  | _, _, _, _ => st
  end.

(** Lines 145-397: categorisation, overlays, then the oscillator panels in
    their fixed order. *)
Definition chart_layout (df : DataFrame) (indicators : list indicator) : layout :=
  let lists := categorize indicators in
  let addplots := fold_left (add_overlay df) (lists Overlay) [] in
  let st := {| addplots := addplots; panel_count := 1; panel_map := [] |} in
  let st := macd_panel df (lists MacdPane) st in
  let st := rsi_panel df (lists RsiPane) st in
  let st := atr_panel df (lists AtrPane) st in
  let st := stoch_panel df (lists StochPane) st in
  let st := williams_r_panel df (lists WilliamsPane) st in
  let st := cci_panel df (lists CciPane) st in
  let st := mfi_panel df (lists MfiPane) st in
  let st := obv_panel df (lists ObvPane) st in
  adx_panel df (lists AdxPane) st.

(** Lines 400-416: the height ratios handed to [mpf.plot]. *)
Definition panel_ratios (panel_count : Z) : option (list Z) :=
  if 1 <? panel_count then Some (3 :: repeat 1 (Z.to_nat (panel_count - 1)))
  else None.

Definition valid_panel_ratios (panel_count : Z) : list Z :=
  let valid :=
    match panel_ratios panel_count with
    | Some ratios => ratios
    | None => repeat 1 (Z.to_nat panel_count)
    end in
  if negb (len valid =? panel_count) then repeat 1 (Z.to_nat panel_count) else valid.

(** Lines 139-142 followed by the layout: the indicators are added to the
    frame when the request list is not empty. *)
Definition chart_at (dt : dtype) (df : DataFrame) (indicators : list indicator)
  : result layout :=
  let* df :=
    match indicators with
    | [] => Ok df
    | _ :: _ => add_indicators_at dt df indicators
    end in
  Ok (chart_layout df indicators).

Abbreviation chart := (chart_at float64).

(** What the panel set-up keeps true: plots sit in panels that exist, every
    oscillator panel holds a plot, and the panels are numbered from 1
    without a gap in the order they were created. *)
Definition layout_ok (st : layout) : Prop :=
  1 <= panel_count st /\
  (forall p, In p (addplots st) -> 0 <= panel p < panel_count st) /\
  (forall k, 1 <= k < panel_count st -> exists p, In p (addplots st) /\ panel p = k) /\
  map snd (panel_map st) = range 1 (panel_count st).

(** Each oscillator block leaves the layout as it is or opens one panel. *)
Definition grows (st st' : layout) : Prop :=
  st' = st \/ exists key first others, st' = new_panel key first others st.

(** Two cells that hold numbers [0 <= a <= b]. *)
Definition below (u v : f64) : Prop :=
  exists a b, u = Fin a /\ v = Fin b /\ (0 <= a <= b)%Q.

(* ===================================================================== *)
(** ** The pane layout of [generate_indicators.py] *)
(* ===================================================================== *)

Module GenerateIndicators.

(** The five lists of the categorisation loop (lines 96-129). *)
Inductive group := Overlay | Macd | Rsi | Atr | Stoch.

Definition group_eqb (a b : group) : bool :=
  match a, b with
  | Overlay, Overlay | Macd, Macd | Rsi, Rsi | Atr, Atr | Stoch, Stoch => true
  | _, _ => false
  end.

Definition group_of (ind_type : string) : option group :=
  if is_in ind_type ["ma"; "sma"; "ema"; "bb"; "bollingerbands"] then Some Overlay
  else if is_in ind_type ["macd"; "macdline"; "macdsignal"; "macdhistogram"]
       then Some Macd
  else if is_in ind_type ["rsi"] then Some Rsi
  else if is_in ind_type ["atr"] then Some Atr
  else if is_in ind_type ["stochastic"; "stoch"; "stoch_k"; "stoch_d"] then Some Stoch
  else None.

Definition categorize (indicators : list indicator) : group -> list indicator :=
  fold_left
    (fun lists indicator =>
       match group_of (lower (ind_type indicator)) with
       | Some g => fun q => if group_eqb q g then (lists q ++ [indicator])%list else lists q
       | None => lists
       end)
    indicators (fun _ => []).

(** Lines 132-136: one pane per oscillator list that is not empty. *)
Definition panes (lists : group -> list indicator) : list string :=
  let panes := [] in
  let panes := if requested (lists Macd) then (panes ++ ["macd"])%list else panes in
  let panes := if requested (lists Rsi) then (panes ++ ["rsi"])%list else panes in
  let panes := if requested (lists Atr) then (panes ++ ["atr"])%list else panes in
  let panes := if requested (lists Stoch) then (panes ++ ["stoch"])%list else panes in
  panes.

(** Lines 141-144. *)
Definition num_panes (panes : list string) : Z := 1 + len panes.
Definition height_ratios (panes : list string) : list Z :=
  3 :: repeat 1 (length panes).

(** What is drawn on an axis: a line or bars over the rows, or a
    horizontal line (colours, widths and labels are left out). *)
Inductive drawing :=
  | Line (y : array)
  | Bars (y : array)
  | HLine (y : Z).

Record plot := { axis : Z; what : drawing }.

(** One iteration of the overlay loop (lines 162-208), on the main axis. *)
Definition plot_overlay (df : DataFrame) (plots : list plot) (indicator : indicator)
  : list plot :=
  let ind_type := lower (ind_type indicator) in
  let params := ind_params indicator in
  let period := default 20 (period params) in
  if is_in ind_type ["sma"; "ma"] then
    match lookup_col (fmt "sma_" period) (columns df) with
    | Some c => (plots ++ [{| axis := 0; what := Line c |}])%list
    | None => plots
    end
  else if String.eqb ind_type "ema" then
    match lookup_col (fmt "ema_" period) (columns df) with
    | Some c => (plots ++ [{| axis := 0; what := Line c |}])%list
    | None => plots
    end
  else if is_in ind_type ["bb"; "bollingerbands"] then
    match lookup_col (fmt "bb_middle_" period) (columns df),
          lookup_col (fmt "bb_upper_" period) (columns df),
          lookup_col (fmt "bb_lower_" period) (columns df) with
    | Some mid, Some upper, Some lower =>
        (plots ++ [{| axis := 0; what := Line mid |};
                   {| axis := 0; what := Line upper |};
                   {| axis := 0; what := Line lower |}])%list
    | _, _, _ => plots
    end
  else plots.

(** One iteration of the pane loop (lines 218-291): pane [i] of the list
    is drawn on axis [i + 1]. *)
Definition plot_pane (df : DataFrame) (plots : list plot) (i : Z) (pane_type : string)
  : list plot :=
  let ax := i + 1 in
  if String.eqb pane_type "macd" then
    match lookup_col "macd_line" (columns df), lookup_col "macd_signal" (columns df),
          lookup_col "macd_histogram" (columns df) with
    | Some macd_line, Some macd_signal, Some macd_histogram =>
        (plots ++ [{| axis := ax; what := Line macd_line |};
                   {| axis := ax; what := Line macd_signal |};
                   {| axis := ax;
                      what := Bars (take (Z.to_nat (df_len df - 1)) macd_histogram) |};
                   {| axis := ax; what := HLine 0 |}])%list
    | _, _, _ => plots
    end
  else if String.eqb pane_type "rsi" then
    match lookup_col "rsi" (columns df) with
    | Some rsi =>
        (plots ++ [{| axis := ax; what := Line rsi |}; {| axis := ax; what := HLine 70 |};
                   {| axis := ax; what := HLine 30 |};
                   {| axis := ax; what := HLine 50 |}])%list
    | None => plots
    end
  else if String.eqb pane_type "atr" then
    match lookup_col "atr" (columns df) with
    | Some atr => (plots ++ [{| axis := ax; what := Line atr |}])%list
    | None => plots
    end
  else if String.eqb pane_type "stoch" then
    match lookup_col "stoch_k" (columns df), lookup_col "stoch_d" (columns df) with
    | Some stoch_k, Some stoch_d =>
        (plots ++ [{| axis := ax; what := Line stoch_k |};
                   {| axis := ax; what := Line stoch_d |};
                   {| axis := ax; what := HLine 80 |};
                   {| axis := ax; what := HLine 20 |}])%list
    | _, _ => plots
    end
  else plots.

Fixpoint plot_panes (df : DataFrame) (plots : list plot) (i : Z) (panes : list string)
  : list plot :=
  match panes with
  | [] => plots
  | pane_type :: rest => plot_panes df (plot_pane df plots i pane_type) (i + 1) rest
  end.

Record figure := {
  fig_panes : list string;
  fig_height_ratios : list Z;
  fig_plots : list plot
}.

(** Lines 92-291: the indicators are added to the frame, the panes are
    chosen from the request lists, then the overlays and the panes are
    drawn. *)
Definition indicator_chart_at (dt : dtype) (df : DataFrame) (indicators : list indicator)
  : result figure :=
  let* df := add_indicators_at dt df indicators in
  let lists := categorize indicators in
  let panes := panes lists in
  let plots := fold_left (plot_overlay df) (lists Overlay) [] in
  let plots := plot_panes df plots 0 panes in
  Ok {| fig_panes := panes; fig_height_ratios := height_ratios panes;
        fig_plots := plots |}.

Abbreviation indicator_chart := (indicator_chart_at float64).

End GenerateIndicators.

(** The oscillator columns [add_indicators] can write for the panes of the
    two charts. *)
Definition oscillator_columns : list string :=
  ["macd_line"; "macd_signal"; "macd_histogram"; "rsi"; "atr"; "stoch_k"; "stoch_d"].

(** ** The column check of the two chart generators *)

(** [name in df.columns]. *)
Definition has_column (df : DataFrame) (name : string) : bool :=
  match lookup_col name (columns df) with
  | Some _ => true
  | None => false
  end.

(** Lines 94-110 of [generate_candlestick.py] and 68-82 of
    [generate_indicators.py]: the script exits ([None]) when one of
    [open], [high], [low], [close] is missing, and a missing [volume]
    column is added as zeros. *)
Definition ensure_columns (df : DataFrame) : option DataFrame :=
  if forallb (has_column df) ["open"; "high"; "low"; "close"] then
    Some (if has_column df "volume" then df
          else df_set df "volume" (repeat (Fin 0) (rows df)))
  else None.

(** A frame as pandas keeps it: every column has one cell per row. *)
Definition frame_ok (df : DataFrame) : Prop :=
  Forall (fun c => length (snd c) = rows df) (columns df).

(** A whole number, the only kind of cell an [int64] array holds. *)
Definition whole (q : Q) : Prop := exists z, q = inject_Z z.

(** The numbers of an array of dtype [dt]. *)
Definition typed (dt : dtype) (l : list Q) : Prop :=
  match dt with
  | float64 => True
  | int64 => Forall whole l
  end.

(** What an array of dtype [dt] keeps of a finite number stored in it. *)
Definition kept (dt : dtype) (q : Q) : Q :=
  match dt with
  | float64 => q
  | int64 => inject_Z (Qtrunc q)
  end.


(** The columns one request of kind [k] computes from the price columns of
    [df] (the bodies of the branches of lines 414-622, without their length
    gates): the arrays of the library function under the column names of
    the kind, in the order they are assigned. *)
Definition computed_columns (dt : dtype) (df : DataFrame) (k : kind) (params : Params)
  : result (list (string * array)) :=
  match k with
  | SMA =>
      let period := default 20 (period params) in
      let* close := df_get df "close" in
      let* sma := calculate_sma close period in
      Ok [(fmt "sma_" period, sma)]
  | EMA =>
      let period := default 20 (period params) in
      let* close := df_get df "close" in
      let* ema := calculate_ema close period in
      Ok [(fmt "ema_" period, ema)]
  | BB =>
      let period := default 20 (period params) in
      let std_dev := Fin (default 2%Q (stdDev params)) in
      let* close := df_get df "close" in
      let* bb := calculate_bollinger_bands close period std_dev in
      Ok [(fmt "bb_middle_" period, bb_middle bb); (fmt "bb_upper_" period, bb_upper bb);
          (fmt "bb_lower_" period, bb_lower bb)]
  | MACD =>
      let fast_period := default 12 (fastPeriod params) in
      let slow_period := default 26 (slowPeriod params) in
      let signal_period := default 9 (signalPeriod params) in
      let* close := df_get df "close" in
      let* macd := calculate_macd close fast_period slow_period signal_period in
      Ok [("macd_line", macd_macd macd); ("macd_signal", macd_signal macd);
          ("macd_histogram", macd_histogram macd)]
  | RSI =>
      let period := default 14 (period params) in
      let* close := df_get df "close" in
      let* rsi := calculate_rsi_at dt close period in
      Ok [("rsi", rsi)]
  | ATR =>
      let period := default 14 (period params) in
      let* high := df_get df "high" in
      let* low := df_get df "low" in
      let* close := df_get df "close" in
      let* atr := calculate_atr_at dt high low close period in
      Ok [("atr", atr)]
  | STOCH =>
      let k_period := default 14 (kPeriod params) in
      let d_period := default 3 (dPeriod params) in
      let slowing := default 1 (slowing params) in
      let* high := df_get df "high" in
      let* low := df_get df "low" in
      let* close := df_get df "close" in
      let* stoch := calculate_stochastic_at dt high low close k_period d_period slowing in
      Ok [("stoch_k", stoch_k stoch); ("stoch_d", stoch_d stoch)]
  | WMA =>
      let period := default 20 (period params) in
      let* close := df_get df "close" in
      let* wma := calculate_wma_at dt close period in
      Ok [(fmt "wma_" period, wma)]
  | VWAP =>
      let* close := df_get df "close" in
      let* volume := df_get df "volume" in
      let* vwap := calculate_vwap_at dt close volume (period params) in
      Ok [("vwap", vwap)]
  | PSAR =>
      let af_start := Fin (default (2 # 100) (afStart params)) in
      let af_increment := Fin (default (2 # 100) (afIncrement params)) in
      let af_max := Fin (default (2 # 10) (afMax params)) in
      let* high := df_get df "high" in
      let* low := df_get df "low" in
      let* close := df_get df "close" in
      let* psar :=
        calculate_parabolic_sar_at dt high low close af_start af_increment af_max in
      Ok [("psar", psar)]
  | WILLR =>
      let period := default 14 (period params) in
      let* high := df_get df "high" in
      let* low := df_get df "low" in
      let* close := df_get df "close" in
      let* williams_r := calculate_williams_r_at dt high low close period in
      Ok [("williams_r", williams_r)]
  | CCI =>
      let period := default 20 (period params) in
      let* high := df_get df "high" in
      let* low := df_get df "low" in
      let* close := df_get df "close" in
      let* cci := calculate_cci_at dt high low close period in
      Ok [("cci", cci)]
  | MFI =>
      let period := default 14 (period params) in
      let* high := df_get df "high" in
      let* low := df_get df "low" in
      let* close := df_get df "close" in
      let* volume := df_get df "volume" in
      let* mfi := calculate_mfi_at dt high low close volume period in
      Ok [("mfi", mfi)]
  | OBV =>
      let* close := df_get df "close" in
      let* volume := df_get df "volume" in
      let* obv := calculate_obv_at dt close volume in
      Ok [("obv", obv)]
  | ADX =>
      let period := default 14 (period params) in
      let* high := df_get df "high" in
      let* low := df_get df "low" in
      let* close := df_get df "close" in
      let* adx_result := calculate_adx_at dt high low close period in
      Ok [("adx", adx_adx adx_result); ("plus_di", adx_plus_di adx_result);
          ("minus_di", adx_minus_di adx_result)]
  end.

(** [df[name] = a] for each pair of the list in turn. *)
Definition set_columns (df : DataFrame) (cols : list (string * array)) : DataFrame :=
  fold_left (fun d c => df_set d (fst c) (snd c)) cols df.

(** A request that does not write the column [name]. *)
Definition leaves (name : string) (ind : indicator) : Prop :=
  forall k, kind_of (ind_type ind) = Some k ->
    ~ In name (output_names k (ind_params ind)).


(** The SAR array while the loop of [calculate_parabolic_sar] is at bar
    [i]: [n] cells, [first] at index 0, and a number of [[lo, hi]] in
    every cell below [i]. *)
Definition sar_cells (lo hi : Q) (n : nat) (first : f64) (i : Z) (s : array) : Prop :=
  length s = n /\ s !! 0%nat = Some first /\
  forall k, Z.of_nat k < i -> exists x, s !! k = Some x /\ cell_within lo hi x.


(** A span pandas can turn into a float: [ewm(span=s)] computes
    [(s - 1) / 2] on the Python integer, and that division raises
    OverflowError when the quotient is beyond the float range.  The model
    of [ewm_mean] leaves that exception out; the statements about
    requests that cannot raise assume spans of at most [2 ^ 1024]. *)
Definition float_span (o : option Z) : Prop :=
  match o with
  | Some s => s <= 2 ^ 1024
  | None => True
  end.

(* ===================================================================== *)
(** * Properties *)
(* ===================================================================== *)

(** ** Gap filling *)

Lemma ffill_from_clean last a : has_nan a = false -> ffill_from last a = a.
Proof.
  revert last; induction a as [|x a IH]; intros last H; simpl in *; [reflexivity|].
  apply orb_false_iff in H as [Hx Ha]. rewrite Hx. f_equal. now apply IH.
Qed.

Lemma bfill_clean a : has_nan a = false -> bfill a = a.
Proof.
  induction a as [|x a IH]; intros H; simpl in *; [reflexivity|].
  apply orb_false_iff in H as [Hx Ha]. rewrite Hx. f_equal. now apply IH.
Qed.

Lemma fillna_zero_has_no_nan a : has_nan (fillna (Fin 0) a) = false.
Proof.
  induction a as [|x a IH]; simpl; [reflexivity|].
  rewrite IH. now destruct x.
Qed.

Lemma df_map_clean f df :
  (forall a, has_nan a = false -> f a = a) -> clean df -> df_map f df = df.
Proof.
  intros Hf Hc. destruct df as [n cols]. unfold df_map, clean in *; simpl in *.
  f_equal. induction Hc as [|[name a] cols Ha _ IH]; simpl; [reflexivity|].
  simpl in Ha. now rewrite (Hf a Ha), IH.
Qed.

Lemma filter_nil_clean (cols : list (string * array)) :
  filter (fun c => has_nan (snd c)) cols = [] ->
  Forall (fun c => has_nan (snd c) = false) cols.
Proof.
  induction cols as [|c cols IH]; intros H; [constructor|].
  rewrite filter_cons in H. destruct (decide (has_nan (snd c))) as [Hc|Hc].
  - discriminate.
  - constructor; [|now apply IH].
    destruct (has_nan (snd c)); [exfalso; apply Hc; exact I | reflexivity].
Qed.

Lemma filter_clean_nil (cols : list (string * array)) :
  Forall (fun c => has_nan (snd c) = false) cols ->
  filter (fun c => has_nan (snd c)) cols = [].
Proof.
  induction 1 as [|c cols Hc _ IH]; [reflexivity|].
  rewrite filter_cons. destruct (decide (has_nan (snd c))) as [Hd|Hd]; [|exact IH].
  rewrite Hc in Hd. destruct Hd.
Qed.

Lemma fill_gaps_is_clean df : clean (fill_gaps df).
Proof.
  unfold fill_gaps.
  destruct (filter _ (columns (df_map bfill (df_map ffill df)))) eqn:E.
  - now apply filter_nil_clean.
  - unfold clean, df_map; simpl. apply Forall_map, Forall_map, Forall_map.
    apply Forall_true. intros c; simpl. apply fillna_zero_has_no_nan.
Qed.

Lemma fill_gaps_fixes_clean df : clean df -> fill_gaps df = df.
Proof.
  intros Hc. unfold fill_gaps.
  rewrite (df_map_clean ffill df (ffill_from_clean NaN) Hc).
  rewrite (df_map_clean bfill df bfill_clean Hc).
  now rewrite (filter_clean_nil _ Hc).
Qed.

(** C6.  Gap filling is idempotent: forward fill, backward fill and zero
    fill applied a second time leave every frame as the first pass made
    it. *)
Theorem fill_gaps_idempotent (df : DataFrame) :
  fill_gaps (fill_gaps df) = fill_gaps df.
Proof. apply fill_gaps_fixes_clean, fill_gaps_is_clean. Qed.

(** ** The orchestrator: skipping, aborting, column names *)

Lemma bind_Ok {A B} (m : result A) (k : A -> result B) b :
  bind m k = Ok b -> exists a, m = Ok a /\ k a = Ok b.
Proof. destruct m; simpl; intros H; [eauto | discriminate]. Qed.

Ltac inv_bind :=
  repeat match goal with
    | H : bind _ _ = Ok _ |- _ =>
        let a := fresh "a" in
        let Ha := fresh "Ha" in
        apply bind_Ok in H as (a & Ha & H)
    | H : Ok _ = Ok _ |- _ => injection H as H
    | H : (if ?b then _ else _) = Ok _ |- _ => destruct b
    end.

Lemma add_indicator_rows {dt} df ind df' :
  add_indicator_at dt df ind = Ok df' -> rows df' = rows df.
Proof.
  unfold add_indicator_at. intros H. inv_bind; subst; reflexivity.
Qed.

Lemma process_indicators_rows {dt} inds : forall df df',
  process_indicators_at dt df inds = Ok df' -> rows df' = rows df.
Proof.
  induction inds as [|i inds IH]; simpl; intros df df' H.
  - now injection H as <-.
  - apply bind_Ok in H as (d & Hd & H).
    rewrite (IH _ _ H). eapply add_indicator_rows; eauto.
Qed.

Lemma process_indicators_app {dt} pre : forall df post,
  process_indicators_at dt df (pre ++ post) =
  (let* df' := process_indicators_at dt df pre in process_indicators_at dt df' post).
Proof.
  induction pre as [|i pre IH]; simpl; intros df post; [reflexivity|].
  destruct (add_indicator_at dt df i); simpl; [apply IH | reflexivity].
Qed.

Lemma short_series_step {dt} ind m df :
  minimum_length ind = Some m -> df_len df < m -> add_indicator_at dt df ind = Ok df.
Proof.
  unfold minimum_length, kind_of, add_indicator_at. intros Hm Hlt.
  repeat match goal with
    | H : context [if is_in ?t ?l then _ else _] |- _ =>
        destruct (is_in t l) eqn:?
    end;
  try discriminate; injection Hm as <-;
  match goal with
  | |- (if ?b then _ else _) = _ => destruct b eqn:Hb; [lia | reflexivity]
  end.
Qed.

(** An unknown type string is ignored. *)
Lemma unknown_type_skipped {dt} df ind :
  kind_of (ind_type ind) = None -> add_indicator_at dt df ind = Ok df.
Proof.
  unfold kind_of, add_indicator_at. intros H.
  repeat match goal with
    | H : context [if is_in ?t ?l then _ else _] |- _ =>
        destruct (is_in t l) eqn:?
    end; try discriminate; reflexivity.
Qed.

(** The scenario of the specification: an unknown type leaves the frame as
    the gap filler alone makes it. *)
Example foobar_is_ignored :
  add_indicators bars3 [{| ind_type := "foobar"; ind_params := no_params |}] =
  Ok (fill_gaps bars3).
Proof. reflexivity. Qed.

(** C1 (as the code has it).  [add_indicators] has no handler around an
    indicator: when the computation of one request raises, the call raises
    that exception and returns no frame, whatever precedes or follows the
    request.  Conversely the call returns a frame only if every request of
    the list was processed without raising. *)
Theorem indicator_exception_aborts
    (df : DataFrame) (pre post : list indicator) (ind : indicator) :
  (forall df' e,
     process_indicators df pre = Ok df' ->
     add_indicator df' ind = Raise e ->
     add_indicators df (pre ++ ind :: post) = Raise e) /\
  (forall r,
     add_indicators df (pre ++ ind :: post) = Ok r ->
     exists d d', process_indicators df pre = Ok d /\ add_indicator d ind = Ok d').
Proof.
  unfold add_indicators_at. rewrite process_indicators_app. split.
  - intros df' e Hpre Hind. rewrite Hpre. simpl. now rewrite Hind.
  - intros r H. destruct (process_indicators df pre) as [d|e]; [|discriminate].
    simpl in H. destruct (add_indicator d ind) as [d'|e] eqn:E; [|discriminate].
    exists d, d'. split; [reflexivity | exact E].
Qed.

Lemma indicator_exception_aborts_witness :
  add_indicators bars3 ([request "sma" 2] ++ request "ema" 0 :: [request "wma" 2]) =
  Raise ValueError.
Proof.
  eapply (proj1 (indicator_exception_aborts bars3 [request "sma" 2] [request "wma" 2]
                   (request "ema" 0))); reflexivity.
Defined.

(** C1, counterexample.  On three bars, EMA with period 0 passes its gate
    and raises ValueError (the span must be at least 1); the call then
    raises too, although SMA(2), requested next, computes without error
    when requested alone. *)
Lemma ema_failure_loses_sma :
  calculate_ema (map of_Z [1; 2; 3]) 0 = Raise ValueError /\
  add_indicators bars3 [request "ema" 0; request "sma" 2] = Raise ValueError /\
  match add_indicators bars3 [request "sma" 2] with
  | Ok r => column_names r = ["open"; "high"; "low"; "close"; "volume"; "sma_2"]
  | Raise _ => False
  end.
Proof. repeat split; reflexivity. Qed.

(** *** Column assignment *)

Lemma lookup_assign_eq name a cols :
  lookup_col name (assign_col name a cols) = Some a.
Proof.
  induction cols as [|[n b] cols IH]; simpl.
  - now rewrite String.eqb_refl.
  - destruct (String.eqb n name) eqn:E; simpl; rewrite E; [reflexivity | exact IH].
Qed.

Lemma lookup_assign_ne name other a cols :
  name <> other ->
  lookup_col other (assign_col name a cols) = lookup_col other cols.
Proof.
  intros Hne. induction cols as [|[n b] cols IH]; simpl.
  - destruct (String.eqb_spec name other); [contradiction | reflexivity].
  - destruct (String.eqb_spec n name) as [->|Hn]; simpl.
    + destruct (String.eqb_spec name other); [contradiction | reflexivity].
    + destruct (String.eqb_spec n other); [reflexivity | exact IH].
Qed.

Lemma assign_assign name a b cols :
  assign_col name b (assign_col name a cols) = assign_col name b cols.
Proof.
  induction cols as [|[n c] cols IH]; simpl.
  - now rewrite String.eqb_refl.
  - destruct (String.eqb n name) eqn:E; simpl; rewrite E; [reflexivity | now rewrite IH].
Qed.

Lemma df_get_set_ne df name other a :
  name <> other -> df_get (df_set df name a) other = df_get df other.
Proof. intros H. unfold df_get, df_set; simpl. now rewrite lookup_assign_ne. Qed.

Lemma df_set_set df name a b :
  df_set (df_set df name a) name b = df_set df name b.
Proof. unfold df_set; simpl. now rewrite assign_assign. Qed.

Lemma fmt_inj prefix p q : fmt prefix p = fmt prefix q -> p = q.
Proof.
  unfold fmt. intros H. apply (inj (String.app prefix)) in H.
  now apply (inj pretty) in H.
Qed.

(** *** What one request of a given type does *)

Lemma add_indicator_sma df p :
  add_indicator df (request "sma" p) =
  if p <=? df_len df then
    let* close := df_get df "close" in
    let* sma := calculate_sma close p in
    Ok (df_set df (fmt "sma_" p) sma)
  else Ok df.
Proof. reflexivity. Qed.

Lemma add_indicator_ema df p :
  add_indicator df (request "ema" p) =
  if p <=? df_len df then
    let* close := df_get df "close" in
    let* ema := calculate_ema close p in
    Ok (df_set df (fmt "ema_" p) ema)
  else Ok df.
Proof. reflexivity. Qed.

Lemma add_indicator_wma df p :
  add_indicator df (request "wma" p) =
  if p <=? df_len df then
    let* close := df_get df "close" in
    let* wma := calculate_wma close p in
    Ok (df_set df (fmt "wma_" p) wma)
  else Ok df.
Proof. reflexivity. Qed.

Lemma add_indicator_rsi df p :
  add_indicator df (request "rsi" p) =
  if p + 1 <=? df_len df then
    let* close := df_get df "close" in
    let* rsi := calculate_rsi close p in
    Ok (df_set df "rsi" rsi)
  else Ok df.
Proof. reflexivity. Qed.

Lemma add_indicator_atr df p :
  add_indicator df (request "atr" p) =
  if p + 1 <=? df_len df then
    let* high := df_get df "high" in
    let* low := df_get df "low" in
    let* close := df_get df "close" in
    let* atr := calculate_atr high low close p in
    Ok (df_set df "atr" atr)
  else Ok df.
Proof. reflexivity. Qed.

Lemma column_names_set df n a name :
  In name (column_names (df_set df n a)) -> name = n \/ In name (column_names df).
Proof.
  unfold column_names, df_set; simpl.
  induction (columns df) as [|[m b] cols IH]; simpl.
  - intros [<-|[]]. now left.
  - destruct (String.eqb_spec m n) as [->|Hne]; simpl.
    + intros [<-|H]; [now left | right; now right].
    + intros [<-|H]; [right; now left|].
      destruct (IH H) as [->|H']; [now left | right; now right].
Qed.

(** Every column of the frame after one request was there before or is one
    of the names of the request's kind. *)
Lemma added_columns_by_kind ind k df df' name :
  kind_of (ind_type ind) = Some k ->
  add_indicator df ind = Ok df' ->
  In name (column_names df') ->
  In name (column_names df) \/ In name (output_names k (ind_params ind)).
Proof.
  unfold kind_of, add_indicator_at. intros Hk H Hin.
  repeat match goal with
    | H : context [if is_in ?t ?l then _ else _] |- _ =>
        destruct (is_in t l) eqn:?
    end;
  try discriminate; injection Hk as <-; inv_bind; subst;
  repeat match goal with
    | H : In _ (column_names (df_set _ _ _)) |- _ =>
        apply column_names_set in H as [->|H]
    end;
  (now left) || (right; simpl; tauto).
Qed.

(** A moving average named [prefix ++ period]: a second request with another
    period adds its own column and leaves the first one in place. *)
Lemma qualified_columns_coexist
    (calc : array -> Z -> result array) (prefix : string) (df df1 df2 : DataFrame)
    (p q : Z) :
  (forall n, fmt prefix n <> "close") ->
  (let* close := df_get df "close" in
   let* a := calc close p in Ok (df_set df (fmt prefix p) a)) = Ok df1 ->
  (let* close := df_get df1 "close" in
   let* b := calc close q in Ok (df_set df1 (fmt prefix q) b)) = Ok df2 ->
  p <> q ->
  exists close a b,
    df_get df "close" = Ok close /\ calc close p = Ok a /\ calc close q = Ok b /\
    df_get df2 (fmt prefix p) = Ok a /\ df_get df2 (fmt prefix q) = Ok b.
Proof.
  intros Hclose H1 H2 Hpq.
  apply bind_Ok in H1 as (close & Hc & H1). apply bind_Ok in H1 as (a & Ha & H1).
  injection H1 as <-.
  rewrite df_get_set_ne, Hc in H2 by apply Hclose. simpl in H2.
  apply bind_Ok in H2 as (b & Hb & H2). injection H2 as <-.
  exists close, a, b. repeat split; try assumption.
  - rewrite df_get_set_ne by (intros E; apply fmt_inj in E; congruence).
    unfold df_get, df_set; simpl. now rewrite lookup_assign_eq.
  - unfold df_get, df_set; simpl. now rewrite lookup_assign_eq.
Qed.

(** C7 (as the code has it).  Column names are deterministic, and carry
    the period only for SMA, EMA, WMA and the Bollinger bands.  Two SMA (or
    EMA, or WMA) requests with different periods that both pass the gate
    leave two columns, each holding the average for its own period.  RSI
    and ATR write the fixed names [rsi] and [atr]: once a first request has
    been computed, a second request of the same type gives exactly the
    frame it gives without the first, whose column is overwritten.  For
    every kind, a request adds no column outside [output_names], and
    outside the four period-qualified kinds these names do not depend on
    the parameters. *)
Theorem column_names_by_type (df df1 : DataFrame) (p q : Z) :
  p <> q ->
  (forall type calc prefix df2,
     In (type, calc, prefix) [("sma", calculate_sma, "sma_");
                              ("ema", calculate_ema, "ema_");
                              ("wma", calculate_wma, "wma_")] ->
     p <= df_len df -> q <= df_len df ->
     add_indicator df (request type p) = Ok df1 ->
     add_indicator df1 (request type q) = Ok df2 ->
     exists close a b,
       df_get df "close" = Ok close /\ calc close p = Ok a /\ calc close q = Ok b /\
       df_get df2 (fmt prefix p) = Ok a /\ df_get df2 (fmt prefix q) = Ok b) /\
  (forall type, In type ["rsi"; "atr"] ->
     p + 1 <= df_len df -> q + 1 <= df_len df ->
     add_indicator df (request type p) = Ok df1 ->
     add_indicator df1 (request type q) = add_indicator df (request type q)) /\
  (forall ind k d d' name,
     kind_of (ind_type ind) = Some k ->
     add_indicator d ind = Ok d' ->
     In name (column_names d') ->
     In name (column_names d) \/ In name (output_names k (ind_params ind))) /\
  (forall k params params',
     period_qualified k = false -> output_names k params = output_names k params').
Proof.
  intros Hpq. split; [|split; [|split]].
  3: { intros ind k d d' name. apply added_columns_by_kind. }
  3: { intros [] params params' H; try discriminate; reflexivity. }
  - intros type calc prefix df2 Hin Hp Hq H1 H2.
    assert (Hr : df_len df1 = df_len df)
      by (unfold df_len; f_equal; eapply add_indicator_rows; eauto).
    apply Z.leb_le in Hp, Hq.
    simpl in Hin.
    destruct Hin as [Hin|[Hin|[Hin|[]]]]; injection Hin as Ht Hc Hx; subst.
    + rewrite add_indicator_sma, Hp in H1. rewrite add_indicator_sma, Hr, Hq in H2.
      eapply qualified_columns_coexist; eauto; intros n; discriminate.
    + rewrite add_indicator_ema, Hp in H1. rewrite add_indicator_ema, Hr, Hq in H2.
      eapply qualified_columns_coexist; eauto; intros n; discriminate.
    + rewrite add_indicator_wma, Hp in H1. rewrite add_indicator_wma, Hr, Hq in H2.
      eapply qualified_columns_coexist; eauto; intros n; discriminate.
  - intros type Hin Hp Hq H1.
    assert (Hr : df_len df1 = df_len df)
      by (unfold df_len; f_equal; eapply add_indicator_rows; eauto).
    apply Z.leb_le in Hp, Hq.
    simpl in Hin. destruct Hin as [<-|[<-|[]]].
    + rewrite add_indicator_rsi, Hp in H1. rewrite !add_indicator_rsi, Hr, Hq.
      apply bind_Ok in H1 as (close & Hc & H1). apply bind_Ok in H1 as (a & Ha & H1).
      injection H1 as <-.
      rewrite df_get_set_ne by discriminate.
      destruct (df_get df "close"); simpl; [|reflexivity].
      destruct (calculate_rsi _ q); simpl; [|reflexivity].
      now rewrite df_set_set.
    + rewrite add_indicator_atr, Hp in H1. rewrite !add_indicator_atr, Hr, Hq.
      apply bind_Ok in H1 as (high & Hh & H1). apply bind_Ok in H1 as (low & Hl & H1).
      apply bind_Ok in H1 as (close & Hc & H1). apply bind_Ok in H1 as (a & Ha & H1).
      injection H1 as <-.
      rewrite !df_get_set_ne by discriminate.
      destruct (df_get df "high"); simpl; [|reflexivity].
      destruct (df_get df "low"); simpl; [|reflexivity].
      destruct (df_get df "close"); simpl; [|reflexivity].
      destruct (calculate_atr _ _ _ q); simpl; [|reflexivity].
      now rewrite df_set_set.
Qed.

Lemma column_names_by_type_witness :
  exists df1,
    add_indicator bars5 (request "rsi" 2) = Ok df1 /\
    add_indicator df1 (request "rsi" 3) = add_indicator bars5 (request "rsi" 3).
Proof.
  eexists. split; [reflexivity|].
  apply (proj1 (proj2 (column_names_by_type bars5 _ 2 3 ltac:(discriminate))) "rsi");
    [simpl; auto | now vm_compute | now vm_compute | reflexivity].
Defined.

(** C7, counterexample.  RSI(14) and RSI(21) on 25 bars: the result has one
    column named [rsi], and it is the frame RSI(21) alone produces; the
    RSI(14) output is gone. *)
Lemma two_rsi_share_one_column :
  match add_indicators bars25 [request "rsi" 14; request "rsi" 21] with
  | Ok r => column_names r = ["open"; "high"; "low"; "close"; "volume"; "rsi"]
  | Raise _ => False
  end /\
  add_indicators bars25 [request "rsi" 14; request "rsi" 21] =
  add_indicators bars25 [request "rsi" 21] /\
  add_indicators bars25 [request "rsi" 14] <>
  add_indicators bars25 [request "rsi" 21].
Proof.
  split; [vm_compute; reflexivity|].
  split; [vm_compute; reflexivity|].
  vm_compute. intros H. discriminate H.
Qed.

(** ** Loops, indices and slices *)

Lemma range_nil lo hi : hi <= lo -> range lo hi = [].
Proof. intros H. unfold range. now replace (Z.to_nat (hi - lo)) with 0%nat by lia. Qed.

Lemma range_cons lo hi : lo < hi -> range lo hi = lo :: range (lo + 1) hi.
Proof.
  intros H. unfold range.
  replace (Z.to_nat (hi - lo)) with (S (Z.to_nat (hi - (lo + 1)))) by lia.
  simpl. rewrite Z.add_0_r. f_equal.
  rewrite <- seq_shift, map_map. apply map_ext. intros k. lia.
Qed.

Lemma lookup_map {A B} (f : A -> B) (l : list A) k :
  map f l !! k = option_map f (l !! k).
Proof.
  revert k. induction l as [|x l IH]; intros [|k]; simpl; try reflexivity. apply IH.
Qed.

Lemma range_length lo hi : length (range lo hi) = Z.to_nat (hi - lo).
Proof. unfold range. now rewrite length_map, length_seq. Qed.

Lemma range_lookup lo hi k :
  (k < Z.to_nat (hi - lo))%nat -> range lo hi !! k = Some (lo + Z.of_nat k).
Proof.
  intros H. unfold range. rewrite lookup_map.
  rewrite lookup_seq_lt by exact H. reflexivity.
Qed.

(** The loop rule: an invariant carried through [range(lo, hi)]. *)
Lemma for_range_inv {S} (P : Z -> S -> Prop) (body : Z -> S -> result S) hi :
  forall n lo s,
    Z.of_nat n = hi - lo ->
    P lo s ->
    (forall i s, lo <= i < hi -> P i s -> exists s', body i s = Ok s' /\ P (i + 1) s') ->
    exists s', for_range lo hi body s = Ok s' /\ P hi s'.
Proof.
  induction n as [|n IH]; intros lo s Hn HP Hstep.
  - unfold for_range. rewrite range_nil by lia. simpl.
    exists s. split; [reflexivity|]. now replace hi with lo by lia.
  - unfold for_range. rewrite range_cons by lia. simpl.
    destruct (Hstep lo s ltac:(lia) HP) as (s1 & -> & HP1). simpl.
    apply (IH (lo + 1) s1); [lia | exact HP1 |].
    intros i s2 Hi. apply Hstep. lia.
Qed.

Lemma for_range_ok {S} (P : Z -> S -> Prop) (body : Z -> S -> result S) lo hi s :
  lo <= hi ->
  P lo s ->
  (forall i s, lo <= i < hi -> P i s -> exists s', body i s = Ok s' /\ P (i + 1) s') ->
  exists s', for_range lo hi body s = Ok s' /\ P hi s'.
Proof. intros H. apply (for_range_inv P body hi (Z.to_nat (hi - lo))). lia. Qed.

Lemma len_map {A B} (f : A -> B) (a : list A) : len (map f a) = len a.
Proof. unfold len. now rewrite length_map. Qed.

Lemma norm_index_in n i : 0 <= i < n -> norm_index n i = Ok (Z.to_nat i).
Proof.
  intros H. unfold norm_index.
  now replace (0 <=? i) with true by lia; replace (i <? n) with true by lia.
Qed.

Lemma getitem_in (a : array) i x :
  0 <= i -> a !! Z.to_nat i = Some x -> getitem a i = Ok x.
Proof.
  intros Hi Hx. unfold getitem.
  pose proof (lookup_lt_Some _ _ _ Hx) as Hlt.
  rewrite norm_index_in by (unfold len; lia). simpl. now rewrite Hx.
Qed.

Lemma setitem_in (a : array) i v :
  0 <= i < len a -> setitem a i v = Ok (<[Z.to_nat i := v]> a).
Proof. intros H. unfold setitem. now rewrite norm_index_in. Qed.

Lemma setitem_out (a : array) i v :
  0 <= i -> len a <= i -> setitem a i v = Raise IndexError.
Proof.
  intros H0 H. unfold setitem, norm_index.
  replace (i <? len a) with false by lia. rewrite andb_false_r.
  replace (i <? 0) with false by lia. now rewrite andb_false_r.
Qed.

Lemma zeros_lookup (a : array) k :
  (k < length a)%nat -> np_zeros_like a !! k = Some (Fin 0).
Proof.
  intros H. unfold np_zeros_like. rewrite lookup_map.
  destruct (lookup_lt_is_Some_2 a k H) as [x ->]. reflexivity.
Qed.

Lemma zeros_length (a : array) : length (np_zeros_like a) = length a.
Proof. apply length_map. Qed.

Lemma slice_in {A} (a : list A) s e :
  0 <= s <= e -> e <= len a ->
  slice a s e = take (Z.to_nat (e - s)) (drop (Z.to_nat s) a).
Proof.
  intros Hs He. unfold slice, clamp.
  replace (s <? 0) with false by lia. replace (e <? 0) with false by lia.
  now rewrite !Z.min_l by lia.
Qed.

Lemma slice_length {A} (a : list A) s e :
  0 <= s <= e -> e <= len a -> len (slice a s e) = e - s.
Proof.
  intros Hs He. rewrite slice_in by assumption. unfold len in *.
  rewrite length_take, length_drop. lia.
Qed.

Lemma slice_map {A B} (f : A -> B) (a : list A) s e :
  slice (map f a) s e = map f (slice a s e).
Proof.
  unfold slice. rewrite len_map.
  now rewrite skipn_map, firstn_map.
Qed.

Lemma trailing_length {A} (l : list A) i period :
  1 <= period -> period - 1 <= i < len l -> len (trailing l i period) = period.
Proof. intros Hp Hi. unfold trailing. rewrite slice_length; lia. Qed.

(** ** Sums and means of finite arrays *)

Lemma fold_fadd_fin l : forall q,
  fold_left fadd (fin l) (Fin q) = Fin (fold_left Qplus l q).
Proof. induction l as [|x l IH]; intros q; simpl; [reflexivity | apply IH]. Qed.

Lemma np_sum_fin l : np_sum (fin l) = Fin (Qsum l).
Proof. apply fold_fadd_fin. Qed.

Lemma inject_Z_nonzero z : z <> 0 -> Qzero_b (inject_Z z) = false.
Proof.
  intros H. unfold Qzero_b. destruct (Qeq_bool (inject_Z z) 0) eqn:E; [|reflexivity].
  apply Qeq_bool_eq in E. unfold Qeq in E; simpl in E. lia.
Qed.

Lemma np_mean_fin l : l <> [] -> np_mean (fin l) = Fin (Qmean l).
Proof.
  intros H. unfold np_mean, Qmean, fin. rewrite len_map.
  fold (fin l). rewrite np_sum_fin. unfold of_Z; simpl.
  rewrite inject_Z_nonzero; [reflexivity|].
  unfold len. destruct l; [contradiction | simpl; lia].
Qed.

(** ** Simple moving average *)

Lemma count_nan_prefix (a : array) : forall m : nat,
  (forall k x, a !! k = Some x -> isna x = (k <? m)%nat) ->
  (m <= length a)%nat ->
  count_nan a = m.
Proof.
  unfold count_nan.
  induction a as [|x a IH]; intros m H Hm; simpl in *; [lia|].
  pose proof (H 0%nat x eq_refl) as H0.
  destruct m as [|m]; simpl in H0; rewrite H0; simpl.
  - apply (IH 0%nat); [|lia]. intros k y Hk. now rewrite (H (S k) y Hk).
  - f_equal. apply (IH m); [|lia]. intros k y Hk. now rewrite (H (S k) y Hk).
Qed.

(** C4.  For a period [P >= 1] and [N >= P] finite closes, [calculate_sma]
    returns an array of length [N] that holds NaN at the indices [0 .. P-2]
    and, at every index [i >= P-1], the arithmetic mean of the [P] closes
    that end at [i]; exactly [P-1] cells are NaN. *)
Theorem sma_warmup_and_mean (prices : list Q) (P : Z) :
  1 <= P <= len prices ->
  exists out,
    calculate_sma (fin prices) P = Ok out /\
    length out = length prices /\
    (forall k, (k < length prices)%nat ->
       out !! k = Some (if Z.of_nat k <? P - 1 then NaN
                        else Fin (Qmean (trailing prices (Z.of_nat k) P))) /\
       (P - 1 <= Z.of_nat k -> len (trailing prices (Z.of_nat k) P) = P)) /\
    Z.of_nat (count_nan out) = P - 1.
Proof.
  intros HP. unfold calculate_sma, rolling. replace (P <? 0) with false by lia.
  eexists. split; [reflexivity|].
  assert (Hlen : length (map (fun i => if (P =? 0) || (i + 1 <? P) then NaN
                  else np_mean (slice (fin prices) (i + 1 - P) (i + 1)))
                  (range 0 (len (fin prices)))) = length prices).
  { rewrite length_map, range_length. unfold fin. rewrite len_map. unfold len. lia. }
  assert (Hcell : forall k, (k < length prices)%nat ->
    map (fun i => if (P =? 0) || (i + 1 <? P) then NaN
                  else np_mean (slice (fin prices) (i + 1 - P) (i + 1)))
        (range 0 (len (fin prices))) !! k =
    Some (if Z.of_nat k <? P - 1 then NaN
          else Fin (Qmean (trailing prices (Z.of_nat k) P)))).
  { intros k Hk.
    rewrite lookup_map, range_lookup
      by (unfold fin; rewrite len_map; unfold len; lia).
    simpl. rewrite Z.add_0_l. replace (P =? 0) with false by lia. simpl.
    destruct (Z.of_nat k <? P - 1) eqn:E.
    - now replace (Z.of_nat k + 1 <? P) with true by lia.
    - replace (Z.of_nat k + 1 <? P) with false by lia.
      unfold fin. rewrite slice_map. fold (fin (slice prices (Z.of_nat k + 1 - P) (Z.of_nat k + 1))).
      rewrite np_mean_fin; [reflexivity|].
      intros Hnil.
      assert (Hl : len (trailing prices (Z.of_nat k) P) = P)
        by (apply trailing_length; unfold len; lia).
      unfold trailing in Hl. rewrite Hnil in Hl. unfold len in Hl; simpl in Hl. lia. }
  split; [exact Hlen|]. split.
  - intros k Hk. split; [now apply Hcell|].
    intros Hge. apply trailing_length; unfold len; lia.
  - rewrite (count_nan_prefix _ (Z.to_nat (P - 1))); [lia | | unfold len in HP; lia].
    intros k x Hx.
    assert (Hk : (k < length prices)%nat)
      by (rewrite <- Hlen; eapply lookup_lt_Some; eauto).
    rewrite (Hcell k Hk) in Hx. injection Hx as <-.
    destruct (Z.of_nat k <? P - 1) eqn:E; simpl; symmetry.
    + apply Nat.ltb_lt. lia.
    + apply Nat.ltb_ge. lia.
Qed.

Lemma sma_warmup_and_mean_witness :
  exists out,
    calculate_sma (fin [1; 2; 3; 4]%Q) 2 = Ok out /\
    out !! 0%nat = Some NaN /\
    out !! 3%nat = Some (Fin (Qmean [3; 4]%Q)).
Proof.
  destruct (sma_warmup_and_mean [1; 2; 3; 4]%Q 2) as (out & Ho & _ & Hc & _);
    [now vm_compute|].
  exists out. split; [exact Ho|]. split.
  - exact (proj1 (Hc 0%nat ltac:(simpl; lia))).
  - exact (proj1 (Hc 3%nat ltac:(simpl; lia))).
Defined.

(** ** Warm-up regions of the loop-based indicators *)

Lemma zip_with_f_length op (a : array) : forall b : array,
  length (zip_with_f op a b) = Nat.min (length a) (length b).
Proof.
  induction a as [|x a IH]; intros [|y b]; simpl; try reflexivity.
  now rewrite IH.
Qed.

Lemma broadcast_same op (a b : array) :
  length a = length b -> broadcast op a b = Ok (zip_with_f op a b).
Proof. intros H. unfold broadcast. now rewrite H, Nat.eqb_refl. Qed.

Lemma getitem_ok (a : array) i :
  0 <= i < len a -> exists x, getitem a i = Ok x /\ a !! Z.to_nat i = Some x.
Proof.
  intros H. destruct (lookup_lt_is_Some_2 a (Z.to_nat i)) as [x Hx];
    [unfold len in H; lia|].
  exists x. split; [apply getitem_in; [lia | exact Hx] | exact Hx].
Qed.

Lemma zero_below_zeros (src : array) lo : zero_below lo (length src) (np_zeros_like src).
Proof.
  split; [apply zeros_length|]. intros k _ Hk. now apply zeros_lookup.
Qed.

Lemma zero_below_insert lo n (a : array) i v :
  lo <= i -> zero_below lo n a -> zero_below lo n (<[Z.to_nat i := v]> a).
Proof.
  intros Hi [Hl Hz]. split; [now rewrite length_insert|].
  intros k Hk Hn. rewrite list_lookup_insert_ne by lia. now apply Hz.
Qed.

Lemma setitem_zero_below lo n (a : array) i v :
  0 <= i < Z.of_nat n -> lo <= i -> zero_below lo n a ->
  exists a', setitem a i v = Ok a' /\ zero_below lo n a'.
Proof.
  intros Hi Hlo Hz. exists (<[Z.to_nat i := v]> a). split.
  - apply setitem_in. destruct Hz as [Hl _]. unfold len. lia.
  - now apply zero_below_insert.
Qed.

Lemma np_arange_length lo hi : length (np_arange lo hi) = Z.to_nat (hi - lo).
Proof. unfold np_arange. now rewrite length_map, range_length. Qed.

Lemma wma_warmup (prices : array) (period : Z) :
  1 <= period <= len prices ->
  exists out, calculate_wma prices period = Ok out /\
    zero_below (period - 1) (length prices) out.
Proof.
  intros Hp. unfold calculate_wma_at, store.
  apply (for_range_ok (fun _ a => zero_below (period - 1) (length prices) a));
    [lia | apply zero_below_zeros |].
  intros i a Hi Hz.
  rewrite broadcast_same; simpl.
  - apply setitem_zero_below; [unfold len in *; lia | lia | exact Hz].
  - rewrite np_arange_length.
    assert (H : len (slice prices (i - (period - 1)) (i + 1)) = period)
      by (rewrite slice_length; lia).
    unfold len in H. lia.
Qed.

Lemma slice_tail_length {A} (a : list A) :
  length (slice a 1 (len a)) = (length a - 1)%nat.
Proof.
  destruct a as [|x a]; [reflexivity|].
  rewrite slice_in by (unfold len; simpl length; lia).
  rewrite length_take, length_drop. unfold len. simpl length. lia.
Qed.

Lemma slice_init_length {A} (a : list A) :
  length (slice a 0 (-1)) = (length a - 1)%nat.
Proof.
  destruct a as [|x a]; [reflexivity|].
  unfold slice, clamp.
  replace (-1 <? 0) with true by reflexivity.
  replace (0 <? 0) with false by reflexivity.
  rewrite length_take, length_drop. unfold len. simpl length. lia.
Qed.

Lemma true_range_length (high low close : array) :
  length high = length close -> length low = length close -> close <> [] ->
  exists tr, true_range high low close = Ok tr /\ length tr = length close.
Proof.
  intros Hh Hl Hne. unfold true_range.
  assert (Hn : (1 <= length close)%nat) by (destruct close; [contradiction | simpl; lia]).
  rewrite (broadcast_same fsub high low) by congruence. simpl.
  rewrite (broadcast_same fsub (slice high 1 (len high)))
    by (rewrite slice_tail_length, slice_init_length; lia). simpl.
  rewrite (broadcast_same fsub (slice low 1 (len low)))
    by (rewrite slice_tail_length, slice_init_length; lia). simpl.
  rewrite broadcast_same; simpl.
  2: { unfold np_abs. rewrite !length_map, !zip_with_f_length,
         !slice_tail_length, !slice_init_length. lia. }
  rewrite broadcast_same; simpl.
  2: { unfold np_abs. rewrite zip_with_f_length. simpl.
       rewrite !zip_with_f_length, !length_map, !zip_with_f_length,
         !slice_tail_length, !slice_init_length. lia. }
  eexists. split; [reflexivity|].
  unfold np_abs. rewrite zip_with_f_length. simpl.
  rewrite !zip_with_f_length, !length_map, !zip_with_f_length,
    !slice_tail_length, !slice_init_length. lia.
Qed.

Lemma atr_warmup (high low close : array) (period : Z) :
  length high = length close -> length low = length close ->
  1 <= period -> period + 1 <= len close ->
  exists out, calculate_atr high low close period = Ok out /\
    zero_below (period - 1) (length close) out.
Proof.
  intros Hh Hl Hp Hn. unfold calculate_atr_at, store.
  destruct (true_range_length high low close Hh Hl) as (tr & -> & Htr).
  { intros ->. unfold len in Hn; simpl in Hn. lia. }
  simpl.
  destruct (setitem_zero_below (period - 1) (length close) (np_zeros_like close)
              (period - 1) (np_mean (slice tr 0 period)))
    as (atr0 & -> & Hz0); [unfold len in Hn; lia | lia | apply zero_below_zeros |].
  simpl.
  apply (for_range_ok (fun _ a => zero_below (period - 1) (length close) a));
    [lia | exact Hz0 |].
  intros i a Hi Hz.
  destruct (getitem_ok a (i - 1)) as (a1 & -> & _);
    [destruct Hz as [Hla _]; unfold len in *; lia|].
  destruct (getitem_ok tr i) as (t & -> & _); [unfold len in *; lia|].
  simpl. apply setitem_zero_below; [unfold len in *; lia | lia | exact Hz].
Qed.

(** ** Loops that write one cell per index *)

Lemma for_range_empty {S} (body : Z -> S -> result S) lo hi s :
  hi <= lo -> for_range lo hi body s = Ok s.
Proof. intros H. unfold for_range. now rewrite range_nil. Qed.

(** A loop whose body writes cell [i] with a value of its own leaves the
    cells below [lo] as they were and puts such a value in every cell of
    [lo .. hi-1]. *)
Lemma pointwise_loop (Q : Z -> f64 -> Prop) (body : Z -> array -> result array)
    lo hi (a0 : array) (n : nat) :
  0 <= lo -> hi <= Z.of_nat n -> length a0 = n ->
  (forall i a, lo <= i < hi -> length a = n ->
     exists v, body i a = Ok (<[Z.to_nat i := v]> a) /\ Q i v) ->
  exists out, for_range lo hi body a0 = Ok out /\ length out = n /\
    (forall k, Z.of_nat k < lo -> out !! k = a0 !! k) /\
    (forall k, lo <= Z.of_nat k < hi -> exists v, out !! k = Some v /\ Q (Z.of_nat k) v).
Proof.
  intros Hlo Hhi Hlen Hbody.
  destruct (Z_le_gt_dec lo hi) as [Hle|Hgt].
  - destruct (for_range_ok
      (fun i a => length a = n /\
         (forall k, Z.of_nat k < lo -> a !! k = a0 !! k) /\
         (forall k, lo <= Z.of_nat k < i -> exists v, a !! k = Some v /\ Q (Z.of_nat k) v))
      body lo hi a0 Hle) as (out & Hout & Hl & Hb & Hv).
    + split; [exact Hlen|]. split; [reflexivity|]. intros k Hk. lia.
    + intros i a Hi (Hl & Hb & Hv).
      destruct (Hbody i a Hi Hl) as (v & -> & HQ).
      eexists. split; [reflexivity|]. split; [now rewrite length_insert|]. split.
      * intros k Hk. rewrite list_lookup_insert_ne by lia. now apply Hb.
      * intros k Hk. destruct (decide (k = Z.to_nat i)) as [->|Hne].
        -- exists v. rewrite list_lookup_insert_eq by lia.
           split; [reflexivity|]. now rewrite Z2Nat.id by lia.
        -- rewrite list_lookup_insert_ne by lia. apply Hv. lia.
    + exists out. auto.
  - rewrite for_range_empty by lia. exists a0.
    split; [reflexivity|]. split; [exact Hlen|]. split; [reflexivity|].
    intros k Hk. lia.
Qed.

(** ** Window extremes *)

Lemma Qmax2_ge a b : (a <= Qmax2 a b /\ b <= Qmax2 a b)%Q.
Proof.
  unfold Qmax2. destruct (Qle_bool b a) eqn:E; simpl.
  - apply Qle_bool_iff in E. split; [apply Qle_refl | exact E].
  - split; [|apply Qle_refl]. apply Qlt_le_weak, Qnot_le_lt.
    intros H. apply Qle_bool_iff in H. congruence.
Qed.

Lemma Qmin2_le a b : (Qmin2 a b <= a /\ Qmin2 a b <= b)%Q.
Proof.
  unfold Qmin2. destruct (Qle_bool a b) eqn:E; simpl.
  - apply Qle_bool_iff in E. split; [apply Qle_refl | exact E].
  - split; [|apply Qle_refl]. apply Qlt_le_weak, Qnot_le_lt.
    intros H. apply Qle_bool_iff in H. congruence.
Qed.

Lemma fold_Qmax2_ge w : forall x,
  (x <= fold_left Qmax2 w x)%Q /\ forall y, In y w -> (y <= fold_left Qmax2 w x)%Q.
Proof.
  induction w as [|z w IH]; intros x; simpl.
  - split; [apply Qle_refl | contradiction].
  - destruct (IH (Qmax2 x z)) as [H1 H2]. destruct (Qmax2_ge x z) as [Hx Hz].
    split; [eapply Qle_trans; eauto|].
    intros y [<-|Hy]; [eapply Qle_trans; eauto | now apply H2].
Qed.

Lemma fold_Qmin2_le w : forall x,
  (fold_left Qmin2 w x <= x)%Q /\ forall y, In y w -> (fold_left Qmin2 w x <= y)%Q.
Proof.
  induction w as [|z w IH]; intros x; simpl.
  - split; [apply Qle_refl | contradiction].
  - destruct (IH (Qmin2 x z)) as [H1 H2]. destruct (Qmin2_le x z) as [Hx Hz].
    split; [eapply Qle_trans; eauto|].
    intros y [<-|Hy]; [eapply Qle_trans; eauto | now apply H2].
Qed.

Lemma Qmaximum_ge w y : In y w -> (y <= Qmaximum w)%Q.
Proof.
  destruct w as [|x w]; [contradiction|]. simpl.
  destruct (fold_Qmax2_ge w x) as [H1 H2]. intros [<-|Hy]; auto.
Qed.

Lemma Qminimum_le w y : In y w -> (Qminimum w <= y)%Q.
Proof.
  destruct w as [|x w]; [contradiction|]. simpl.
  destruct (fold_Qmin2_le w x) as [H1 H2]. intros [<-|Hy]; auto.
Qed.

Lemma np_maximum1_fin x z : np_maximum1 (Fin x) (Fin z) = Fin (Qmax2 x z).
Proof. unfold np_maximum1, Qmax2; simpl. now destruct (Qle_bool z x). Qed.

Lemma np_minimum1_fin x z : np_minimum1 (Fin x) (Fin z) = Fin (Qmin2 x z).
Proof. unfold np_minimum1, Qmin2; simpl. now destruct (Qle_bool x z). Qed.

Lemma fold_maximum_fin w : forall x,
  fold_left np_maximum1 (fin w) (Fin x) = Fin (fold_left Qmax2 w x).
Proof.
  induction w as [|z w IH]; intros x; simpl; [reflexivity|].
  rewrite np_maximum1_fin. apply IH.
Qed.

Lemma fold_minimum_fin w : forall x,
  fold_left np_minimum1 (fin w) (Fin x) = Fin (fold_left Qmin2 w x).
Proof.
  induction w as [|z w IH]; intros x; simpl; [reflexivity|].
  rewrite np_minimum1_fin. apply IH.
Qed.

Lemma np_max_fin w : w <> [] -> np_max (fin w) = Ok (Fin (Qmaximum w)).
Proof.
  destruct w as [|x w]; [contradiction|]. intros _. simpl.
  now rewrite <- fold_maximum_fin.
Qed.

Lemma np_min_fin w : w <> [] -> np_min (fin w) = Ok (Fin (Qminimum w)).
Proof.
  destruct w as [|x w]; [contradiction|]. intros _. simpl.
  now rewrite <- fold_minimum_fin.
Qed.

Lemma fin_lookup (l : list Q) k : fin l !! k = option_map Fin (l !! k).
Proof. apply lookup_map. Qed.

Lemma fin_length (l : list Q) : length (fin l) = length l.
Proof. apply length_map. Qed.

Lemma trailing_nonempty {A} (l : list A) i period :
  1 <= period -> period - 1 <= i < len l -> trailing l i period <> [].
Proof.
  intros Hp Hi Hnil. pose proof (trailing_length l i period Hp Hi) as H.
  rewrite Hnil in H. unfold len in H; simpl in H. lia.
Qed.

(** The window that ends at [i] contains the value at [i]. *)
Lemma trailing_has_current {A} (l : list A) i period x :
  1 <= period -> period - 1 <= i < len l ->
  l !! Z.to_nat i = Some x -> In x (trailing l i period).
Proof.
  intros Hp Hi Hx. unfold trailing. rewrite slice_in by lia.
  apply list_elem_of_In, list_elem_of_lookup.
  exists (Z.to_nat (period - 1)).
  rewrite lookup_take_lt by lia. rewrite lookup_drop.
  now replace (Z.to_nat (i + 1 - period) + Z.to_nat (period - 1))%nat
    with (Z.to_nat i) by lia.
Qed.

Lemma window_extremes_fin (high low : list Q) i period :
  1 <= period -> period - 1 <= i -> i < len high -> i < len low ->
  window_extremes (fin high) (fin low) i period =
  Ok (Fin (Qmaximum (trailing high i period)), Fin (Qminimum (trailing low i period))).
Proof.
  intros Hp Hi Hh Hl. unfold window_extremes.
  replace (i - (period - 1)) with (i + 1 - period) by lia.
  unfold fin at 1. rewrite slice_map. fold (trailing high i period).
  fold (fin (trailing high i period)).
  rewrite np_max_fin by (apply trailing_nonempty; lia). simpl.
  unfold fin at 1. rewrite slice_map. fold (trailing low i period).
  fold (fin (trailing low i period)).
  rewrite np_min_fin by (apply trailing_nonempty; lia). reflexivity.
Qed.

(** ** Williams %R *)

Lemma ratio_in_unit (x y : Q) :
  (0 <= x)%Q -> (x <= y)%Q -> ~ (y == 0)%Q -> (0 <= x / y <= 1)%Q.
Proof.
  intros Hx Hxy Hy.
  assert (Hpos : (0 < y)%Q).
  { destruct (Qlt_le_dec 0 y) as [H|H]; [exact H|].
    exfalso. apply Hy. apply Qle_antisym; [exact H | eapply Qle_trans; eauto]. }
  split.
  - apply Qle_shift_div_l; [exact Hpos | now rewrite Qmult_0_l].
  - apply Qle_shift_div_r; [exact Hpos | now rewrite Qmult_1_l].
Qed.

Lemma Qzero_b_false q : ~ (q == 0)%Q -> Qzero_b q = false.
Proof.
  intros H. unfold Qzero_b. destruct (Qeq_bool q 0) eqn:E; [|reflexivity].
  apply Qeq_bool_eq in E. contradiction.
Qed.

(** C10.  With bars that satisfy [low <= close <= high] and a period of at
    least 1, [calculate_williams_r] returns an array whose value at every
    index [i >= period - 1] lies in [[-100, 0]], and is [-50] when the
    highest high of the window equals its lowest low. *)
Theorem williams_r_bounded (high low close : list Q) (period : Z) :
  length high = length close ->
  length low = length close ->
  (forall k h l c,
     high !! k = Some h -> low !! k = Some l -> close !! k = Some c ->
     (l <= c <= h)%Q) ->
  1 <= period ->
  exists out,
    calculate_williams_r (fin high) (fin low) (fin close) period = Ok out /\
    length out = length close /\
    forall k, period - 1 <= Z.of_nat k < len close ->
      exists q,
        out !! k = Some (Fin q) /\ (-100 <= q <= 0)%Q /\
        ((Qmaximum (trailing high (Z.of_nat k) period) ==
          Qminimum (trailing low (Z.of_nat k) period))%Q -> q = (-50)%Q).
Proof.
  intros Hh Hl Hbar Hp. unfold calculate_williams_r_at, store.
  destruct (pointwise_loop
    (fun i v => exists q, v = Fin q /\ (-100 <= q <= 0)%Q /\
       ((Qmaximum (trailing high i period) == Qminimum (trailing low i period))%Q ->
        q = (-50)%Q))
    (fun i williams_r =>
       let* (highest_high, lowest_low) := window_extremes (fin high) (fin low) i period in
       if fne highest_high lowest_low then
         let* c := getitem (fin close) i in
         setitem williams_r i
           ((highest_high - c) / (highest_high - lowest_low) * Fin (-100))%f
       else setitem williams_r i (Fin (-50)))
    (period - 1) (len (fin close)) (np_zeros_like (fin close)) (length close))
    as (out & Hout & Hlen & _ & Hv).
  - lia.
  - unfold len. rewrite fin_length. lia.
  - now rewrite zeros_length, fin_length.
  - intros i a Hi Hla. unfold len in Hi. rewrite fin_length in Hi.
    rewrite window_extremes_fin by (unfold len; lia). simpl.
    destruct (lookup_lt_is_Some_2 close (Z.to_nat i) ltac:(lia)) as [c Hc].
    destruct (lookup_lt_is_Some_2 high (Z.to_nat i) ltac:(lia)) as [h Hhi].
    destruct (lookup_lt_is_Some_2 low (Z.to_nat i) ltac:(lia)) as [l Hlo].
    destruct (Hbar _ _ _ _ Hhi Hlo Hc) as [Hlc Hch].
    pose proof (Qmaximum_ge _ h
      (trailing_has_current high i period h Hp ltac:(unfold len; lia) Hhi)) as Hmax.
    pose proof (Qminimum_le _ l
      (trailing_has_current low i period l Hp ltac:(unfold len; lia) Hlo)) as Hmin.
    generalize dependent (Qmaximum (trailing high i period)). intros hh Hmax.
    generalize dependent (Qminimum (trailing low i period)). intros ll Hmin.
    unfold fne; simpl. destruct (Qeq_bool hh ll) eqn:E; simpl.
    + rewrite setitem_in by (unfold len; lia).
      eexists. split; [reflexivity|]. exists (-50)%Q.
      split; [reflexivity|].
      split; [split; apply Qle_bool_iff; reflexivity | reflexivity].
    + assert (Hne : ~ (hh == ll)%Q)
        by (intros H; apply Qeq_bool_iff in H; congruence).
      rewrite (getitem_in (fin close) i (Fin c))
        by (try lia; rewrite fin_lookup, Hc; reflexivity).
      simpl. rewrite Qzero_b_false by (intros H; apply Hne; lra).
      rewrite setitem_in by (unfold len; lia).
      eexists. split; [reflexivity|]. eexists. split; [reflexivity|].
      split; [|intros H; contradiction].
      destruct (ratio_in_unit (hh + - c) (hh + - ll)) as [H0 H1]; [lra | lra | lra |].
      lra.
  - exists out. split; [exact Hout|]. split; [exact Hlen|].
    intros k Hk.
    destruct (Hv k) as (v & Hk1 & q & -> & Hb & He);
      [unfold len in *; rewrite fin_length; lia|].
    exists q. auto.
Qed.

Lemma williams_r_bounded_witness :
  exists out,
    calculate_williams_r (fin [3; 4; 4]%Q) (fin [1; 2; 4]%Q) (fin [2; 3; 4]%Q) 1
      = Ok out /\
    exists q, out !! 2%nat = Some (Fin q) /\ (-100 <= q <= 0)%Q /\ q = (-50)%Q.
Proof.
  destruct (williams_r_bounded [3; 4; 4]%Q [1; 2; 4]%Q [2; 3; 4]%Q 1)
    as (out & Ho & _ & Hv); [reflexivity | reflexivity | | lia |].
  - intros [|[|[|k]]] h l c Hh Hl Hc; simpl in *;
      try discriminate; injection Hh as <-; injection Hl as <-; injection Hc as <-;
      split; discriminate.
  - exists out. split; [exact Ho|].
    destruct (Hv 2%nat ltac:(now vm_compute)) as (q & Hq & Hb & He).
    exists q. split; [exact Hq|]. split; [exact Hb|]. apply He. reflexivity.
Defined.

(** ** Relative strength index *)

Lemma slice_Forall {A} (P : A -> Prop) (a : list A) s e :
  Forall P a -> Forall P (slice a s e).
Proof. intros H. unfold slice. now apply Forall_take, Forall_drop. Qed.

Lemma zip_with_f_Forall (P Q R : f64 -> Prop) op (a : array) : forall b : array,
  (forall x y, P x -> Q y -> R (op x y)) ->
  Forall P a -> Forall Q b -> Forall R (zip_with_f op a b).
Proof.
  induction a as [|x a IH]; intros [|y b] Hop Ha Hb; simpl; try constructor.
  - apply Hop; [now inversion Ha | now inversion Hb].
  - apply IH; [exact Hop | now inversion Ha | now inversion Hb].
Qed.

Lemma np_diff_no_inf (a : array) : Forall no_inf a -> Forall no_inf (np_diff a).
Proof.
  intros H. unfold np_diff.
  apply (zip_with_f_Forall no_inf no_inf no_inf); try now apply slice_Forall.
  intros [p| |] [q| |]; simpl; tauto.
Qed.

Lemma np_diff_length (a : array) : length (np_diff a) = (length a - 1)%nat.
Proof.
  unfold np_diff. rewrite zip_with_f_length, slice_tail_length, slice_init_length. lia.
Qed.

Lemma rsi_gains_length (prices : array) :
  prices <> [] -> length (rsi_gains prices) = length prices.
Proof.
  intros H. unfold rsi_gains, np_where.
  rewrite length_map, length_app, np_diff_length. simpl.
  destruct prices; [contradiction | simpl; lia].
Qed.

Lemma rsi_losses_length (prices : array) :
  prices <> [] -> length (rsi_losses prices) = length prices.
Proof.
  intros H. unfold rsi_losses, np_where.
  rewrite length_map, length_app, np_diff_length. simpl.
  destruct prices; [contradiction | simpl; lia].
Qed.

Lemma Qle_bool_false a b : Qle_bool a b = false -> (b < a)%Q.
Proof.
  intros H. apply Qnot_le_lt. intros Hle. apply Qle_bool_iff in Hle. congruence.
Qed.

Lemma deltas_no_inf (prices : array) :
  Forall no_inf prices -> Forall no_inf (np_diff prices ++ [Fin 0])%list.
Proof.
  intros H. apply Forall_app. split; [now apply np_diff_no_inf|].
  constructor; [exact I | constructor].
Qed.

(** A NaN delta compares false both ways and counts as neither gain nor
    loss. *)
Lemma rsi_gains_nonneg (prices : array) :
  Forall no_inf prices -> Forall nonneg (rsi_gains prices).
Proof.
  intros Hp. unfold rsi_gains, np_where. apply Forall_map.
  eapply Forall_impl; [exact (deltas_no_inf prices Hp)|].
  intros [d| |] Hx; [|contradiction|]; unfold fgt; simpl.
  - destruct (Qle_bool d 0) eqn:E; simpl.
    + exists 0%Q. split; [reflexivity | apply Qle_refl].
    + exists d. split; [reflexivity|]. apply Qlt_le_weak. now apply Qle_bool_false.
  - exists 0%Q. split; [reflexivity | apply Qle_refl].
Qed.

Lemma rsi_losses_nonneg (prices : array) :
  Forall no_inf prices -> Forall nonneg (rsi_losses prices).
Proof.
  intros Hp. unfold rsi_losses, np_where. apply Forall_map.
  eapply Forall_impl; [exact (deltas_no_inf prices Hp)|].
  intros [d| |] Hx; [|contradiction|]; simpl.
  - destruct (Qle_bool 0 d) eqn:E; simpl.
    + exists 0%Q. split; [reflexivity | apply Qle_refl].
    + exists (- d)%Q. split; [reflexivity|].
      apply Qle_bool_false in E. lra.
  - exists 0%Q. split; [reflexivity | apply Qle_refl].
Qed.

Lemma fold_fadd_nonneg (l : array) : forall acc,
  nonneg acc -> Forall nonneg l -> nonneg (fold_left fadd l acc).
Proof.
  induction l as [|x l IH]; intros acc Hacc Hl; simpl; [exact Hacc|].
  inversion Hl as [|? ? Hx Hl']; subst. apply IH; [|exact Hl'].
  destruct Hacc as (a & -> & Ha), Hx as (b & -> & Hb).
  exists (a + b)%Q. split; [reflexivity | lra].
Qed.

Lemma np_mean_nonneg (l : array) :
  l <> [] -> Forall nonneg l -> nonneg (np_mean l).
Proof.
  intros Hne Hl. unfold np_mean, np_sum.
  destruct (fold_fadd_nonneg l (Fin 0)) as (s & -> & Hs);
    [exists 0%Q; split; [reflexivity | apply Qle_refl] | exact Hl |].
  unfold of_Z; simpl.
  assert (Hpos : 0 < len l) by (unfold len; destruct l; [contradiction | simpl; lia]).
  rewrite inject_Z_nonzero by lia.
  eexists. split; [reflexivity|].
  apply Qle_shift_div_l; [|now rewrite Qmult_0_l].
  change 0%Q with (inject_Z 0). rewrite <- Zlt_Qlt. exact Hpos.
Qed.

Lemma wilder_nonneg prev x period :
  1 <= period -> nonneg prev -> nonneg x -> nonneg (wilder prev x period).
Proof.
  intros Hp (p & -> & Hp0) (y & -> & Hy). unfold wilder, of_Z; simpl.
  rewrite inject_Z_nonzero by lia.
  eexists. split; [reflexivity|].
  assert (H1 : (0 <= inject_Z (period - 1))%Q)
    by (change 0%Q with (inject_Z 0); rewrite <- Zle_Qle; lia).
  assert (H2 : (0 < inject_Z period)%Q)
    by (change 0%Q with (inject_Z 0); rewrite <- Zlt_Qlt; lia).
  apply Qle_shift_div_l; [exact H2|]. rewrite Qmult_0_l.
  pose proof (Qmult_le_0_compat _ _ Hp0 H1). lra.
Qed.

Lemma rsi_cell_bounded g l :
  nonneg g -> nonneg l ->
  exists q lq, rsi_cell g l = Fin q /\ l = Fin lq /\ (0 <= q <= 100)%Q /\
    ((lq == 0)%Q -> q = 100%Q).
Proof.
  intros (a & -> & Ha) (b & -> & Hb). unfold rsi_cell; simpl.
  destruct (Qeq_bool b 0) eqn:E.
  - exists 100%Q, b. split; [reflexivity|]. split; [reflexivity|].
    split; [split; apply Qle_bool_iff; reflexivity | reflexivity].
  - assert (Hb0 : ~ (b == 0)%Q) by (intros H; apply Qeq_bool_iff in H; congruence).
    rewrite (Qzero_b_false b Hb0).
    assert (Hbpos : (0 < b)%Q) by lra.
    assert (Hr : (0 <= a / b)%Q)
      by (apply Qle_shift_div_l; [exact Hbpos | now rewrite Qmult_0_l]).
    rewrite Qzero_b_false by lra.
    eexists. exists b. split; [reflexivity|]. split; [reflexivity|].
    split; [|intros H; contradiction].
    assert (Hd : (0 < 1 + a / b)%Q) by lra.
    assert (H1 : (0 <= 100 / (1 + a / b))%Q)
      by (apply Qle_shift_div_l; [exact Hd | rewrite Qmult_0_l; lra]).
    assert (H2 : (100 / (1 + a / b) <= 100)%Q)
      by (apply Qle_shift_div_r; [exact Hd | lra]).
    lra.
Qed.

Lemma lookup_In {A} (l : list A) k x : l !! k = Some x -> In x l.
Proof. intros H. apply list_elem_of_In. eapply list_elem_of_lookup_2; eauto. Qed.

Section WilderAverages.

  (** A series longer than the period, and a property of cells that holds
      of the two seed means and is kept by Wilder's recurrence. *)
  Variable Good : f64 -> Prop.
  Variable prices : array.
  Variable period : Z.
  Hypothesis Hp : 1 <= period < len prices.
  Hypothesis Hg0 : Good (np_mean (slice (rsi_gains prices) 0 period)).
  Hypothesis Hl0 : Good (np_mean (slice (rsi_losses prices) 0 period)).
  Hypothesis Hstep :
    forall prev x, Good prev ->
      In x (rsi_gains prices) \/ In x (rsi_losses prices) ->
      Good (wilder prev x period).

(** Both loops of the averages run to the end, and the property holds of
    every average from index [period] on. *)
Lemma rsi_averages_inv :
  exists ag al,
    rsi_averages prices period = Ok (ag, al) /\
    length ag = length prices /\ length al = length prices /\
    forall k, period <= Z.of_nat k < len prices ->
      exists g l, ag !! k = Some g /\ al !! k = Some l /\ Good g /\ Good l.
Proof.
  unfold rsi_averages_at, store. cbv zeta.
  fold (rsi_gains prices). fold (rsi_losses prices).
  assert (Hne : prices <> []) by (intros ->; unfold len in Hp; simpl in Hp; lia).
  pose proof (rsi_gains_length prices Hne) as Hgl.
  pose proof (rsi_losses_length prices Hne) as Hll.
  rewrite !setitem_in by (unfold len in *; rewrite zeros_length; lia).
  cbn [bind].
  match goal with
  | |- context [for_range ?lo ?hi ?body ?s] =>
      destruct (for_range_ok
        (fun i (st : array * array) =>
           length (fst st) = length prices /\ length (snd st) = length prices /\
           forall k, period <= Z.of_nat k < i ->
             exists g l, fst st !! k = Some g /\ snd st !! k = Some l /\ Good g /\ Good l)
        body lo hi s) as ([ag al] & Hrun & Hla & Hlb & Hv)
  end.
  - lia.
  - cbn [fst snd]. rewrite !length_insert, zeros_length.
    split; [reflexivity|]. split; [reflexivity|].
    intros k Hk. replace k with (Z.to_nat period) by lia.
    rewrite !list_lookup_insert_eq by (rewrite zeros_length; unfold len in Hp; lia).
    eexists. eexists. split; [reflexivity|]. split; [reflexivity|]. split; assumption.
  - intros i [ag al] Hi (Hla & Hlb & Hv). cbn [fst snd] in *.
    destruct (Hv (Z.to_nat (i - 1))) as (g1 & l1 & Hg1 & Hl1 & HGg & HGl); [lia|].
    rewrite (getitem_in ag (i - 1) g1) by (lia || assumption). cbn [bind].
    destruct (getitem_ok (rsi_gains prices) i) as (g & -> & Hg);
      [unfold len in *; lia|]. cbn [bind].
    rewrite setitem_in by (unfold len in *; lia). cbn [bind].
    rewrite (getitem_in al (i - 1) l1) by (lia || assumption). cbn [bind].
    destruct (getitem_ok (rsi_losses prices) i) as (l & -> & Hl);
      [unfold len in *; lia|]. cbn [bind].
    rewrite setitem_in by (unfold len in *; lia). cbn [bind].
    eexists. split; [reflexivity|]. cbn [fst snd]. rewrite !length_insert.
    split; [exact Hla|]. split; [exact Hlb|].
    intros k Hk. destruct (decide (k = Z.to_nat i)) as [->|Hki].
    + rewrite !list_lookup_insert_eq by (unfold len in *; lia).
      eexists. eexists. split; [reflexivity|]. split; [reflexivity|].
      split; apply Hstep; eauto using lookup_In.
    + rewrite !list_lookup_insert_ne by lia. apply Hv. lia.
  - exists ag, al. cbn [fst snd] in *. auto.
Qed.

(** What [calculate_rsi] returns on a series longer than the period: zero
    below index [period], and from there on the value [rsi_cell] of the two
    Wilder averages. *)
Lemma rsi_structure :
  exists ag al out,
    rsi_averages prices period = Ok (ag, al) /\
    calculate_rsi prices period = Ok out /\
    zero_below period (length prices) out /\
    forall k, period <= Z.of_nat k < len prices ->
      exists g l, ag !! k = Some g /\ al !! k = Some l /\ Good g /\ Good l /\
        out !! k = Some (rsi_cell g l).
Proof.
  destruct rsi_averages_inv as (ag & al & Havg & Hla & Hlb & Hv).
  exists ag, al. unfold calculate_rsi_at, store. rewrite Havg. cbn [bind].
  match goal with
  | |- context [for_range ?lo ?hi ?body ?s] =>
      destruct (for_range_ok
        (fun i (st : array * array) =>
           length (fst st) = length prices /\
           zero_below period (length prices) (snd st) /\
           forall k, period <= Z.of_nat k < i ->
             exists g l, ag !! k = Some g /\ al !! k = Some l /\ Good g /\ Good l /\
               snd st !! k = Some (rsi_cell g l))
        body lo hi s) as ([rs rsi] & Hrun & Hlr & Hz & Hout)
  end.
  - lia.
  - cbn [fst snd]. split; [apply zeros_length|]. split; [apply zero_below_zeros|].
    intros k Hk. lia.
  - intros i [rs rsi] Hi (Hlr & Hz & Hout). cbn [fst snd] in *.
    destruct (Hv (Z.to_nat i)) as (g & l & Hg & Hl & HGg & HGl); [lia|].
    rewrite (getitem_in al i l) by (lia || assumption). cbn [bind].
    assert (Hli : 0 <= i < len rsi) by (destruct Hz as [Hz _]; unfold len in *; lia).
    assert (Hkeep : forall v k, period <= Z.of_nat k < i + 1 ->
      v = rsi_cell g l ->
      exists g' l', ag !! k = Some g' /\ al !! k = Some l' /\ Good g' /\ Good l' /\
        <[Z.to_nat i := v]> rsi !! k = Some (rsi_cell g' l')).
    { intros v k Hk ->. destruct (decide (k = Z.to_nat i)) as [->|Hki].
      - exists g, l. rewrite list_lookup_insert_eq by (unfold len in *; lia). auto.
      - rewrite list_lookup_insert_ne by lia. apply Hout. lia. }
    destruct (feq l (Fin 0)) eqn:E.
    + rewrite setitem_in by exact Hli. cbn [bind].
      eexists. split; [reflexivity|]. cbn [fst snd].
      split; [exact Hlr|]. split; [apply zero_below_insert; [lia | exact Hz]|].
      intros k Hk. apply Hkeep; [exact Hk|]. unfold rsi_cell. now rewrite E.
    + rewrite (getitem_in ag i g) by (lia || assumption). cbn [bind].
      rewrite setitem_in by (unfold len in *; lia). cbn [bind].
      rewrite (getitem_in (<[Z.to_nat i := (g / l)%f]> rs) i (g / l)%f)
        by (try lia; apply list_lookup_insert_eq; unfold len in *; lia).
      cbn [bind]. rewrite setitem_in by exact Hli. cbn [bind].
      eexists. split; [reflexivity|]. cbn [fst snd]. rewrite length_insert.
      split; [exact Hlr|]. split; [apply zero_below_insert; [lia | exact Hz]|].
      intros k Hk. apply Hkeep; [exact Hk|]. unfold rsi_cell. now rewrite E.
  - cbn [fst snd] in *. rewrite Hrun. cbn [bind]. exists rsi.
    split; [reflexivity|]. split; [reflexivity|]. split; [exact Hz | exact Hout].
Qed.

End WilderAverages.

Lemma rsi_short_series (prices : array) (period : Z) :
  0 <= period -> len prices <= period ->
  calculate_rsi prices period = Raise IndexError.
Proof.
  intros H0 H. unfold calculate_rsi_at, rsi_averages_at, store. cbv zeta.
  rewrite setitem_out; [reflexivity | exact H0 |].
  unfold len in *. now rewrite zeros_length.
Qed.

(** C5.  For a period of at least 1 and prices that are finite numbers or
    NaN, [calculate_rsi] raises IndexError when the series has no index
    [period]; otherwise it returns an array whose value at every index
    [>= period] lies in [[0, 100]] and is 100 whenever the smoothed average
    loss at that index is zero. *)
Theorem rsi_bounded (prices : array) (period : Z) :
  Forall no_inf prices ->
  1 <= period ->
  (len prices <= period -> calculate_rsi prices period = Raise IndexError) /\
  (period < len prices ->
   exists avg_gains avg_losses out,
     rsi_averages prices period = Ok (avg_gains, avg_losses) /\
     calculate_rsi prices period = Ok out /\
     length out = length prices /\
     forall k, period <= Z.of_nat k < len prices ->
       exists q l,
         out !! k = Some (Fin q) /\ (0 <= q <= 100)%Q /\
         avg_losses !! k = Some (Fin l) /\ ((l == 0)%Q -> q = 100%Q)).
Proof.
  intros Hfin Hp. split.
  - intros H. apply rsi_short_series; [lia | exact H].
  - intros Hn.
    assert (Hne : prices <> [])
      by (intros ->; unfold len in Hn; simpl in Hn; lia).
    destruct (rsi_structure nonneg prices period)
      as (ag & al & out & Havg & Hout & [Hlen _] & Hv).
    + lia.
    + apply np_mean_nonneg; [|now apply slice_Forall, rsi_gains_nonneg].
      intros Hnil.
      assert (H : len (slice (rsi_gains prices) 0 period) = period - 0).
      { apply slice_length; [lia|]. unfold len.
        rewrite rsi_gains_length by exact Hne. unfold len in Hn. lia. }
      rewrite Hnil in H. unfold len in H; simpl in H. lia.
    + apply np_mean_nonneg; [|now apply slice_Forall, rsi_losses_nonneg].
      intros Hnil.
      assert (H : len (slice (rsi_losses prices) 0 period) = period - 0).
      { apply slice_length; [lia|]. unfold len.
        rewrite rsi_losses_length by exact Hne. unfold len in Hn. lia. }
      rewrite Hnil in H. unfold len in H; simpl in H. lia.
    + intros prev x Hprev Hx. apply wilder_nonneg; [exact Hp | exact Hprev |].
      destruct Hx as [Hx|Hx].
      * pose proof (rsi_gains_nonneg prices Hfin) as H.
        rewrite Forall_forall in H. apply H. now apply list_elem_of_In.
      * pose proof (rsi_losses_nonneg prices Hfin) as H.
        rewrite Forall_forall in H. apply H. now apply list_elem_of_In.
    + exists ag, al, out. split; [exact Havg|]. split; [exact Hout|].
      split; [exact Hlen|].
      intros k Hk.
      destruct (Hv k Hk) as (g & l & Hg & Hl & HGg & HGl & Hcell).
      destruct (rsi_cell_bounded g l HGg HGl) as (q & lq & Hq & -> & Hb & Hz).
      exists q, lq. rewrite Hcell, Hq. auto.
Qed.

Lemma rsi_bounded_witness :
  exists avg_gains avg_losses out,
    rsi_averages [Fin 1; Fin 2; NaN; Fin 2; Fin 5; Fin 6] 2 = Ok (avg_gains, avg_losses) /\
    calculate_rsi [Fin 1; Fin 2; NaN; Fin 2; Fin 5; Fin 6] 2 = Ok out /\
    exists q l,
      out !! 3%nat = Some (Fin q) /\ (0 <= q <= 100)%Q /\
      avg_losses !! 3%nat = Some (Fin l) /\ ((l == 0)%Q -> q = 100%Q).
Proof.
  destruct (proj2 (rsi_bounded [Fin 1; Fin 2; NaN; Fin 2; Fin 5; Fin 6] 2
                     ltac:(repeat constructor) ltac:(lia)) ltac:(reflexivity))
    as (ag & al & out & Ha & Ho & _ & Hv).
  exists ag, al, out. split; [exact Ha|]. split; [exact Ho|].
  apply (Hv 3%nat). now vm_compute.
Defined.

(** ** Warm-up regions: Williams %R, MFI, and the summary for C2 *)

Lemma np_max_ok (a : array) : a <> [] -> exists x, np_max a = Ok x.
Proof. destruct a; [contradiction | intros _; simpl; eauto]. Qed.

Lemma np_min_ok (a : array) : a <> [] -> exists x, np_min a = Ok x.
Proof. destruct a; [contradiction | intros _; simpl; eauto]. Qed.

Lemma slice_nonempty {A} (a : list A) s e :
  0 <= s < e -> e <= len a -> slice a s e <> [].
Proof.
  intros Hs He Hnil. pose proof (slice_length a s e ltac:(lia) He) as H.
  rewrite Hnil in H. unfold len in H; simpl in H. lia.
Qed.

Lemma williams_warmup (high low close : array) (period : Z) :
  length high = length close -> length low = length close ->
  1 <= period <= len close ->
  exists out, calculate_williams_r high low close period = Ok out /\
    zero_below (period - 1) (length close) out.
Proof.
  intros Hh Hl Hp. unfold calculate_williams_r_at, store.
  apply (for_range_ok (fun _ a => zero_below (period - 1) (length close) a));
    [lia | apply zero_below_zeros |].
  intros i a Hi Hz. unfold window_extremes.
  destruct (np_max_ok (slice high (i - (period - 1)) (i + 1))) as [hh ->];
    [apply slice_nonempty; unfold len in *; lia|].
  destruct (np_min_ok (slice low (i - (period - 1)) (i + 1))) as [ll ->];
    [apply slice_nonempty; unfold len in *; lia|].
  cbn [bind].
  destruct (fne hh ll).
  - destruct (getitem_ok close i) as (c & -> & _); [lia|]. cbn [bind].
    apply setitem_zero_below; [unfold len in *; lia | lia | exact Hz].
  - apply setitem_zero_below; [unfold len in *; lia | lia | exact Hz].
Qed.

Lemma typical_price_length (high low close : array) :
  length high = length close -> length low = length close ->
  exists tp, typical_price high low close = Ok tp /\ length tp = length close.
Proof.
  intros Hh Hl. unfold typical_price.
  rewrite (broadcast_same fadd high low) by congruence. cbn [bind].
  rewrite broadcast_same by (rewrite zip_with_f_length; lia). cbn [bind].
  eexists. split; [reflexivity|].
  unfold scalar. rewrite length_map, !zip_with_f_length. lia.
Qed.

Lemma shifted_length (a : array) : length (shifted a) = length a.
Proof.
  destruct a as [|x a]; [reflexivity|]. unfold shifted.
  cbn [length]. rewrite slice_init_length. simpl. lia.
Qed.

Lemma mfi_warmup (high low close volume : array) (period : Z) :
  length high = length close -> length low = length close ->
  length volume = length close ->
  1 <= period -> period + 1 <= len close ->
  exists out, calculate_mfi high low close volume period = Ok out /\
    zero_below period (length close) out.
Proof.
  intros Hh Hl Hvol Hp Hn. unfold calculate_mfi_at, store.
  destruct (typical_price_length high low close Hh Hl) as (tp & -> & Htp).
  cbn [bind].
  rewrite broadcast_same by congruence. cbn [bind].
  match goal with
  | |- context [for_range ?lo ?hi ?body ?s] =>
      destruct (for_range_ok
        (fun _ (st : array * array) =>
           length (fst st) = length close /\ length (snd st) = length close)
        body lo hi s) as ([pf nf] & -> & _)
  end.
  - lia.
  - cbn [fst snd]. rewrite !zeros_length, zip_with_f_length. lia.
  - intros i [pf nf] Hi [Hpf Hnf]. cbn [fst snd] in *.
    destruct (getitem_ok tp i) as (t & -> & _); [unfold len in *; lia|].
    destruct (getitem_ok (shifted tp) i) as (ps & -> & _);
      [unfold len in *; rewrite shifted_length; lia|].
    cbn [bind].
    destruct (getitem_ok (zip_with_f fmul tp volume) i) as (mf & Hmf & _);
      [unfold len in *; rewrite zip_with_f_length; lia|].
    destruct (fgt t ps); [|destruct (flt t ps)].
    + rewrite Hmf. cbn [bind].
      rewrite setitem_in by (unfold len in *; lia). cbn [bind].
      eexists. split; [reflexivity|]. cbn [fst snd]. now rewrite length_insert.
    + rewrite Hmf. cbn [bind].
      rewrite setitem_in by (unfold len in *; lia). cbn [bind].
      eexists. split; [reflexivity|]. cbn [fst snd]. now rewrite length_insert.
    + eexists. split; [reflexivity|]. cbn [fst snd]. auto.
  - cbn [bind].
    apply (for_range_ok (fun _ a => zero_below period (length close) a));
      [lia | apply zero_below_zeros |].
    intros i a Hi Hz.
    destruct (feq _ (Fin 0));
      (apply setitem_zero_below; [unfold len in *; lia | lia | exact Hz]).
Qed.

Lemma sma_warmup (prices : array) (period : Z) :
  1 <= period ->
  exists out, calculate_sma prices period = Ok out /\
    length out = length prices /\
    forall k, (k < length prices)%nat -> Z.of_nat k < period - 1 ->
      out !! k = Some NaN.
Proof.
  intros Hp. unfold calculate_sma, rolling. replace (period <? 0) with false by lia.
  eexists. split; [reflexivity|]. split.
  - rewrite length_map, range_length. unfold len. lia.
  - intros k Hk Hlt. rewrite lookup_map, range_lookup by (unfold len; lia).
    simpl. rewrite Z.add_0_l.
    replace (Z.of_nat k + 1 <? period) with true by lia.
    now rewrite orb_true_r.
Qed.

Lemma rsi_warmup (prices : array) (period : Z) :
  1 <= period -> period + 1 <= len prices ->
  exists out, calculate_rsi prices period = Ok out /\
    zero_below period (length prices) out.
Proof.
  intros Hp Hn.
  destruct (rsi_structure (fun _ => True) prices period)
    as (ag & al & out & _ & Hout & Hz & _); auto; [lia|].
  exists out. auto.
Qed.

(** C2, counterexample.  On series that pass the gate, the warm-up cells of
    WMA(3), RSI(2) and ATR(2) hold the number 0, which is not the absent
    marker. *)
Lemma warmup_of_wma_rsi_atr_is_zero :
  isna (Fin 0) = false /\
  match calculate_wma (fin [1; 2; 3; 4]%Q) 3 with
  | Ok out => out !! 0%nat = Some (Fin 0) /\ out !! 1%nat = Some (Fin 0)
  | Raise _ => False
  end /\
  match calculate_rsi (fin [1; 2; 3; 2; 5; 6]%Q) 2 with
  | Ok out => out !! 0%nat = Some (Fin 0) /\ out !! 1%nat = Some (Fin 0)
  | Raise _ => False
  end /\
  match calculate_atr (fin [3; 4; 5; 6]%Q) (fin [1; 2; 3; 4]%Q) (fin [2; 3; 4; 5]%Q) 2 with
  | Ok out => out !! 0%nat = Some (Fin 0)
  | Raise _ => False
  end.
Proof. repeat split; reflexivity. Qed.

(** ** Volume weighted average price *)

Lemma zip_fmul_fin (a : list Q) : forall b,
  zip_with_f fmul (fin a) (fin b) = fin (Qproducts a b).
Proof.
  induction a as [|x a IH]; intros [|y b]; simpl; try reflexivity.
  f_equal. apply IH.
Qed.

Lemma Qproducts_length (a : list Q) : forall b,
  length a = length b -> length (Qproducts a b) = length a.
Proof.
  induction a as [|x a IH]; intros [|y b] H; simpl in *; try lia.
  f_equal. apply IH. lia.
Qed.

Lemma cumsum_from_lookup (l : list Q) : forall acc k,
  (k < length l)%nat ->
  cumsum_from (Fin acc) (fin l) !! k = Some (Fin (fold_left Qplus (take (S k) l) acc)).
Proof.
  induction l as [|x l IH]; intros acc k Hk; simpl in *; [lia|].
  destruct k as [|k]; simpl.
  - reflexivity.
  - apply IH. lia.
Qed.

Lemma cumsum_from_length (a : array) : forall acc,
  length (cumsum_from acc a) = length a.
Proof. induction a as [|x a IH]; intros acc; simpl; [reflexivity | now rewrite IH]. Qed.

Lemma zip_with_f_lookup op (a : array) : forall (b : array) k x y,
  a !! k = Some x -> b !! k = Some y ->
  zip_with_f op a b !! k = Some (op x y).
Proof.
  induction a as [|x0 a IH]; intros [|y0 b] [|k] x y Ha Hb; simpl in *;
    try discriminate.
  - now injection Ha as <-; injection Hb as <-.
  - now apply IH.
Qed.

(** C8, counterexample.  Cumulative mode, prices 10, 20, 30 with volumes
    0, 0, 2: where the cumulative volume is zero the output is 0 (the
    cumulative price x volume divided by 1), not the price 10 or 20. *)
Lemma cumulative_vwap_zero_volume :
  match calculate_vwap (fin [10; 20; 30]%Q) (fin [0; 0; 2]%Q) None with
  | Ok out =>
      exists q0 q1,
        out !! 0%nat = Some (Fin q0) /\ out !! 1%nat = Some (Fin q1) /\
        (q0 == 0)%Q /\ (q1 == 0)%Q /\ ~ (q0 == 10)%Q /\ ~ (q1 == 20)%Q
  | Raise _ => False
  end.
Proof.
  vm_compute. eexists. eexists. split; [reflexivity|]. split; [reflexivity|].
  repeat split; discriminate.
Qed.

(** ** MACD on rising closes *)

Lemma ewm_from_fin a xs : forall w,
  ewm_from a (Fin w) (Fin 1) (fin xs) = fin (ema_from a w xs).
Proof.
  induction xs as [|x xs IH]; intros w; [reflexivity|].
  cbn [fin map ewm_from isna fmul fadd fdiv ema_from].
  rewrite Qzero_b_false by (intros H; lra).
  fold (ema_step a w x). f_equal. apply IH.
Qed.

Lemma ewm_mean_fin xs span :
  1 <= span -> ewm_mean (fin xs) span = Ok (fin (ema_q (alpha span) xs)).
Proof.
  intros H. unfold ewm_mean. replace (span <? 1) with false by lia.
  destruct xs as [|x xs]; [reflexivity|]. cbn [fin map ema_q].
  f_equal. f_equal. apply ewm_from_fin.
Qed.

Lemma zip_fsub_fin (a : list Q) : forall b,
  zip_with_f fsub (fin a) (fin b) = fin (Qdiffs a b).
Proof.
  induction a as [|x a IH]; intros [|y b]; simpl; try reflexivity.
  f_equal. apply IH.
Qed.

Lemma ema_from_length a xs : forall w, length (ema_from a w xs) = length xs.
Proof. induction xs as [|x xs IH]; intros w; simpl; [reflexivity | now rewrite IH]. Qed.

Lemma ema_q_length a xs : length (ema_q a xs) = length xs.
Proof. destruct xs; simpl; [reflexivity | now rewrite ema_from_length]. Qed.

Lemma Qdiffs_length (a : list Q) : forall b,
  length a = length b -> length (Qdiffs a b) = length a.
Proof.
  induction a as [|x a IH]; intros [|y b] H; simpl in *; try lia.
  f_equal. apply IH. lia.
Qed.

Lemma macd_line_q_length closes : length (macd_line_q closes) = length closes.
Proof.
  unfold macd_line_q. rewrite Qdiffs_length; rewrite !ema_q_length; reflexivity.
Qed.

(** On finite closes MACD(12, 26, 9) returns, and its line is [macd_line_q]. *)
Lemma calculate_macd_fin closes :
  exists m, calculate_macd (fin closes) 12 26 9 = Ok m /\
    macd_macd m = fin (macd_line_q closes).
Proof.
  unfold calculate_macd, calculate_ema.
  rewrite !ewm_mean_fin by lia. cbn [bind].
  rewrite broadcast_same by (rewrite !fin_length, !ema_q_length; reflexivity).
  cbn [bind]. rewrite zip_fsub_fin. fold (macd_line_q closes).
  rewrite ewm_mean_fin by lia. cbn [bind].
  rewrite broadcast_same by (rewrite !fin_length, ema_q_length; reflexivity).
  cbn [bind]. eexists. split; reflexivity.
Qed.

Lemma ema_step_12 w x : (ema_step (alpha 12) w x == (11 # 13) * w + (2 # 13) * x)%Q.
Proof. unfold ema_step, alpha. simpl inject_Z. field. Qed.

Lemma ema_step_26 w x : (ema_step (alpha 26) w x == (25 # 27) * w + (2 # 27) * x)%Q.
Proof. unfold ema_step, alpha. simpl inject_Z. field. Qed.

(** The slow mean stays below the fast mean and below the price. *)
Lemma macd_positive_from xs : forall x f s,
  (s <= f)%Q -> (s <= x)%Q -> increasing (x :: xs) ->
  Forall (fun q => (0 < q)%Q)
    (Qdiffs (ema_from (alpha 12) f xs) (ema_from (alpha 26) s xs)).
Proof.
  induction xs as [|x' xs IH]; intros x f s Hsf Hsx Hinc; [constructor|].
  destruct Hinc as [Hlt Hinc].
  cbn [ema_from Qdiffs].
  pose proof (ema_step_12 f x') as Hf. pose proof (ema_step_26 s x') as Hs.
  constructor; [lra|].
  apply (IH x'); [lra | lra | exact Hinc].
Qed.

(** With a constant step [d > 0] the lag of the slow mean grows faster than
    the lag of the fast mean, so the line keeps rising. *)
Lemma macd_rising_from d xs : forall x f s,
  (0 < d)%Q -> steps_by d (x :: xs) ->
  (0 < (11 # 13) * (x - f + d) - (x - f))%Q ->
  ((11 # 13) * (x - f + d) - (x - f) < (25 # 27) * (x - s + d) - (x - s))%Q ->
  increasing ((f + - s)%Q :: Qdiffs (ema_from (alpha 12) f xs) (ema_from (alpha 26) s xs)).
Proof.
  induction xs as [|x' xs IH]; intros x f s Hd Hst Hu Huv; [exact I|].
  destruct Hst as [Hx' Hst].
  cbn [ema_from Qdiffs].
  pose proof (ema_step_12 f x') as Hf. pose proof (ema_step_26 s x') as Hs.
  split; [lra|].
  apply (IH x'); [exact Hd | exact Hst | lra | lra].
Qed.

Lemma increasing_lookup l : forall k q q',
  increasing l -> l !! k = Some q -> l !! S k = Some q' -> (q < q')%Q.
Proof.
  induction l as [|x l IH]; intros k q q' Hinc Hk Hk'; [discriminate|].
  destruct l as [|y l]; [discriminate|]. destruct Hinc as [Hxy Hinc].
  destruct k as [|k].
  - simpl in Hk, Hk'. injection Hk as <-. injection Hk' as <-. exact Hxy.
  - apply (IH k); assumption.
Qed.

(** C9, counterexample.  Forty strictly increasing closes (0, then 1001,
    1002, ...): past every warm-up, the line falls from index 38 to
    index 39, although it is still positive. *)
Lemma macd_line_can_fall :
  increasing jump40 /\ length jump40 = 40%nat /\
  match calculate_macd (fin jump40) 12 26 9 with
  | Ok m =>
      match macd_macd m !! 38%nat, macd_macd m !! 39%nat with
      | Some a, Some b => flt (Fin 0) b = true /\ flt b a = true
      | _, _ => False
      end
  | Raise _ => False
  end.
Proof.
  split; [unfold jump40; simpl; repeat split|].
  split; [reflexivity|].
  destruct (calculate_macd_fin jump40) as (m & -> & ->).
  vm_compute. split; reflexivity.
Qed.

(** ** Gap filling, cell by cell *)

Lemma fillna_clean v a : has_nan a = false -> fillna v a = a.
Proof.
  induction a as [|x a IH]; intros H; simpl in *; [reflexivity|].
  apply orb_false_iff in H as [Hx Ha]. rewrite Hx. f_equal. now apply IH.
Qed.

Ltac case_isna :=
  repeat match goal with
    | |- context [isna ?x] =>
        lazymatch x with
        | context [isna _] => fail
        | NaN => fail
        | Fin _ => fail
        | _ => let E := fresh "E" in destruct (isna x) eqn:E; simpl; rewrite ?E
        end
    end; try reflexivity.

Lemma ffill_from_length a : forall last, length (ffill_from last a) = length a.
Proof. induction a as [|x a IH]; intros last; simpl; [reflexivity | now rewrite IH]. Qed.

Lemma bfill_ffill_length a : length (bfill (ffill a)) = length a.
Proof.
  unfold ffill. generalize NaN.
  induction a as [|x a IH]; intros last; simpl; [reflexivity|]. now rewrite IH.
Qed.

Lemma last_valid_cons x a k :
  last_valid (x :: a) (S k) =
  if isna (last_valid a k) then (if isna x then NaN else x) else last_valid a k.
Proof.
  induction k as [|k IH].
  - simpl. destruct a as [|y a]; simpl.
    + now destruct (isna x).
    + destruct (isna y) eqn:Ey; simpl; [|now rewrite Ey]. now destruct (isna x).
  - change (last_valid (x :: a) (S (S k))) with
      (let y := default NaN (a !! S k) in
       if isna y then last_valid (x :: a) (S k) else y).
    change (last_valid a (S k)) with
      (let y := default NaN (a !! S k) in
       if isna y then last_valid a k else y).
    cbv zeta. destruct (isna (default NaN (a !! S k))) eqn:E.
    + exact IH.
    + now rewrite E.
Qed.

Lemma ffill_from_lookup a : forall last k,
  (k < length a)%nat ->
  ffill_from last a !! k =
  Some (if isna (last_valid a k) then last else last_valid a k).
Proof.
  induction a as [|x a IH]; intros last k Hk; simpl in Hk; [lia|].
  destruct k as [|k].
  - simpl. destruct (isna x) eqn:Ex; simpl; [reflexivity | now rewrite Ex].
  - cbn [ffill_from lookup list_lookup]. rewrite (IH _ k) by lia.
    rewrite last_valid_cons. case_isna.
Qed.

Lemma ffill_lookup a k :
  (k < length a)%nat -> ffill a !! k = Some (last_valid a k).
Proof.
  intros H. unfold ffill. rewrite ffill_from_lookup by exact H.
  destruct (last_valid a k); reflexivity.
Qed.

Lemma hd_bfill a : hd NaN (bfill a) = first_valid a.
Proof.
  induction a as [|x a IH]; [reflexivity|]. simpl. rewrite IH.
  now destruct (isna x).
Qed.

Lemma bfill_lookup a : forall k,
  (k < length a)%nat -> bfill a !! k = Some (first_valid (drop k a)).
Proof.
  induction a as [|x a IH]; intros k Hk; simpl in Hk; [lia|].
  destruct k as [|k].
  - simpl. rewrite hd_bfill. now destruct (isna x).
  - simpl. apply IH. lia.
Qed.

Lemma first_valid_ffill_from a : forall last,
  isna last = true -> first_valid (ffill_from last a) = first_valid a.
Proof.
  induction a as [|x a IH]; intros last Hl; simpl; [reflexivity|].
  destruct (isna x) eqn:Ex.
  - rewrite Hl. now apply IH.
  - now rewrite Ex.
Qed.

Lemma drop_ffill_from a : forall last k,
  (k < length a)%nat ->
  drop k (ffill_from last a) =
  let v := if isna (last_valid a k) then last else last_valid a k in
  v :: ffill_from v (drop (S k) a).
Proof.
  induction a as [|x a IH]; intros last k Hk; simpl in Hk; [lia|].
  destruct k as [|k].
  - simpl. rewrite drop_0. case_isna.
  - cbn [ffill_from drop skipn]. rewrite (IH _ k) by lia. cbv zeta.
    rewrite last_valid_cons. case_isna.
Qed.

Lemma bfill_ffill_lookup a k :
  (k < length a)%nat ->
  bfill (ffill a) !! k =
  Some (if isna (last_valid a k) then first_valid (drop (S k) a) else last_valid a k).
Proof.
  intros Hk. rewrite bfill_lookup by (unfold ffill; now rewrite ffill_from_length).
  unfold ffill. rewrite drop_ffill_from by exact Hk. cbv zeta.
  destruct (isna (last_valid a k)) eqn:E.
  - simpl. now rewrite first_valid_ffill_from.
  - simpl. now rewrite E.
Qed.

Lemma fill_gaps_rows df : rows (fill_gaps df) = rows df.
Proof. unfold fill_gaps. now destruct (filter _ _). Qed.

Lemma fill_gaps_columns df :
  columns (fill_gaps df) = map (fun c => (fst c, fill_column (snd c))) (columns df).
Proof.
  unfold fill_gaps.
  destruct (filter _ (columns (df_map bfill (df_map ffill df)))) eqn:E.
  - apply filter_nil_clean in E. unfold df_map in *; simpl in *.
    rewrite !map_map in *. simpl in *.
    induction (columns df) as [|c cols IH]; [reflexivity|].
    simpl in *. inversion E as [|? ? Hc Hcs]; subst.
    unfold fill_column. rewrite (fillna_clean _ _ Hc). f_equal. now apply IH.
  - unfold df_map; simpl. rewrite !map_map. reflexivity.
Qed.

(** X1.  Gap filling works column by column, and in each column a cell that
    is not NaN is kept; a NaN cell takes the last valid value before it,
    else the first valid value after it, else 0. *)
Theorem fill_gaps_cells (df : DataFrame) :
  rows (fill_gaps df) = rows df /\
  columns (fill_gaps df) = map (fun c => (fst c, fill_column (snd c))) (columns df) /\
  forall (a : array) (k : nat), (k < length a)%nat ->
    fill_column a !! k =
    Some (if isna (last_valid a k)
          then (if isna (first_valid (drop (S k) a)) then Fin 0
                else first_valid (drop (S k) a))
          else last_valid a k).
Proof.
  split; [apply fill_gaps_rows|]. split; [apply fill_gaps_columns|].
  intros a k Hk. unfold fill_column, fillna. rewrite lookup_map.
  rewrite bfill_ffill_lookup by exact Hk. simpl.
  destruct (isna (last_valid a k)) eqn:E; [reflexivity | now rewrite E].
Qed.

Lemma fill_gaps_cells_witness :
  fill_column [NaN; Fin 1; NaN; Fin 3; NaN] !! 2%nat = Some (Fin 1) /\
  fill_column [NaN; Fin 1; NaN; Fin 3; NaN] !! 0%nat = Some (Fin 1).
Proof.
  split.
  - exact (proj2 (proj2 (fill_gaps_cells bars3)) [NaN; Fin 1; NaN; Fin 3; NaN] 2%nat
             ltac:(simpl; lia)).
  - exact (proj2 (proj2 (fill_gaps_cells bars3)) [NaN; Fin 1; NaN; Fin 3; NaN] 0%nat
             ltac:(simpl; lia)).
Defined.

(** X2.  Whatever the requests, a frame returned by [add_indicators] holds
    no NaN cell and has the rows of the input. *)
Theorem add_indicators_output_clean (df r : DataFrame) (indicators : list indicator) :
  add_indicators df indicators = Ok r ->
  clean r /\ rows r = rows df.
Proof.
  unfold add_indicators_at. intros H.
  apply bind_Ok in H as (d & Hd & H). injection H as <-.
  split; [apply fill_gaps_is_clean|].
  rewrite fill_gaps_rows. eapply process_indicators_rows; eauto.
Qed.

Lemma add_indicators_output_clean_witness :
  exists r, add_indicators bars5 [request "sma" 3; request "rsi" 2] = Ok r /\
    clean r /\ rows r = 5%nat.
Proof.
  eexists. split; [reflexivity|].
  apply (add_indicators_output_clean bars5 _ [request "sma" 3; request "rsi" 2]).
  reflexivity.
Defined.

(** ** The orchestrator and the columns of the frame *)

Lemma assign_col_names name a cols :
  map fst (assign_col name a cols) =
  (map fst cols ++ (if is_in name (map fst cols) then [] else [name]))%list.
Proof.
  unfold is_in. induction cols as [|[n b] cols IH]; simpl; [reflexivity|].
  rewrite (String.eqb_sym name n).
  destruct (String.eqb n name) eqn:E; simpl.
  - now rewrite app_nil_r.
  - now rewrite IH.
Qed.

Lemma df_set_names_prefix df name a :
  column_names df `prefix_of` column_names (df_set df name a).
Proof.
  unfold column_names, df_set; simpl. rewrite assign_col_names.
  now apply prefix_app_r.
Qed.

Lemma add_indicator_names_prefix df ind df' :
  add_indicator df ind = Ok df' -> column_names df `prefix_of` column_names df'.
Proof.
  unfold add_indicator_at. intros H. inv_bind; subst;
    repeat (etrans; [|apply df_set_names_prefix]); reflexivity.
Qed.

Lemma process_indicators_names_prefix inds : forall df df',
  process_indicators df inds = Ok df' -> column_names df `prefix_of` column_names df'.
Proof.
  induction inds as [|i inds IH]; simpl; intros df df' H.
  - now injection H as <-.
  - apply bind_Ok in H as (d & Hd & H).
    etrans; [eapply add_indicator_names_prefix; eauto | now apply IH].
Qed.

Lemma fill_gaps_names df : column_names (fill_gaps df) = column_names df.
Proof.
  unfold column_names. rewrite fill_gaps_columns, map_map. reflexivity.
Qed.

(** X3.  [add_indicators] never removes, renames or reorders a column: the
    columns of the input come first in the result, in their order, and the
    indicator columns follow. *)
Theorem add_indicators_keeps_columns (df r : DataFrame) (indicators : list indicator) :
  add_indicators df indicators = Ok r ->
  column_names df `prefix_of` column_names r.
Proof.
  unfold add_indicators_at. intros H.
  apply bind_Ok in H as (d & Hd & H). injection H as <-.
  rewrite fill_gaps_names. eapply process_indicators_names_prefix; eauto.
Qed.

Lemma add_indicators_keeps_columns_witness :
  exists r, add_indicators bars5 [request "rsi" 2; request "sma" 3] = Ok r /\
    column_names bars5 `prefix_of` column_names r.
Proof.
  eexists. split; [reflexivity|].
  apply (add_indicators_keeps_columns bars5 _ [request "rsi" 2; request "sma" 3]).
  reflexivity.
Defined.

Lemma lookup_col_map (f : array -> array) name cols :
  lookup_col name (map (fun c => (fst c, f (snd c))) cols) =
  option_map f (lookup_col name cols).
Proof.
  induction cols as [|[n a] cols IH]; simpl; [reflexivity|].
  destruct (String.eqb n name); [reflexivity | exact IH].
Qed.

(** A column whose name is none of the names a request writes is left as
    it is. *)
Lemma add_indicator_other_columns {dt} ind df df' name :
  add_indicator_at dt df ind = Ok df' ->
  (forall k, kind_of (ind_type ind) = Some k ->
     ~ In name (output_names k (ind_params ind))) ->
  lookup_col name (columns df') = lookup_col name (columns df).
Proof.
  unfold kind_of, add_indicator_at. intros H Hout.
  repeat match goal with
    | H : context [if is_in ?t ?l then _ else _] |- _ =>
        destruct (is_in t l) eqn:?
    end;
  try (specialize (Hout _ eq_refl); simpl in Hout);
  inv_bind; subst; try reflexivity;
  unfold df_set; simpl;
  repeat (rewrite lookup_assign_ne by (intros E; apply Hout; rewrite E; simpl; auto));
  reflexivity.
Qed.

Lemma price_column_not_output k params name :
  In name price_columns -> ~ In name (output_names k params).
Proof.
  unfold price_columns. intros Hin Hout.
  destruct k; simpl in *; unfold fmt in *;
    repeat match goal with
      | H : _ \/ _ |- _ => destruct H
      | H : False |- _ => destruct H
      end; subst; simpl in *; discriminate.
Qed.

Lemma process_indicators_prices {dt} inds : forall df df' name,
  process_indicators_at dt df inds = Ok df' ->
  In name price_columns ->
  lookup_col name (columns df') = lookup_col name (columns df).
Proof.
  induction inds as [|i inds IH]; simpl; intros df df' name H Hin.
  - now injection H as <-.
  - apply bind_Ok in H as (d & Hd & H).
    rewrite (IH _ _ _ H Hin).
    eapply add_indicator_other_columns; eauto.
    intros k _. now apply price_column_not_output.
Qed.

(** X4.  [add_indicators] never overwrites a price column: open, high, low,
    close and volume come back as they were given, gap-filled; a price column
    without NaN comes back unchanged. *)
Theorem add_indicators_keeps_prices
    (df r : DataFrame) (indicators : list indicator) (name : string) (c : array) :
  add_indicators df indicators = Ok r ->
  In name price_columns ->
  df_get df name = Ok c ->
  df_get r name = Ok (fill_column c) /\
  (has_nan c = false -> df_get r name = Ok c).
Proof.
  unfold add_indicators_at, df_get. intros H Hin Hc.
  apply bind_Ok in H as (d & Hd & H). injection H as <-.
  rewrite fill_gaps_columns, lookup_col_map.
  rewrite (process_indicators_prices _ _ _ _ Hd Hin).
  destruct (lookup_col name (columns df)) as [c'|]; [|discriminate].
  injection Hc as ->. simpl. split; [reflexivity|].
  intros Hclean. unfold fill_column, ffill.
  now rewrite ffill_from_clean, bfill_clean, fillna_clean.
Qed.

Lemma add_indicators_keeps_prices_witness :
  exists r, add_indicators bars5 [request "sma" 3; request "atr" 2] = Ok r /\
    df_get r "close" = Ok (map of_Z [10; 11; 12; 11; 13]).
Proof.
  eexists. split; [reflexivity|].
  apply (add_indicators_keeps_prices bars5 _ [request "sma" 3; request "atr" 2] "close");
    [reflexivity | simpl; tauto | reflexivity | reflexivity].
Defined.

Ltac names_differ :=
  let H := fresh in
  intros H; unfold fmt in H; cbv [String.app] in H; discriminate H.

Lemma df_get_agree df d name :
  lookup_col name (columns d) = lookup_col name (columns df) ->
  df_get d name = df_get df name.
Proof. unfold df_get. now intros ->. Qed.

(** X5.  No indicator depends on another indicator's output: for a request
    that passes its gate, the step run after any list of earlier requests
    raises exactly when the step run on the input frame raises, and
    otherwise writes the same arrays under the names of its kind. *)
Theorem indicator_independent_of_earlier_requests
    (df d : DataFrame) (pre : list indicator) (ind : indicator) (k : kind) (m : Z) :
  process_indicators df pre = Ok d ->
  kind_of (ind_type ind) = Some k ->
  minimum_length ind = Some m ->
  m <= df_len df ->
  match add_indicator df ind, add_indicator d ind with
  | Ok a, Ok b =>
      forall name, In name (output_names k (ind_params ind)) ->
        exists col, df_get a name = Ok col /\ df_get b name = Ok col
  | Raise e, Raise e' => e = e'
  | _, _ => False
  end.
Proof.
  intros Hpre Hk Hm Hlen.
  assert (Hrows : df_len d = df_len df)
    by (unfold df_len; f_equal; eapply process_indicators_rows; eauto).
  assert (Hget : forall name, In name price_columns -> df_get d name = df_get df name).
  { intros name Hin. apply df_get_agree. eapply process_indicators_prices; eauto. }
  pose proof (Hget "high" ltac:(simpl; tauto)) as Hh.
  pose proof (Hget "low" ltac:(simpl; tauto)) as Hl.
  pose proof (Hget "close" ltac:(simpl; tauto)) as Hc.
  pose proof (Hget "volume" ltac:(simpl; tauto)) as Hv.
  clear Hget Hpre.
  unfold minimum_length in Hm. rewrite Hk in Hm.
  unfold kind_of in Hk. unfold add_indicator_at.
  rewrite Hrows, Hh, Hl, Hc, Hv.
  repeat match goal with
    | H : context [if is_in ?t ?l then _ else _] |- _ =>
        destruct (is_in t l) eqn:?
    end;
  try discriminate; injection Hk as <-; injection Hm as <-;
  match goal with
  | |- context [if ?b then _ else _] => replace b with true by lia
  end;
  repeat match goal with
    | |- context [bind ?x _] =>
        lazymatch x with
        | bind _ _ => fail
        | _ => destruct x; cbn [bind]
        end
    end;
  try reflexivity;
  intros name Hin; simpl in Hin; unfold df_get, df_set; simpl;
  repeat match goal with
    | H : _ \/ _ |- _ => destruct H as [<-|H]
    | H : False |- _ => destruct H
    end;
  repeat (rewrite lookup_assign_eq ||
          rewrite lookup_assign_ne by names_differ);
  eexists; split; reflexivity.
Qed.

Lemma indicator_independent_of_earlier_requests_witness :
  exists d,
    process_indicators bars5 [request "rsi" 2; request "atr" 3] = Ok d /\
    match add_indicator bars5 (request "atr" 2), add_indicator d (request "atr" 2) with
    | Ok a, Ok b =>
        forall name, In name (output_names ATR (with_period 2)) ->
          exists col, df_get a name = Ok col /\ df_get b name = Ok col
    | Raise e, Raise e' => e = e'
    | _, _ => False
    end.
Proof.
  eexists. split; [reflexivity|].
  apply (indicator_independent_of_earlier_requests bars5 _
           [request "rsi" 2; request "atr" 3] (request "atr" 2) ATR 3);
    [reflexivity | reflexivity | reflexivity | now vm_compute].
Defined.

(** ** Moving averages stay within the range of the prices *)

Lemma inject_Z_S n : (inject_Z (Z.of_nat (S n)) == inject_Z (Z.of_nat n) + 1)%Q.
Proof. rewrite Nat2Z.inj_succ. unfold Z.succ. now rewrite inject_Z_plus. Qed.

Lemma fold_Qplus_bounds lo hi l : forall acc,
  within lo hi l ->
  (acc + inject_Z (len l) * lo <= fold_left Qplus l acc <=
   acc + inject_Z (len l) * hi)%Q.
Proof.
  unfold len. induction l as [|x l IH]; intros acc H.
  - simpl. change (inject_Z 0) with 0%Q. rewrite !Qmult_0_l. lra.
  - inversion H as [|? ? Hx Hl]; subst. cbn [fold_left length].
    specialize (IH (acc + x)%Q Hl). pose proof (inject_Z_S (length l)) as HS.
    set (n := inject_Z (Z.of_nat (length l))) in *.
    set (n' := inject_Z (Z.of_nat (S (length l)))) in *.
    assert (Hlo : (n' * lo == n * lo + lo)%Q) by (rewrite HS; ring).
    assert (Hhi : (n' * hi == n * hi + hi)%Q) by (rewrite HS; ring).
    lra.
Qed.

Lemma inject_Z_pos z : 0 < z -> (0 < inject_Z z)%Q.
Proof. intros H. change 0%Q with (inject_Z 0). now rewrite <- Zlt_Qlt. Qed.

Lemma Qmean_bounds lo hi l :
  l <> [] -> within lo hi l -> (lo <= Qmean l <= hi)%Q.
Proof.
  intros Hne H. unfold Qmean, Qsum.
  pose proof (fold_Qplus_bounds lo hi l 0 H) as [H1 H2].
  assert (Hn : (0 < inject_Z (len l))%Q)
    by (apply inject_Z_pos; unfold len; destruct l; [contradiction | simpl; lia]).
  split.
  - apply Qle_shift_div_l; [exact Hn|]. rewrite Qmult_comm. lra.
  - apply Qle_shift_div_r; [exact Hn|]. rewrite Qmult_comm. lra.
Qed.

Lemma within_slice lo hi l s e : within lo hi l -> within lo hi (slice l s e).
Proof. apply slice_Forall. Qed.

(** The defined cells of the simple moving average. *)
Lemma sma_cell (prices : list Q) (P : Z) k :
  1 <= P -> P - 1 <= Z.of_nat k < len prices ->
  exists out, calculate_sma (fin prices) P = Ok out /\
    out !! k = Some (Fin (Qmean (trailing prices (Z.of_nat k) P))).
Proof.
  intros HP Hk. unfold calculate_sma, rolling. replace (P <? 0) with false by lia.
  eexists. split; [reflexivity|].
  rewrite lookup_map, range_lookup
    by (unfold fin; rewrite len_map; unfold len in *; lia).
  simpl. rewrite Z.add_0_l. replace (P =? 0) with false by lia.
  replace (Z.of_nat k + 1 <? P) with false by lia. simpl.
  unfold fin. rewrite slice_map. fold (trailing prices (Z.of_nat k) P).
  fold (fin (trailing prices (Z.of_nat k) P)).
  rewrite np_mean_fin by (apply trailing_nonempty; lia). reflexivity.
Qed.

Lemma ema_step_convex a w x :
  (ema_step a w x == w + a * (x - w))%Q.
Proof. unfold ema_step. field. lra. Qed.

Lemma alpha_range span : 1 <= span -> (0 < alpha span <= 1)%Q.
Proof.
  intros H. unfold alpha.
  assert (Hs : (1 <= inject_Z span)%Q)
    by (change 1%Q with (inject_Z 1); rewrite <- Zle_Qle; lia).
  split.
  - apply Qlt_shift_div_l; lra.
  - apply Qle_shift_div_r; lra.
Qed.

Lemma ema_from_within lo hi a xs : forall w,
  (0 < a <= 1)%Q -> (lo <= w <= hi)%Q -> within lo hi xs ->
  within lo hi (ema_from a w xs).
Proof.
  induction xs as [|x xs IH]; intros w Ha Hw Hxs; [constructor|].
  inversion Hxs as [|? ? Hx Hxs']; subst. cbn [ema_from].
  assert (Hstep : (lo <= ema_step a w x <= hi)%Q).
  { rewrite ema_step_convex. nra. }
  constructor; [exact Hstep|]. now apply IH.
Qed.

Lemma ema_q_within lo hi a xs :
  (0 < a <= 1)%Q -> within lo hi xs -> within lo hi (ema_q a xs).
Proof.
  intros Ha H. destruct xs as [|x xs]; [constructor|].
  inversion H as [|? ? Hx Hxs]; subst. cbn [ema_q].
  constructor; [exact Hx|]. now apply ema_from_within.
Qed.

Lemma weighted_sum_bounds lo hi w : forall ws acc1 acc2,
  length w = length ws ->
  within lo hi w -> Forall (fun y => (0 < y)%Q) ws ->
  (lo * acc2 <= acc1 <= hi * acc2)%Q ->
  (lo * fold_left Qplus ws acc2 <= fold_left Qplus (Qproducts w ws) acc1 <=
   hi * fold_left Qplus ws acc2)%Q.
Proof.
  induction w as [|x w IH]; intros [|y ws] acc1 acc2 Hl Hw Hws Hacc;
    simpl in Hl; try lia; [exact Hacc|].
  inversion Hw as [|? ? Hx Hw']; inversion Hws as [|? ? Hy Hws']; subst.
  cbn [Qproducts fold_left]. apply IH; [lia | assumption | assumption |].
  nra.
Qed.

Lemma fold_Qplus_pos ws : forall acc,
  (0 <= acc)%Q -> ws <> [] -> Forall (fun y => (0 < y)%Q) ws ->
  (0 < fold_left Qplus ws acc)%Q.
Proof.
  induction ws as [|y ws IH]; intros acc Hacc Hne H; [contradiction|].
  inversion H as [|? ? Hy Hws]; subst. cbn [fold_left].
  destruct ws as [|z ws]; [simpl; lra|].
  apply IH; [lra | discriminate | exact Hws].
Qed.

Lemma weights_positive P :
  Forall (fun y => (0 < y)%Q) (map inject_Z (range 1 (P + 1))).
Proof.
  unfold range. rewrite map_map. apply Forall_map, Forall_true.
  intros k. simpl. apply inject_Z_pos. lia.
Qed.

Lemma np_arange_fin lo hi : np_arange lo hi = fin (map inject_Z (range lo hi)).
Proof. unfold np_arange, fin, of_Z. now rewrite map_map. Qed.

(** The defined cells of the weighted moving average. *)
Lemma wma_cells (prices : list Q) (P : Z) :
  1 <= P <= len prices ->
  exists out, calculate_wma (fin prices) P = Ok out /\
    length out = length prices /\
    forall k, P - 1 <= Z.of_nat k < len prices ->
      out !! k =
      Some (Fin (Qsum (Qproducts (trailing prices (Z.of_nat k) P)
                         (map inject_Z (range 1 (P + 1)))) /
                 Qsum (map inject_Z (range 1 (P + 1))))).
Proof.
  intros HP. unfold calculate_wma_at, store. rewrite np_arange_fin, np_sum_fin.
  set (ws := map inject_Z (range 1 (P + 1))).
  assert (Hwl : length ws = Z.to_nat P)
    by (unfold ws; rewrite length_map, range_length; lia).
  assert (Hpos : (0 < Qsum ws)%Q).
  { apply fold_Qplus_pos; [lra | | apply weights_positive].
    intros E. rewrite E in Hwl. simpl in Hwl. lia. }
  destruct (pointwise_loop
    (fun i v => v = Fin (Qsum (Qproducts (trailing prices i P) ws) / Qsum ws))
    (fun i wma =>
       let* weighted := broadcast fmul (slice (fin prices) (i - (P - 1)) (i + 1)) (fin ws) in
       setitem wma i (np_sum weighted / Fin (Qsum ws))%f)
    (P - 1) (len (fin prices)) (np_zeros_like (fin prices)) (length prices))
    as (out & Hout & Hl & _ & Hv).
  - lia.
  - unfold len. rewrite fin_length. lia.
  - now rewrite zeros_length, fin_length.
  - intros i a Hi Hla. unfold len in Hi. rewrite fin_length in Hi.
    replace (i - (P - 1)) with (i + 1 - P) by lia.
    unfold fin at 1. rewrite slice_map. fold (trailing prices i P).
    fold (fin (trailing prices i P)).
    rewrite broadcast_same.
    2:{ rewrite !fin_length, Hwl.
        pose proof (trailing_length prices i P ltac:(lia) ltac:(unfold len; lia)) as H.
        unfold len in H. lia. }
    cbn [bind]. rewrite zip_fmul_fin, np_sum_fin. simpl.
    rewrite Qzero_b_false by (intros E; lra).
    rewrite setitem_in by (unfold len; lia).
    eexists. split; reflexivity.
  - exists out. split; [exact Hout|]. split; [exact Hl|].
    intros k Hk. destruct (Hv k) as (v & -> & ->);
      [unfold len in *; rewrite fin_length; lia | reflexivity].
Qed.

(** X6.  On finite prices that all lie in [[lo, hi]], every defined value
    of the simple, weighted and exponential moving averages lies in
    [[lo, hi]] as well; on a constant series the averages reproduce the
    constant. *)
Theorem moving_averages_within_range (prices : list Q) (lo hi : Q) (P : Z) :
  within lo hi prices ->
  1 <= P <= len prices ->
  (forall k, P - 1 <= Z.of_nat k < len prices ->
     exists out x, calculate_sma (fin prices) P = Ok out /\
       out !! k = Some x /\ cell_within lo hi x) /\
  (exists out, calculate_wma (fin prices) P = Ok out /\
     forall k, P - 1 <= Z.of_nat k < len prices ->
       exists x, out !! k = Some x /\ cell_within lo hi x) /\
  (exists out, calculate_ema (fin prices) P = Ok out /\
     length out = length prices /\ Forall (cell_within lo hi) out).
Proof.
  intros Hw HP. split; [|split].
  - intros k Hk. destruct (sma_cell prices P k) as (out & Ho & Hc); [lia | lia |].
    exists out. eexists. split; [exact Ho|]. split; [exact Hc|].
    eexists. split; [reflexivity|].
    apply Qmean_bounds; [apply trailing_nonempty; lia | now apply within_slice].
  - destruct (wma_cells prices P HP) as (out & Ho & _ & Hc).
    exists out. split; [exact Ho|]. intros k Hk.
    eexists. split; [apply Hc; exact Hk|]. eexists. split; [reflexivity|].
    set (ws := map inject_Z (range 1 (P + 1))).
    assert (Hwl : length ws = Z.to_nat P)
      by (unfold ws; rewrite length_map, range_length; lia).
    assert (Hpos : (0 < Qsum ws)%Q).
    { apply fold_Qplus_pos; [lra | | apply weights_positive].
      intros E. rewrite E in Hwl. simpl in Hwl. lia. }
    pose proof (weighted_sum_bounds lo hi (trailing prices (Z.of_nat k) P) ws 0 0) as Hb.
    destruct Hb as [H1 H2].
    + pose proof (trailing_length prices (Z.of_nat k) P ltac:(lia) ltac:(lia)) as H.
      unfold len in H. lia.
    + now apply within_slice.
    + apply weights_positive.
    + lra.
    + fold (Qsum ws) in H1, H2.
      fold (Qsum (Qproducts (trailing prices (Z.of_nat k) P) ws)) in H1, H2.
      split.
      * apply Qle_shift_div_l; [exact Hpos | exact H1].
      * apply Qle_shift_div_r; [exact Hpos | exact H2].
  - unfold calculate_ema. rewrite ewm_mean_fin by lia.
    eexists. split; [reflexivity|]. split; [now rewrite fin_length, ema_q_length|].
    unfold fin. apply Forall_map.
    eapply Forall_impl; [apply (ema_q_within lo hi); [apply alpha_range; lia | exact Hw]|].
    intros q Hq. exists q. auto.
Qed.

Lemma moving_averages_within_range_witness :
  exists out, calculate_ema (fin [7; 7; 7; 7]%Q) 3 = Ok out /\
    length out = 4%nat /\ Forall (cell_within 7 7) out.
Proof.
  apply (moving_averages_within_range [7; 7; 7; 7]%Q 7 7 3).
  - repeat constructor; apply Qle_refl.
  - now vm_compute.
Defined.

(** ** Stochastic oscillator *)

Lemma cells_fin lo hi (a : array) :
  Forall (cell_within lo hi) a -> exists l, a = fin l /\ within lo hi l.
Proof.
  induction 1 as [|x a (q & -> & Hq) _ (l & -> & Hl)].
  - exists []. split; [reflexivity | constructor].
  - exists (q :: l). split; [reflexivity | now constructor].
Qed.

Lemma cells_of_lookup lo hi (a : array) :
  (forall k, (k < length a)%nat -> exists x, a !! k = Some x /\ cell_within lo hi x) ->
  Forall (cell_within lo hi) a.
Proof.
  intros H. apply Forall_lookup. intros k x Hx.
  destruct (H k (lookup_lt_Some _ _ _ Hx)) as (y & Hy & Hc). congruence.
Qed.

Lemma stoch_q_bounds hh ll h l c :
  (l <= c <= h)%Q -> (h <= hh)%Q -> (ll <= l)%Q ->
  (0 <= stoch_q hh ll c <= 100)%Q.
Proof.
  intros Hc Hh Hl. unfold stoch_q. destruct (Qeq_bool hh ll) eqn:E.
  - split; discriminate.
  - assert (Hne : ~ (hh == ll)%Q) by (intros H; apply Qeq_bool_iff in H; congruence).
    destruct (ratio_in_unit (c - ll) (hh - ll)) as [H0 H1]; [lra | lra | lra |].
    lra.
Qed.

(** The loop that writes the raw %K (lines 104-111), on finite bars. *)
Lemma stochastic_raw (high low close : list Q) (P : Z) (a0 : array) :
  length high = length close -> length low = length close ->
  length a0 = length close -> 1 <= P ->
  exists out,
    for_range (P - 1) (len (fin close))
      (fun i k_raw =>
         let* (highest_high, lowest_low) := window_extremes (fin high) (fin low) i P in
         if fne highest_high lowest_low then
           let* c := getitem (fin close) i in
           setitem k_raw i ((c - lowest_low) / (highest_high - lowest_low) * Fin 100)%f
         else setitem k_raw i (Fin 50)) a0 = Ok out /\
    length out = length close /\
    (forall k, Z.of_nat k < P - 1 -> out !! k = a0 !! k) /\
    (forall k, P - 1 <= Z.of_nat k < len close ->
       exists c, close !! k = Some c /\
         out !! k = Some (Fin (stoch_q (Qmaximum (trailing high (Z.of_nat k) P))
                                       (Qminimum (trailing low (Z.of_nat k) P)) c))).
Proof.
  intros Hh Hl Ha HP.
  destruct (pointwise_loop
    (fun i v => exists c, close !! Z.to_nat i = Some c /\
       v = Fin (stoch_q (Qmaximum (trailing high i P)) (Qminimum (trailing low i P)) c))
    (fun i k_raw =>
         let* (highest_high, lowest_low) := window_extremes (fin high) (fin low) i P in
         if fne highest_high lowest_low then
           let* c := getitem (fin close) i in
           setitem k_raw i ((c - lowest_low) / (highest_high - lowest_low) * Fin 100)%f
         else setitem k_raw i (Fin 50))
    (P - 1) (len (fin close)) a0 (length close))
    as (out & Hout & Hlen & Hb & Hv).
  - lia.
  - unfold len. rewrite fin_length. lia.
  - exact Ha.
  - intros i a Hi Hla. unfold len in Hi. rewrite fin_length in Hi.
    rewrite window_extremes_fin by (unfold len; lia). simpl.
    destruct (lookup_lt_is_Some_2 close (Z.to_nat i) ltac:(lia)) as [c Hc].
    unfold stoch_q.
    generalize (Qmaximum (trailing high i P)) (Qminimum (trailing low i P)).
    intros hh ll.
    unfold fne; simpl. destruct (Qeq_bool hh ll) eqn:E; simpl.
    + rewrite setitem_in by (unfold len; lia).
      eexists. split; [reflexivity|]. exists c. auto.
    + assert (Hne : ~ (hh == ll)%Q)
        by (intros H; apply Qeq_bool_iff in H; congruence).
      rewrite (getitem_in (fin close) i (Fin c))
        by (try lia; rewrite fin_lookup, Hc; reflexivity).
      simpl. rewrite Qzero_b_false by (intros H; apply Hne; lra).
      rewrite setitem_in by (unfold len; lia).
      eexists. split; [reflexivity|]. exists c. split; [exact Hc|]. reflexivity.
  - exists out. split; [exact Hout|]. split; [exact Hlen|]. split; [exact Hb|].
    intros k Hk. destruct (Hv k) as (v & Hk1 & c & Hc & ->);
      [unfold len in *; rewrite fin_length; lia|].
    rewrite Nat2Z.id in Hc. exists c. auto.
Qed.

(** The loop of Williams %R (lines 244-252), on finite bars. *)
Lemma williams_cells (high low close : list Q) (P : Z) :
  length high = length close -> length low = length close -> 1 <= P ->
  exists out,
    calculate_williams_r (fin high) (fin low) (fin close) P = Ok out /\
    length out = length close /\
    (forall k, P - 1 <= Z.of_nat k < len close ->
       exists c, close !! k = Some c /\
         out !! k = Some (Fin (williams_q (Qmaximum (trailing high (Z.of_nat k) P))
                                          (Qminimum (trailing low (Z.of_nat k) P)) c))).
Proof.
  intros Hh Hl HP. unfold calculate_williams_r_at, store.
  destruct (pointwise_loop
    (fun i v => exists c, close !! Z.to_nat i = Some c /\
       v = Fin (williams_q (Qmaximum (trailing high i P)) (Qminimum (trailing low i P)) c))
    (fun i williams_r =>
       let* (highest_high, lowest_low) := window_extremes (fin high) (fin low) i P in
       if fne highest_high lowest_low then
         let* c := getitem (fin close) i in
         setitem williams_r i
           ((highest_high - c) / (highest_high - lowest_low) * Fin (-100))%f
       else setitem williams_r i (Fin (-50)))
    (P - 1) (len (fin close)) (np_zeros_like (fin close)) (length close))
    as (out & Hout & Hlen & Hb & Hv).
  - lia.
  - unfold len. rewrite fin_length. lia.
  - now rewrite zeros_length, fin_length.
  - intros i a Hi Hla. unfold len in Hi. rewrite fin_length in Hi.
    rewrite window_extremes_fin by (unfold len; lia). simpl.
    destruct (lookup_lt_is_Some_2 close (Z.to_nat i) ltac:(lia)) as [c Hc].
    unfold williams_q.
    generalize (Qmaximum (trailing high i P)) (Qminimum (trailing low i P)).
    intros hh ll.
    unfold fne; simpl. destruct (Qeq_bool hh ll) eqn:E; simpl.
    + rewrite setitem_in by (unfold len; lia).
      eexists. split; [reflexivity|]. exists c. auto.
    + assert (Hne : ~ (hh == ll)%Q)
        by (intros H; apply Qeq_bool_iff in H; congruence).
      rewrite (getitem_in (fin close) i (Fin c))
        by (try lia; rewrite fin_lookup, Hc; reflexivity).
      simpl. rewrite Qzero_b_false by (intros H; apply Hne; lra).
      rewrite setitem_in by (unfold len; lia).
      eexists. split; [reflexivity|]. exists c. split; [exact Hc|]. reflexivity.
  - exists out. split; [exact Hout|]. split; [exact Hlen|].
    intros k Hk. destruct (Hv k) as (v & Hk1 & c & Hc & ->);
      [unfold len in *; rewrite fin_length; lia|].
    rewrite Nat2Z.id in Hc. exists c. auto.
Qed.

Lemma williams_q_stoch_q h l c : (williams_q h l c == stoch_q h l c - 100)%Q.
Proof.
  unfold williams_q, stoch_q. destruct (Qeq_bool h l) eqn:E; [reflexivity|].
  assert (Hne : ~ (h - l == 0)%Q)
    by (intros H; assert (h == l)%Q by lra; apply Qeq_bool_iff in H0; congruence).
  field. exact Hne.
Qed.

Lemma within_zero_hundred_0 : cell_within 0 100 (Fin 0).
Proof. exists 0%Q. split; [reflexivity|]. split; discriminate. Qed.

(** %K of [calculate_stochastic] on ordered finite bars: every cell, the
    leading zeros included, lies in [[0, 100]]. *)
Lemma stochastic_k_within (high low close : list Q) (P dP slowing : Z) :
  length high = length close -> length low = length close ->
  bars_ordered high low close -> 1 <= P -> 0 <= dP ->
  exists k d,
    calculate_stochastic (fin high) (fin low) (fin close) P dP slowing =
      Ok {| stoch_k := fin k; stoch_d := d |} /\
    calculate_sma (fin k) dP = Ok d /\
    length k = length close /\ within 0 100 k.
Proof.
  intros Hh Hl Hbar HP HdP. unfold calculate_stochastic_at, store.
  destruct (stochastic_raw high low close P (np_zeros_like (fin close)) Hh Hl)
    as (raw & -> & Hlen & Hb & Hv); [now rewrite zeros_length, fin_length | exact HP |].
  cbn [bind].
  assert (Hraw : Forall (cell_within 0 100) raw).
  { apply cells_of_lookup. intros k Hk.
    destruct (Z_lt_ge_dec (Z.of_nat k) (P - 1)) as [Hlt|Hge].
    - rewrite (Hb k Hlt), zeros_lookup by (rewrite fin_length; lia).
      eexists. split; [reflexivity | apply within_zero_hundred_0].
    - destruct (Hv k) as (c & Hc & ->); [unfold len; lia|].
      eexists. split; [reflexivity|]. eexists. split; [reflexivity|].
      destruct (lookup_lt_is_Some_2 high k ltac:(lia)) as [h Hhi].
      destruct (lookup_lt_is_Some_2 low k ltac:(lia)) as [l Hlo].
      apply (stoch_q_bounds _ _ h l c).
      + exact (Hbar k h l c Hhi Hlo Hc).
      + apply Qmaximum_ge. apply trailing_has_current;
          [lia | unfold len; lia | now rewrite Nat2Z.id].
      + apply Qminimum_le. apply trailing_has_current;
          [lia | unfold len; lia | now rewrite Nat2Z.id]. }
  destruct (cells_fin _ _ _ Hraw) as (kq & -> & Hkq).
  rewrite fin_length in Hlen.
  destruct (1 <? slowing) eqn:Es.
  - apply Z.ltb_lt in Es.
    destruct (pointwise_loop (fun _ v => cell_within 0 100 v)
      (fun i k => setitem k i (np_mean (slice (fin kq) (i - (slowing - 1)) (i + 1))))
      (P + slowing - 2) (len (fin close)) (np_zeros_like (fin close)) (length close))
      as (out & -> & Hol & Hob & Hov).
    + lia.
    + unfold len. rewrite fin_length. lia.
    + now rewrite zeros_length, fin_length.
    + intros i a Hi Hla. unfold len in Hi. rewrite fin_length in Hi.
      rewrite setitem_in by (unfold len; lia).
      eexists. split; [reflexivity|].
      replace (i - (slowing - 1)) with (i + 1 - slowing) by lia.
      unfold fin. rewrite slice_map. fold (trailing kq i slowing).
      fold (fin (trailing kq i slowing)).
      rewrite np_mean_fin by (apply trailing_nonempty; unfold len; lia).
      eexists. split; [reflexivity|].
      apply Qmean_bounds; [apply trailing_nonempty; unfold len; lia|].
      now apply within_slice.
    + cbn [bind].
      assert (Hout : Forall (cell_within 0 100) out).
      { apply cells_of_lookup. intros k Hk.
        destruct (Z_lt_ge_dec (Z.of_nat k) (P + slowing - 2)) as [Hlt|Hge].
        - rewrite (Hob k Hlt), zeros_lookup by (rewrite fin_length; lia).
          eexists. split; [reflexivity | apply within_zero_hundred_0].
        - apply Hov. unfold len. rewrite fin_length. lia. }
      destruct (cells_fin _ _ _ Hout) as (k & -> & Hk).
      rewrite fin_length in Hol.
      unfold calculate_sma, rolling at 1. replace (dP <? 0) with false by lia.
      cbn [bind]. eexists k, _. split; [reflexivity|].
      split; [|split; [exact Hol | exact Hk]].
      unfold rolling. now replace (dP <? 0) with false by lia.
  - cbn [bind]. unfold calculate_sma, rolling at 1. replace (dP <? 0) with false by lia.
    cbn [bind]. eexists kq, _. split; [reflexivity|].
    split; [|split; [exact Hlen | exact Hkq]].
    unfold rolling. now replace (dP <? 0) with false by lia.
Qed.

(** X7.  On finite bars with [low <= close <= high], the %K series of
    [calculate_stochastic] lies in [[0, 100]] at every index (leading
    zeros included, with or without slowing), and every %D value from
    index [d_period - 1] on lies in [[0, 100]] as well. *)
Theorem stochastic_bounded (high low close : list Q) (k_period d_period slowing : Z) :
  length high = length close -> length low = length close ->
  bars_ordered high low close ->
  1 <= k_period -> 1 <= d_period ->
  exists s,
    calculate_stochastic (fin high) (fin low) (fin close) k_period d_period slowing = Ok s /\
    length (stoch_k s) = length close /\
    Forall (cell_within 0 100) (stoch_k s) /\
    forall k, d_period - 1 <= Z.of_nat k < len close ->
      exists x, stoch_d s !! k = Some x /\ cell_within 0 100 x.
Proof.
  intros Hh Hl Hbar HP HdP.
  destruct (stochastic_k_within high low close k_period d_period slowing Hh Hl Hbar HP)
    as (k & d & Hs & Hd & Hlen & Hk); [lia|].
  eexists. split; [exact Hs|]. cbn [stoch_k stoch_d].
  split; [now rewrite fin_length|]. split.
  - unfold fin. apply Forall_map. eapply Forall_impl; [exact Hk|].
    intros q Hq. exists q. auto.
  - intros i Hi.
    destruct (sma_cell k d_period i) as (out & Ho & Hc);
      [lia | unfold len in *; lia |].
    rewrite Hd in Ho. injection Ho as <-.
    eexists. split; [exact Hc|]. eexists. split; [reflexivity|].
    apply Qmean_bounds; [apply trailing_nonempty; unfold len in *; lia|].
    now apply within_slice.
Qed.

Lemma stochastic_bounded_witness :
  exists s,
    calculate_stochastic (fin [3; 4; 6; 5]%Q) (fin [1; 2; 3; 3]%Q) (fin [2; 3; 5; 4]%Q)
      2 2 3 = Ok s /\
    length (stoch_k s) = 4%nat /\
    Forall (cell_within 0 100) (stoch_k s) /\
    forall k, 2 - 1 <= Z.of_nat k < len [2; 3; 5; 4]%Q ->
      exists x, stoch_d s !! k = Some x /\ cell_within 0 100 x.
Proof.
  apply (stochastic_bounded [3; 4; 6; 5]%Q [1; 2; 3; 3]%Q [2; 3; 5; 4]%Q 2 2 3);
    [reflexivity | reflexivity | | lia | lia].
  intros [|[|[|[|k]]]] h l c Hh Hl Hc; simpl in *;
    try discriminate; injection Hh as <-; injection Hl as <-; injection Hc as <-;
    split; discriminate.
Defined.

(** ** Average true range *)

Lemma fin_finite (l : list Q) : Forall finite (fin l).
Proof. unfold fin. apply Forall_map, Forall_true. intros q. now exists q. Qed.

Lemma fsub_finite x y : finite x -> finite y -> finite (x - y)%f.
Proof. intros (a & ->) (b & ->). now eexists. Qed.

Lemma fabs_nonneg x : finite x -> nonneg (fabs x).
Proof.
  intros (a & ->). eexists. split; [reflexivity|]. apply Qabs_nonneg.
Qed.

Lemma np_maximum1_nonneg_r x y : finite x -> nonneg y -> nonneg (np_maximum1 x y).
Proof.
  intros (a & ->) (b & -> & Hb). rewrite np_maximum1_fin.
  eexists. split; [reflexivity|]. destruct (Qmax2_ge a b) as [_ H]. lra.
Qed.

Lemma nonneg_finite x : nonneg x -> finite x.
Proof. intros (q & -> & _). now exists q. Qed.

Lemma nonneg_zero : nonneg (Fin 0).
Proof. exists 0%Q. split; [reflexivity | apply Qle_refl]. Qed.

Lemma broadcast_Forall (P Q R : f64 -> Prop) op (a b c : array) :
  (forall x y, P x -> Q y -> R (op x y)) ->
  Forall P a -> Forall Q b -> broadcast op a b = Ok c -> Forall R c.
Proof.
  intros Hop Ha Hb. unfold broadcast.
  assert (H1 : forall x (l : array), P x -> Forall Q l -> Forall R (map (op x) l)).
  { intros x l Hx Hl. induction Hl; simpl; constructor; auto. }
  assert (H2 : forall y (l : array), Q y -> Forall P l ->
                 Forall R (map (fun x => op x y) l)).
  { intros y l Hy Hl. induction Hl; simpl; constructor; auto. }
  destruct (length a =? length b)%nat.
  - intros [= <-]. now apply (zip_with_f_Forall P Q R).
  - destruct a as [|x [|x' a]]; destruct b as [|y [|y' b]]; try discriminate;
      intros E;
      apply (f_equal (fun r => match r with Ok v => v | Raise _ => c end)) in E;
      cbv beta match in E; subst c;
      first [ apply H1; [now inversion Ha | exact Hb]
            | apply H2; [now inversion Hb | exact Ha] ].
Qed.

(** The true range of finite bars is never negative. *)
Lemma true_range_nonneg (high low close : array) tr :
  Forall finite high -> Forall finite low -> Forall finite close ->
  true_range high low close = Ok tr -> Forall nonneg tr.
Proof.
  intros Fh Fl Fc. unfold true_range. intros H.
  apply bind_Ok in H as (hl & Hhl & H).
  apply bind_Ok in H as (hc & Hhc & H).
  apply bind_Ok in H as (lc & Hlc & H).
  apply bind_Ok in H as (m & Hm & Htr).
  eapply (broadcast_Forall finite nonneg nonneg);
    [apply np_maximum1_nonneg_r | | | exact Htr].
  - eapply (broadcast_Forall finite finite finite);
      [apply fsub_finite | exact Fh | exact Fl | exact Hhl].
  - eapply (broadcast_Forall nonneg nonneg nonneg); [| | | exact Hm].
    + intros x y Hx Hy. apply np_maximum1_nonneg_r; [now apply nonneg_finite | exact Hy].
    + constructor; [apply nonneg_zero|]. unfold np_abs. apply Forall_map.
      eapply Forall_impl; [|intros x; apply fabs_nonneg].
      eapply (broadcast_Forall finite finite finite); [apply fsub_finite | | | exact Hhc];
        now apply slice_Forall.
    + constructor; [apply nonneg_zero|]. unfold np_abs. apply Forall_map.
      eapply Forall_impl; [|intros x; apply fabs_nonneg].
      eapply (broadcast_Forall finite finite finite); [apply fsub_finite | | | exact Hlc];
        now apply slice_Forall.
Qed.

Lemma zeros_nonneg (a : array) : Forall nonneg (np_zeros_like a).
Proof. unfold np_zeros_like. apply Forall_map, Forall_true. intros _. apply nonneg_zero. Qed.

(** X9.  On finite bars the average true range is never negative: for a
    period between 1 and the number of bars, [calculate_atr] returns an
    array of the length of the input whose every cell is a number at
    least 0; with a period beyond the data it raises IndexError. *)
Theorem atr_nonnegative (high low close : list Q) (period : Z) :
  length high = length close -> length low = length close ->
  1 <= period ->
  (period <= len close ->
   exists out,
     calculate_atr (fin high) (fin low) (fin close) period = Ok out /\
     length out = length close /\ Forall nonneg out) /\
  (len close < period ->
   calculate_atr (fin high) (fin low) (fin close) period = Raise IndexError).
Proof.
  intros Hh Hl Hp. split.
  - intros Hn. unfold calculate_atr_at, store.
    destruct (true_range_length (fin high) (fin low) (fin close)) as (tr & Htr & Hlt);
      [now rewrite !fin_length | now rewrite !fin_length | |].
    { intros E. apply (f_equal length) in E. rewrite fin_length in E.
      unfold len in Hn. simpl in E. lia. }
    pose proof (true_range_nonneg _ _ _ _ (fin_finite high) (fin_finite low)
                  (fin_finite close) Htr) as Hnn.
    rewrite Htr. cbn [bind]. rewrite fin_length in Hlt.
    rewrite setitem_in by (unfold len in *; rewrite zeros_length, fin_length; lia). cbn [bind].
    destruct (for_range_ok
      (fun _ a => length a = length close /\ Forall nonneg a)
      (fun i atr =>
         let* a1 := getitem atr (i - 1) in
         let* t := getitem tr i in
         setitem atr i ((a1 * of_Z (period - 1) + t) / of_Z period)%f)
      period (len (fin close))
      (<[Z.to_nat (period - 1) := np_mean (slice tr 0 period)]>
         (np_zeros_like (fin close))))
      as (out & Hout & Hlen & Hall).
    + unfold len in *. rewrite fin_length. exact Hn.
    + split; [now rewrite length_insert, zeros_length, fin_length|].
      apply Forall_insert; [apply zeros_nonneg|].
      apply np_mean_nonneg; [|now apply slice_Forall].
      apply slice_nonempty; unfold len in *; lia.
    + intros i a Hi [Hla Ha]. unfold len in Hi. rewrite fin_length in Hi.
      destruct (getitem_ok a (i - 1)) as (a1 & -> & Ha1); [unfold len in *; lia|].
      destruct (getitem_ok tr i) as (t & -> & Ht); [unfold len in *; lia|].
      cbn [bind]. rewrite setitem_in by (unfold len in *; lia).
      eexists. split; [reflexivity|]. split; [now rewrite length_insert|].
      apply Forall_insert; [exact Ha|].
      apply (wilder_nonneg a1 t period Hp).
      * eapply Forall_lookup_1; [exact Ha | exact Ha1].
      * eapply Forall_lookup_1; [exact Hnn | exact Ht].
    + exists out. auto.
  - intros Hn. unfold calculate_atr_at, store.
    assert (Hs : forall v, setitem (np_zeros_like (fin close)) (period - 1) v
                           = Raise IndexError).
    { intros v. apply setitem_out; [lia | unfold len in *; rewrite zeros_length, fin_length; lia]. }
    destruct (true_range (fin high) (fin low) (fin close)) as [tr|e] eqn:Htr.
    + cbn [bind]. now rewrite Hs.
    + exfalso. destruct close as [|c close].
      * destruct high; [|discriminate]. destruct low; [|discriminate].
        vm_compute in Htr. discriminate.
      * destruct (true_range_length (fin high) (fin low) (fin (c :: close)))
          as (tr & Htr' & _);
          [now rewrite !fin_length | now rewrite !fin_length | discriminate |].
        congruence.
Qed.

Lemma atr_nonnegative_witness :
  (exists out,
     calculate_atr (fin [3; 4; 6]%Q) (fin [1; 2; 3]%Q) (fin [2; 3; 5]%Q) 2 = Ok out /\
     length out = 3%nat /\ Forall nonneg out) /\
  calculate_atr (fin [3; 4; 6]%Q) (fin [1; 2; 3]%Q) (fin [2; 3; 5]%Q) 4 = Raise IndexError.
Proof.
  split.
  - apply (atr_nonnegative [3; 4; 6]%Q [1; 2; 3]%Q [2; 3; 5]%Q 2);
      try reflexivity; now vm_compute.
  - apply (atr_nonnegative [3; 4; 6]%Q [1; 2; 3]%Q [2; 3; 5]%Q 4);
      try reflexivity; now vm_compute.
Defined.

(** ** On-balance volume *)

Lemma Qsum_snoc l x : (Qsum (l ++ [x]) == Qsum l + x)%Q.
Proof. unfold Qsum. rewrite fold_left_app. simpl. reflexivity. Qed.

Lemma volume_since_first_0 volume : volume_since_first volume 0 = 0%Q.
Proof.
  unfold volume_since_first, slice, clamp.
  change (Z.of_nat 0 + 1) with 1. change (1 <? 0) with false. cbv iota.
  now rewrite Z.sub_diag.
Qed.

Lemma volume_since_first_S volume k v :
  volume !! S k = Some v ->
  (volume_since_first volume (S k) == volume_since_first volume k + v)%Q.
Proof.
  intros Hv. pose proof (lookup_lt_Some _ _ _ Hv) as Hlt.
  unfold volume_since_first. rewrite !slice_in by (unfold len; lia).
  replace (Z.to_nat (Z.of_nat (S k) + 1 - 1)) with (S k) by lia.
  replace (Z.to_nat (Z.of_nat k + 1 - 1)) with k by lia.
  rewrite (take_S_r _ k v); [apply Qsum_snoc|].
  rewrite lookup_drop. exact Hv.
Qed.

(** ** Money flow index *)

Lemma fadd_nonneg x y : nonneg x -> nonneg y -> nonneg (x + y)%f.
Proof.
  intros (a & -> & Ha) (b & -> & Hb). eexists. split; [reflexivity|]. lra.
Qed.

Lemma fmul_nonneg x y : nonneg x -> nonneg y -> nonneg (x * y)%f.
Proof.
  intros (a & -> & Ha) (b & -> & Hb). eexists. split; [reflexivity|].
  now apply Qmult_le_0_compat.
Qed.

Lemma fin_nonneg (l : list Q) : Forall (fun q => (0 <= q)%Q) l -> Forall nonneg (fin l).
Proof.
  intros H. unfold fin. apply Forall_map. eapply Forall_impl; [exact H|].
  intros q Hq. now exists q.
Qed.

Lemma typical_price_nonneg (high low close tp : array) :
  Forall nonneg high -> Forall nonneg low -> Forall nonneg close ->
  typical_price high low close = Ok tp -> Forall nonneg tp.
Proof.
  intros Fh Fl Fc. unfold typical_price. intros H.
  apply bind_Ok in H as (hl & Hhl & H).
  apply bind_Ok in H as (hlc & Hhlc & H).
  injection H as <-. unfold scalar. apply Forall_map.
  assert (Hx : Forall nonneg hlc).
  { eapply (broadcast_Forall nonneg nonneg nonneg); [apply fadd_nonneg | | exact Fc | exact Hhlc].
    eapply (broadcast_Forall nonneg nonneg nonneg); [apply fadd_nonneg | exact Fh | exact Fl | exact Hhl]. }
  eapply Forall_impl; [exact Hx|].
  intros x (q & -> & Hq). eexists. split; [reflexivity|].
  apply Qle_shift_div_l; [reflexivity | now rewrite Qmult_0_l].
Qed.

(** X11.  On finite, non-negative prices and volumes [calculate_mfi]
    returns an array of the length of the input whose every cell, the
    leading zeros included, is a number in [[0, 100]]. *)
Theorem mfi_bounded (high low close volume : list Q) (period : Z) :
  length high = length close -> length low = length close ->
  length volume = length close ->
  Forall (fun q => (0 <= q)%Q) high -> Forall (fun q => (0 <= q)%Q) low ->
  Forall (fun q => (0 <= q)%Q) close -> Forall (fun q => (0 <= q)%Q) volume ->
  0 <= period ->
  exists out,
    calculate_mfi (fin high) (fin low) (fin close) (fin volume) period = Ok out /\
    length out = length close /\
    Forall (cell_within 0 100) out.
Proof.
  intros Hh Hl Hvol Ph Pl Pc Pv Hp.
  destruct close as [|c0 close'].
  { destruct high; [|discriminate]. destruct low; [|discriminate].
    destruct volume; [|discriminate].
    unfold calculate_mfi_at, store. change (fin []) with (@nil f64).
    change (typical_price [] [] []) with (Ok (@nil f64)). cbn [bind].
    change (broadcast fmul [] []) with (Ok (@nil f64)). cbn [bind].
    rewrite for_range_empty by (unfold len; simpl; lia). cbn [bind].
    rewrite for_range_empty by (unfold len; simpl; lia).
    exists []. split; [reflexivity|]. split; [reflexivity | constructor]. }
  set (close := c0 :: close') in *.
  assert (Hn : 1 <= len close) by (unfold len, close; simpl; lia).
  unfold calculate_mfi_at, store.
  destruct (typical_price_length (fin high) (fin low) (fin close)) as (tp & Htp & Htl);
    [now rewrite !fin_length | now rewrite !fin_length |].
  pose proof (typical_price_nonneg _ _ _ _ (fin_nonneg _ Ph) (fin_nonneg _ Pl)
                (fin_nonneg _ Pc) Htp) as Htn.
  rewrite Htp. cbn [bind]. rewrite fin_length in Htl.
  rewrite broadcast_same by (rewrite fin_length; congruence). cbn [bind].
  assert (Hmfn : Forall nonneg (zip_with_f fmul tp (fin volume))).
  { apply (zip_with_f_Forall nonneg nonneg nonneg);
      [apply fmul_nonneg | exact Htn | now apply fin_nonneg]. }
  match goal with
  | |- context [for_range ?lo ?hi ?body ?s] =>
      destruct (for_range_ok
        (fun _ (st : array * array) =>
           (length (fst st) = length close /\ length (snd st) = length close) /\
           Forall nonneg (fst st) /\ Forall nonneg (snd st))
        body lo hi s) as ([pf nf] & -> & [Hpl Hnl] & Hpn & Hnn)
  end.
  - unfold len in *. rewrite fin_length. lia.
  - cbn [fst snd]. rewrite !zeros_length, zip_with_f_length, fin_length.
    split; [lia|]. split; apply zeros_nonneg.
  - intros i [pf nf] Hi [[Hpf Hnf] [Hpn Hnn]]. cbn [fst snd] in *.
    unfold len in Hi. rewrite fin_length in Hi.
    destruct (getitem_ok tp i) as (t & -> & _); [unfold len in *; lia|].
    destruct (getitem_ok (shifted tp) i) as (ps & -> & _);
      [unfold len in *; rewrite shifted_length; lia|].
    cbn [bind].
    destruct (getitem_ok (zip_with_f fmul tp (fin volume)) i) as (mf & Hmf & Hmfi);
      [unfold len in *; rewrite zip_with_f_length, fin_length; lia|].
    assert (Hmf0 : nonneg mf) by (eapply Forall_lookup_1; [exact Hmfn | exact Hmfi]).
    destruct (fgt t ps); [|destruct (flt t ps)].
    + rewrite Hmf. cbn [bind].
      rewrite setitem_in by (unfold len in *; lia). cbn [bind].
      eexists. split; [reflexivity|]. cbn [fst snd]. rewrite length_insert.
      split; [auto|]. split; [now apply Forall_insert | exact Hnn].
    + rewrite Hmf. cbn [bind].
      rewrite setitem_in by (unfold len in *; lia). cbn [bind].
      eexists. split; [reflexivity|]. cbn [fst snd]. rewrite length_insert.
      split; [auto|]. split; [exact Hpn | now apply Forall_insert].
    + eexists. split; [reflexivity|]. cbn [fst snd]. auto.
  - cbn [bind]. cbn [fst snd] in *.
    destruct (pointwise_loop (fun _ v => cell_within 0 100 v)
      (fun i mfi =>
         let positive_sum := np_sum (slice pf (i - (period - 1)) (i + 1)) in
         let negative_sum := np_sum (slice nf (i - (period - 1)) (i + 1)) in
         if feq negative_sum (Fin 0) then setitem mfi i (Fin 100)
         else
           let money_ratio := (positive_sum / negative_sum)%f in
           setitem mfi i (Fin 100 - Fin 100 / (Fin 1 + money_ratio))%f)
      period (len (fin close)) (np_zeros_like (fin close)) (length close))
      as (out & Hout & Hol & Hob & Hov).
    + exact Hp.
    + unfold len. rewrite fin_length. lia.
    + now rewrite zeros_length, fin_length.
    + intros i a Hi Hla. unfold len in Hi. rewrite fin_length in Hi.
      cbv zeta.
      set (ps := np_sum (slice pf (i - (period - 1)) (i + 1))).
      set (ns := np_sum (slice nf (i - (period - 1)) (i + 1))).
      assert (Hps : nonneg ps)
        by (apply fold_fadd_nonneg; [apply nonneg_zero | now apply slice_Forall]).
      assert (Hns : nonneg ns)
        by (apply fold_fadd_nonneg; [apply nonneg_zero | now apply slice_Forall]).
      destruct (rsi_cell_bounded ps ns Hps Hns) as (q & lq & Hq & _ & Hb & _).
      exists (Fin q). split.
      * rewrite <- Hq. unfold rsi_cell. rewrite !setitem_in by (unfold len; lia).
        now destruct (feq ns (Fin 0)).
      * exists q. auto.
    + exists out. split; [exact Hout|]. split; [exact Hol|].
      apply cells_of_lookup. intros k Hk.
      destruct (Z_lt_ge_dec (Z.of_nat k) period) as [Hlt|Hge].
      * rewrite (Hob k Hlt), zeros_lookup by (rewrite fin_length; lia).
        eexists. split; [reflexivity | apply within_zero_hundred_0].
      * apply Hov. unfold len. rewrite fin_length. lia.
Qed.

Lemma mfi_bounded_witness :
  exists out,
    calculate_mfi (fin [3; 4; 6; 5]%Q) (fin [1; 2; 3; 3]%Q) (fin [2; 3; 5; 4]%Q)
      (fin [10; 20; 30; 40]%Q) 2 = Ok out /\
    length out = 4%nat /\
    Forall (cell_within 0 100) out.
Proof.
  apply (mfi_bounded [3; 4; 6; 5]%Q [1; 2; 3; 3]%Q [2; 3; 5; 4]%Q [10; 20; 30; 40]%Q 2);
    try reflexivity; try lia; repeat constructor; discriminate.
Defined.

(** ** Bollinger bands *)

Lemma rolling_lookup agg (a : array) window k :
  0 <= window -> (k < length a)%nat ->
  exists out, rolling agg a window = Ok out /\ length out = length a /\
    out !! k = Some (if (window =? 0) || (Z.of_nat k + 1 <? window) then NaN
                     else agg (slice a (Z.of_nat k + 1 - window) (Z.of_nat k + 1))).
Proof.
  intros Hw Hk. unfold rolling. replace (window <? 0) with false by lia.
  eexists. split; [reflexivity|]. split.
  - rewrite length_map, range_length. unfold len. lia.
  - rewrite lookup_map, range_lookup by (unfold len; lia).
    simpl. now rewrite Z.add_0_l.
Qed.

Lemma Qsqrt_nonneg q : (0 <= Qsqrt q)%Q.
Proof. unfold Qsqrt, Qle. simpl. rewrite Z.mul_1_r. apply Z.sqrt_nonneg. Qed.

Lemma fsqrt_nonneg x : nonneg x -> nonneg (fsqrt x).
Proof.
  intros (q & -> & Hq). unfold fsqrt, Qneg_b.
  replace (Qle_bool 0 q) with true by (symmetry; now apply Qle_bool_iff).
  eexists. split; [reflexivity | apply Qsqrt_nonneg].
Qed.

Lemma fdiv_nonneg_pos x n : nonneg x -> 1 <= n -> nonneg (x / of_Z n)%f.
Proof.
  intros (q & -> & Hq) Hn. unfold of_Z; simpl.
  rewrite inject_Z_nonzero by lia. eexists. split; [reflexivity|].
  apply Qle_shift_div_l; [apply inject_Z_pos; lia | now rewrite Qmult_0_l].
Qed.

(** The sample standard deviation of at least two finite observations is
    a number at least 0. *)
Lemma std_window_nonneg (w : list Q) : 2 <= len w -> nonneg (std_window (fin w)).
Proof.
  intros Hw. unfold std_window.
  replace (len (fin w) <=? 1) with false
    by (unfold len in *; rewrite fin_length; lia).
  rewrite np_mean_fin by (intros ->; unfold len in Hw; simpl in Hw; lia).
  apply fsqrt_nonneg. apply fdiv_nonneg_pos;
    [|unfold len in *; rewrite fin_length; lia].
  apply fold_fadd_nonneg; [apply nonneg_zero|].
  apply Forall_map. unfold fin. apply Forall_map, Forall_true.
  intros x. simpl. eexists. split; [reflexivity|].
  generalize (x + - Qmean w)%Q. intros d. nra.
Qed.

(** X12.  Bollinger bands on finite prices with a non-negative width
    factor.  With a period of at least 2, at every index from
    [period - 1] on the middle band is the mean of the last [period]
    prices and the upper and lower bands lie at the same distance
    [w >= 0] above and below it.  With period 1 the standard deviation
    does not exist: both outer bands are NaN at every index. *)
Theorem bollinger_bands_symmetric (prices : list Q) (period : Z) (std_dev : Q) :
  (0 <= std_dev)%Q -> 1 <= period ->
  exists bb,
    calculate_bollinger_bands (fin prices) period (Fin std_dev) = Ok bb /\
    (2 <= period ->
     forall k, period - 1 <= Z.of_nat k < len prices ->
       exists w, (0 <= w)%Q /\
         let m := Qmean (trailing prices (Z.of_nat k) period) in
         bb_middle bb !! k = Some (Fin m) /\
         bb_upper bb !! k = Some (Fin (m + w)) /\
         bb_lower bb !! k = Some (Fin (m - w))) /\
    (period = 1 ->
     forall k, (k < length prices)%nat ->
       bb_upper bb !! k = Some NaN /\ bb_lower bb !! k = Some NaN).
Proof.
  intros Hs Hp. unfold calculate_bollinger_bands.
  assert (Hsma : exists sma, calculate_sma (fin prices) period = Ok sma /\
                             length sma = length prices).
  { unfold calculate_sma, rolling. replace (period <? 0) with false by lia.
    eexists. split; [reflexivity|].
    rewrite length_map, range_length. unfold len. rewrite fin_length. lia. }
  destruct Hsma as (sma & Hsma & Hsl). rewrite Hsma. cbn [bind].
  assert (Hstd : exists sd, rolling std_window (fin prices) period = Ok sd /\
                            length sd = length prices).
  { unfold rolling. replace (period <? 0) with false by lia.
    eexists. split; [reflexivity|].
    rewrite length_map, range_length. unfold len. rewrite fin_length. lia. }
  destruct Hstd as (sd & Hstd & Hdl). rewrite Hstd. cbn [bind].
  rewrite !broadcast_same by (unfold scalar; rewrite length_map; congruence).
  cbn [bind]. eexists. split; [reflexivity|]. cbn [bb_middle bb_upper bb_lower].
  split.
  - intros Hp2 k Hk.
    destruct (sma_cell prices period k) as (sma' & Hs' & Hm); [lia | lia |].
    rewrite Hsma in Hs'. injection Hs' as <-.
    destruct (rolling_lookup std_window (fin prices) period k) as (sd' & Hd' & _ & Hd);
      [lia | rewrite fin_length; unfold len in Hk; lia |].
    rewrite Hstd in Hd'. injection Hd' as <-.
    replace (period =? 0) with false in Hd by lia.
    replace (Z.of_nat k + 1 <? period) with false in Hd by lia.
    cbn [orb] in Hd. unfold fin in Hd at 1. rewrite slice_map in Hd.
    fold (trailing prices (Z.of_nat k) period) in Hd.
    fold (fin (trailing prices (Z.of_nat k) period)) in Hd.
    destruct (std_window_nonneg (trailing prices (Z.of_nat k) period)) as (d & Hdq & Hd0).
    { rewrite trailing_length; lia. }
    rewrite Hdq in Hd.
    exists (d * std_dev)%Q. split; [now apply Qmult_le_0_compat|].
    cbv zeta. split; [exact Hm|]. split.
    + rewrite (zip_with_f_lookup fadd sma _ k _ (Fin d * Fin std_dev)%f Hm);
        [reflexivity|].
      unfold scalar. rewrite lookup_map, Hd. reflexivity.
    + rewrite (zip_with_f_lookup fsub sma _ k _ (Fin d * Fin std_dev)%f Hm);
        [reflexivity|].
      unfold scalar. rewrite lookup_map, Hd. reflexivity.
  - intros -> k Hk.
    destruct (sma_cell prices 1 k) as (sma' & Hs' & Hm); [lia | unfold len; lia |].
    rewrite Hsma in Hs'. injection Hs' as <-.
    destruct (rolling_lookup std_window (fin prices) 1 k) as (sd' & Hd' & _ & Hd);
      [lia | rewrite fin_length; lia |].
    rewrite Hstd in Hd'. injection Hd' as <-.
    replace (Z.of_nat k + 1 <? 1) with false in Hd by lia.
    cbn [Z.eqb orb] in Hd.
    assert (Hnan : std_window (slice (fin prices) (Z.of_nat k + 1 - 1) (Z.of_nat k + 1))
                   = NaN).
    { unfold std_window.
      replace (len _ <=? 1) with true; [reflexivity|].
      symmetry. apply Z.leb_le. rewrite slice_length;
        unfold len; rewrite ?fin_length; lia. }
    rewrite Hnan in Hd. split.
    + rewrite (zip_with_f_lookup fadd sma _ k _ (NaN * Fin std_dev)%f Hm);
        [reflexivity|].
      unfold scalar. rewrite lookup_map, Hd. reflexivity.
    + rewrite (zip_with_f_lookup fsub sma _ k _ (NaN * Fin std_dev)%f Hm);
        [reflexivity|].
      unfold scalar. rewrite lookup_map, Hd. reflexivity.
Qed.

Lemma bollinger_bands_symmetric_witness :
  exists bb,
    calculate_bollinger_bands (fin [1; 3; 2; 6]%Q) 2 (Fin 2) = Ok bb /\
    exists w, (0 <= w)%Q /\
      bb_middle bb !! 3%nat = Some (Fin (Qmean [2; 6]%Q)) /\
      bb_upper bb !! 3%nat = Some (Fin (Qmean [2; 6]%Q + w)) /\
      bb_lower bb !! 3%nat = Some (Fin (Qmean [2; 6]%Q - w)).
Proof.
  destruct (bollinger_bands_symmetric [1; 3; 2; 6]%Q 2 2) as (bb & Hbb & H2 & _);
    [discriminate | lia |].
  exists bb. split; [exact Hbb|].
  exact (H2 ltac:(lia) 3%nat ltac:(now vm_compute)).
Defined.

(** ** RSI of a series without losses *)

Lemma slice_tail_eq {A} (x : A) (a : list A) : slice (x :: a) 1 (len (x :: a)) = a.
Proof.
  rewrite slice_in by (unfold len; simpl length; lia).
  replace (Z.to_nat (len (x :: a) - 1)) with (length a)
    by (unfold len; simpl length; lia).
  change (Z.to_nat 1) with 1%nat. cbn [drop]. apply firstn_all.
Qed.

Lemma slice_init_eq {A} (x : A) (a : list A) :
  slice (x :: a) 0 (-1) = take (length a) (x :: a).
Proof.
  unfold slice, clamp. change (-1 <? 0) with true. change (0 <? 0) with false.
  cbv iota.
  replace (Z.to_nat (Z.max (-1 + len (x :: a)) 0 - Z.min 0 (len (x :: a))))
    with (length a) by (unfold len; simpl length; lia).
  replace (Z.to_nat (Z.min 0 (len (x :: a)))) with 0%nat by (unfold len; lia).
  reflexivity.
Qed.

Lemma np_diff_cons (x y : f64) (a : array) :
  np_diff (x :: y :: a) = (y - x)%f :: np_diff (y :: a).
Proof.
  unfold np_diff. rewrite !slice_tail_eq, !slice_init_eq. reflexivity.
Qed.

Lemma np_diff_one (x : f64) : np_diff [x] = [].
Proof. reflexivity. Qed.

Lemma np_diff_nondecreasing (prices : list Q) :
  nondecreasing prices -> Forall nonneg (np_diff (fin prices)).
Proof.
  induction prices as [|x [|y l] IH]; intros H.
  - constructor.
  - constructor.
  - destruct H as [Hxy H]. change (fin (x :: y :: l)) with (Fin x :: Fin y :: fin l).
    rewrite np_diff_cons. constructor; [|exact (IH H)].
    eexists. split; [reflexivity|]. lra.
Qed.

Lemma rsi_losses_vanish (prices : list Q) :
  nondecreasing prices -> Forall (fun x => x = Fin 0) (rsi_losses (fin prices)).
Proof.
  intros H. unfold rsi_losses, np_where. apply Forall_map.
  apply Forall_app. split.
  - eapply Forall_impl; [apply np_diff_nondecreasing, H|].
    intros d (q & -> & Hq). unfold flt.
    replace (Qle_bool 0 q) with true by (symmetry; now apply Qle_bool_iff).
    reflexivity.
  - constructor; [reflexivity | constructor].
Qed.

Lemma fold_fadd_zero (l : array) : forall acc,
  is_zero acc -> Forall (fun x => x = Fin 0) l -> is_zero (fold_left fadd l acc).
Proof.
  induction l as [|x l IH]; intros acc Hacc H; [exact Hacc|].
  inversion H as [|? ? -> Hl]; subst. cbn [fold_left]. apply IH; [|exact Hl].
  destruct Hacc as (q & -> & Hq). eexists. split; [reflexivity|]. lra.
Qed.

Lemma np_mean_zero (l : array) :
  l <> [] -> Forall (fun x => x = Fin 0) l -> is_zero (np_mean l).
Proof.
  intros Hne H. unfold np_mean, np_sum.
  destruct (fold_fadd_zero l (Fin 0)) as (q & -> & Hq);
    [exists 0%Q; split; reflexivity | exact H |].
  unfold of_Z; simpl. rewrite inject_Z_nonzero
    by (unfold len; destruct l; [contradiction | simpl; lia]).
  eexists. split; [reflexivity|]. rewrite Hq. apply Qmult_0_l.
Qed.

Lemma wilder_zero prev period :
  1 <= period -> is_zero prev -> is_zero (wilder prev (Fin 0) period).
Proof.
  intros Hp (q & -> & Hq). unfold wilder, of_Z; simpl.
  rewrite inject_Z_nonzero by lia. eexists. split; [reflexivity|].
  rewrite Hq. unfold Qdiv. rewrite Qmult_0_l, Qplus_0_l. apply Qmult_0_l.
Qed.

(** Without a single loss, every average loss is zero. *)
Lemma rsi_avg_losses_zero (prices : array) (period : Z) ag al :
  1 <= period < len prices ->
  Forall (fun x => x = Fin 0) (rsi_losses prices) ->
  rsi_averages prices period = Ok (ag, al) ->
  forall k, period <= Z.of_nat k < len prices ->
    exists l, al !! k = Some l /\ is_zero l.
Proof.
  intros Hp Hz. unfold rsi_averages_at, store. cbv zeta.
  fold (rsi_gains prices). fold (rsi_losses prices).
  assert (Hne : prices <> []) by (intros ->; unfold len in Hp; simpl in Hp; lia).
  pose proof (rsi_gains_length prices Hne) as Hgl.
  pose proof (rsi_losses_length prices Hne) as Hll.
  rewrite !setitem_in by (unfold len in *; rewrite zeros_length; lia).
  cbn [bind].
  match goal with
  | |- context [for_range ?lo ?hi ?body ?s] =>
      destruct (for_range_ok
        (fun i (st : array * array) =>
           length (fst st) = length prices /\ length (snd st) = length prices /\
           forall k, period <= Z.of_nat k < i ->
             exists l, snd st !! k = Some l /\ is_zero l)
        body lo hi s) as ([ag' al'] & Hrun & Hla & Hlb & Hv)
  end.
  - lia.
  - cbn [fst snd]. rewrite !length_insert, zeros_length.
    split; [reflexivity|]. split; [reflexivity|].
    intros k Hk. replace k with (Z.to_nat period) by lia.
    rewrite !list_lookup_insert_eq by (rewrite zeros_length; unfold len in Hp; lia).
    eexists. split; [reflexivity|]. apply np_mean_zero; [|now apply slice_Forall].
    apply slice_nonempty; unfold len in *; lia.
  - intros i [a b] Hi (Hla & Hlb & Hv). cbn [fst snd] in *.
    destruct (Hv (Z.to_nat (i - 1))) as (l1 & Hl1 & HZ); [lia|].
    destruct (getitem_ok a (i - 1)) as (g1 & -> & _); [unfold len in *; lia|].
    cbn [bind].
    destruct (getitem_ok (rsi_gains prices) i) as (g & -> & Hg);
      [unfold len in *; lia|]. cbn [bind].
    rewrite setitem_in by (unfold len in *; lia). cbn [bind].
    rewrite (getitem_in b (i - 1) l1) by (lia || assumption). cbn [bind].
    destruct (getitem_ok (rsi_losses prices) i) as (l & -> & Hl);
      [unfold len in *; lia|]. cbn [bind].
    rewrite setitem_in by (unfold len in *; lia). cbn [bind].
    eexists. split; [reflexivity|]. cbn [fst snd]. rewrite !length_insert.
    split; [exact Hla|]. split; [exact Hlb|].
    intros k Hk. destruct (decide (k = Z.to_nat i)) as [->|Hki].
    + rewrite !list_lookup_insert_eq by (unfold len in *; lia).
      eexists. split; [reflexivity|].
      assert (l = Fin 0) as ->
        by (rewrite List.Forall_forall in Hz; eapply Hz, lookup_In, Hl).
      now apply (wilder_zero l1 period).
    + rewrite !list_lookup_insert_ne by lia. apply Hv. lia.
  - rewrite Hrun. intros [= <- <-]. exact Hv.
Qed.

(** X13.  On a finite series that never falls (a constant series
    included) and is longer than the period, [calculate_rsi] is exactly
    100 at every index from [period] on: the average loss is zero there,
    and the code answers 100 instead of dividing by it. *)
Theorem rsi_without_losses_is_100 (prices : list Q) (period : Z) :
  nondecreasing prices ->
  1 <= period < len prices ->
  exists out,
    calculate_rsi (fin prices) period = Ok out /\
    length out = length prices /\
    forall k, period <= Z.of_nat k < len prices -> out !! k = Some (Fin 100).
Proof.
  intros Hnd Hp.
  assert (Hp' : 1 <= period < len (fin prices))
    by (unfold len in *; rewrite fin_length; lia).
  destruct (rsi_structure (fun _ => True) (fin prices) period Hp' I I)
    as (ag & al & out & Havg & Hout & [Hlen _] & Hcells); [auto|].
  exists out. split; [exact Hout|]. split; [now rewrite Hlen, fin_length|].
  intros k Hk.
  destruct (Hcells k) as (g & l & _ & Hl & _ & _ & Hk');
    [unfold len in *; rewrite fin_length; lia|].
  destruct (rsi_avg_losses_zero (fin prices) period ag al Hp'
              (rsi_losses_vanish prices Hnd) Havg k) as (l' & Hl' & z & -> & Hz);
    [unfold len in *; rewrite fin_length; lia|].
  assert (l = Fin z) as -> by congruence.
  rewrite Hk'. unfold rsi_cell, feq.
  replace (Qeq_bool z 0) with true by (symmetry; now apply Qeq_bool_iff).
  reflexivity.
Qed.

Lemma rsi_without_losses_is_100_witness :
  exists out,
    calculate_rsi (fin [5; 5; 5; 5]%Q) 2 = Ok out /\
    length out = 4%nat /\
    forall k, 2 <= Z.of_nat k < len [5; 5; 5; 5]%Q -> out !! k = Some (Fin 100).
Proof.
  apply (rsi_without_losses_is_100 [5; 5; 5; 5]%Q 2).
  - simpl. repeat split; discriminate.
  - now vm_compute.
Defined.

(** ** Commodity channel index *)

Lemma all_finite (a : array) : Forall finite a -> exists l, a = fin l.
Proof.
  induction 1 as [|x a (q & ->) _ (l & ->)].
  - now exists [].
  - now exists (q :: l).
Qed.

Lemma fadd_finite x y : finite x -> finite y -> finite (x + y)%f.
Proof. intros (a & ->) (b & ->). now eexists. Qed.

Lemma typical_price_finite (high low close : list Q) tp :
  typical_price (fin high) (fin low) (fin close) = Ok tp -> exists tq, tp = fin tq.
Proof.
  unfold typical_price. intros H.
  apply bind_Ok in H as (hl & Hhl & H).
  apply bind_Ok in H as (hlc & Hhlc & H).
  injection H as <-. apply all_finite. unfold scalar. apply Forall_map.
  assert (Hx : Forall finite hlc).
  { eapply (broadcast_Forall finite finite finite);
      [apply fadd_finite | | apply fin_finite | exact Hhlc].
    eapply (broadcast_Forall finite finite finite);
      [apply fadd_finite | apply fin_finite | apply fin_finite | exact Hhl]. }
  eapply Forall_impl; [exact Hx|].
  intros x (q & ->). simpl. now eexists.
Qed.

Lemma fold_Qplus_ge (l : list Q) : forall acc,
  Forall (fun y => (0 <= y)%Q) l ->
  (acc <= fold_left Qplus l acc)%Q /\
  forall y, In y l -> (acc + y <= fold_left Qplus l acc)%Q.
Proof.
  induction l as [|x l IH]; intros acc H.
  - split; [apply Qle_refl | contradiction].
  - inversion H as [|? ? Hx Hl]; subst. cbn [fold_left].
    destruct (IH (acc + x)%Q Hl) as [H1 H2]. split; [lra|].
    intros y [<-|Hy]; [exact H1|]. specialize (H2 y Hy). lra.
Qed.

(** One deviation is at most the sum of all the deviations of its window. *)
Lemma deviation_le_sum (w : list Q) (m x : Q) :
  In x w -> (Qabs (x - m) <= Qsum (map (fun y => Qabs (y - m)) w))%Q.
Proof.
  intros Hx. unfold Qsum.
  destruct (fold_Qplus_ge (map (fun y => Qabs (y - m)) w) 0) as [_ H].
  - apply Forall_map, Forall_true. intros y. apply Qabs_nonneg.
  - specialize (H (Qabs (x - m))). rewrite Qplus_0_l in H. apply H.
    apply in_map_iff. now exists x.
Qed.

Lemma cci_cell_bound (w : list Q) (x m : Q) (P : Z) :
  1 <= P -> len w = P -> In x w ->
  let md := Qmean (map (fun y => Qabs (y - m)) w) in
  ~ (md == 0)%Q ->
  (Qabs ((x - m) / ((15 # 1000) * md)) <= (200 # 3) * inject_Z P)%Q.
Proof.
  intros HP Hw Hx md Hmd.
  pose proof (deviation_le_sum w m x Hx) as Hdev.
  assert (HPq : (0 < inject_Z P)%Q) by (apply inject_Z_pos; lia).
  assert (Hsum : (Qsum (map (fun y => Qabs (y - m)) w) == md * inject_Z P)%Q).
  { unfold md, Qmean. rewrite len_map, Hw. field. lra. }
  assert (Hmd0 : (0 <= md)%Q).
  { assert (H0 : (0 <= Qsum (map (fun y => Qabs (y - m)) w))%Q).
    { eapply Qle_trans; [apply (Qabs_nonneg (x - m)) | exact Hdev]. }
    rewrite Hsum in H0. nra. }
  assert (Hpos : (0 < md)%Q) by lra.
  rewrite Hsum in Hdev. apply Qabs_Qle_condition in Hdev.
  apply Qabs_Qle_condition.
  set (q := ((x - m) / ((15 # 1000) * md))%Q).
  assert (Hq : (q * ((15 # 1000) * md) == x - m)%Q) by (unfold q; field; lra).
  clearbody q. clear Hsum Hmd Hmd0 Hx Hw.
  set (p := inject_Z P) in *. clearbody p md.
  split; nra.
Qed.

Lemma abs_deviations_fin (w : list Q) (m : Q) :
  np_abs (scalar fsub (fin w) (Fin m)) = fin (map (fun y => Qabs (y - m)) w).
Proof. unfold np_abs, scalar, fin. rewrite !map_map. reflexivity. Qed.

(** X14.  On finite bars [calculate_cci] never divides by zero: every
    cell of its result is a number, and its magnitude is at most
    [200/3 * period] (one deviation from the window mean is at most
    [period] times the mean deviation). *)
Theorem cci_bounded (high low close : list Q) (period : Z) :
  length high = length close -> length low = length close ->
  1 <= period ->
  exists out,
    calculate_cci (fin high) (fin low) (fin close) period = Ok out /\
    length out = length close /\
    forall k, (k < length close)%nat ->
      exists q, out !! k = Some (Fin q) /\
        (Qabs q <= (200 # 3) * inject_Z period)%Q.
Proof.
  intros Hh Hl Hp. unfold calculate_cci_at, store.
  destruct (typical_price_length (fin high) (fin low) (fin close)) as (tp & Htp & Htl);
    [now rewrite !fin_length | now rewrite !fin_length |].
  destruct (typical_price_finite _ _ _ _ Htp) as (tq & ->).
  rewrite Htp. cbn [bind]. rewrite !fin_length in Htl.
  assert (HB : (0 <= (200 # 3) * inject_Z period)%Q).
  { pose proof (inject_Z_pos period ltac:(lia)). nra. }
  destruct (pointwise_loop
    (fun i v => v = Fin (Qmean (trailing tq i period)))
    (fun i tp_sma =>
       setitem tp_sma i (np_mean (slice (fin tq) (i - (period - 1)) (i + 1))))
    (period - 1) (len (fin close)) (np_zeros_like (fin close)) (length close))
    as (sma & -> & Hsl & _ & Hsv).
  - lia.
  - unfold len. rewrite fin_length. lia.
  - now rewrite zeros_length, fin_length.
  - intros i a Hi Hla. unfold len in Hi. rewrite fin_length in Hi.
    rewrite setitem_in by (unfold len; lia).
    eexists. split; [reflexivity|].
    replace (i - (period - 1)) with (i + 1 - period) by lia.
    unfold fin. rewrite slice_map. fold (trailing tq i period).
    fold (fin (trailing tq i period)).
    apply np_mean_fin. apply trailing_nonempty; unfold len; lia.
  - cbn [bind].
    destruct (pointwise_loop
      (fun _ v => exists q, v = Fin q /\ (Qabs q <= (200 # 3) * inject_Z period)%Q)
      (fun i cci =>
         let* m := getitem sma i in
         let mean_dev :=
           np_mean (np_abs (scalar fsub (slice (fin tq) (i - (period - 1)) (i + 1)) m)) in
         if feq mean_dev (Fin 0) then setitem cci i (Fin 0)
         else
           let* tp := getitem (fin tq) i in
           setitem cci i ((tp - m) / (Fin (15 # 1000) * mean_dev))%f)
      (period - 1) (len (fin close)) (np_zeros_like (fin close)) (length close))
      as (out & Hout & Hol & Hob & Hov).
    + lia.
    + unfold len. rewrite fin_length. lia.
    + now rewrite zeros_length, fin_length.
    + intros i a Hi Hla. unfold len in Hi. rewrite fin_length in Hi.
      destruct (Hsv (Z.to_nat i)) as (v & Hv & Hvq);
        [unfold len; rewrite fin_length; lia|].
      rewrite Z2Nat.id in Hvq by lia. subst v.
      rewrite (getitem_in sma i _ ltac:(lia) Hv). cbn [bind].
      replace (i - (period - 1)) with (i + 1 - period) by lia.
      set (w := trailing tq i period). set (m := Qmean w).
      assert (Hw : slice (fin tq) (i + 1 - period) (i + 1) = fin w)
        by (unfold fin; now rewrite slice_map).
      assert (Hwne : w <> []) by (apply trailing_nonempty; unfold len; lia).
      rewrite Hw, abs_deviations_fin.
      rewrite np_mean_fin by (intros E; apply map_eq_nil in E; contradiction).
      set (md := Qmean (map (fun y => Qabs (y - m)) w)). cbv zeta.
      unfold feq. destruct (Qeq_bool md 0) eqn:E.
      * rewrite setitem_in by (unfold len; lia).
        eexists. split; [reflexivity|]. exists 0%Q. split; [reflexivity | exact HB].
      * assert (Hmd : ~ (md == 0)%Q) by (intros H; apply Qeq_bool_iff in H; congruence).
        destruct (lookup_lt_is_Some_2 tq (Z.to_nat i) ltac:(lia)) as [x Hx].
        rewrite (getitem_in (fin tq) i (Fin x))
          by (try lia; rewrite fin_lookup, Hx; reflexivity).
        cbn [bind fsub fadd fneg fmul fdiv].
        assert (Hprod : ~ ((15 # 1000) * md == 0)%Q)
          by (clearbody md; intros H; apply Hmd; lra).
        rewrite (Qzero_b_false _ Hprod).
        rewrite setitem_in by (unfold len; lia).
        eexists. split; [reflexivity|]. eexists. split; [reflexivity|].
        apply (cci_cell_bound w x m period Hp).
        -- apply trailing_length; unfold len; lia.
        -- apply trailing_has_current; [lia | unfold len; lia | exact Hx].
        -- exact Hmd.
    + exists out. split; [exact Hout|]. split; [exact Hol|].
      intros k Hk.
      destruct (Z_lt_ge_dec (Z.of_nat k) (period - 1)) as [Hlt|Hge].
      * rewrite (Hob k Hlt), zeros_lookup by (rewrite fin_length; lia).
        exists 0%Q. split; [reflexivity | exact HB].
      * destruct (Hov k) as (v & Hv & q & -> & Hq);
          [unfold len; rewrite fin_length; lia|].
        exists q. auto.
Qed.

Lemma cci_bounded_witness :
  exists out,
    calculate_cci (fin [3; 4; 6; 5]%Q) (fin [1; 2; 3; 3]%Q) (fin [2; 3; 5; 4]%Q) 2 = Ok out /\
    length out = 4%nat /\
    forall k, (k < 4)%nat ->
      exists q, out !! k = Some (Fin q) /\ (Qabs q <= (200 # 3) * inject_Z 2)%Q.
Proof.
  apply (cci_bounded [3; 4; 6; 5]%Q [1; 2; 3; 3]%Q [2; 3; 5; 4]%Q 2);
    try reflexivity; lia.
Defined.

(** ** Requests that cannot raise *)

Ltac lens :=
  unfold len in *;
  rewrite ?length_insert, ?zeros_length, ?fin_length, ?zip_with_f_length,
    ?shifted_length in *;
  lia.

(** Runs the reads and writes of a loop body whose indices are in range. *)
Ltac run_body :=
  repeat match goal with
    | |- context [getitem ?a ?i] =>
        let x := fresh "x" in
        destruct (getitem_ok a i) as (x & -> & _); [lens|]; cbn [bind]
    | |- context [setitem ?a ?i ?v] =>
        rewrite (setitem_in a i v) by lens; cbn [bind]
    | |- context [if (?a <=? ?b) then _ else _] =>
        destruct (Z.leb_spec a b)
    | |- context [if ?b then _ else _] => destruct b
    end.

Lemma rolling_length agg (a : array) window out :
  rolling agg a window = Ok out -> length out = length a.
Proof.
  unfold rolling. destruct (window <? 0); [discriminate|]. intros [= <-].
  rewrite length_map, range_length. unfold len. lia.
Qed.

Lemma rolling_ok agg (a : array) window :
  0 <= window -> exists out, rolling agg a window = Ok out /\ length out = length a.
Proof.
  intros H. unfold rolling. replace (window <? 0) with false by lia.
  eexists. split; [reflexivity|]. rewrite length_map, range_length. unfold len. lia.
Qed.

Lemma ewm_from_length a : forall xs w o, length (ewm_from a w o xs) = length xs.
Proof.
  induction xs as [|x xs IH]; intros w o; [reflexivity|].
  cbn [ewm_from]. destruct (isna w); [|destruct (isna x)]; cbn [length]; now rewrite IH.
Qed.

Lemma ewm_mean_ok (xs : array) span :
  1 <= span -> exists out, ewm_mean xs span = Ok out /\ length out = length xs.
Proof.
  intros H. unfold ewm_mean. replace (span <? 1) with false by lia.
  eexists. split; [reflexivity|]. destruct xs; [reflexivity|].
  cbn [length]. now rewrite ewm_from_length.
Qed.

Lemma bollinger_ok (prices : array) period std_dev :
  0 <= period -> exists bb, calculate_bollinger_bands prices period std_dev = Ok bb.
Proof.
  intros H. unfold calculate_bollinger_bands, calculate_sma.
  destruct (rolling_ok np_mean prices period H) as (sma & -> & Hs). cbn [bind].
  destruct (rolling_ok std_window prices period H) as (sd & -> & Hd). cbn [bind].
  rewrite !broadcast_same by (unfold scalar; rewrite length_map; congruence).
  cbn [bind]. now eexists.
Qed.

Lemma macd_ok (prices : array) fast slow signal :
  1 <= fast -> 1 <= slow -> 1 <= signal ->
  exists m, calculate_macd prices fast slow signal = Ok m.
Proof.
  intros Hf Hs Hg. unfold calculate_macd, calculate_ema.
  destruct (ewm_mean_ok prices fast Hf) as (fe & -> & Hfl). cbn [bind].
  destruct (ewm_mean_ok prices slow Hs) as (se & -> & Hsl). cbn [bind].
  rewrite broadcast_same by congruence. cbn [bind].
  destruct (ewm_mean_ok (zip_with_f fsub fe se) signal Hg) as (sg & -> & Hgl).
  cbn [bind]. rewrite broadcast_same by congruence. cbn [bind]. now eexists.
Qed.

Lemma window_extremes_ok (high low : array) i period :
  1 <= period -> period - 1 <= i -> i < len high -> i < len low ->
  exists hh ll, window_extremes high low i period = Ok (hh, ll).
Proof.
  intros Hp Hi Hh Hl. unfold window_extremes.
  destruct (np_max_ok (slice high (i - (period - 1)) (i + 1))) as (hh & ->);
    [apply slice_nonempty; lia|].
  destruct (np_min_ok (slice low (i - (period - 1)) (i + 1))) as (ll & ->);
    [apply slice_nonempty; lia|].
  cbn [bind]. now eexists _, _.
Qed.

Lemma stochastic_ok (high low close : array) k_period d_period slowing :
  length high = length close -> length low = length close ->
  1 <= k_period -> 0 <= d_period ->
  exists s, calculate_stochastic high low close k_period d_period slowing = Ok s.
Proof.
  intros Hh Hl Hk Hd. unfold calculate_stochastic_at, store.
  match goal with
  | |- context [for_range ?lo ?hi ?body ?s] =>
      destruct (pointwise_loop (fun _ _ => True) body lo hi s (length close))
        as (raw & -> & Hrl & _)
  end; [lia | unfold len; lia | apply zeros_length | |].
  - intros i a Hi Hla.
    destruct (window_extremes_ok high low i k_period) as (hh & ll & ->);
      [lia | lia | unfold len in *; lia | unfold len in *; lia |].
    cbn [bind]. run_body; eauto.
  - cbn [bind]. unfold calculate_sma.
    destruct (1 <? slowing) eqn:Es.
    + apply Z.ltb_lt in Es.
      match goal with
      | |- context [for_range ?lo ?hi ?body ?s] =>
          destruct (pointwise_loop (fun _ _ => True) body lo hi s (length close))
            as (k & -> & Hkl & _)
      end; [lia | unfold len; lia | apply zeros_length | |].
      * intros i a Hi Hla. run_body. eauto.
      * cbn [bind]. destruct (rolling_ok np_mean k d_period Hd) as (d & -> & _).
        cbn [bind]. now eexists.
    + cbn [bind]. destruct (rolling_ok np_mean raw d_period Hd) as (d & -> & _).
      cbn [bind]. now eexists.
Qed.

Lemma vwap_ok (prices volumes : array) (period : option Z) :
  length volumes = length prices -> positive period ->
  exists out, calculate_vwap prices volumes period = Ok out /\
    length out = length prices.
Proof.
  intros Hv Hp. unfold calculate_vwap_at, store.
  rewrite broadcast_same by congruence. cbn [bind].
  destruct period as [p|].
  - simpl in Hp.
    match goal with
    | |- context [for_range ?lo ?hi ?body ?s] =>
        destruct (pointwise_loop (fun _ _ => True) body lo hi s (length prices))
          as (out & -> & Hl & _)
    end; [lia | unfold len; lia | apply zeros_length | | now eexists].
    intros i a Hi Hla. run_body; eauto.
  - assert (Hl : length (np_cumsum (zip_with_f fmul prices volumes)) =
                 length (np_where (fun v => fgt v (Fin 0)) (fun v => v) (Fin 1)
                           (np_cumsum volumes))).
    { unfold np_where, np_cumsum. rewrite length_map, !cumsum_from_length.
      rewrite zip_with_f_length. lia. }
    rewrite broadcast_same by exact Hl. eexists. split; [reflexivity|].
    rewrite zip_with_f_length, <- Hl. unfold np_cumsum.
    rewrite cumsum_from_length, zip_with_f_length. lia.
Qed.

Lemma obv_ok (close volume : array) :
  length volume = length close ->
  exists out, calculate_obv close volume = Ok out.
Proof.
  intros Hv. unfold calculate_obv_at, store.
  destruct (Z_le_gt_dec 1 (len close)) as [Hn|Hn];
    [|rewrite for_range_empty by lia; now eexists].
  match goal with
  | |- context [for_range ?lo ?hi ?body ?s] =>
      destruct (pointwise_loop (fun _ _ => True) body lo hi s (length close))
        as (out & -> & _)
  end; [lia | unfold len; lia | apply zeros_length | | now eexists].
  intros i a Hi Hla. run_body; eauto.
Qed.

Lemma cci_ok (high low close : array) period :
  length high = length close -> length low = length close -> 1 <= period ->
  exists out, calculate_cci high low close period = Ok out.
Proof.
  intros Hh Hl Hp. unfold calculate_cci_at, store.
  destruct (typical_price_length high low close Hh Hl) as (tp & -> & Htl).
  cbn [bind].
  match goal with
  | |- context [for_range ?lo ?hi ?body ?s] =>
      destruct (pointwise_loop (fun _ _ => True) body lo hi s (length close))
        as (sma & -> & Hsl & _)
  end; [lia | unfold len; lia | apply zeros_length | |].
  - intros i a Hi Hla. run_body. eauto.
  - cbn [bind].
    match goal with
    | |- context [for_range ?lo ?hi ?body ?s] =>
        destruct (pointwise_loop (fun _ _ => True) body lo hi s (length close))
          as (out & -> & _)
    end; [lia | unfold len; lia | apply zeros_length | | now eexists].
    intros i a Hi Hla.
    destruct (getitem_ok sma i) as (m & -> & _); [lens|]. cbn [bind]. cbv zeta.
    destruct (feq _ (Fin 0)); run_body; eauto.
Qed.

Lemma parabolic_sar_ok (high low close : array) af_start af_increment af_max :
  length high = length close -> length low = length close ->
  exists out,
    calculate_parabolic_sar high low close af_start af_increment af_max = Ok out /\
    length out = length close.
Proof.
  intros Hh Hl. unfold calculate_parabolic_sar_at, store.
  destruct (len close <? 2) eqn:En;
    [eexists; split; [reflexivity | apply zeros_length]|].
  apply Z.ltb_ge in En.
  destruct (getitem_ok high 0) as (h0 & -> & _); [lens|].
  destruct (getitem_ok low 0) as (l0 & -> & _); [lens|].
  cbn [bind]. rewrite setitem_in by lens. cbn [bind].
  match goal with
  | |- context [for_range ?lo ?hi ?body ?s] =>
      destruct (for_range_ok (fun _ st => length (sar st) = length close)
                  body lo hi s) as (st & -> & Hsl)
  end; [lia | cbn [sar]; now rewrite length_insert, zeros_length | | now eexists].
  intros i st Hi Hst.
  repeat first [progress run_body | progress cbn [bind]];
    (eexists; split; [reflexivity|]; cbn [sar]; lens).
Qed.

Lemma directional_movement_ok (high low close : array) :
  length high = length close -> length low = length close ->
  exists tr pdm mdm,
    directional_movement high low close = Ok (tr, pdm, mdm) /\
    length tr = length close /\ length pdm = length close /\
    length mdm = length close.
Proof.
  intros Hh Hl. unfold directional_movement_at, store.
  destruct (Z_le_gt_dec 1 (len close)) as [Hn|Hn].
  - match goal with
    | |- context [for_range ?lo ?hi ?body ?s] =>
        destruct (for_range_ok
          (fun _ (st : array * array * array) =>
             length (fst (fst st)) = length close /\
             length (snd (fst st)) = length close /\
             length (snd st) = length close)
          body lo hi s) as ([[tr pdm] mdm] & -> & H1 & H2 & H3)
    end; [lia | cbn [fst snd]; now rewrite !zeros_length | |].
    + intros i [[tr pdm] mdm] Hi (H1 & H2 & H3). cbn [fst snd] in *.
      destruct (getitem_ok high i) as (h & -> & _); [lens|].
      destruct (getitem_ok high (i - 1)) as (h1 & -> & _); [lens|].
      cbn [bind]. cbv zeta.
      destruct (getitem_ok low (i - 1)) as (l1 & -> & _); [lens|].
      destruct (getitem_ok low i) as (l & -> & _); [lens|].
      cbn [bind]. rewrite !setitem_in by lens. cbn [bind].
      destruct (getitem_ok close (i - 1)) as (c1 & -> & _); [lens|].
      cbn [bind]. rewrite setitem_in by lens. cbn [bind].
      eexists. split; [reflexivity|]. cbn [fst snd]. now rewrite !length_insert.
    + cbn [fst snd] in *. now eexists _, _, _.
  - rewrite for_range_empty by lia. eexists _, _, _.
    split; [reflexivity|]. now rewrite !zeros_length.
Qed.

Lemma wilder_sum_ok (x close : array) period :
  length x = length close -> 0 <= period < len close ->
  exists out, wilder_sum x close period = Ok out /\ length out = length close.
Proof.
  intros Hx Hp. unfold wilder_sum_at, store.
  rewrite setitem_in by lens. cbn [bind].
  match goal with
  | |- context [for_range ?lo ?hi ?body ?s] =>
      destruct (for_range_ok (fun _ a => length a = length close) body lo hi s)
        as (out & -> & Hl)
  end; [lia | now rewrite length_insert, zeros_length | | now eexists].
  intros i a Hi Hla. run_body. eexists. split; [reflexivity|].
  now rewrite length_insert.
Qed.

Lemma adx_ok (high low close : array) period :
  length high = length close -> length low = length close ->
  1 <= period -> 2 * period <= len close ->
  exists r, calculate_adx high low close period = Ok r.
Proof.
  intros Hh Hl Hp Hn. unfold calculate_adx_at, store.
  destruct (directional_movement_ok high low close Hh Hl)
    as (tr & pdm & mdm & -> & Ht & Hpd & Hmd).
  cbn [bind].
  destruct (wilder_sum_ok tr close period Ht) as (st & -> & Hst); [lia|].
  cbn [bind].
  destruct (wilder_sum_ok pdm close period Hpd) as (sp & -> & Hsp); [lia|].
  cbn [bind].
  destruct (wilder_sum_ok mdm close period Hmd) as (sm & -> & Hsm); [lia|].
  cbn [bind].
  match goal with
  | |- context [for_range ?lo ?hi ?body ?s] =>
      destruct (for_range_ok
        (fun _ (d : array * array) =>
           length (fst d) = length close /\ length (snd d) = length close)
        body lo hi s) as ([pdi mdi] & -> & Hpl & Hml)
  end; [lia | cbn [fst snd]; now rewrite !zeros_length | |].
  - intros i [pdi mdi] Hi [H1 H2]. cbn [fst snd] in *.
    destruct (getitem_ok st i) as (t & -> & _); [lens|]. cbn [bind].
    destruct (feq t (Fin 0)).
    + rewrite !setitem_in by lens. cbn [bind].
      eexists. split; [reflexivity|]. cbn [fst snd]. now rewrite !length_insert.
    + destruct (getitem_ok sp i) as (p & -> & _); [lens|]. cbn [bind].
      rewrite setitem_in by lens. cbn [bind].
      destruct (getitem_ok sm i) as (m & -> & _); [lens|]. cbn [bind].
      rewrite setitem_in by lens. cbn [bind].
      eexists. split; [reflexivity|]. cbn [fst snd]. now rewrite !length_insert.
  - cbn [bind]. cbn [fst snd] in *.
    match goal with
    | |- context [for_range ?lo ?hi ?body ?s] =>
        destruct (for_range_ok (fun _ a => length a = length close) body lo hi s)
          as (dx & -> & Hdl)
    end; [lia | apply zeros_length | |].
    + intros i a Hi Hla.
      destruct (getitem_ok pdi i) as (p & -> & _); [lens|].
      destruct (getitem_ok mdi i) as (m & -> & _); [lens|].
      cbn [bind]. destruct (feq _ (Fin 0)); rewrite setitem_in by lens;
        (eexists; split; [reflexivity|]; now rewrite length_insert).
    + cbn [bind]. replace (2 * period <=? len close) with true by lia.
      rewrite setitem_in by lens. cbn [bind].
      match goal with
      | |- context [for_range ?lo ?hi ?body ?s] =>
          destruct (for_range_ok (fun _ a => length a = length close) body lo hi s)
            as (adx & -> & Hal)
      end; [lia | now rewrite length_insert, zeros_length | | cbn [bind]; now eexists].
      intros i a Hi Hla. run_body. eexists. split; [reflexivity|].
      now rewrite length_insert.
Qed.

Lemma positive_default (o : option Z) d : positive o -> 1 <= d -> 1 <= default d o.
Proof. destruct o; simpl; auto. Qed.

Ltac gate :=
  match goal with
  | |- context [if (?a <=? ?b) then _ else _] =>
      destruct (Z.leb_spec a b); [|now eexists]
  | |- context [if (?a <? ?b) then _ else _] =>
      destruct (Z.ltb_spec a b); [|now eexists]
  end.

(** One request on a well-formed frame with positive periods runs without
    an exception. *)
Lemma add_indicator_ok (df : DataFrame) (ind : indicator) :
  ohlcv df -> positive_periods (ind_params ind) ->
  exists df', add_indicator df ind = Ok df'.
Proof.
  intros Hdf (Pp & Pf & Ps & Pg & Pk & Pd).
  destruct (Hdf "high") as (high & Hh & Hhl); [simpl; auto|].
  destruct (Hdf "low") as (low & Hl & Hll); [simpl; auto|].
  destruct (Hdf "close") as (close & Hc & Hcl); [simpl; auto 6|].
  destruct (Hdf "volume") as (volume & Hv & Hvl); [simpl; auto 6|].
  pose proof (positive_default _ 20 Pp ltac:(lia)) as Hp20.
  pose proof (positive_default _ 14 Pp ltac:(lia)) as Hp14.
  pose proof (positive_default _ 12 Pf ltac:(lia)) as Hf.
  pose proof (positive_default _ 26 Ps ltac:(lia)) as Hs.
  pose proof (positive_default _ 9 Pg ltac:(lia)) as Hg.
  pose proof (positive_default _ 14 Pk ltac:(lia)) as Hk.
  pose proof (positive_default _ 3 Pd ltac:(lia)) as Hd.
  unfold add_indicator_at, df_len. cbv zeta.
  rewrite Hh, Hl, Hc, Hv. cbn [bind].
  repeat match goal with
    | |- context [if is_in ?t ?l then _ else _] => destruct (is_in t l)
    end; try gate; try (now eexists).
  - unfold calculate_sma.
    destruct (rolling_ok np_mean close (default 20 (period (ind_params ind))))
      as (o & -> & _); [lia | now eexists].
  - destruct (ewm_mean_ok close (default 20 (period (ind_params ind))) Hp20)
      as (o & E & _). unfold calculate_ema. rewrite E. now eexists.
  - destruct (bollinger_ok close (default 20 (period (ind_params ind)))
                (Fin (default 2%Q (stdDev (ind_params ind))))) as (o & ->);
      [lia | now eexists].
  - destruct (macd_ok close _ _ _ Hf Hs Hg) as (o & ->). now eexists.
  - destruct (rsi_warmup close (default 14 (period (ind_params ind))))
      as (o & -> & _); [lia | lens | now eexists].
  - destruct (atr_warmup high low close (default 14 (period (ind_params ind))))
      as (o & -> & _); [lia | lia | lia | lens | now eexists].
  - destruct (stochastic_ok high low close (default 14 (kPeriod (ind_params ind)))
                (default 3 (dPeriod (ind_params ind)))
                (default 1 (slowing (ind_params ind)))) as (o & ->);
      [lia | lia | lia | lia | now eexists].
  - destruct (wma_warmup close (default 20 (period (ind_params ind))))
      as (o & -> & _); [lens | now eexists].
  - destruct (vwap_ok close volume (period (ind_params ind))) as (o & -> & _);
      [lia | exact Pp | now eexists].
  - destruct (parabolic_sar_ok high low close
                (Fin (default (2 # 100) (afStart (ind_params ind))))
                (Fin (default (2 # 100) (afIncrement (ind_params ind))))
                (Fin (default (2 # 10) (afMax (ind_params ind))))) as (o & -> & _);
      [lia | lia | now eexists].
  - destruct (williams_warmup high low close (default 14 (period (ind_params ind))))
      as (o & -> & _); [lia | lia | lens | now eexists].
  - destruct (cci_ok high low close (default 20 (period (ind_params ind))))
      as (o & ->); [lia | lia | lia | now eexists].
  - destruct (mfi_warmup high low close volume (default 14 (period (ind_params ind))))
      as (o & -> & _); [lia | lia | lia | lia | lens | now eexists].
  - destruct (obv_ok close volume) as (o & ->); [lia | now eexists].
  - destruct (adx_ok high low close (default 14 (period (ind_params ind))))
      as (o & ->); [lia | lia | lia | lens | now eexists].
Qed.

Lemma add_indicator_ohlcv (df df' : DataFrame) (ind : indicator) :
  ohlcv df -> add_indicator df ind = Ok df' -> ohlcv df'.
Proof.
  intros Hdf H name Hin. destruct (Hdf name Hin) as (c & Hc & Hl).
  exists c. rewrite (add_indicator_rows _ _ _ H). split; [|exact Hl].
  rewrite <- Hc. apply df_get_agree.
  eapply add_indicator_other_columns; [exact H|].
  intros k _. now apply price_column_not_output.
Qed.

Lemma process_indicators_ok (df : DataFrame) (indicators : list indicator) :
  ohlcv df ->
  Forall (fun ind => positive_periods (ind_params ind)) indicators ->
  exists d, process_indicators df indicators = Ok d /\ rows d = rows df.
Proof.
  intros Hdf Hall. revert df Hdf.
  induction Hall as [|ind inds Hp _ IH]; intros df Hdf.
  - exists df. split; reflexivity.
  - destruct (add_indicator_ok df ind Hdf Hp) as (d1 & H1).
    destruct (IH d1 (add_indicator_ohlcv _ _ _ Hdf H1)) as (d & Hd & Hr).
    exists d. cbn [process_indicators_at]. rewrite H1. cbn [bind].
    split; [exact Hd|]. rewrite Hr. eapply add_indicator_rows, H1.
Qed.

(** ** Missing columns and requests without effect *)

Lemma df_get_error df name e : df_get df name = Raise e -> e = KeyError.
Proof. unfold df_get. destruct (lookup_col _ _); [discriminate | now intros [= <-]]. Qed.

(** X16.  A request that passes its length gate on a frame that lacks one
    of the price columns its branch reads ([close] for every kind, plus
    [high] and [low], or [volume], for the kinds that use them) raises
    KeyError, and so does [add_indicators] for any list that starts with
    it. *)
Theorem missing_price_column_raises (df : DataFrame) (ind : indicator)
    (k : kind) (m : Z) (name : string) (rest : list indicator) :
  kind_of (ind_type ind) = Some k ->
  minimum_length ind = Some m ->
  m <= df_len df ->
  In name (required_columns k) ->
  df_get df name = Raise KeyError ->
  add_indicator df ind = Raise KeyError /\
  add_indicators df (ind :: rest) = Raise KeyError.
Proof.
  intros Hk Hm Hgate Hin Hmiss.
  assert (H : add_indicator df ind = Raise KeyError).
  { unfold minimum_length in Hm. rewrite Hk in Hm.
    unfold kind_of in Hk. unfold add_indicator_at. cbv zeta in *.
    repeat match goal with
      | H : context [if is_in ?t ?l then _ else _] |- _ =>
          destruct (is_in t l) eqn:?
      end; try discriminate;
    injection Hk as <-; injection Hm as <-;
    match goal with
    | |- context [if (?a <=? ?b) then _ else _] =>
        replace (a <=? b) with true by lia
    | |- context [if (?a <? ?b) then _ else _] =>
        replace (a <? b) with true by lia
    end;
    simpl in Hin;
    repeat match goal with
      | |- context [df_get df ?n] =>
          let E := fresh "E" in
          destruct (df_get df n) as [?|?] eqn:E; cbn [bind];
          [|apply df_get_error in E; subst; reflexivity]
      end;
    repeat destruct Hin as [<-|Hin]; try contradiction; congruence. }
  split; [exact H|]. unfold add_indicators_at. cbn [process_indicators_at].
  now rewrite H.
Qed.

Lemma missing_price_column_raises_witness :
  add_indicator {| rows := 3; columns := [("close", fin [1; 2; 3]%Q)] |}
    (request "obv" 0) = Raise KeyError /\
  add_indicators {| rows := 3; columns := [("close", fin [1; 2; 3]%Q)] |}
    [request "obv" 0; request "sma" 2] = Raise KeyError.
Proof.
  apply (missing_price_column_raises _ (request "obv" 0) OBV 2 "volume");
    [reflexivity | reflexivity | now vm_compute | simpl; auto | reflexivity].
Defined.

Lemma not_effective_skipped {dt} df ind :
  effective df ind = false -> add_indicator_at dt df ind = Ok df.
Proof.
  unfold effective. destruct (minimum_length ind) as [m|] eqn:Hm.
  - intros H. apply (short_series_step ind m df Hm). lia.
  - intros _. apply unknown_type_skipped.
    unfold minimum_length in Hm. destruct (kind_of (ind_type ind)) as [k|];
      [destruct k; discriminate | reflexivity].
Qed.

Lemma effective_rows df d ind : rows d = rows df -> effective d ind = effective df ind.
Proof. intros H. unfold effective, df_len. now rewrite H. Qed.

Lemma filter_effective_rows df d inds :
  rows d = rows df -> List.filter (effective d) inds = List.filter (effective df) inds.
Proof.
  intros H. induction inds as [|i inds IH]; [reflexivity|].
  cbn [List.filter]. now rewrite IH, (effective_rows df d i H).
Qed.

(** X17.  Requests of an unknown type and requests the series is too
    short for have no effect at all: [add_indicators] gives the same
    result, frame or exception, when they are removed from the list. *)
Theorem requests_without_effect_can_be_dropped (df : DataFrame) (indicators : list indicator) :
  add_indicators df indicators =
  add_indicators df (List.filter (effective df) indicators).
Proof.
  unfold add_indicators_at. f_equal. revert df.
  induction indicators as [|ind inds IH]; intros df; [reflexivity|].
  cbn [List.filter process_indicators_at]. destruct (effective df ind) eqn:E.
  - cbn [process_indicators_at]. destruct (add_indicator df ind) as [d|e] eqn:Hd;
      [|reflexivity].
    cbn [bind]. rewrite (IH d).
    now rewrite (filter_effective_rows df d inds (add_indicator_rows _ _ _ Hd)).
  - rewrite (not_effective_skipped df ind E). cbn [bind]. apply IH.
Qed.

(** ** The chart layout *)

Lemma range_snoc lo hi : lo <= hi -> range lo (hi + 1) = (range lo hi ++ [hi])%list.
Proof.
  intros H. unfold range.
  replace (Z.to_nat (hi + 1 - lo)) with (S (Z.to_nat (hi - lo))) by lia.
  rewrite seq_S, map_app. cbn [map]. f_equal. f_equal. lia.
Qed.

Lemma new_panel_ok key first others st :
  layout_ok st -> layout_ok (new_panel key first others st).
Proof.
  intros (H1 & Hp & Hk & Hm). unfold layout_ok, new_panel.
  cbn [addplots panel_count panel_map]. split; [lia|]. split; [|split].
  - intros p Hin. apply in_app_or in Hin as [Hin|Hin].
    + specialize (Hp p Hin). lia.
    + apply in_map_iff in Hin as (d & <- & _). cbn [panel]. lia.
  - intros k Hk'. destruct (Z.eq_dec k (panel_count st)) as [->|Hne].
    + exists (make_addplot first (panel_count st)). split; [|reflexivity].
      apply in_or_app. right. cbn [map]. now left.
    + destruct (Hk k ltac:(lia)) as (p & Hin & Hpk). exists p.
      split; [apply in_or_app; now left | exact Hpk].
  - rewrite map_app, Hm. cbn [map snd]. now rewrite range_snoc.
Qed.

Lemma grows_ok st st' :
  grows st st' -> layout_ok st ->
  layout_ok st' /\ panel_count st <= panel_count st' <= panel_count st + 1.
Proof.
  intros [->|(key & first & others & ->)] H.
  - split; [exact H | lia].
  - split; [now apply new_panel_ok|]. cbn [new_panel panel_count]. lia.
Qed.

Ltac grows_tac :=
  intros; unfold grows;
  repeat match goal with
    | |- context [match ?x with _ => _ end] => destruct x
    end; eauto.

Lemma macd_panel_grows df l st : grows st (macd_panel df l st).
Proof. unfold macd_panel. grows_tac. Qed.
Lemma rsi_panel_grows df l st : grows st (rsi_panel df l st).
Proof. unfold rsi_panel. grows_tac. Qed.
Lemma atr_panel_grows df l st : grows st (atr_panel df l st).
Proof. unfold atr_panel. grows_tac. Qed.
Lemma stoch_panel_grows df l st : grows st (stoch_panel df l st).
Proof. unfold stoch_panel. grows_tac. Qed.
Lemma williams_r_panel_grows df l st : grows st (williams_r_panel df l st).
Proof. unfold williams_r_panel. grows_tac. Qed.
Lemma cci_panel_grows df l st : grows st (cci_panel df l st).
Proof. unfold cci_panel. grows_tac. Qed.
Lemma mfi_panel_grows df l st : grows st (mfi_panel df l st).
Proof. unfold mfi_panel. grows_tac. Qed.
Lemma obv_panel_grows df l st : grows st (obv_panel df l st).
Proof. unfold obv_panel. grows_tac. Qed.
Lemma adx_panel_grows df l st : grows st (adx_panel df l st).
Proof. unfold adx_panel. grows_tac. Qed.

Lemma add_overlay_panel df acc ind :
  Forall (fun p => panel p = 0) acc -> Forall (fun p => panel p = 0) (add_overlay df acc ind).
Proof.
  intros H. unfold add_overlay. cbv zeta.
  repeat match goal with
    | |- context [if ?b then _ else _] => destruct b
    | |- context [match ?x with _ => _ end] => destruct x
    end; try exact H; apply Forall_app; (split; [exact H|]);
    repeat constructor.
Qed.

Lemma overlays_panel df inds : forall acc,
  Forall (fun p => panel p = 0) acc ->
  Forall (fun p => panel p = 0) (fold_left (add_overlay df) inds acc).
Proof.
  induction inds as [|i inds IH]; intros acc H; [exact H|].
  cbn [fold_left]. apply IH. now apply add_overlay_panel.
Qed.

Lemma valid_panel_ratios_eq pc :
  1 <= pc ->
  valid_panel_ratios pc =
  if 1 <? pc then 3 :: repeat 1 (Z.to_nat (pc - 1)) else [1].
Proof.
  intros H. unfold valid_panel_ratios, panel_ratios.
  destruct (1 <? pc) eqn:E.
  - replace (len (3 :: repeat 1 (Z.to_nat (pc - 1))) =? pc) with true; [reflexivity|].
    symmetry. apply Z.eqb_eq. unfold len. cbn [length]. rewrite repeat_length.
    apply Z.ltb_lt in E. lia.
  - apply Z.ltb_ge in E. assert (pc = 1) as -> by lia. reflexivity.
Qed.

(** X18.  The panel layout of the candlestick chart is well formed for
    every frame and request list: there are between 1 and 10 panels,
    every plot sits in a panel that exists, every oscillator panel holds
    at least one plot, the panels recorded in [panel_map] are numbered
    1, 2, ... without a gap (a requested oscillator whose columns are
    missing leaves no hole), and the height ratios have one entry per
    panel, 3 for the price panel when there are oscillator panels. *)
Theorem chart_panels_contiguous (df : DataFrame) (indicators : list indicator) :
  let st := chart_layout df indicators in
  1 <= panel_count st <= 10 /\
  (forall p, In p (addplots st) -> 0 <= panel p < panel_count st) /\
  (forall k, 1 <= k < panel_count st -> exists p, In p (addplots st) /\ panel p = k) /\
  map snd (panel_map st) = range 1 (panel_count st) /\
  len (valid_panel_ratios (panel_count st)) = panel_count st /\
  valid_panel_ratios (panel_count st) =
    (if 1 <? panel_count st then 3 :: repeat 1 (Z.to_nat (panel_count st - 1)) else [1]).
Proof.
  cbv zeta. unfold chart_layout.
  set (lists := categorize indicators).
  set (st0 := {| addplots := fold_left (add_overlay df) (lists Overlay) [];
                 panel_count := 1; panel_map := [] |}).
  assert (H0 : layout_ok st0).
  { unfold layout_ok, st0. cbn [addplots panel_count panel_map].
    split; [lia|]. split; [|split; [intros k Hk; lia | reflexivity]].
    intros p Hin.
    pose proof (overlays_panel df (lists Overlay) [] ltac:(constructor)) as Hall.
    rewrite List.Forall_forall in Hall. rewrite (Hall p Hin). lia. }
  destruct (grows_ok _ _ (macd_panel_grows df (lists MacdPane) st0) H0) as [H1 B1].
  destruct (grows_ok _ _ (rsi_panel_grows df (lists RsiPane) _) H1) as [H2 B2].
  destruct (grows_ok _ _ (atr_panel_grows df (lists AtrPane) _) H2) as [H3 B3].
  destruct (grows_ok _ _ (stoch_panel_grows df (lists StochPane) _) H3) as [H4 B4].
  destruct (grows_ok _ _ (williams_r_panel_grows df (lists WilliamsPane) _) H4) as [H5 B5].
  destruct (grows_ok _ _ (cci_panel_grows df (lists CciPane) _) H5) as [H6 B6].
  destruct (grows_ok _ _ (mfi_panel_grows df (lists MfiPane) _) H6) as [H7 B7].
  destruct (grows_ok _ _ (obv_panel_grows df (lists ObvPane) _) H7) as [H8 B8].
  destruct (grows_ok _ _ (adx_panel_grows df (lists AdxPane) _) H8) as [H9 B9].
  change (panel_count st0) with 1 in B1.
  destruct H9 as (Hc & Hp & Hk & Hm).
  split; [lia|]. split; [exact Hp|]. split; [exact Hk|]. split; [exact Hm|].
  rewrite valid_panel_ratios_eq by exact Hc. split; [|reflexivity].
  destruct (1 <? _) eqn:E.
  - apply Z.ltb_lt in E. unfold len. cbn [length]. rewrite repeat_length. lia.
  - apply Z.ltb_ge in E. unfold len. cbn [length]. lia.
Qed.

Lemma fill_gaps_lookup df name :
  lookup_col name (columns (fill_gaps df)) =
  option_map fill_column (lookup_col name (columns df)).
Proof. rewrite fill_gaps_columns. apply lookup_col_map. Qed.

Lemma fill_column_length a : length (fill_column a) = length a.
Proof. unfold fill_column, fillna. now rewrite length_map, bfill_ffill_length. Qed.

(** X19.  The overlay loop of the candlestick chart looks an EMA up under
    a default period of 12, while [add_indicators] computes it under its
    own default of 20: for an EMA request without a period on a frame of
    at least 20 rows (and no [ema_12] column of its own), [ema_20] is
    computed and filled, yet the chart draws nothing for the request. *)
Theorem default_ema_is_computed_but_not_drawn
    (df : DataFrame) (ind : indicator) (close : array) :
  lower (ind_type ind) = "ema" ->
  period (ind_params ind) = None ->
  df_get df "close" = Ok close ->
  20 <= df_len df ->
  lookup_col "ema_12" (columns df) = None ->
  exists r ema,
    add_indicators df [ind] = Ok r /\
    df_get r "ema_20" = Ok ema /\ length ema = length close /\
    chart df [ind] = Ok {| addplots := []; panel_count := 1; panel_map := [] |}.
Proof.
  intros Ht Hp Hc Hn H12.
  destruct (ewm_mean_ok close 20 ltac:(lia)) as (e & He & Hel).
  assert (Hstep : add_indicator df ind = Ok (df_set df "ema_20" e)).
  { unfold add_indicator_at. rewrite Ht, Hp. cbv zeta.
    change (is_in "ema" ["sma"; "ma"]) with false.
    change (is_in "ema" ["ema"]) with true. cbv iota.
    change (default 20 None) with 20.
    replace (20 <=? df_len df) with true by lia.
    rewrite Hc. cbn [bind]. unfold calculate_ema. rewrite He. reflexivity. }
  assert (Hrun : add_indicators df [ind] = Ok (fill_gaps (df_set df "ema_20" e))).
  { unfold add_indicators_at. cbn [process_indicators_at]. now rewrite Hstep. }
  exists (fill_gaps (df_set df "ema_20" e)), (fill_column e).
  split; [exact Hrun|]. split; [|split].
  - unfold df_get. rewrite fill_gaps_lookup. unfold df_set. cbn [columns].
    now rewrite lookup_assign_eq.
  - now rewrite fill_column_length.
  - unfold chart_at. rewrite Hrun. cbn [bind]. f_equal.
    unfold chart_layout, categorize. cbn [fold_left]. rewrite Ht.
    change (pane_of "ema") with (Some Overlay). cbv beta iota zeta.
    cbn [pane_eqb app fold_left].
    unfold add_overlay at 1. rewrite Ht, Hp. cbv zeta.
    change (is_in "ema" ["sma"; "ma"]) with false.
    change ("ema" =? "ema")%string with true. cbv iota.
    change (fmt "ema_" (default 12 None)) with "ema_12".
    rewrite fill_gaps_lookup.
    change (columns (df_set df "ema_20" e)) with (assign_col "ema_20" e (columns df)).
    rewrite lookup_assign_ne by discriminate. rewrite H12. reflexivity.
Qed.

Lemma default_ema_is_computed_but_not_drawn_witness :
  exists r ema,
    add_indicators bars25 [{| ind_type := "EMA"; ind_params := no_params |}] = Ok r /\
    df_get r "ema_20" = Ok ema /\ length ema = 25%nat /\
    chart bars25 [{| ind_type := "EMA"; ind_params := no_params |}] =
      Ok {| addplots := []; panel_count := 1; panel_map := [] |}.
Proof.
  apply (default_ema_is_computed_but_not_drawn bars25
           {| ind_type := "EMA"; ind_params := no_params |}
           (map of_Z [10; 11; 12; 11; 13; 14; 13; 15; 16; 15; 17; 18; 17; 19; 20; 19; 21;
                      22; 21; 23; 24; 23; 25; 26; 25]));
    try reflexivity. now vm_compute.
Defined.

Lemma is_in_In t l : is_in t l = true -> In t l.
Proof.
  unfold is_in. intros H. apply existsb_exists in H as (s & Hs & E).
  apply String.eqb_eq in E. now subst.
Qed.

Lemma notna_any_filled (a : array) :
  (1 <= length a)%nat -> notna_any (fill_column a) = true.
Proof.
  intros H. pose proof (fillna_zero_has_no_nan (bfill (ffill a))) as Hc.
  pose proof (fill_column_length a) as Hl. fold (fill_column a) in Hc.
  destruct (fill_column a) as [|x l]; [simpl in Hl; lia|].
  cbn [has_nan existsb] in Hc. apply orb_false_iff in Hc as [Hx _].
  unfold notna_any. cbn [existsb]. now rewrite Hx.
Qed.

(** With one overlay request, the layout is the overlay loop on that
    request and no oscillator panel. *)
Lemma chart_layout_overlay r ind :
  pane_of (lower (ind_type ind)) = Some Overlay ->
  chart_layout r [ind] =
  {| addplots := add_overlay r [] ind; panel_count := 1; panel_map := [] |}.
Proof.
  intros H. unfold chart_layout, categorize. cbn [fold_left]. rewrite H. reflexivity.
Qed.

(** Replaces the tests on a literal type string by their values. *)
Ltac decide_types :=
  repeat match goal with
    | |- context [is_in ?s ?l] =>
        let b := eval vm_compute in (is_in s l) in change (is_in s l) with b
    | |- context [String.eqb ?s ?t] =>
        let b := eval vm_compute in (String.eqb s t) in change (String.eqb s t) with b
    end; cbv iota.

(** A request that writes one column [name], drawn under the same name. *)
Lemma line_is_drawn df ind name (out : array) :
  pane_of (lower (ind_type ind)) = Some Overlay ->
  add_indicator df ind = Ok (df_set df name out) ->
  (forall r, add_overlay r [] ind =
     match lookup_col name (columns r) with
     | Some c => if notna_any c then [make_addplot c 0] else []
     | None => []
     end) ->
  (1 <= length out)%nat ->
  exists r c,
    add_indicators df [ind] = Ok r /\ df_get r name = Ok c /\
    chart df [ind] =
      Ok {| addplots := [make_addplot c 0]; panel_count := 1; panel_map := [] |}.
Proof.
  intros Hpane Hstep Hov Hlen.
  assert (Hrun : add_indicators df [ind] = Ok (fill_gaps (df_set df name out))).
  { unfold add_indicators_at. cbn [process_indicators_at]. now rewrite Hstep. }
  assert (Hcol : lookup_col name (columns (fill_gaps (df_set df name out))) =
                 Some (fill_column out)).
  { rewrite fill_gaps_lookup. unfold df_set. cbn [columns].
    now rewrite lookup_assign_eq. }
  exists (fill_gaps (df_set df name out)), (fill_column out).
  split; [exact Hrun|]. split; [unfold df_get; now rewrite Hcol|].
  unfold chart_at. rewrite Hrun. cbn [bind]. f_equal.
  rewrite (chart_layout_overlay _ _ Hpane), Hov, Hcol.
  now rewrite (notna_any_filled out Hlen).
Qed.

Ltac type_cases Hk :=
  unfold kind_of in Hk; cbv zeta in Hk;
  repeat match type of Hk with
    | context [is_in ?t ?l] => destruct (is_in t l) eqn:?
    end; try discriminate Hk;
  match goal with
  | H : is_in _ _ = true |- _ =>
      apply is_in_In in H; cbn [In] in H;
      repeat destruct H as [H|H]; try contradiction; symmetry in H
  end.

(** X20.  Apart from the EMA default, the overlay loop of the chart and
    [add_indicators] agree on column names: for one SMA, WMA, VWAP,
    Parabolic SAR or Bollinger request, or an EMA request with an
    explicit period, that passes its gate on a well-formed frame with at
    least one row, the chart draws in panel 0 exactly the gap-filled
    columns the request computed, in the order of their names, and opens
    no other panel. *)
Theorem overlay_request_is_drawn (df : DataFrame) (ind : indicator) (k : kind) :
  ohlcv df -> 1 <= df_len df ->
  positive_periods (ind_params ind) ->
  kind_of (ind_type ind) = Some k ->
  effective df ind = true ->
  In k [SMA; WMA; VWAP; PSAR; BB] \/ (k = EMA /\ period (ind_params ind) <> None) ->
  exists r cols,
    add_indicators df [ind] = Ok r /\
    Forall2 (fun name c => df_get r name = Ok c) (output_names k (ind_params ind)) cols /\
    chart df [ind] =
      Ok {| addplots := map (fun c => make_addplot c 0) cols;
            panel_count := 1; panel_map := [] |}.
Proof.
  intros Hdf Hrows (Pp & _) Hk He Hkind.
  destruct (Hdf "high") as (high & Hh & Hhl); [simpl; auto|].
  destruct (Hdf "low") as (low & Hl & Hll); [simpl; auto|].
  destruct (Hdf "close") as (close & Hc & Hcl); [simpl; auto 6|].
  destruct (Hdf "volume") as (volume & Hv & Hvl); [simpl; auto 6|].
  pose proof (positive_default _ 20 Pp ltac:(lia)) as Hp20.
  unfold effective, minimum_length in He. rewrite Hk in He. cbv zeta in He.
  assert (Hline : forall name out,
    output_names k (ind_params ind) = [name] ->
    pane_of (lower (ind_type ind)) = Some Overlay ->
    add_indicator df ind = Ok (df_set df name out) ->
    (forall r, add_overlay r [] ind =
       match lookup_col name (columns r) with
       | Some c => if notna_any c then [make_addplot c 0] else []
       | None => []
       end) ->
    length out = length close ->
    exists r cols,
      add_indicators df [ind] = Ok r /\
      Forall2 (fun name c => df_get r name = Ok c) (output_names k (ind_params ind)) cols /\
      chart df [ind] =
        Ok {| addplots := map (fun c => make_addplot c 0) cols;
              panel_count := 1; panel_map := [] |}).
  { intros name out Hnames Hpane Hstep Hov Hlen.
    destruct (line_is_drawn df ind name out Hpane Hstep Hov) as (r & c & Hr & Hg & Hch);
      [unfold df_len in Hrows; lia|].
    exists r, [c]. rewrite Hnames. split; [exact Hr|].
    split; [repeat constructor; exact Hg | exact Hch]. }
  destruct Hkind as [Hkind|[-> Hper]];
    [cbn [In] in Hkind; repeat destruct Hkind as [<-|Hkind]; try contradiction|];
    type_cases Hk;
  try match goal with
    | Ht : lower (ind_type ind) = _ |- _ =>
        first
        [ (* SMA *)
          destruct (rolling_ok np_mean close (default 20 (period (ind_params ind))))
            as (out & Hout & Hlen); [lia|];
          apply (Hline (fmt "sma_" (default 20 (period (ind_params ind)))) out);
            [ reflexivity
            | rewrite Ht; reflexivity
            | unfold add_indicator_at; rewrite Ht; decide_types; cbv zeta;
              rewrite He, Hc; cbn [bind]; unfold calculate_sma; now rewrite Hout
            | intros r; unfold add_overlay; rewrite Ht; decide_types; reflexivity
            | exact Hlen ]
        | (* WMA *)
          destruct (wma_warmup close (default 20 (period (ind_params ind))))
            as (out & Hout & Hlen & _);
            [apply Z.leb_le in He; unfold len, df_len in *; lia|];
          apply (Hline (fmt "wma_" (default 20 (period (ind_params ind)))) out);
            [ reflexivity
            | rewrite Ht; reflexivity
            | unfold add_indicator_at; rewrite Ht; decide_types; cbv zeta;
              rewrite He, Hc; cbn [bind]; now rewrite Hout
            | intros r; unfold add_overlay; rewrite Ht; decide_types; reflexivity
            | exact Hlen ]
        | (* VWAP *)
          destruct (vwap_ok close volume (period (ind_params ind)))
            as (out & Hout & Hlen); [lia | exact Pp |];
          apply (Hline "vwap" out);
            [ reflexivity
            | rewrite Ht; reflexivity
            | unfold add_indicator_at; rewrite Ht; decide_types; cbv zeta;
              replace (0 <? df_len df) with true by lia;
              rewrite Hc, Hv; cbn [bind]; now rewrite Hout
            | intros r; unfold add_overlay; rewrite Ht; decide_types; reflexivity
            | exact Hlen ]
        | (* Parabolic SAR *)
          destruct (parabolic_sar_ok high low close
                      (Fin (default (2 # 100) (afStart (ind_params ind))))
                      (Fin (default (2 # 100) (afIncrement (ind_params ind))))
                      (Fin (default (2 # 10) (afMax (ind_params ind)))))
            as (out & Hout & Hlen); [lia | lia |];
          apply (Hline "psar" out);
            [ reflexivity
            | rewrite Ht; reflexivity
            | unfold add_indicator_at; rewrite Ht; decide_types; cbv zeta;
              rewrite He, Hh, Hl, Hc; cbn [bind]; now rewrite Hout
            | intros r; unfold add_overlay; rewrite Ht; decide_types; reflexivity
            | exact Hlen ] ]
    end.
  - (* Bollinger bands, type "bb" *)
    match goal with Ht : lower (ind_type ind) = _ |- _ => rename Ht into Htype end.
    destruct (bollinger_ok close (default 20 (period (ind_params ind)))
                (Fin (default 2%Q (stdDev (ind_params ind))))) as (bb & Hbb); [lia|].
    set (p := default 20 (period (ind_params ind))) in *.
    set (d := df_set (df_set (df_set df (fmt "bb_middle_" p) (bb_middle bb))
                        (fmt "bb_upper_" p) (bb_upper bb))
                (fmt "bb_lower_" p) (bb_lower bb)).
    assert (Hstep : add_indicator df ind = Ok d).
    { unfold add_indicator_at. rewrite Htype. decide_types. cbv zeta. fold p.
      rewrite He, Hc. cbn [bind]. now rewrite Hbb. }
    assert (Hrun : add_indicators df [ind] = Ok (fill_gaps d)).
    { unfold add_indicators_at. cbn [process_indicators_at]. now rewrite Hstep. }
    assert (Hm : lookup_col (fmt "bb_middle_" p) (columns (fill_gaps d)) =
                 Some (fill_column (bb_middle bb))).
    { rewrite fill_gaps_lookup. unfold d, df_set. cbn [columns].
      rewrite !lookup_assign_ne by names_differ. now rewrite lookup_assign_eq. }
    assert (Hu : lookup_col (fmt "bb_upper_" p) (columns (fill_gaps d)) =
                 Some (fill_column (bb_upper bb))).
    { rewrite fill_gaps_lookup. unfold d, df_set. cbn [columns].
      rewrite !lookup_assign_ne by names_differ. now rewrite lookup_assign_eq. }
    assert (Hlo : lookup_col (fmt "bb_lower_" p) (columns (fill_gaps d)) =
                  Some (fill_column (bb_lower bb))).
    { rewrite fill_gaps_lookup. unfold d, df_set. cbn [columns].
      now rewrite lookup_assign_eq. }
    exists (fill_gaps d),
      [fill_column (bb_middle bb); fill_column (bb_upper bb); fill_column (bb_lower bb)].
    split; [exact Hrun|]. split.
    + cbn [output_names]. fold p. unfold df_get.
      repeat constructor; [now rewrite Hm | now rewrite Hu | now rewrite Hlo].
    + unfold chart_at. rewrite Hrun. cbn [bind]. f_equal.
      rewrite chart_layout_overlay by (rewrite Htype; reflexivity).
      unfold add_overlay. rewrite Htype. decide_types. cbv zeta. fold p.
      now rewrite Hm, Hu, Hlo.
  - (* Bollinger bands, type "bollingerbands" *)
    match goal with Ht : lower (ind_type ind) = _ |- _ => rename Ht into Htype end.
    destruct (bollinger_ok close (default 20 (period (ind_params ind)))
                (Fin (default 2%Q (stdDev (ind_params ind))))) as (bb & Hbb); [lia|].
    set (p := default 20 (period (ind_params ind))) in *.
    set (d := df_set (df_set (df_set df (fmt "bb_middle_" p) (bb_middle bb))
                        (fmt "bb_upper_" p) (bb_upper bb))
                (fmt "bb_lower_" p) (bb_lower bb)).
    assert (Hstep : add_indicator df ind = Ok d).
    { unfold add_indicator_at. rewrite Htype. decide_types. cbv zeta. fold p.
      rewrite He, Hc. cbn [bind]. now rewrite Hbb. }
    assert (Hrun : add_indicators df [ind] = Ok (fill_gaps d)).
    { unfold add_indicators_at. cbn [process_indicators_at]. now rewrite Hstep. }
    assert (Hm : lookup_col (fmt "bb_middle_" p) (columns (fill_gaps d)) =
                 Some (fill_column (bb_middle bb))).
    { rewrite fill_gaps_lookup. unfold d, df_set. cbn [columns].
      rewrite !lookup_assign_ne by names_differ. now rewrite lookup_assign_eq. }
    assert (Hu : lookup_col (fmt "bb_upper_" p) (columns (fill_gaps d)) =
                 Some (fill_column (bb_upper bb))).
    { rewrite fill_gaps_lookup. unfold d, df_set. cbn [columns].
      rewrite !lookup_assign_ne by names_differ. now rewrite lookup_assign_eq. }
    assert (Hlo : lookup_col (fmt "bb_lower_" p) (columns (fill_gaps d)) =
                  Some (fill_column (bb_lower bb))).
    { rewrite fill_gaps_lookup. unfold d, df_set. cbn [columns].
      now rewrite lookup_assign_eq. }
    exists (fill_gaps d),
      [fill_column (bb_middle bb); fill_column (bb_upper bb); fill_column (bb_lower bb)].
    split; [exact Hrun|]. split.
    + cbn [output_names]. fold p. unfold df_get.
      repeat constructor; [now rewrite Hm | now rewrite Hu | now rewrite Hlo].
    + unfold chart_at. rewrite Hrun. cbn [bind]. f_equal.
      rewrite chart_layout_overlay by (rewrite Htype; reflexivity).
      unfold add_overlay. rewrite Htype. decide_types. cbv zeta. fold p.
      now rewrite Hm, Hu, Hlo.
  - (* EMA with an explicit period *)
    match goal with Ht : lower (ind_type ind) = _ |- _ => rename Ht into Htype end.
    destruct (period (ind_params ind)) as [p|] eqn:Ep; [|contradiction].
    cbn [default from_option id] in He, Hp20.
    destruct (ewm_mean_ok close p ltac:(exact Hp20)) as (out & Hout & Hlen).
    apply (Hline (fmt "ema_" p) out).
    + cbn [output_names]. now rewrite Ep.
    + rewrite Htype. reflexivity.
    + unfold add_indicator_at. rewrite Htype. decide_types. cbv zeta. rewrite Ep.
      cbn [default from_option id]. rewrite He, Hc. cbn [bind].
      unfold calculate_ema. now rewrite Hout.
    + intros r. unfold add_overlay. rewrite Htype. decide_types. cbv zeta. rewrite Ep.
      reflexivity.
    + exact Hlen.
Qed.

Lemma overlay_request_is_drawn_witness :
  exists r cols,
    add_indicators bars5 [request "EMA" 3] = Ok r /\
    Forall2 (fun name c => df_get r name = Ok c) ["ema_3"] cols /\
    chart bars5 [request "EMA" 3] =
      Ok {| addplots := map (fun c => make_addplot c 0) cols;
            panel_count := 1; panel_map := [] |}.
Proof.
  apply (overlay_request_is_drawn bars5 (request "EMA" 3) EMA).
  - intros name Hin. simpl in Hin.
    repeat destruct Hin as [<-|Hin]; try contradiction;
      (eexists; split; [reflexivity | reflexivity]).
  - now vm_compute.
  - repeat constructor; simpl; lia.
  - reflexivity.
  - reflexivity.
  - right. split; [reflexivity | discriminate].
Defined.

(** ** MACD of a bounded series *)

Lemma fin_within lo hi l : within lo hi l -> Forall (cell_within lo hi) (fin l).
Proof.
  intros H. unfold fin. apply Forall_map. eapply Forall_impl; [exact H|].
  intros q Hq. now exists q.
Qed.

Lemma Qdiffs_within la ha lb hb (a : list Q) : forall b,
  within la ha a -> within lb hb b ->
  within (la - hb) (ha - lb) (Qdiffs a b).
Proof.
  induction a as [|x a IH]; intros [|y b] Ha Hb; try constructor.
  - inversion Ha; inversion Hb; subst. lra.
  - inversion Ha; inversion Hb; subst. now apply IH.
Qed.

Lemma within_weaken lo hi lo' hi' l :
  (lo' <= lo)%Q -> (hi <= hi')%Q -> within lo hi l -> within lo' hi' l.
Proof.
  intros H1 H2 H. eapply Forall_impl; [exact H|]. intros q Hq. cbv beta in *. lra.
Qed.

(** X21.  On finite prices that all lie in [[lo, hi]], and for any periods
    of at least 1, every cell of the MACD line and of its signal line lies
    within [hi - lo] of zero and every cell of the histogram within
    [2 * (hi - lo)]; on a constant series all three are zero throughout. *)
Theorem macd_bounded (prices : list Q) (lo hi : Q) (fast slow signal : Z) :
  within lo hi prices ->
  1 <= fast -> 1 <= slow -> 1 <= signal ->
  exists m,
    calculate_macd (fin prices) fast slow signal = Ok m /\
    length (macd_macd m) = length prices /\
    Forall (cell_within (- (hi - lo)) (hi - lo)) (macd_macd m) /\
    Forall (cell_within (- (hi - lo)) (hi - lo)) (macd_signal m) /\
    Forall (cell_within (- (2 * (hi - lo))) (2 * (hi - lo))) (macd_histogram m).
Proof.
  intros Hw Hf Hs Hg. unfold calculate_macd, calculate_ema.
  rewrite !ewm_mean_fin by lia. cbn [bind].
  rewrite broadcast_same by (rewrite !fin_length, !ema_q_length; reflexivity).
  cbn [bind]. rewrite zip_fsub_fin.
  set (line := Qdiffs (ema_q (alpha fast) prices) (ema_q (alpha slow) prices)).
  rewrite ewm_mean_fin by lia. cbn [bind].
  rewrite broadcast_same by (rewrite !fin_length, ema_q_length; reflexivity).
  cbn [bind]. rewrite zip_fsub_fin.
  assert (Hline : within (- (hi - lo)) (hi - lo) line).
  { eapply within_weaken; [| |apply (Qdiffs_within lo hi lo hi)];
      [lra | lra | |]; apply ema_q_within; auto using alpha_range. }
  assert (Hsig : within (- (hi - lo)) (hi - lo) (ema_q (alpha signal) line))
    by (apply ema_q_within; auto using alpha_range).
  eexists. split; [reflexivity|]. cbn [macd_macd macd_signal macd_histogram].
  split; [|split; [|split]].
  - unfold line. rewrite fin_length, Qdiffs_length, !ema_q_length;
      [reflexivity | now rewrite !ema_q_length].
  - now apply fin_within.
  - now apply fin_within.
  - apply fin_within. eapply within_weaken;
      [| |apply (Qdiffs_within _ _ _ _ _ _ Hline Hsig)]; lra.
Qed.

Lemma macd_bounded_witness :
  exists m,
    calculate_macd (fin [7; 7; 7; 7]%Q) 2 3 2 = Ok m /\
    length (macd_macd m) = 4%nat /\
    Forall (cell_within (- (7 - 7)) (7 - 7)) (macd_macd m) /\
    Forall (cell_within (- (7 - 7)) (7 - 7)) (macd_signal m) /\
    Forall (cell_within (- (2 * (7 - 7))) (2 * (7 - 7))) (macd_histogram m).
Proof.
  apply (macd_bounded [7; 7; 7; 7]%Q 7 7 2 3 2); try lia.
  repeat constructor; apply Qle_refl.
Defined.

(** ** Average directional index *)

Lemma py_max_fin a b :
  exists q, py_max (Fin a) (Fin b) = Fin q /\ (a <= q)%Q /\ (b <= q)%Q.
Proof.
  unfold py_max, fgt, flt. destruct (Qle_bool b a) eqn:E; cbn [negb].
  - apply Qle_bool_iff in E. exists a. split; [reflexivity|]. lra.
  - apply Qle_bool_false in E. exists b. split; [reflexivity|]. lra.
Qed.

Lemma below_zero : below (Fin 0) (Fin 0).
Proof. exists 0%Q, 0%Q. repeat split; apply Qle_refl. Qed.

Lemma zeros_below (a : array) : Forall2 below (np_zeros_like a) (np_zeros_like a).
Proof. induction a; constructor; [apply below_zero | assumption]. Qed.

(** One bar of [directional_movement]: both movements are between 0 and
    the true range when the previous close lies within its bar. *)
Lemma directional_cell (h h1 l l1 c1 : Q) :
  (l1 <= c1 <= h1)%Q ->
  let high_diff := (Fin h - Fin h1)%f in
  let low_diff := (Fin l1 - Fin l)%f in
  let tr := py_max (py_max (Fin h - Fin l)%f (fabs (Fin h - Fin c1)%f))
                   (fabs (Fin l - Fin c1)%f) in
  below (if fgt high_diff low_diff && fgt high_diff (Fin 0) then high_diff else Fin 0) tr /\
  below (if fgt low_diff high_diff && fgt low_diff (Fin 0) then low_diff else Fin 0) tr.
Proof.
  intros Hc. cbv zeta. cbn [fsub fadd fneg fabs].
  destruct (py_max_fin (h + - l) (Qabs (h + - c1))) as (m1 & -> & _ & H2).
  destruct (py_max_fin m1 (Qabs (l + - c1))) as (m & -> & H3 & H4).
  pose proof (Qle_Qabs (h + - c1)) as A1.
  pose proof (Qle_Qabs (- (l + - c1))) as A2. rewrite Qabs_opp in A2.
  pose proof (Qabs_nonneg (l + - c1)) as A3.
  unfold fgt, flt. split.
  - destruct (negb (Qle_bool (h + - h1) (l1 + - l)) && negb (Qle_bool (h + - h1) 0)) eqn:E.
    + apply andb_true_iff in E as [_ E]. apply negb_true_iff, Qle_bool_false in E.
      eexists _, _. split; [reflexivity|]. split; [reflexivity|]. lra.
    + eexists _, _. split; [reflexivity|]. split; [reflexivity|]. lra.
  - destruct (negb (Qle_bool (l1 + - l) (h + - h1)) && negb (Qle_bool (l1 + - l) 0)) eqn:E.
    + apply andb_true_iff in E as [_ E]. apply negb_true_iff, Qle_bool_false in E.
      eexists _, _. split; [reflexivity|]. split; [reflexivity|]. lra.
    + eexists _, _. split; [reflexivity|]. split; [reflexivity|]. lra.
Qed.

Lemma directional_movement_below (high low close : list Q) :
  length high = length close -> length low = length close ->
  bars_ordered high low close ->
  exists tr pdm mdm,
    directional_movement (fin high) (fin low) (fin close) = Ok (tr, pdm, mdm) /\
    length tr = length close /\ Forall2 below pdm tr /\ Forall2 below mdm tr.
Proof.
  intros Hh Hl Hbar. unfold directional_movement_at, store.
  destruct (Z_le_gt_dec 1 (len (fin close))) as [Hn|Hn].
  - match goal with
    | |- context [for_range ?lo ?hi ?body ?s] =>
        destruct (for_range_ok
          (fun _ (st : array * array * array) =>
             length (fst (fst st)) = length close /\
             Forall2 below (snd (fst st)) (fst (fst st)) /\
             Forall2 below (snd st) (fst (fst st)))
          body lo hi s) as ([[tr pdm] mdm] & -> & H1 & H2 & H3)
    end; [lia | cbn [fst snd]; rewrite zeros_length, fin_length;
                split; [reflexivity | split; apply zeros_below] | |].
    + intros i [[tr pdm] mdm] Hi (H1 & H2 & H3). cbn [fst snd] in *.
      unfold len in Hi. rewrite fin_length in Hi.
      pose proof (Forall2_length _ _ _ H2) as L2.
      pose proof (Forall2_length _ _ _ H3) as L3.
      destruct (lookup_lt_is_Some_2 high (Z.to_nat i) ltac:(lia)) as [h Hhi].
      destruct (lookup_lt_is_Some_2 high (Z.to_nat (i - 1)) ltac:(lia)) as [h1 Hh1].
      destruct (lookup_lt_is_Some_2 low (Z.to_nat i) ltac:(lia)) as [l Hli].
      destruct (lookup_lt_is_Some_2 low (Z.to_nat (i - 1)) ltac:(lia)) as [l1 Hl1].
      destruct (lookup_lt_is_Some_2 close (Z.to_nat (i - 1)) ltac:(lia)) as [c1 Hc1].
      rewrite (getitem_in (fin high) i (Fin h))
        by (try lia; rewrite fin_lookup, Hhi; reflexivity).
      rewrite (getitem_in (fin high) (i - 1) (Fin h1))
        by (try lia; rewrite fin_lookup, Hh1; reflexivity).
      cbn [bind]. cbv zeta.
      rewrite (getitem_in (fin low) (i - 1) (Fin l1))
        by (try lia; rewrite fin_lookup, Hl1; reflexivity).
      rewrite (getitem_in (fin low) i (Fin l))
        by (try lia; rewrite fin_lookup, Hli; reflexivity).
      cbn [bind]. rewrite !setitem_in by (unfold len; lia). cbn [bind].
      rewrite (getitem_in (fin close) (i - 1) (Fin c1))
        by (try lia; rewrite fin_lookup, Hc1; reflexivity).
      cbn [bind]. rewrite setitem_in by (unfold len; lia). cbn [bind].
      eexists. split; [reflexivity|]. cbn [fst snd].
      destruct (directional_cell h h1 l l1 c1 (Hbar _ _ _ _ Hh1 Hl1 Hc1)) as [Hp Hm].
      split; [now rewrite length_insert|].
      split; apply Forall2_insert; assumption.
    + cbn [fst snd] in *. now eexists _, _, _.
  - rewrite for_range_empty by lia. eexists _, _, _.
    split; [reflexivity|]. rewrite zeros_length, fin_length.
    split; [reflexivity | split; apply zeros_below].
Qed.

(** Two loops over the same range, run side by side. *)
Lemma for_range_inv2 {S T} (P : Z -> S -> T -> Prop)
    (b1 : Z -> S -> result S) (b2 : Z -> T -> result T) hi :
  forall n lo s t,
    Z.of_nat n = hi - lo ->
    P lo s t ->
    (forall i s t, lo <= i < hi -> P i s t ->
       exists s' t', b1 i s = Ok s' /\ b2 i t = Ok t' /\ P (i + 1) s' t') ->
    exists s' t',
      for_range lo hi b1 s = Ok s' /\ for_range lo hi b2 t = Ok t' /\ P hi s' t'.
Proof.
  induction n as [|n IH]; intros lo s t Hn HP Hstep.
  - unfold for_range. rewrite range_nil by lia. simpl.
    exists s, t. split; [reflexivity|]. split; [reflexivity|].
    now replace hi with lo by lia.
  - unfold for_range. rewrite range_cons by lia. simpl.
    destruct (Hstep lo s t ltac:(lia) HP) as (s1 & t1 & -> & -> & HP1). simpl.
    apply (IH (lo + 1) s1 t1); [lia | exact HP1 |].
    intros i s2 t2 Hi. apply Hstep. lia.
Qed.

Lemma fold_fadd_below (x : array) : forall (y : array) u v,
  below u v -> Forall2 below x y ->
  below (fold_left fadd x u) (fold_left fadd y v).
Proof.
  induction x as [|a x IH]; intros y u v Huv H; inversion H; subst; [exact Huv|].
  cbn [fold_left]. apply IH; [|assumption].
  destruct Huv as (p & q & -> & -> & Hpq).
  match goal with Hb : below a _ |- _ => destruct Hb as (c & d & -> & -> & Hcd) end.
  eexists _, _. split; [reflexivity|]. split; [reflexivity|]. lra.
Qed.

Lemma slice_Forall2 {A B} (R : A -> B -> Prop) (a : list A) (b : list B) s e :
  Forall2 R a b -> Forall2 R (slice a s e) (slice b s e).
Proof.
  intros H. unfold slice, len. rewrite (Forall2_length _ _ _ H).
  now apply Forall2_take, Forall2_drop.
Qed.

Lemma inv_pos_range p : 1 <= p -> (0 < / inject_Z p <= 1)%Q.
Proof.
  intros H. assert (Hp : (1 <= inject_Z p)%Q)
    by (change 1%Q with (inject_Z 1); rewrite <- Zle_Qle; lia).
  split.
  - apply Qinv_lt_0_compat. lra.
  - apply Qle_shift_inv_r; lra.
Qed.

Lemma wilder_step_below a b x y period :
  1 <= period -> below a b -> below x y ->
  below (a - a / of_Z period + x)%f (b - b / of_Z period + y)%f.
Proof.
  intros Hp (a' & b' & -> & -> & Hab) (x' & y' & -> & -> & Hxy).
  unfold of_Z. cbn [fdiv]. rewrite inject_Z_nonzero by lia.
  cbn [fsub fadd fneg]. eexists _, _. split; [reflexivity|]. split; [reflexivity|].
  unfold Qdiv. pose proof (inv_pos_range period Hp) as Hi.
  generalize dependent (/ inject_Z period)%Q. intros ip Hi. nra.
Qed.

(** Wilder's running sums keep the order of their inputs. *)
Lemma wilder_sum_below (x y close : array) period :
  Forall2 below x y -> length y = length close -> 1 <= period < len close ->
  exists sx sy,
    wilder_sum x close period = Ok sx /\ wilder_sum y close period = Ok sy /\
    Forall2 below sx sy /\ length sy = length close.
Proof.
  intros Hxy Hy Hp. pose proof (Forall2_length _ _ _ Hxy) as Hx.
  unfold wilder_sum_at, store. rewrite !setitem_in by (unfold len in *; rewrite zeros_length; lia).
  cbn [bind].
  match goal with
  | |- exists sx sy, for_range ?lo ?hi ?b1 ?s = _ /\ for_range _ _ ?b2 ?t = _ /\ _ =>
      destruct (for_range_inv2
        (fun _ u v => Forall2 below u v /\ length v = length close)
        b1 b2 hi (Z.to_nat (hi - lo)) lo s t) as (sx & sy & H1 & H2 & H3 & H4)
  end.
  - lia.
  - split; [|now rewrite length_insert, zeros_length].
    apply Forall2_insert; [apply zeros_below|].
    apply fold_fadd_below; [apply below_zero | now apply slice_Forall2].
  - intros i u v Hi [Huv Hv]. pose proof (Forall2_length _ _ _ Huv) as Hu.
    destruct (getitem_ok u (i - 1)) as (a & -> & Ha); [unfold len in *; lia|].
    destruct (getitem_ok v (i - 1)) as (b & -> & Hb); [unfold len in *; lia|].
    destruct (getitem_ok x i) as (xi & -> & Hxi); [unfold len in *; lia|].
    destruct (getitem_ok y i) as (yi & -> & Hyi); [unfold len in *; lia|].
    cbn [bind]. rewrite !setitem_in by (unfold len in *; lia).
    eexists _, _. split; [reflexivity|]. split; [reflexivity|].
    split; [|now rewrite length_insert].
    apply Forall2_insert; [exact Huv|].
    apply wilder_step_below; [lia | |].
    + exact (Forall2_lookup_lr _ _ _ _ _ _ Huv Ha Hb).
    + exact (Forall2_lookup_lr _ _ _ _ _ _ Hxy Hxi Hyi).
  - exists sx, sy. auto.
Qed.

Lemma di_cell a b :
  (0 <= a <= b)%Q -> ~ (b == 0)%Q -> cell_within 0 100 (Fin 100 * Fin a / Fin b)%f.
Proof.
  intros Hab Hb. cbn [fmul fdiv]. rewrite (Qzero_b_false b Hb).
  eexists. split; [reflexivity|].
  destruct (ratio_in_unit a b) as [H0 H1]; [lra | lra | exact Hb|].
  unfold Qdiv in *. rewrite <- Qmult_assoc.
  generalize dependent (a * / b)%Q. intros r H0 H1. lra.
Qed.

Lemma dx_cell p m :
  (0 <= p)%Q -> (0 <= m)%Q ->
  cell_within 0 100
    (if feq (Fin p + Fin m)%f (Fin 0) then Fin 0
     else (Fin 100 * fabs (Fin p - Fin m) / (Fin p + Fin m))%f).
Proof.
  intros Hp Hm. cbn [fadd fsub fneg fabs fmul feq].
  destruct (Qeq_bool (p + m) 0) eqn:E; [apply within_zero_hundred_0|].
  assert (Hne : ~ (p + m == 0)%Q) by (intros H; apply Qeq_bool_iff in H; congruence).
  cbn [fdiv]. rewrite (Qzero_b_false _ Hne). eexists. split; [reflexivity|].
  assert (Habs : (0 <= Qabs (p + - m) <= p + m)%Q).
  { split; [apply Qabs_nonneg|]. apply Qabs_Qle_condition. lra. }
  destruct (ratio_in_unit (Qabs (p + - m)) (p + m)) as [H0 H1]; [lra | lra | exact Hne|].
  unfold Qdiv in *. rewrite <- Qmult_assoc.
  generalize dependent (Qabs (p + - m) * / (p + m))%Q. intros r H0 H1. lra.
Qed.

Lemma adx_step_cell a d period :
  1 <= period -> cell_within 0 100 a -> cell_within 0 100 d ->
  cell_within 0 100 ((of_Z (period - 1) * a + d) / of_Z period)%f.
Proof.
  intros Hp (x & -> & Hx) (y & -> & Hy). unfold of_Z. cbn [fmul fadd fdiv].
  rewrite inject_Z_nonzero by lia. eexists. split; [reflexivity|].
  assert (Hq : (inject_Z (period - 1) == inject_Z period - 1)%Q).
  { unfold Z.sub. rewrite inject_Z_plus. reflexivity. }
  assert (Hpos : (1 <= inject_Z period)%Q)
    by (change 1%Q with (inject_Z 1); rewrite <- Zle_Qle; lia).
  rewrite Hq. generalize dependent (inject_Z period). intros p _ Hpos.
  split.
  - apply Qle_shift_div_l; [lra|]. nra.
  - apply Qle_shift_div_r; [lra|]. nra.
Qed.

Lemma zeros_within (a : array) : Forall (cell_within 0 100) (np_zeros_like a).
Proof.
  unfold np_zeros_like. apply Forall_map, Forall_true. intros _.
  apply within_zero_hundred_0.
Qed.

(** X22.  On finite bars with [low <= close <= high] and a period of at
    least 1 below the number of bars, [calculate_adx] returns three
    arrays of the length of the input in which every cell (the leading
    zeros included) is a number in [[0, 100]]: +DI, -DI and ADX never
    leave that range and never divide by zero. *)
Theorem adx_bounded (high low close : list Q) (period : Z) :
  length high = length close -> length low = length close ->
  bars_ordered high low close ->
  1 <= period < len close ->
  exists r,
    calculate_adx (fin high) (fin low) (fin close) period = Ok r /\
    (length (adx_adx r) = length close /\ length (adx_plus_di r) = length close /\
     length (adx_minus_di r) = length close) /\
    Forall (cell_within 0 100) (adx_adx r) /\
    Forall (cell_within 0 100) (adx_plus_di r) /\
    Forall (cell_within 0 100) (adx_minus_di r).
Proof.
  intros Hh Hl Hbar Hp. unfold calculate_adx_at, store.
  destruct (directional_movement_below high low close Hh Hl Hbar)
    as (tr & pdm & mdm & -> & Ht & Hpt & Hmt).
  cbn [bind].
  assert (Hp' : 1 <= period < len (fin close))
    by (unfold len in *; rewrite fin_length; lia).
  assert (Htl : length tr = length (fin close)) by now rewrite fin_length.
  destruct (wilder_sum_below pdm tr (fin close) period Hpt Htl Hp')
    as (sp & st & Hsp & Hst & Hspt & Hstl).
  destruct (wilder_sum_below mdm tr (fin close) period Hmt Htl Hp')
    as (sm & st' & Hsm & Hst' & Hsmt & _).
  assert (st' = st) by congruence. subst st'.
  rewrite Hst. cbn [bind]. rewrite Hsp. cbn [bind]. rewrite Hsm. cbn [bind].
  rewrite fin_length in Hstl.
  pose proof (Forall2_length _ _ _ Hspt) as Hspl.
  pose proof (Forall2_length _ _ _ Hsmt) as Hsml.
  match goal with
  | |- context [for_range ?lo ?hi ?body ?s] =>
      destruct (for_range_ok
        (fun _ (d : array * array) =>
           (length (fst d) = length close /\ length (snd d) = length close) /\
           Forall (cell_within 0 100) (fst d) /\ Forall (cell_within 0 100) (snd d))
        body lo hi s) as ([pdi mdi] & -> & [Hpl Hml] & Hpw & Hmw)
  end.
  - unfold len in *. lia.
  - cbn [fst snd]. rewrite !zeros_length, fin_length.
    split; [auto|]. split; apply zeros_within.
  - intros i [pdi mdi] Hi ([H1 H2] & W1 & W2). cbn [fst snd] in *.
    unfold len in Hi. rewrite fin_length in Hi.
    destruct (getitem_ok st i) as (t & -> & Hti); [unfold len in *; lia|].
    destruct (getitem_ok sp i) as (p & Hpe & Hpi); [unfold len in *; lia|].
    destruct (getitem_ok sm i) as (m & Hme & Hmi); [unfold len in *; lia|].
    destruct (Forall2_lookup_lr _ _ _ _ _ _ Hspt Hpi Hti) as (a & b & -> & -> & Hab).
    destruct (Forall2_lookup_lr _ _ _ _ _ _ Hsmt Hmi Hti) as (a' & b' & -> & Eb & Hab').
    injection Eb as <-.
    cbn [bind]. unfold feq at 1. destruct (Qeq_bool b 0) eqn:E.
    + rewrite !setitem_in by (unfold len in *; rewrite ?length_insert; lia).
      cbn [bind]. eexists. split; [reflexivity|]. cbn [fst snd].
      rewrite !length_insert. split; [auto|].
      split; (apply Forall_insert; [assumption | apply within_zero_hundred_0]).
    + assert (Hb : ~ (b == 0)%Q) by (intros H; apply Qeq_bool_iff in H; congruence).
      rewrite Hpe. cbn [bind].
      rewrite setitem_in by (unfold len in *; lia). cbn [bind].
      rewrite Hme. cbn [bind].
      rewrite setitem_in by (unfold len in *; lia). cbn [bind].
      eexists. split; [reflexivity|]. cbn [fst snd].
      rewrite !length_insert. split; [auto|].
      split; (apply Forall_insert; [assumption | now apply di_cell]).
  - cbn [bind]. cbn [fst snd] in *.
    match goal with
    | |- context [for_range ?lo ?hi ?body ?s] =>
        destruct (for_range_ok
          (fun _ a => length a = length close /\ Forall (cell_within 0 100) a)
          body lo hi s) as (dx & -> & Hdl & Hdw)
    end.
    + unfold len in *. lia.
    + rewrite zeros_length, fin_length. split; [reflexivity | apply zeros_within].
    + intros i a Hi [Hla Wa]. unfold len in Hi. rewrite fin_length in Hi.
      destruct (getitem_ok pdi i) as (p & -> & Hpi); [unfold len in *; lia|].
      destruct (getitem_ok mdi i) as (m & -> & Hmi); [unfold len in *; lia|].
      cbn [bind].
      destruct (Forall_lookup_1 _ _ _ _ Hpw Hpi) as (p' & -> & Hp0).
      destruct (Forall_lookup_1 _ _ _ _ Hmw Hmi) as (m' & -> & Hm0).
      pose proof (dx_cell p' m' ltac:(lra) ltac:(lra)) as Hcell.
      destruct (feq (Fin p' + Fin m')%f (Fin 0));
        rewrite setitem_in by (unfold len in *; lia);
        (eexists; split; [reflexivity|]; split;
         [now rewrite length_insert | now apply Forall_insert]).
    + cbn [bind].
      assert (Hadx : exists adx,
        (if 2 * period <=? len (fin close)
         then
           let* adx := setitem (np_zeros_like (fin close)) (2 * period - 1)
                         (np_mean (slice dx period (2 * period))) in
           for_range (2 * period) (len (fin close))
             (fun i adx =>
                let* a1 := getitem adx (i - 1) in
                let* d := getitem dx i in
                setitem adx i ((of_Z (period - 1) * a1 + d) / of_Z period)%f)
             adx
         else Ok (np_zeros_like (fin close))) = Ok adx /\
        length adx = length close /\ Forall (cell_within 0 100) adx).
      { destruct (Z.leb_spec (2 * period) (len (fin close))) as [H2p|H2p].
        - unfold len in H2p. rewrite fin_length in H2p.
          rewrite setitem_in by (unfold len; rewrite zeros_length, fin_length; lia).
          cbn [bind].
          destruct (cells_fin _ _ _ Hdw) as (dq & -> & Hdq).
          rewrite fin_length in Hdl.
          assert (Hseed : cell_within 0 100
                            (np_mean (slice (fin dq) period (2 * period)))).
          { unfold fin. rewrite slice_map. fold (fin (slice dq period (2 * period))).
            assert (Hne : slice dq period (2 * period) <> [])
              by (apply slice_nonempty; unfold len; lia).
            rewrite np_mean_fin by exact Hne.
            eexists. split; [reflexivity|].
            apply Qmean_bounds; [exact Hne | now apply within_slice]. }
          apply (for_range_ok
            (fun _ a => length a = length close /\ Forall (cell_within 0 100) a)).
          + unfold len. rewrite fin_length. lia.
          + split; [now rewrite length_insert, zeros_length, fin_length|].
            apply Forall_insert; [apply zeros_within | exact Hseed].
          + intros i a Hi [Hla Wa]. unfold len in Hi. rewrite fin_length in Hi.
            destruct (getitem_ok a (i - 1)) as (a1 & -> & Ha1); [unfold len in *; lia|].
            destruct (getitem_ok (fin dq) i) as (d & -> & Hd);
              [unfold len in *; rewrite fin_length; lia|].
            cbn [bind]. rewrite setitem_in by (unfold len in *; lia).
            eexists. split; [reflexivity|]. split; [now rewrite length_insert|].
            apply Forall_insert; [exact Wa|].
            apply adx_step_cell; [lia | |].
            * exact (Forall_lookup_1 _ _ _ _ Wa Ha1).
            * exact (Forall_lookup_1 _ _ _ _ (fin_within _ _ _ Hdq) Hd).
        - eexists. split; [reflexivity|].
          split; [now rewrite zeros_length, fin_length | apply zeros_within]. }
      destruct Hadx as (adx & -> & Hal & Haw). cbn [bind].
      eexists. split; [reflexivity|]. cbn [adx_adx adx_plus_di adx_minus_di]. auto.
Qed.

Lemma adx_bounded_witness :
  exists r,
    calculate_adx (fin [3; 4; 6; 5]%Q) (fin [1; 2; 3; 3]%Q) (fin [2; 3; 5; 4]%Q) 2 = Ok r /\
    (length (adx_adx r) = 4%nat /\ length (adx_plus_di r) = 4%nat /\
     length (adx_minus_di r) = 4%nat) /\
    Forall (cell_within 0 100) (adx_adx r) /\
    Forall (cell_within 0 100) (adx_plus_di r) /\
    Forall (cell_within 0 100) (adx_minus_di r).
Proof.
  apply (adx_bounded [3; 4; 6; 5]%Q [1; 2; 3; 3]%Q [2; 3; 5; 4]%Q 2);
    [reflexivity | reflexivity | | now vm_compute].
  intros [|[|[|[|k]]]] h l c Hh Hl Hc; simpl in *;
    try discriminate; injection Hh as <-; injection Hl as <-; injection Hc as <-;
    split; discriminate.
Defined.

(** ** Parabolic SAR *)

Lemma py_min_cases x y : py_min x y = x \/ py_min x y = y.
Proof. unfold py_min. destruct (flt y x); auto. Qed.

Lemma py_max_cases x y : py_max x y = x \/ py_max x y = y.
Proof. unfold py_max. destruct (fgt y x); auto. Qed.

Lemma py_min_within lo hi x y :
  cell_within lo hi x -> cell_within lo hi y -> cell_within lo hi (py_min x y).
Proof. intros Hx Hy. destruct (py_min_cases x y) as [->| ->]; assumption. Qed.

Lemma py_max_within lo hi x y :
  cell_within lo hi x -> cell_within lo hi y -> cell_within lo hi (py_max x y).
Proof. intros Hx Hy. destruct (py_max_cases x y) as [->| ->]; assumption. Qed.

(** The step towards the extreme point stays between the previous SAR and
    the extreme point when the acceleration factor is in [[0, 1]]. *)
Lemma sar_step_within lo hi prev ep af :
  cell_within lo hi prev -> cell_within lo hi ep -> cell_within 0 1 af ->
  cell_within lo hi (prev + af * (ep - prev))%f.
Proof.
  intros (p & -> & Hp) (e & -> & He) (a & -> & Ha).
  cbn [fsub fadd fneg fmul]. eexists. split; [reflexivity|]. split; nra.
Qed.

Lemma af_update_within af inc mx :
  cell_within 0 1 af -> (0 <= inc)%Q -> (0 <= mx <= 1)%Q ->
  cell_within 0 1 (py_min (af + Fin inc)%f (Fin mx)).
Proof.
  intros (a & -> & Ha) Hi Hm. cbn [fadd]. unfold py_min, flt.
  destruct (Qle_bool (a + inc) mx) eqn:E; cbn [negb].
  - apply Qle_bool_iff in E. eexists. split; [reflexivity|]. lra.
  - eexists. split; [reflexivity|]. lra.
Qed.

Lemma cells_insert lo hi (s : array) i v (n : nat) :
  length s = n -> 0 <= i < Z.of_nat n ->
  (forall k, Z.of_nat k < i -> exists x, s !! k = Some x /\ cell_within lo hi x) ->
  cell_within lo hi v ->
  forall k, Z.of_nat k < i + 1 ->
    exists x, <[Z.to_nat i := v]> s !! k = Some x /\ cell_within lo hi x.
Proof.
  intros Hl Hi Hc Hv k Hk. destruct (decide (k = Z.to_nat i)) as [->|Hne].
  - exists v. rewrite list_lookup_insert_eq by lia. auto.
  - rewrite list_lookup_insert_ne by lia. apply Hc. lia.
Qed.

(** ** VWAP within the price range *)

(** A sum of products [p * v] with [lo <= p <= hi] and [v >= 0] lies
    between [lo] and [hi] times the sum of the weights. *)
Lemma weighted_pairs_bounds lo hi (pv : list Q) : forall (v : list Q) acc1 acc2,
  Forall2 (fun x y => (lo * y <= x <= hi * y)%Q) pv v ->
  (lo * acc2 <= acc1 <= hi * acc2)%Q ->
  (lo * fold_left Qplus v acc2 <= fold_left Qplus pv acc1 <=
   hi * fold_left Qplus v acc2)%Q.
Proof.
  induction pv as [|x pv IH]; intros v acc1 acc2 H Hacc; inversion H; subst;
    [exact Hacc|].
  cbn [fold_left]. apply IH; [assumption|]. lra.
Qed.

Lemma products_pairs lo hi (p : list Q) : forall v,
  length p = length v -> within lo hi p -> Forall (fun y => (0 <= y)%Q) v ->
  Forall2 (fun x y => (lo * y <= x <= hi * y)%Q) (Qproducts p v) v.
Proof.
  induction p as [|x p IH]; intros [|y v] Hl Hp Hv; simpl in Hl; try lia;
    [constructor|].
  inversion Hp; inversion Hv; subst. cbn [Qproducts]. constructor; [nra|].
  apply IH; [lia | assumption | assumption].
Qed.

Lemma weighted_mean_within lo hi (pv v : list Q) :
  Forall2 (fun x y => (lo * y <= x <= hi * y)%Q) pv v ->
  (0 < Qsum v)%Q -> (lo <= Qsum pv / Qsum v <= hi)%Q.
Proof.
  intros H Hpos.
  destruct (weighted_pairs_bounds lo hi pv v 0 0 H) as [H1 H2]; [lra|].
  fold (Qsum v) in H1, H2. fold (Qsum pv) in H1, H2. split.
  - apply Qle_shift_div_l; [exact Hpos | exact H1].
  - apply Qle_shift_div_r; [exact Hpos | exact H2].
Qed.

(** X24.  On finite prices in [[lo, hi]] and non-negative volumes the VWAP
    stays within the price range: with a period, at every index from
    [period - 1] on; without a period, at every index where some volume
    has been traded so far. *)
Theorem vwap_within_price_range (prices volumes : list Q) (lo hi : Q) :
  length prices = length volumes ->
  within lo hi prices ->
  Forall (fun v => (0 <= v)%Q) volumes ->
  (exists out,
     calculate_vwap (fin prices) (fin volumes) None = Ok out /\
     forall k, (k < length prices)%nat -> (0 < Qprefix_sum volumes k)%Q ->
       exists x, out !! k = Some x /\ cell_within lo hi x) /\
  (forall period, 1 <= period ->
   exists out,
     calculate_vwap (fin prices) (fin volumes) (Some period) = Ok out /\
     forall k, period - 1 <= Z.of_nat k < len prices ->
       exists x, out !! k = Some x /\ cell_within lo hi x).
Proof.
  intros Hlen Wp Hv.
  pose proof (products_pairs lo hi prices volumes Hlen Wp Hv) as Hpairs.
  split.
  - unfold calculate_vwap_at, store.
    rewrite broadcast_same by (now rewrite !fin_length). cbn [bind].
    rewrite broadcast_same
      by (unfold np_cumsum, np_where;
          rewrite length_map, !cumsum_from_length, zip_with_f_length, !fin_length; lia).
    eexists. split; [reflexivity|]. intros k Hk Hpos.
    set (pv := Qprefix_sum (Qproducts prices volumes) k).
    set (v := Qprefix_sum volumes k) in *.
    assert (Hcell : zip_with_f fdiv (np_cumsum (zip_with_f fmul (fin prices) (fin volumes)))
              (np_where (fun v => fgt v (Fin 0)) (fun v => v) (Fin 1)
                 (np_cumsum (fin volumes))) !! k =
            Some (Fin pv / (if fgt (Fin v) (Fin 0) then Fin v else Fin 1))%f).
    { apply zip_with_f_lookup.
      - rewrite zip_fmul_fin. unfold np_cumsum.
        rewrite cumsum_from_lookup by (rewrite Qproducts_length; lia). reflexivity.
      - unfold np_where, np_cumsum. rewrite lookup_map.
        rewrite cumsum_from_lookup by lia. reflexivity. }
    rewrite Hcell. eexists. split; [reflexivity|].
    unfold fgt, flt. destruct (Qle_bool v 0) eqn:E; cbn [negb].
    + apply Qle_bool_iff in E. lra.
    + cbn [fdiv]. rewrite Qzero_b_false by lra. eexists. split; [reflexivity|].
      apply weighted_mean_within; [|exact Hpos].
      now apply Forall2_take.
  - intros period Hp. unfold calculate_vwap_at, store.
    rewrite broadcast_same by (now rewrite !fin_length). cbn [bind].
    rewrite zip_fmul_fin.
    destruct (pointwise_loop (fun _ x => cell_within lo hi x)
      (fun i vwap =>
         let window_volume := np_sum (slice (fin volumes) (i - (period - 1)) (i + 1)) in
         if fgt window_volume (Fin 0) then
           setitem vwap i
             (np_sum (slice (fin (Qproducts prices volumes)) (i - (period - 1)) (i + 1))
              / window_volume)%f
         else
           let* p := getitem (fin prices) i in
           setitem vwap i p)
      (period - 1) (len (fin prices)) (np_zeros_like (fin prices)) (length prices))
      as (out & Hout & _ & _ & Hcells).
    + lia.
    + unfold len. rewrite fin_length. lia.
    + now rewrite zeros_length, fin_length.
    + intros i a Hi Hla. unfold len in Hi. rewrite fin_length in Hi.
      assert (Hsum : forall l : list Q,
        np_sum (slice (fin l) (i - (period - 1)) (i + 1)) =
        Fin (Qsum (trailing l i period))).
      { intros l. replace (i - (period - 1)) with (i + 1 - period) by lia.
        unfold fin. rewrite slice_map. apply np_sum_fin. }
      cbv zeta. rewrite !Hsum. unfold fgt, flt.
      destruct (Qle_bool (Qsum (trailing volumes i period)) 0) eqn:E; cbn [negb].
      * destruct (lookup_lt_is_Some_2 prices (Z.to_nat i) ltac:(lia)) as [p Hpi].
        rewrite (getitem_in (fin prices) i (Fin p))
          by (try lia; rewrite fin_lookup, Hpi; reflexivity).
        cbn [bind]. rewrite setitem_in by (unfold len; lia).
        eexists. split; [reflexivity|]. exists p. split; [reflexivity|].
        exact (Forall_lookup_1 _ _ _ _ Wp Hpi).
      * apply Qle_bool_false in E. cbn [fdiv].
        rewrite Qzero_b_false by (intros H0; lra).
        rewrite setitem_in by (unfold len; lia).
        eexists. split; [reflexivity|]. eexists. split; [reflexivity|].
        apply weighted_mean_within; [|exact E].
        unfold trailing. now apply slice_Forall2.
    + exists out. split; [exact Hout|]. intros k Hk. apply Hcells.
      unfold len in *. rewrite fin_length. lia.
Qed.

Lemma vwap_within_price_range_witness :
  exists out,
    calculate_vwap (fin [10; 12; 11]%Q) (fin [5; 0; 7]%Q) (Some 2) = Ok out /\
    forall k, 2 - 1 <= Z.of_nat k < len [10; 12; 11]%Q ->
      exists x, out !! k = Some x /\ cell_within 10 12 x.
Proof.
  destruct (vwap_within_price_range [10; 12; 11]%Q [5; 0; 7]%Q 10 12) as [_ H];
    [reflexivity | repeat constructor; discriminate
    | repeat constructor; discriminate |].
  exact (H 2 ltac:(lia)).
Defined.

(** ** The two charts on a request without effect *)

Lemma add_indicators_skipped df ind :
  effective df ind = false -> add_indicators df [ind] = Ok (fill_gaps df).
Proof.
  intros H. unfold add_indicators_at. cbn [process_indicators_at].
  now rewrite (not_effective_skipped df ind H).
Qed.

Lemma fill_gaps_lookup_none df name :
  lookup_col name (columns df) = None ->
  lookup_col name (columns (fill_gaps df)) = None.
Proof. intros H. now rewrite fill_gaps_lookup, H. Qed.

(** X25.  The two chart generators treat an oscillator request that
    [add_indicators] skips (a series too short for it, or one of the type
    names only the charts know, such as [macdline] or [stoch_k])
    differently: on a frame without oscillator columns the indicator
    chart still reserves a pane for it and draws nothing in it, while
    the candlestick chart opens no panel at all. *)
Theorem skipped_oscillator_leaves_empty_pane
    (df : DataFrame) (ind : indicator) (g : GenerateIndicators.group) :
  GenerateIndicators.group_of (lower (ind_type ind)) = Some g ->
  g <> GenerateIndicators.Overlay ->
  effective df ind = false ->
  (forall name, In name oscillator_columns -> lookup_col name (columns df) = None) ->
  exists pane,
    GenerateIndicators.indicator_chart df [ind] =
      Ok {| GenerateIndicators.fig_panes := [pane];
            GenerateIndicators.fig_height_ratios := [3; 1];
            GenerateIndicators.fig_plots := [] |} /\
    chart df [ind] = Ok {| addplots := []; panel_count := 1; panel_map := [] |}.
Proof.
  intros Hg Hov Heff Hcols.
  pose proof (add_indicators_skipped df ind Heff) as Hrun.
  assert (Hnone : forall name, In name oscillator_columns ->
            lookup_col name (columns (fill_gaps df)) = None)
    by (intros name Hin; apply fill_gaps_lookup_none, Hcols, Hin).
  pose proof (Hnone "macd_line" ltac:(simpl; auto)) as N1.
  pose proof (Hnone "rsi" ltac:(simpl; auto)) as N2.
  pose proof (Hnone "atr" ltac:(simpl; auto 6)) as N3.
  pose proof (Hnone "stoch_k" ltac:(simpl; auto 7)) as N4.
  unfold GenerateIndicators.indicator_chart, chart. rewrite Hrun. cbn [bind].
  unfold GenerateIndicators.categorize, chart_layout, categorize. cbn [fold_left].
  rewrite Hg.
  unfold GenerateIndicators.group_of in Hg.
  repeat match type of Hg with
    | context [is_in ?t ?l] => destruct (is_in t l) eqn:?
    end; try discriminate Hg; injection Hg as <-; try contradiction;
  match goal with
  | H : is_in _ _ = true |- _ =>
      apply is_in_In in H; cbn [In] in H;
      repeat destruct H as [H|H]; try contradiction; rewrite <- H
  end;
  eexists; (split; [|f_equal]);
    cbv beta iota zeta;
    cbn [GenerateIndicators.group_eqb GenerateIndicators.panes requested app
         GenerateIndicators.height_ratios length repeat fold_left
         GenerateIndicators.plot_panes];
    try (unfold GenerateIndicators.plot_pane; decide_types;
         rewrite ?N1, ?N2, ?N3, ?N4; reflexivity);
    match goal with
    | |- context [pane_of ?s] =>
        let v := eval vm_compute in (pane_of s) in change (pane_of s) with v
    end;
    cbv beta iota zeta; cbn [pane_eqb app fold_left requested];
    unfold macd_panel, rsi_panel, atr_panel, stoch_panel, williams_r_panel,
      cci_panel, mfi_panel, obv_panel, adx_panel;
    cbn [requested]; rewrite ?N1, ?N2, ?N3, ?N4; reflexivity.
Qed.

Lemma skipped_oscillator_leaves_empty_pane_witness :
  exists pane,
    GenerateIndicators.indicator_chart bars5 [request "rsi" 14] =
      Ok {| GenerateIndicators.fig_panes := [pane];
            GenerateIndicators.fig_height_ratios := [3; 1];
            GenerateIndicators.fig_plots := [] |} /\
    chart bars5 [request "rsi" 14] =
      Ok {| addplots := []; panel_count := 1; panel_map := [] |}.
Proof.
  apply (skipped_oscillator_leaves_empty_pane bars5 (request "rsi" 14)
           GenerateIndicators.Rsi);
    [reflexivity | discriminate | reflexivity |].
  intros name Hin. simpl in Hin.
  repeat destruct Hin as [<-|Hin]; try contradiction; reflexivity.
Defined.

(** X26.  The indicator chart looks an EMA up under the same default
    period as [add_indicators] (20): for an EMA request, with or without
    a period, that passes its gate, it draws the computed and gap-filled
    EMA column on the main axis and creates no pane. *)
Theorem indicator_chart_draws_ema (df : DataFrame) (ind : indicator) (close : array) :
  lower (ind_type ind) = "ema" ->
  df_get df "close" = Ok close ->
  1 <= default 20 (period (ind_params ind)) <= df_len df ->
  exists r ema,
    add_indicators df [ind] = Ok r /\
    df_get r (fmt "ema_" (default 20 (period (ind_params ind)))) = Ok ema /\
    GenerateIndicators.indicator_chart df [ind] =
      Ok {| GenerateIndicators.fig_panes := [];
            GenerateIndicators.fig_height_ratios := [3];
            GenerateIndicators.fig_plots :=
              [{| GenerateIndicators.axis := 0;
                  GenerateIndicators.what := GenerateIndicators.Line ema |}] |}.
Proof.
  intros Ht Hc Hp. set (p := default 20 (period (ind_params ind))) in *.
  destruct (ewm_mean_ok close p ltac:(lia)) as (e & He & _).
  assert (Hstep : add_indicator df ind = Ok (df_set df (fmt "ema_" p) e)).
  { unfold add_indicator_at. rewrite Ht. decide_types. cbv zeta. fold p.
    replace (p <=? df_len df) with true by lia.
    rewrite Hc. cbn [bind]. unfold calculate_ema. now rewrite He. }
  assert (Hrun : add_indicators df [ind] = Ok (fill_gaps (df_set df (fmt "ema_" p) e))).
  { unfold add_indicators_at. cbn [process_indicators_at]. now rewrite Hstep. }
  assert (Hcol : lookup_col (fmt "ema_" p) (columns (fill_gaps (df_set df (fmt "ema_" p) e)))
                 = Some (fill_column e)).
  { rewrite fill_gaps_lookup. unfold df_set. cbn [columns].
    now rewrite lookup_assign_eq. }
  exists (fill_gaps (df_set df (fmt "ema_" p) e)), (fill_column e).
  split; [exact Hrun|]. split; [unfold df_get; now rewrite Hcol|].
  unfold GenerateIndicators.indicator_chart. rewrite Hrun. cbn [bind]. f_equal.
  unfold GenerateIndicators.categorize. cbn [fold_left]. rewrite Ht.
  change (GenerateIndicators.group_of "ema") with (Some GenerateIndicators.Overlay).
  cbv beta iota zeta.
  cbn [GenerateIndicators.group_eqb GenerateIndicators.panes requested app
       GenerateIndicators.height_ratios length repeat fold_left
       GenerateIndicators.plot_panes].
  unfold GenerateIndicators.plot_overlay. rewrite Ht. decide_types. cbv zeta.
  fold p. now rewrite Hcol.
Qed.

Lemma indicator_chart_draws_ema_witness :
  exists r ema,
    add_indicators bars25 [{| ind_type := "EMA"; ind_params := no_params |}] = Ok r /\
    df_get r "ema_20" = Ok ema /\
    GenerateIndicators.indicator_chart bars25
      [{| ind_type := "EMA"; ind_params := no_params |}] =
      Ok {| GenerateIndicators.fig_panes := [];
            GenerateIndicators.fig_height_ratios := [3];
            GenerateIndicators.fig_plots :=
              [{| GenerateIndicators.axis := 0;
                  GenerateIndicators.what := GenerateIndicators.Line ema |}] |}.
Proof.
  apply (indicator_chart_draws_ema bars25
           {| ind_type := "EMA"; ind_params := no_params |}
           (map of_Z [10; 11; 12; 11; 13; 14; 13; 15; 16; 15; 17; 18; 17; 19; 20; 19; 21;
                      22; 21; 23; 24; 23; 25; 26; 25]));
    try reflexivity. now vm_compute.
Defined.

(** ** The column check makes the indicator step safe *)

Lemma frame_ok_lookup df name a :
  frame_ok df -> lookup_col name (columns df) = Some a -> length a = rows df.
Proof.
  unfold frame_ok. generalize (rows df). intros n H.
  induction H as [|[m b] cols Hb _ IH]; cbn [lookup_col]; [discriminate|].
  destruct (String.eqb m name); [intros [= <-]; exact Hb | exact IH].
Qed.

Lemma ensure_columns_ohlcv df d :
  frame_ok df -> ensure_columns df = Some d -> ohlcv d /\ rows d = rows df.
Proof.
  intros Hok. unfold ensure_columns.
  destruct (forallb _ _) eqn:Hreq; [|discriminate].
  cbn [forallb] in Hreq. rewrite !andb_true_iff in Hreq.
  destruct Hreq as (Ho & Hh & Hl & Hc & _).
  assert (Hhave : forall name, has_column df name = true ->
            exists c, df_get df name = Ok c /\ length c = rows df).
  { intros name H. unfold has_column in H. unfold df_get.
    destruct (lookup_col name (columns df)) as [c|] eqn:E; [|discriminate].
    exists c. split; [reflexivity | exact (frame_ok_lookup df name c Hok E)]. }
  destruct (has_column df "volume") eqn:Hv; intros [= <-].
  - split; [|reflexivity]. intros name Hin. cbn [price_columns In] in Hin.
    repeat destruct Hin as [<-|Hin]; try contradiction; now apply Hhave.
  - split; [|reflexivity]. intros name Hin. cbn [price_columns In] in Hin.
    repeat destruct Hin as [<-|Hin]; try contradiction;
      try (rewrite df_get_set_ne by discriminate; cbn [rows df_set]; now apply Hhave).
    exists (repeat (Fin 0) (rows df)). split; [|apply repeat_length].
    unfold df_get, df_set. cbn [columns]. now rewrite lookup_assign_eq.
Qed.


(** ** Stores into typed arrays *)

Lemma store_fin dt (a : array) i q :
  0 <= i < len a -> store dt a i (Fin q) = Ok (<[Z.to_nat i := Fin (kept dt q)]> a).
Proof.
  intros H. destruct dt; cbn [store kept].
  - now apply setitem_in.
  - rewrite norm_index_in by exact H. reflexivity.
Qed.

Lemma Qtrunc_inject_Z z : Qtrunc (inject_Z z) = z.
Proof. unfold Qtrunc. cbn [inject_Z Qnum Qden]. apply Z.quot_1_r. Qed.

Lemma kept_whole dt q : whole q -> kept dt q = q.
Proof.
  intros [z ->]. destruct dt; [reflexivity|].
  cbn [kept]. now rewrite Qtrunc_inject_Z.
Qed.

Lemma typed_lookup dt l k q : typed dt l -> l !! k = Some q -> kept dt q = q.
Proof.
  destruct dt; [reflexivity|]. intros H Hk. apply kept_whole.
  exact (Forall_lookup_1 _ _ _ _ H Hk).
Qed.

(** C8 (as the code has it).  Without a period, the VWAP at index [k] is
    the cumulative price x volume divided by the cumulative volume when
    that volume is positive, and divided by 1 otherwise (the cumulative
    product itself, not the price); the result is a float64 array whatever
    the dtype of the prices.  With a period [p >= 1] the result has the
    dtype of the prices: the cells below [p - 1] hold 0, and at
    [k >= p - 1] the cell keeps the window sum of price x volume over the
    window sum of volume when that sum is positive (the exact quotient in
    a float64 array, the quotient truncated toward zero in an int64 one),
    and the price at [k] otherwise. *)
Theorem vwap_values (dt : dtype) (prices volumes : list Q) :
  length prices = length volumes ->
  typed dt prices ->
  (exists out,
     calculate_vwap_at dt (fin prices) (fin volumes) None = Ok out /\
     length out = length prices /\
     forall k, (k < length prices)%nat ->
       let pv := Qprefix_sum (Qproducts prices volumes) k in
       let v := Qprefix_sum volumes k in
       ((0 < v)%Q -> out !! k = Some (Fin (pv / v))) /\
       ((v <= 0)%Q -> out !! k = Some (Fin (pv / 1)))) /\
  (forall period, 1 <= period ->
   exists out,
     calculate_vwap_at dt (fin prices) (fin volumes) (Some period) = Ok out /\
     zero_below (period - 1) (length prices) out /\
     forall k, period - 1 <= Z.of_nat k < len prices ->
       let pv := Qsum (trailing (Qproducts prices volumes) (Z.of_nat k) period) in
       let v := Qsum (trailing volumes (Z.of_nat k) period) in
       ((0 < v)%Q -> out !! k = Some (Fin (kept dt (pv / v)))) /\
       ((v <= 0)%Q -> exists p, prices !! k = Some p /\ out !! k = Some (Fin p))).
Proof.
  intros Hlen Hty. split.
  - unfold calculate_vwap_at.
    rewrite broadcast_same by (now rewrite !fin_length). cbn [bind].
    rewrite broadcast_same
      by (unfold np_cumsum, np_where;
          rewrite length_map, !cumsum_from_length, zip_with_f_length, !fin_length; lia).
    eexists. split; [reflexivity|]. split.
    { unfold np_cumsum, np_where.
      rewrite zip_with_f_length, length_map, !cumsum_from_length,
        zip_with_f_length, !fin_length. lia. }
    intros k Hk.
    set (pv := Qprefix_sum (Qproducts prices volumes) k).
    set (v := Qprefix_sum volumes k).
    assert (Hcell : zip_with_f fdiv (np_cumsum (zip_with_f fmul (fin prices) (fin volumes)))
              (np_where (fun v => fgt v (Fin 0)) (fun v => v) (Fin 1)
                 (np_cumsum (fin volumes))) !! k =
            Some (Fin pv / (if fgt (Fin v) (Fin 0) then Fin v else Fin 1))%f).
    { apply zip_with_f_lookup.
      - rewrite zip_fmul_fin. unfold np_cumsum.
        rewrite cumsum_from_lookup by (rewrite Qproducts_length; lia). reflexivity.
      - unfold np_where, np_cumsum. rewrite lookup_map.
        rewrite cumsum_from_lookup by lia. reflexivity. }
    rewrite Hcell. unfold fgt; simpl.
    destruct (Qle_bool v 0) eqn:E; simpl.
    + apply Qle_bool_iff in E. split; [intros H; lra | intros _; reflexivity].
    + apply Qle_bool_false in E. split; [|intros H; lra].
      intros _. rewrite Qzero_b_false by lra. reflexivity.
  - intros period Hp. unfold calculate_vwap_at.
    rewrite broadcast_same by (now rewrite !fin_length). cbn [bind].
    rewrite zip_fmul_fin.
    destruct (pointwise_loop
      (fun i x =>
         let pv := Qsum (trailing (Qproducts prices volumes) i period) in
         let v := Qsum (trailing volumes i period) in
         ((0 < v)%Q -> x = Fin (kept dt (pv / v))) /\
         ((v <= 0)%Q -> exists p, prices !! Z.to_nat i = Some p /\ x = Fin p))
      (fun i vwap =>
         let window_volume := np_sum (slice (fin volumes) (i - (period - 1)) (i + 1)) in
         if fgt window_volume (Fin 0) then
           store dt vwap i
             (np_sum (slice (fin (Qproducts prices volumes)) (i - (period - 1)) (i + 1))
              / window_volume)%f
         else
           let* p := getitem (fin prices) i in
           store dt vwap i p)
      (period - 1) (len (fin prices)) (np_zeros_like (fin prices)) (length prices))
      as (out & Hout & Hl & Hlow & Hv).
    + lia.
    + unfold len. rewrite fin_length. lia.
    + now rewrite zeros_length, fin_length.
    + intros i a Hi Hla. unfold len in Hi. rewrite fin_length in Hi.
      assert (Hsum : forall l : list Q,
        np_sum (slice (fin l) (i - (period - 1)) (i + 1)) =
        Fin (Qsum (trailing l i period))).
      { intros l. replace (i - (period - 1)) with (i + 1 - period) by lia.
        unfold fin. rewrite slice_map. apply np_sum_fin. }
      cbv zeta. rewrite !Hsum. unfold fgt; simpl.
      destruct (Qle_bool (Qsum (trailing volumes i period)) 0) eqn:E; simpl.
      * apply Qle_bool_iff in E.
        destruct (lookup_lt_is_Some_2 prices (Z.to_nat i) ltac:(lia)) as [p Hpi].
        rewrite (getitem_in (fin prices) i (Fin p))
          by (try lia; rewrite fin_lookup, Hpi; reflexivity).
        cbn [bind]. rewrite store_fin by (unfold len; lia).
        rewrite (typed_lookup dt prices _ p Hty Hpi).
        eexists. split; [reflexivity|]. split; [intros H; lra|].
        intros _. exists p. auto.
      * apply Qle_bool_false in E.
        rewrite Qzero_b_false by (intros H0; lra).
        rewrite store_fin by (unfold len; lia).
        eexists. split; [reflexivity|]. split; [reflexivity | intros H; lra].
    + exists out. split; [exact Hout|]. split.
      * split; [exact Hl|]. intros k Hk Hkn. rewrite Hlow by lia.
        apply zeros_lookup. now rewrite fin_length.
      * intros k Hk.
        destruct (Hv k) as (x & Hx & H1 & H2);
          [unfold len in *; rewrite fin_length; lia|].
        rewrite Nat2Z.id in H2. split.
        -- intros H. now rewrite Hx, (H1 H).
        -- intros H. destruct (H2 H) as (p & Hp1 & ->). eauto.
Qed.

Lemma vwap_values_witness :
  exists out,
    calculate_vwap_at int64 (fin [10; 11; 13]%Q) (fin [1; 2; 4]%Q) (Some 2) = Ok out /\
    zero_below 1 3 out /\
    out !! 1%nat = Some (Fin 10) /\ out !! 2%nat = Some (Fin 12).
Proof.
  destruct (proj2 (vwap_values int64 [10; 11; 13]%Q [1; 2; 4]%Q eq_refl
                     ltac:(repeat constructor; eexists; reflexivity)) 2 ltac:(lia))
    as (out & Ho & Hz & Hv).
  exists out. split; [exact Ho|]. split; [exact Hz|]. split.
  - exact (proj1 (Hv 1%nat ltac:(now vm_compute)) ltac:(reflexivity)).
  - exact (proj1 (Hv 2%nat ltac:(now vm_compute)) ltac:(reflexivity)).
Defined.

(** ** Warm-up cells of the remaining indicator functions *)

Lemma zero_below_pointwise lo (src out : array) :
  length out = length src ->
  (forall k, Z.of_nat k < lo -> out !! k = np_zeros_like src !! k) ->
  zero_below lo (length src) out.
Proof.
  intros Hl Hlow. split; [exact Hl|]. intros k Hk Hn.
  rewrite Hlow by exact Hk. now apply zeros_lookup.
Qed.

Lemma zero_below_weaken lo lo' n (a : array) :
  lo' <= lo -> zero_below lo n a -> zero_below lo' n a.
Proof. intros H [Hl Hz]. split; [exact Hl|]. intros k Hk. apply Hz. lia. Qed.

Lemma bollinger_warmup (prices : array) (period : Z) (std_dev : f64) :
  1 <= period ->
  exists bb, calculate_bollinger_bands prices period std_dev = Ok bb /\
    length (bb_middle bb) = length prices /\
    length (bb_upper bb) = length prices /\
    length (bb_lower bb) = length prices /\
    forall k, (k < length prices)%nat -> Z.of_nat k < period - 1 ->
      bb_middle bb !! k = Some NaN /\ bb_upper bb !! k = Some NaN /\
      bb_lower bb !! k = Some NaN.
Proof.
  intros Hp. unfold calculate_bollinger_bands.
  destruct (sma_warmup prices period Hp) as (sma & -> & Hsl & Hnan). cbn [bind].
  destruct (rolling_ok std_window prices period ltac:(lia)) as (sd & -> & Hdl).
  cbn [bind].
  assert (Hsc : length (scalar fmul sd std_dev) = length prices)
    by (unfold scalar; now rewrite length_map).
  rewrite !broadcast_same by congruence. cbn [bind].
  eexists. split; [reflexivity|]. cbn [bb_middle bb_upper bb_lower].
  rewrite !zip_with_f_length, Hsl, Hsc.
  split; [reflexivity|]. split; [lia|]. split; [lia|].
  intros k Hk Hw.
  destruct (lookup_lt_is_Some_2 (scalar fmul sd std_dev) k ltac:(lia)) as [y Hy].
  split; [now apply Hnan|].
  split.
  - rewrite (zip_with_f_lookup fadd sma _ k NaN y (Hnan k Hk Hw) Hy). reflexivity.
  - rewrite (zip_with_f_lookup fsub sma _ k NaN y (Hnan k Hk Hw) Hy). reflexivity.
Qed.

Lemma cci_warmup (high low close : array) (period : Z) :
  length high = length close -> length low = length close -> 1 <= period ->
  exists out, calculate_cci high low close period = Ok out /\
    zero_below (period - 1) (length close) out.
Proof.
  intros Hh Hl Hp. unfold calculate_cci_at, store.
  destruct (typical_price_length high low close Hh Hl) as (tp & -> & Htl).
  cbn [bind].
  match goal with
  | |- context [for_range ?lo ?hi ?body ?s] =>
      destruct (pointwise_loop (fun _ _ => True) body lo hi s (length close))
        as (sma & -> & Hsl & _)
  end; [lia | unfold len; lia | apply zeros_length | |].
  - intros i a Hi Hla. run_body. eauto.
  - cbn [bind].
    match goal with
    | |- context [for_range ?lo ?hi ?body ?s] =>
        destruct (pointwise_loop (fun _ _ => True) body lo hi s (length close))
          as (out & -> & Hol & Hlow & _)
    end; [lia | unfold len; lia | apply zeros_length | |].
    + intros i a Hi Hla.
      destruct (getitem_ok sma i) as (m & -> & _); [lens|]. cbn [bind]. cbv zeta.
      destruct (feq _ (Fin 0)); run_body; eauto.
    + exists out. split; [reflexivity|]. now apply zero_below_pointwise.
Qed.

Lemma vwap_warmup (prices volumes : array) (period : Z) :
  length volumes = length prices -> 1 <= period ->
  exists out, calculate_vwap prices volumes (Some period) = Ok out /\
    zero_below (period - 1) (length prices) out.
Proof.
  intros Hv Hp. unfold calculate_vwap_at, store.
  rewrite broadcast_same by congruence. cbn [bind].
  match goal with
  | |- context [for_range ?lo ?hi ?body ?s] =>
      destruct (pointwise_loop (fun _ _ => True) body lo hi s (length prices))
        as (out & -> & Hl & Hlow & _)
  end; [lia | unfold len; lia | apply zeros_length | |].
  - intros i a Hi Hla. run_body; eauto.
  - exists out. split; [reflexivity|]. now apply zero_below_pointwise.
Qed.

Lemma stochastic_warmup (high low close : array) (k_period d_period slowing : Z) :
  length high = length close -> length low = length close ->
  1 <= k_period -> 1 <= d_period ->
  exists s, calculate_stochastic high low close k_period d_period slowing = Ok s /\
    zero_below (k_period - 1) (length close) (stoch_k s) /\
    (1 < slowing -> zero_below (k_period + slowing - 2) (length close) (stoch_k s)) /\
    length (stoch_d s) = length close /\
    forall k, (k < length close)%nat -> Z.of_nat k < d_period - 1 ->
      stoch_d s !! k = Some NaN.
Proof.
  intros Hh Hl Hk Hd. unfold calculate_stochastic_at, store.
  match goal with
  | |- context [for_range ?lo ?hi ?body ?s] =>
      destruct (pointwise_loop (fun _ _ => True) body lo hi s (length close))
        as (raw & -> & Hrl & Hrlow & _)
  end; [lia | unfold len; lia | apply zeros_length | |].
  - intros i a Hi Hla.
    destruct (window_extremes_ok high low i k_period) as (hh & ll & ->);
      [lia | lia | unfold len in *; lia | unfold len in *; lia |].
    cbn [bind]. run_body; eauto.
  - cbn [bind].
    assert (Hraw : zero_below (k_period - 1) (length close) raw)
      by now apply zero_below_pointwise.
    destruct (1 <? slowing) eqn:Es.
    + apply Z.ltb_lt in Es.
      match goal with
      | |- context [for_range ?lo ?hi ?body ?s] =>
          destruct (pointwise_loop (fun _ _ => True) body lo hi s (length close))
            as (k & -> & Hkl & Hklow & _)
      end; [lia | unfold len; lia | apply zeros_length | |].
      * intros i a Hi Hla. run_body. eauto.
      * cbn [bind].
        assert (Hkz : zero_below (k_period + slowing - 2) (length close) k)
          by now apply zero_below_pointwise.
        destruct (sma_warmup k d_period Hd) as (d & -> & Hdl & Hnan). cbn [bind].
        eexists. split; [reflexivity|]. cbn [stoch_k stoch_d].
        split; [apply (zero_below_weaken (k_period + slowing - 2)); [lia | exact Hkz]|].
        split; [intros _; exact Hkz|]. split; [congruence|].
        intros j Hj Hw. apply Hnan; [lia | exact Hw].
    + apply Z.ltb_ge in Es. cbn [bind].
      destruct (sma_warmup raw d_period Hd) as (d & -> & Hdl & Hnan). cbn [bind].
      eexists. split; [reflexivity|]. cbn [stoch_k stoch_d].
      split; [exact Hraw|]. split; [intros H; lia|]. split; [congruence|].
      intros j Hj Hw. apply Hnan; [lia | exact Hw].
Qed.

Lemma adx_warmup (high low close : array) (period : Z) :
  length high = length close -> length low = length close ->
  1 <= period -> 2 * period <= len close ->
  exists r, calculate_adx high low close period = Ok r /\
    zero_below (2 * period - 1) (length close) (adx_adx r) /\
    zero_below period (length close) (adx_plus_di r) /\
    zero_below period (length close) (adx_minus_di r).
Proof.
  intros Hh Hl Hp Hn. unfold calculate_adx_at, store.
  destruct (directional_movement_ok high low close Hh Hl)
    as (tr & pdm & mdm & -> & Ht & Hpd & Hmd).
  cbn [bind].
  destruct (wilder_sum_ok tr close period Ht) as (st & -> & Hst); [lia|].
  cbn [bind].
  destruct (wilder_sum_ok pdm close period Hpd) as (sp & -> & Hsp); [lia|].
  cbn [bind].
  destruct (wilder_sum_ok mdm close period Hmd) as (sm & -> & Hsm); [lia|].
  cbn [bind].
  match goal with
  | |- context [for_range ?lo ?hi ?body ?s] =>
      destruct (for_range_ok
        (fun _ (d : array * array) =>
           zero_below period (length close) (fst d) /\
           zero_below period (length close) (snd d))
        body lo hi s) as ([pdi mdi] & -> & Hpz & Hmz)
  end; [lia | cbn [fst snd]; split; apply zero_below_zeros | |].
  - intros i [pdi mdi] Hi [H1 H2]. cbn [fst snd] in *.
    pose proof (proj1 H1) as L1. pose proof (proj1 H2) as L2.
    destruct (getitem_ok st i) as (t & -> & _); [lens|]. cbn [bind].
    destruct (feq t (Fin 0)).
    + rewrite !setitem_in by lens. cbn [bind].
      eexists. split; [reflexivity|]. cbn [fst snd].
      split; apply zero_below_insert; (lia || assumption).
    + destruct (getitem_ok sp i) as (p & -> & _); [lens|]. cbn [bind].
      rewrite setitem_in by lens. cbn [bind].
      destruct (getitem_ok sm i) as (m & -> & _); [lens|]. cbn [bind].
      rewrite setitem_in by lens. cbn [bind].
      eexists. split; [reflexivity|]. cbn [fst snd].
      split; apply zero_below_insert; (lia || assumption).
  - cbn [bind]. cbn [fst snd] in *.
    pose proof (proj1 Hpz) as Hpl. pose proof (proj1 Hmz) as Hml.
    match goal with
    | |- context [for_range ?lo ?hi ?body ?s] =>
        destruct (for_range_ok (fun _ a => length a = length close) body lo hi s)
          as (dx & -> & Hdl)
    end; [lia | apply zeros_length | |].
    + intros i a Hi Hla.
      destruct (getitem_ok pdi i) as (p & -> & _); [lens|].
      destruct (getitem_ok mdi i) as (m & -> & _); [lens|].
      cbn [bind]. destruct (feq _ (Fin 0)); rewrite setitem_in by lens;
        (eexists; split; [reflexivity|]; now rewrite length_insert).
    + cbn [bind]. replace (2 * period <=? len close) with true by lia.
      rewrite setitem_in by lens. cbn [bind].
      match goal with
      | |- context [for_range ?lo ?hi ?body ?s] =>
          destruct (for_range_ok
            (fun _ a => zero_below (2 * period - 1) (length close) a) body lo hi s)
            as (adx & -> & Haz)
      end; [lia | apply zero_below_insert; [lia | apply zero_below_zeros] | |].
      * intros i a Hi Hz. pose proof (proj1 Hz) as Hla. run_body.
        eexists. split; [reflexivity|]. apply zero_below_insert; [lia | exact Hz].
      * cbn [bind]. eexists. split; [reflexivity|].
        cbn [adx_adx adx_plus_di adx_minus_di]. auto.
Qed.

(** C2 (as the code has it).  On a series that passes the gate, the
    warm-up cells carry NaN only where pandas computes them: the rolling
    mean of [calculate_sma], the three Bollinger bands, and the %D line of
    the stochastic oscillator.  Every loop-based output starts as a
    zero-initialised array and is written from its first defined index on,
    so its warm-up cells hold the ordinary number 0: below [period - 1]
    for WMA, Williams %R, CCI, ATR and the rolling VWAP, below [period]
    for RSI, MFI, +DI and -DI, below [2 * period - 1] for ADX, and below
    [k_period - 1] (with slowing, below [k_period + slowing - 2]) for the
    stochastic %K. *)
Theorem warmup_cells (high low close volume : array) (period : Z) :
  length high = length close ->
  length low = length close ->
  length volume = length close ->
  1 <= period ->
  (period <= len close ->
     (exists out, calculate_sma close period = Ok out /\
        length out = length close /\
        forall k, (k < length close)%nat -> Z.of_nat k < period - 1 ->
          out !! k = Some NaN) /\
     (forall std_dev,
        exists bb, calculate_bollinger_bands close period std_dev = Ok bb /\
          length (bb_middle bb) = length close /\
          length (bb_upper bb) = length close /\
          length (bb_lower bb) = length close /\
          forall k, (k < length close)%nat -> Z.of_nat k < period - 1 ->
            bb_middle bb !! k = Some NaN /\ bb_upper bb !! k = Some NaN /\
            bb_lower bb !! k = Some NaN) /\
     (exists out, calculate_wma close period = Ok out /\
        zero_below (period - 1) (length close) out) /\
     (exists out, calculate_williams_r high low close period = Ok out /\
        zero_below (period - 1) (length close) out) /\
     (exists out, calculate_cci high low close period = Ok out /\
        zero_below (period - 1) (length close) out) /\
     (exists out, calculate_vwap close volume (Some period) = Ok out /\
        zero_below (period - 1) (length close) out)) /\
  (period + 1 <= len close ->
     (exists out, calculate_rsi close period = Ok out /\
        zero_below period (length close) out) /\
     (exists out, calculate_atr high low close period = Ok out /\
        zero_below (period - 1) (length close) out) /\
     (exists out, calculate_mfi high low close volume period = Ok out /\
        zero_below period (length close) out)) /\
  (2 * period <= len close ->
     exists r, calculate_adx high low close period = Ok r /\
       zero_below (2 * period - 1) (length close) (adx_adx r) /\
       zero_below period (length close) (adx_plus_di r) /\
       zero_below period (length close) (adx_minus_di r)) /\
  (forall d_period slowing, 1 <= d_period -> period + d_period <= len close ->
     exists s, calculate_stochastic high low close period d_period slowing = Ok s /\
       zero_below (period - 1) (length close) (stoch_k s) /\
       (1 < slowing -> zero_below (period + slowing - 2) (length close) (stoch_k s)) /\
       length (stoch_d s) = length close /\
       forall k, (k < length close)%nat -> Z.of_nat k < d_period - 1 ->
         stoch_d s !! k = Some NaN).
Proof.
  intros Hh Hl Hv Hp. split; [|split; [|split]].
  - intros Hn. split; [now apply sma_warmup|].
    split; [intros std_dev; now apply bollinger_warmup|].
    split; [apply wma_warmup; lia|].
    split; [apply williams_warmup; auto; lia|].
    split; [now apply cci_warmup | now apply vwap_warmup].
  - intros Hn. split; [now apply rsi_warmup|].
    split; [now apply atr_warmup | now apply mfi_warmup].
  - intros Hn. now apply adx_warmup.
  - intros d_period slowing Hd _. now apply stochastic_warmup.
Qed.

Lemma warmup_cells_witness :
  (exists out,
     calculate_rsi (fin [1; 2; 3; 2; 5; 6]%Q) 2 = Ok out /\ zero_below 2 6 out) /\
  (exists bb,
     calculate_bollinger_bands (fin [1; 2; 3; 2; 5; 6]%Q) 3 (Fin 2) = Ok bb /\
     bb_upper bb !! 1%nat = Some NaN) /\
  (exists r,
     calculate_adx (fin [2; 3; 4; 3; 6; 7]%Q) (fin [0; 1; 2; 1; 4; 5]%Q)
       (fin [1; 2; 3; 2; 5; 6]%Q) 2 = Ok r /\
     zero_below 3 6 (adx_adx r)).
Proof.
  pose proof (warmup_cells (fin [2; 3; 4; 3; 6; 7]%Q) (fin [0; 1; 2; 1; 4; 5]%Q)
                (fin [1; 2; 3; 2; 5; 6]%Q) (fin [1; 1; 1; 1; 1; 1]%Q)) as W.
  split; [|split].
  - apply (W 2 eq_refl eq_refl eq_refl ltac:(lia)). now vm_compute.
  - destruct (proj1 (proj2 (proj1 (W 3 eq_refl eq_refl eq_refl ltac:(lia))
                                ltac:(now vm_compute))) (Fin 2))
      as (bb & Hb & _ & _ & _ & Hnan).
    exists bb. split; [exact Hb|].
    apply (Hnan 1%nat); [simpl; lia | now vm_compute].
  - destruct (proj1 (proj2 (proj2 (W 2 eq_refl eq_refl eq_refl ltac:(lia))))
                ltac:(now vm_compute)) as (r & Hr & Hz & _).
    exists r. split; [exact Hr | exact Hz].
Defined.

(** C9 (as the code has it).  On forty strictly increasing finite closes,
    MACD(12, 26, 9) returns a line (fast EMA minus slow EMA, both seeded
    with the first close) that is strictly positive at every index past
    the warm-up of the slow average (index 25 on, where its window of 26
    closes is full).  When the closes rise by a constant positive step
    the line is also strictly increasing there. *)
Theorem macd_line_on_rising_closes (closes : list Q) :
  length closes = 40%nat ->
  increasing closes ->
  exists m,
    calculate_macd (fin closes) 12 26 9 = Ok m /\
    macd_macd m = fin (macd_line_q closes) /\
    length (macd_macd m) = 40%nat /\
    (forall k x, (25 <= k)%nat -> macd_macd m !! k = Some x ->
       exists q, x = Fin q /\ (0 < q)%Q) /\
    (forall d, (0 < d)%Q -> steps_by d closes ->
       forall k x y, (25 <= k)%nat ->
         macd_macd m !! k = Some x -> macd_macd m !! S k = Some y ->
         exists q q', x = Fin q /\ y = Fin q' /\ (q < q')%Q).
Proof.
  intros Hlen Hinc. destruct (calculate_macd_fin closes) as (m & Hm & Hline).
  exists m. split; [exact Hm|]. split; [exact Hline|].
  rewrite Hline. split; [now rewrite fin_length, macd_line_q_length|].
  destruct closes as [|x0 xs]; [discriminate Hlen|].
  unfold macd_line_q. cbn [ema_q Qdiffs]. split.
  - intros k x Hk Hx. rewrite fin_lookup in Hx.
    destruct k as [|k]; [lia|]. cbn [lookup list_lookup] in Hx.
    match type of Hx with
    | option_map _ ?o = _ => destruct o as [q|] eqn:Hq; [|discriminate]
    end.
    injection Hx as <-. exists q. split; [reflexivity|].
    pose proof (macd_positive_from xs x0 x0 x0 (Qle_refl _) (Qle_refl _) Hinc) as H.
    exact (Forall_lookup_1 _ _ _ _ H Hq).
  - intros d Hd Hst k x y Hk Hx Hy. rewrite fin_lookup in Hx, Hy.
    match type of Hx with
    | option_map _ ?o = _ => destruct o as [q|] eqn:Hq; [|discriminate]
    end.
    match type of Hy with
    | option_map _ ?o = _ => destruct o as [q'|] eqn:Hq'; [|discriminate]
    end.
    injection Hx as <-. injection Hy as <-.
    exists q, q'. split; [reflexivity|]. split; [reflexivity|].
    refine (increasing_lookup _ k q q' _ Hq Hq').
    apply (macd_rising_from d xs x0 x0 x0 Hd Hst); lra.
Qed.

Lemma macd_line_on_rising_closes_witness :
  exists m,
    calculate_macd (fin ramp40) 12 26 9 = Ok m /\
    length (macd_macd m) = 40%nat /\
    forall x y,
      macd_macd m !! 38%nat = Some x -> macd_macd m !! 39%nat = Some y ->
      exists q q', x = Fin q /\ y = Fin q' /\ (0 < q)%Q /\ (q < q')%Q.
Proof.
  assert (Hinc : increasing ramp40) by (unfold ramp40; simpl; repeat split).
  assert (Hst : steps_by 1 ramp40) by (unfold ramp40; simpl; repeat split).
  destruct (macd_line_on_rising_closes ramp40 eq_refl Hinc)
    as (m & Hm & _ & Hlen & Hpos & Hup).
  exists m. split; [exact Hm|]. split; [exact Hlen|].
  intros x y Hx Hy.
  destruct (Hup 1%Q ltac:(reflexivity) Hst 38%nat x y ltac:(lia) Hx Hy)
    as (q & q' & -> & -> & Hlt).
  destruct (Hpos 38%nat (Fin q) ltac:(lia) Hx) as (q0 & [= <-] & Hq).
  exists q, q'. auto.
Defined.

(** ** A skipped request and the requests around it *)

(** A request that passes its gate assigns the columns of its kind. *)
Lemma add_indicator_computes dt df ind k :
  kind_of (ind_type ind) = Some k ->
  effective df ind = true ->
  add_indicator_at dt df ind =
  (let* cols := computed_columns dt df k (ind_params ind) in
   Ok (set_columns df cols)).
Proof.
  intros Hk Heff. unfold effective, minimum_length in Heff. rewrite Hk in Heff.
  unfold kind_of in Hk. unfold add_indicator_at, computed_columns, set_columns.
  cbv zeta.
  repeat match goal with
    | H : context [if is_in ?t ?l then _ else _] |- _ =>
        destruct (is_in t l) eqn:?
    end;
  try discriminate; injection Hk as <-;
  match goal with
  | |- context [if ?b then _ else _] => replace b with true by lia
  end;
  repeat match goal with
    | |- context [bind ?x _] =>
        lazymatch x with
        | bind _ _ => fail
        | _ => destruct x; cbn [bind]
        end
    end;
  reflexivity.
Qed.

Lemma computed_columns_agree dt df d k params :
  (forall name, In name price_columns -> df_get d name = df_get df name) ->
  computed_columns dt d k params = computed_columns dt df k params.
Proof.
  intros Hget.
  pose proof (Hget "high" ltac:(simpl; tauto)) as Hh.
  pose proof (Hget "low" ltac:(simpl; tauto)) as Hl.
  pose proof (Hget "close" ltac:(simpl; tauto)) as Hc.
  pose proof (Hget "volume" ltac:(simpl; tauto)) as Hv.
  unfold computed_columns. destruct k; now rewrite ?Hh, ?Hl, ?Hc, ?Hv.
Qed.

Lemma computed_columns_names dt df k params cols :
  computed_columns dt df k params = Ok cols ->
  map fst cols = output_names k params.
Proof.
  unfold computed_columns. destruct k; cbv zeta; intros H;
    inv_bind; subst; reflexivity.
Qed.

Lemma output_names_NoDup k params : NoDup (output_names k params).
Proof.
  destruct k; cbn [output_names]; cbv zeta;
    repeat (apply NoDup_cons; split;
            [rewrite ?not_elem_of_cons; repeat split;
             first [apply not_elem_of_nil | names_differ | discriminate] |]);
    apply NoDup_nil_2.
Qed.

Lemma set_columns_other cols : forall df name,
  ~ In name (map fst cols) ->
  lookup_col name (columns (set_columns df cols)) = lookup_col name (columns df).
Proof.
  induction cols as [|[n a] cols IH]; intros df name Hn; [reflexivity|].
  cbn [set_columns fold_left fst snd]. fold (set_columns (df_set df n a) cols).
  rewrite IH by (intros H; apply Hn; right; exact H).
  unfold df_set. cbn [columns]. apply lookup_assign_ne.
  intros ->. apply Hn. left. reflexivity.
Qed.

Lemma set_columns_lookup cols : forall df name col,
  NoDup (map fst cols) -> In (name, col) cols ->
  lookup_col name (columns (set_columns df cols)) = Some col.
Proof.
  induction cols as [|[n a] cols IH]; intros df name col Hnd Hin; [contradiction|].
  cbn [map fst] in Hnd. apply NoDup_cons in Hnd as [Hn Hnd].
  cbn [set_columns fold_left fst snd]. fold (set_columns (df_set df n a) cols).
  destruct Hin as [[= -> ->]|Hin].
  - rewrite set_columns_other by (intros H; apply Hn; now apply list_elem_of_In).
    unfold df_set. cbn [columns]. apply lookup_assign_eq.
  - now apply IH.
Qed.

Lemma process_indicators_leaves dt name inds : forall df df',
  process_indicators_at dt df inds = Ok df' ->
  Forall (leaves name) inds ->
  lookup_col name (columns df') = lookup_col name (columns df).
Proof.
  induction inds as [|i inds IH]; cbn [process_indicators_at]; intros df df' H Hall.
  - now injection H as <-.
  - apply bind_Ok in H as (d & Hd & H). apply Forall_cons in Hall as [Hi Hall].
    rewrite (IH _ _ H Hall). exact (add_indicator_other_columns _ _ _ _ Hd Hi).
Qed.

(** C3.  A request whose series is shorter than its minimum length is
    skipped: the step returns the frame unchanged (no column attached, no
    exception), and the whole call gives what it gives without that
    request.  Every other request that passes its gate is still computed:
    when the call returns, the library function of its kind has run on the
    price columns of the input, and each column it wrote that no later
    request of the list overwrites is in the result, gap-filled.  This
    holds for a float64 and for an int64 close column. *)
Theorem short_series_omits_indicator
    (dt : dtype) (df : DataFrame) (pre post : list indicator) (ind : indicator) (m : Z) :
  minimum_length ind = Some m ->
  df_len df < m ->
  (forall df', rows df' = rows df -> add_indicator_at dt df' ind = Ok df') /\
  add_indicators_at dt df (pre ++ ind :: post) = add_indicators_at dt df (pre ++ post) /\
  forall r, add_indicators_at dt df (pre ++ ind :: post) = Ok r ->
    forall before other after k,
      (pre ++ post = before ++ other :: after)%list ->
      kind_of (ind_type other) = Some k ->
      effective df other = true ->
      exists cols,
        computed_columns dt df k (ind_params other) = Ok cols /\
        map fst cols = output_names k (ind_params other) /\
        forall name col, In (name, col) cols -> Forall (leaves name) after ->
          df_get r name = Ok (fill_column col).
Proof.
  intros Hm Hlt.
  assert (Hstep : forall df', rows df' = rows df -> add_indicator_at dt df' ind = Ok df').
  { intros df' Hr. apply (short_series_step ind m); [exact Hm|].
    unfold df_len in *. now rewrite Hr. }
  assert (Hsame : add_indicators_at dt df (pre ++ ind :: post) =
                  add_indicators_at dt df (pre ++ post)).
  { unfold add_indicators_at. rewrite !process_indicators_app.
    destruct (process_indicators_at dt df pre) as [d|e] eqn:Hpre; [|reflexivity].
    cbn [bind process_indicators_at].
    rewrite (Hstep d (process_indicators_rows _ _ _ Hpre)). reflexivity. }
  split; [exact Hstep|]. split; [exact Hsame|].
  intros r Hr before other after k Hsplit Hk Heff.
  rewrite Hsame, Hsplit in Hr. unfold add_indicators_at in Hr.
  apply bind_Ok in Hr as (d & Hd & Hr). injection Hr as <-.
  rewrite process_indicators_app in Hd.
  apply bind_Ok in Hd as (d1 & Hd1 & Hd). cbn [process_indicators_at] in Hd.
  apply bind_Ok in Hd as (d2 & Hd2 & Hd).
  pose proof (process_indicators_rows _ _ _ Hd1) as Hrows.
  rewrite (add_indicator_computes dt d1 other k Hk) in Hd2
    by (now rewrite (effective_rows df d1 other Hrows)).
  rewrite (computed_columns_agree dt df d1) in Hd2
    by (intros name Hin; apply df_get_agree;
        exact (process_indicators_prices _ _ _ _ Hd1 Hin)).
  apply bind_Ok in Hd2 as (cols & Hcols & Hd2). injection Hd2 as <-.
  exists cols. split; [exact Hcols|].
  pose proof (computed_columns_names _ _ _ _ _ Hcols) as Hnames.
  split; [exact Hnames|].
  intros name col Hin Hafter. unfold df_get.
  rewrite fill_gaps_lookup, (process_indicators_leaves _ _ _ _ _ Hd Hafter).
  rewrite (set_columns_lookup cols d1 name col); [reflexivity | | exact Hin].
  rewrite Hnames. apply output_names_NoDup.
Qed.

Lemma short_series_omits_indicator_witness :
  add_indicators_at int64 bars5 ([request "sma" 2] ++ request "RSI" 14 :: [request "wma" 2]) =
  add_indicators_at int64 bars5 ([request "sma" 2] ++ [request "wma" 2]) /\
  exists r,
    add_indicators_at int64 bars5
      ([request "sma" 2] ++ request "RSI" 14 :: [request "wma" 2]) = Ok r /\
    column_names r = ["open"; "high"; "low"; "close"; "volume"; "sma_2"; "wma_2"] /\
    df_get r "wma_2" = Ok (fin [0; 10; 11; 11; 12]%Q).
Proof.
  pose proof (short_series_omits_indicator int64 bars5 [request "sma" 2] [request "wma" 2]
                (request "RSI" 14) 15 eq_refl ltac:(reflexivity)) as (_ & Hsame & Hrun).
  split; [exact Hsame|].
  destruct (add_indicators_at int64 bars5
              ([request "sma" 2] ++ request "RSI" 14 :: [request "wma" 2]))
    as [r|e] eqn:Hr; [|now vm_compute in Hr].
  exists r. split; [reflexivity|].
  split; [vm_compute in Hr; injection Hr as <-; reflexivity|].
  destruct (Hrun r eq_refl [request "sma" 2] (request "wma" 2) [] WMA
              eq_refl eq_refl eq_refl) as (cols & Hc & _ & Hget).
  vm_compute in Hc. injection Hc as <-.
  rewrite (Hget "wma_2" _ (or_introl eq_refl) (Forall_nil_2 _)). reflexivity.
Defined.

(** ** Truncation toward zero *)

Lemma Qtrunc_bounds a b q :
  (inject_Z a <= q <= inject_Z b)%Q -> a <= Qtrunc q <= b.
Proof.
  destruct q as [n d]. unfold Qle, Qtrunc. cbn [inject_Z Qnum Qden].
  intros [Ha Hb].
  pose proof (Z.quot_rem' n (Z.pos d)) as E.
  assert (Hr : (0 <= n -> 0 <= Z.rem n (Z.pos d) < Z.pos d) /\
               (n <= 0 -> - Z.pos d < Z.rem n (Z.pos d) <= 0)).
  { split; intros H.
    - apply Z.rem_bound_pos; lia.
    - apply Z.rem_bound_pos_neg; lia. }
  destruct Hr as [Hr1 Hr2].
  destruct (Z_le_gt_dec 0 n) as [Hn|Hn]; [specialize (Hr1 Hn) | specialize (Hr2 ltac:(lia))];
    split; nia.
Qed.

Lemma Qtrunc_toward_zero q :
  ((0 <= q)%Q -> (0 <= inject_Z (Qtrunc q) <= q)%Q) /\
  ((q <= 0)%Q -> (q <= inject_Z (Qtrunc q) <= 0)%Q).
Proof.
  destruct q as [n d]. unfold Qle, Qtrunc. cbn [inject_Z Qnum Qden].
  pose proof (Z.quot_rem' n (Z.pos d)) as E.
  split; intros H.
  - pose proof (Z.rem_bound_pos n (Z.pos d) ltac:(lia) ltac:(lia)). split; nia.
  - pose proof (Z.rem_bound_pos_neg n (Z.pos d) ltac:(lia) ltac:(lia)). split; nia.
Qed.

(** An array with whole bounds keeps a number between them. *)
Lemma kept_within dt lo hi q :
  (dt = int64 -> whole lo /\ whole hi) ->
  (lo <= q <= hi)%Q -> (lo <= kept dt q <= hi)%Q.
Proof.
  destruct dt; [auto|]. intros H Hq. destruct (H eq_refl) as [[a ->] [b ->]].
  cbn [kept]. rewrite <- !Zle_Qle. now apply Qtrunc_bounds.
Qed.

(** A stored number is no further from 0 than the number itself. *)
Lemma kept_toward_zero dt v q :
  (- v <= q <= v)%Q -> (- v <= kept dt q <= v)%Q.
Proof.
  destruct dt; [auto|]. intros Hq. cbn [kept].
  destruct (Qtrunc_toward_zero q) as [Hp Hn].
  destruct (Qlt_le_dec q 0) as [H|H].
  - specialize (Hn (Qlt_le_weak _ _ H)). lra.
  - specialize (Hp H). lra.
Qed.

Lemma kept_idem dt q : kept dt (kept dt q) = kept dt q.
Proof. destruct dt; [reflexivity|]. cbn [kept]. now rewrite Qtrunc_inject_Z. Qed.

Lemma kept_zero dt : kept dt 0 = 0%Q.
Proof. now destruct dt. Qed.

Lemma kept_plus dt a b :
  kept dt a = a -> kept dt b = b -> kept dt (a + b) = (a + b)%Q.
Proof.
  destruct dt; [reflexivity|]. cbn [kept]. intros Ha Hb. rewrite <- Ha, <- Hb.
  change (inject_Z (Qtrunc a) + inject_Z (Qtrunc b))%Q
    with (inject_Z (Qtrunc a * 1 + Qtrunc b * 1)).
  now rewrite Qtrunc_inject_Z.
Qed.

(** ** On-balance volume *)

(** X10.  On finite closes and non-negative finite volumes of the same
    length, [calculate_obv] starts at 0 and never moves further from 0
    than the volume traded since the first bar, whatever the dtype of the
    close column.  On strictly rising closes it equals that volume when
    the array can hold it: always in a float64 array, and for whole
    volumes in an int64 array (which drops the fractional part of each
    stored sum). *)
Theorem obv_within_traded_volume (dt : dtype) (close volume : list Q) :
  length volume = length close ->
  typed dt close ->
  Forall (fun v => (0 <= v)%Q) volume ->
  exists out,
    calculate_obv_at dt (fin close) (fin volume) = Ok out /\
    length out = length close /\
    forall k, (k < length close)%nat ->
      exists q, out !! k = Some (Fin q) /\
        (- volume_since_first volume k <= q <= volume_since_first volume k)%Q /\
        (k = 0%nat -> q = 0%Q) /\
        (increasing close -> typed dt volume ->
           (q == volume_since_first volume k)%Q).
Proof.
  intros Hlen _ Hvol. unfold calculate_obv_at.
  destruct close as [|c0 close'].
  { rewrite for_range_empty by now vm_compute. exists []. split; [reflexivity|].
    split; [reflexivity|]. intros k Hk. simpl in Hk. lia. }
  set (close := c0 :: close') in *.
  destruct (for_range_ok
    (fun i a => length a = length close /\
       forall k, Z.of_nat k < i ->
         exists q, a !! k = Some (Fin q) /\ kept dt q = q /\
           (- volume_since_first volume k <= q <= volume_since_first volume k)%Q /\
           (k = 0%nat -> q = 0%Q) /\
           (increasing close -> typed dt volume ->
              (q == volume_since_first volume k)%Q))
    (fun i obv =>
       let* c := getitem (fin close) i in
       let* c1 := getitem (fin close) (i - 1) in
       let* o1 := getitem obv (i - 1) in
       if fgt c c1 then
         let* v := getitem (fin volume) i in store dt obv i (o1 + v)%f
       else if flt c c1 then
         let* v := getitem (fin volume) i in store dt obv i (o1 - v)%f
       else store dt obv i o1)
    1 (len (fin close)) (np_zeros_like (fin close)))
    as (out & Hout & Hol & Hcells).
  - unfold len. rewrite fin_length. simpl. lia.
  - split; [now rewrite zeros_length, fin_length|].
    intros k Hk. assert (k = 0%nat) as -> by lia.
    exists 0%Q. split; [reflexivity|]. split; [apply kept_zero|].
    rewrite volume_since_first_0.
    split; [split; discriminate|]. split; [reflexivity|]. reflexivity.
  - intros i a Hi [Hla Hinv]. unfold len in Hi. rewrite fin_length in Hi.
    destruct (lookup_lt_is_Some_2 close (Z.to_nat i) ltac:(lia)) as [c Hc].
    destruct (lookup_lt_is_Some_2 close (Z.to_nat (i - 1)) ltac:(lia)) as [c1 Hc1].
    destruct (lookup_lt_is_Some_2 volume (Z.to_nat i) ltac:(lia)) as [v Hv].
    destruct (Hinv (Z.to_nat (i - 1)) ltac:(lia)) as (o & Ho & Hok & Hob & _ & Hoi).
    rewrite (getitem_in (fin close) i (Fin c))
      by (try lia; rewrite fin_lookup, Hc; reflexivity).
    rewrite (getitem_in (fin close) (i - 1) (Fin c1))
      by (try lia; rewrite fin_lookup, Hc1; reflexivity).
    rewrite (getitem_in a (i - 1) (Fin o)) by (try lia; exact Ho).
    cbn [bind].
    rewrite (getitem_in (fin volume) i (Fin v))
      by (try lia; rewrite fin_lookup, Hv; reflexivity).
    cbn [bind fadd fsub fneg].
    assert (Hv0 : (0 <= v)%Q).
    { rewrite List.Forall_forall in Hvol. apply Hvol. eapply lookup_In, Hv. }
    assert (HS : (volume_since_first volume (Z.to_nat i) ==
                  volume_since_first volume (Z.to_nat (i - 1)) + v)%Q).
    { replace (Z.to_nat i) with (S (Z.to_nat (i - 1))) in * by lia.
      now apply volume_since_first_S. }
    assert (Hrise : increasing close -> (c1 < c)%Q).
    { intros Hinc. apply (increasing_lookup close (Z.to_nat (i - 1)) c1 c Hinc Hc1).
      now replace (S (Z.to_nat (i - 1))) with (Z.to_nat i) by lia. }
    rewrite !store_fin by (unfold len; lia).
    assert (Hgoal : forall w,
      (- volume_since_first volume (Z.to_nat i) <= w <=
         volume_since_first volume (Z.to_nat i))%Q ->
      (increasing close -> typed dt volume ->
         kept dt w = w /\ (w == volume_since_first volume (Z.to_nat i))%Q) ->
      length (<[Z.to_nat i := Fin (kept dt w)]> a) = length close /\
      forall k, Z.of_nat k < i + 1 ->
        exists q, <[Z.to_nat i := Fin (kept dt w)]> a !! k = Some (Fin q) /\
          kept dt q = q /\
          (- volume_since_first volume k <= q <= volume_since_first volume k)%Q /\
          (k = 0%nat -> q = 0%Q) /\
          (increasing close -> typed dt volume ->
             (q == volume_since_first volume k)%Q)).
    { intros w Hw Hwi. split; [now rewrite length_insert|].
      intros k Hk. destruct (decide (k = Z.to_nat i)) as [->|Hne].
      - exists (kept dt w). rewrite list_lookup_insert_eq by lia.
        split; [reflexivity|]. split; [apply kept_idem|].
        split; [now apply kept_toward_zero|]. split; [lia|].
        intros Hinc Hty. destruct (Hwi Hinc Hty) as [-> Hq]. exact Hq.
      - rewrite list_lookup_insert_ne by lia. apply Hinv. lia. }
    unfold fgt, flt. destruct (Qle_bool c c1) eqn:E1; cbn [negb].
    + apply Qle_bool_iff in E1.
      destruct (Qle_bool c1 c) eqn:E2; cbn [negb].
      * eexists. split; [reflexivity|].
        apply Hgoal; [lra | intros Hinc; apply Hrise in Hinc; lra].
      * eexists. split; [reflexivity|].
        apply Hgoal; [lra | intros Hinc; apply Hrise in Hinc; lra].
    + apply Qle_bool_false in E1.
      eexists. split; [reflexivity|].
      apply Hgoal; [lra|]. intros Hinc Hty. specialize (Hoi Hinc Hty).
      split; [|lra]. apply kept_plus; [exact Hok|].
      exact (typed_lookup dt volume _ v Hty Hv).
  - exists out. split; [exact Hout|]. split; [exact Hol|].
    intros k Hk.
    destruct (Hcells k) as (q & Hq & _ & H); [unfold len; rewrite fin_length; lia|].
    exists q. auto.
Qed.

Lemma obv_within_traded_volume_witness :
  exists out,
    calculate_obv_at int64 (fin [1; 2; 4]%Q) (fin [10; 20; 30]%Q) = Ok out /\
    length out = 3%nat /\
    forall k, (k < 3)%nat ->
      exists q, out !! k = Some (Fin q) /\
        (- volume_since_first [10; 20; 30]%Q k <= q <= volume_since_first [10; 20; 30]%Q k)%Q /\
        (k = 0%nat -> q = 0%Q) /\
        (increasing [1; 2; 4]%Q -> typed int64 [10; 20; 30]%Q ->
           (q == volume_since_first [10; 20; 30]%Q k)%Q).
Proof.
  apply (obv_within_traded_volume int64 [1; 2; 4]%Q [10; 20; 30]%Q); [reflexivity | |].
  - repeat constructor; eexists; reflexivity.
  - repeat constructor; discriminate.
Defined.

(** An int64 close column drops the fractional part of every stored sum:
    closes 1, 2, 4 with volumes of one half each give 0, 0, 0. *)
Example obv_int64_drops_fractions :
  calculate_obv_at int64 (fin [1; 2; 4]%Q) (fin [1 # 2; 1 # 2; 1 # 2]%Q) =
    Ok (fin [0; 0; 0]%Q) /\
  calculate_obv_at float64 (fin [1; 2; 4]%Q) (fin [1 # 2; 1 # 2; 1 # 2]%Q) <>
    Ok (fin [0; 0; 0]%Q).
Proof. split; [reflexivity | discriminate]. Qed.

(** ** Parabolic SAR within the price range *)

Lemma store_within dt lo hi (a : array) i v :
  (dt = int64 -> whole lo /\ whole hi) ->
  0 <= i < len a -> cell_within lo hi v ->
  exists v', store dt a i v = Ok (<[Z.to_nat i := v']> a) /\ cell_within lo hi v'.
Proof.
  intros Hb Hi (q & -> & Hq). exists (Fin (kept dt q)).
  split; [now apply store_fin|]. exists (kept dt q).
  split; [reflexivity | now apply kept_within].
Qed.

Lemma getitem_insert (a : array) i v :
  0 <= i < len a -> getitem (<[Z.to_nat i := v]> a) i = Ok v.
Proof.
  intros H. apply getitem_in; [lia|].
  apply list_lookup_insert_eq. unfold len in H. lia.
Qed.

(** One store at bar [i >= 1], followed by the read of the stored cell. *)
Lemma sar_store dt lo hi n first i (s : array) v :
  (dt = int64 -> whole lo /\ whole hi) ->
  1 <= i < Z.of_nat n ->
  sar_cells lo hi n first i s -> cell_within lo hi v ->
  exists v', store dt s i v = Ok (<[Z.to_nat i := v']> s) /\
    cell_within lo hi v' /\
    getitem (<[Z.to_nat i := v']> s) i = Ok v' /\
    sar_cells lo hi n first (i + 1) (<[Z.to_nat i := v']> s) /\
    sar_cells lo hi n first i (<[Z.to_nat i := v']> s).
Proof.
  intros Hb Hi (Hl & H0 & Hc) Hv.
  destruct (store_within dt lo hi s i v Hb) as (v' & Hs & Hv');
    [unfold len; lia | exact Hv |].
  exists v'. split; [exact Hs|]. split; [exact Hv'|].
  split; [apply getitem_insert; unfold len; lia|].
  split; (split; [now rewrite length_insert|]);
    (split; [rewrite list_lookup_insert_ne by lia; exact H0|]).
  - apply (cells_insert lo hi s i v' n); [exact Hl | lia | exact Hc | exact Hv'].
  - intros k Hk. rewrite list_lookup_insert_ne by lia. now apply Hc.
Qed.

(** X23.  The parabolic SAR never leaves the price range: on finite highs
    and lows that all lie in [[lo, hi]], for at least two bars and
    acceleration parameters with [0 <= af_start <= 1], [0 <= af_increment]
    and [0 <= af_max <= 1], [calculate_parabolic_sar] returns an array of
    the length of the input whose first cell is what the array keeps of
    the first low (the low itself in a float64 array, its whole part in an
    int64 one) and whose every cell is a number in [[lo, hi]]; for an
    int64 close column the bounds [lo] and [hi] are whole numbers. *)
Theorem parabolic_sar_within_range (dt : dtype) (high low : list Q) (close : array)
    (lo hi : Q) (af_start af_increment af_max : Q) :
  length high = length close -> length low = length close ->
  within lo hi high -> within lo hi low ->
  (dt = int64 -> whole lo /\ whole hi) ->
  (0 <= af_start <= 1)%Q -> (0 <= af_increment)%Q -> (0 <= af_max <= 1)%Q ->
  2 <= len close ->
  exists out,
    calculate_parabolic_sar_at dt (fin high) (fin low) close
      (Fin af_start) (Fin af_increment) (Fin af_max) = Ok out /\
    length out = length close /\
    (exists l0, low !! 0%nat = Some l0 /\ out !! 0%nat = Some (Fin (kept dt l0))) /\
    Forall (cell_within lo hi) out.
Proof.
  intros Hh Hl Wh Wl Hb Hs Hinc Hmx Hn. unfold calculate_parabolic_sar_at.
  replace (len close <? 2) with false by lia.
  assert (Hget : forall (a : list Q) j, within lo hi a -> 0 <= j < len a ->
            exists x, getitem (fin a) j = Ok x /\ cell_within lo hi x).
  { intros a j Wa Hj.
    destruct (getitem_ok (fin a) j) as (x & Hx & Hxl);
      [unfold len in *; rewrite fin_length; lia|].
    exists x. split; [exact Hx|].
    exact (Forall_lookup_1 _ _ _ _ (fin_within _ _ _ Wa) Hxl). }
  destruct (Hget high 0 Wh) as (h0 & -> & Wh0); [unfold len in *; lia|].
  destruct (lookup_lt_is_Some_2 low 0%nat ltac:(unfold len in *; lia)) as [l0 Hl0].
  rewrite (getitem_in (fin low) 0 (Fin l0))
    by (try lia; change (Z.to_nat 0) with 0%nat; rewrite fin_lookup, Hl0; reflexivity).
  cbn [bind]. rewrite store_fin by (unfold len in *; rewrite zeros_length; lia).
  cbn [bind].
  assert (Wl0 : (lo <= l0 <= hi)%Q) by exact (Forall_lookup_1 _ _ _ _ Wl Hl0).
  assert (Hstart : cell_within 0 1 (Fin af_start)) by (eexists; split; [reflexivity | lra]).
  set (n := length close). set (first := Fin (kept dt l0)).
  match goal with
  | |- context [for_range ?lo' ?hi' ?body ?s] =>
      destruct (for_range_ok
        (fun i st =>
           sar_cells lo hi n first i (sar st) /\
           cell_within lo hi (extreme_point st) /\ cell_within 0 1 (af st))
        body lo' hi' s) as (st & -> & (Hsl & Hs0 & Hcells) & _)
  end.
  - lia.
  - cbn [sar extreme_point af]. split; [|split; [exact Wh0 | exact Hstart]].
    assert (H0 : <[Z.to_nat 0 := first]> (np_zeros_like close) !! 0%nat = Some first)
      by (apply list_lookup_insert_eq; rewrite zeros_length; unfold len in *; lia).
    split; [now rewrite length_insert, zeros_length|]. split; [exact H0|].
    intros k Hk. assert (k = 0%nat) as -> by lia. exists first.
    split; [exact H0|]. exists (kept dt l0). split; [reflexivity|].
    now apply kept_within.
  - intros i st Hi (Hcs & Wep & Waf).
    assert (Hin : 1 <= i < Z.of_nat n) by (unfold len, n in *; lia).
    destruct Hcs as (Hsl & Hs0 & Hcells).
    destruct (Hcells (Z.to_nat (i - 1)) ltac:(lia)) as (prev & Hprev & Wprev).
    rewrite (getitem_in (sar st) (i - 1) prev ltac:(lia) Hprev). cbn [bind].
    pose proof (sar_step_within lo hi prev _ _ Wprev Wep Waf) as Wv.
    destruct (sar_store dt lo hi n first i (sar st) _ Hb Hin
                (conj Hsl (conj Hs0 Hcells)) Wv)
      as (v1 & Hst1 & Wv1 & Hrd1 & _ & C1).
    rewrite Hst1. cbn [bind]. rewrite Hrd1. cbn [bind].
    destruct (Hget low i Wl) as (li & Hli & Wli); [unfold len, n in *; lia|].
    destruct (Hget high i Wh) as (hi' & Hhi & Whi); [unfold len, n in *; lia|].
    destruct (Hget low (i - 1) Wl) as (l1 & Hl1 & Wl1); [unfold len, n in *; lia|].
    destruct (Hget high (i - 1) Wh) as (h1 & Hh1 & Wh1); [unfold len, n in *; lia|].
    set (s1 := <[Z.to_nat i := v1]> (sar st)) in *.
    destruct (trend st =? 1).
    + rewrite Hl1. cbn [bind].
      assert (Hs2 : exists v2,
        (if 2 <=? i
         then let* l2 := getitem (fin low) (i - 2) in
              store dt s1 i (py_min v1 (py_min l1 l2))
         else store dt s1 i (py_min v1 l1)) = Ok (<[Z.to_nat i := v2]> s1) /\
        cell_within lo hi v2 /\
        getitem (<[Z.to_nat i := v2]> s1) i = Ok v2 /\
        sar_cells lo hi n first (i + 1) (<[Z.to_nat i := v2]> s1) /\
        sar_cells lo hi n first i (<[Z.to_nat i := v2]> s1)).
      { destruct (Z.leb_spec 2 i).
        - destruct (Hget low (i - 2) Wl) as (l2 & -> & Wl2); [unfold len, n in *; lia|].
          cbn [bind]. apply sar_store; auto. now repeat apply py_min_within.
        - apply sar_store; auto. now apply py_min_within. }
      destruct Hs2 as (v2 & -> & Wv2 & Hread & C2' & C2). cbn [bind].
      rewrite Hli. cbn [bind]. rewrite Hread. cbn [bind].
      destruct (flt li v2).
      * destruct (sar_store dt lo hi n first i _ _ Hb Hin C2 Wep)
          as (v3 & -> & _ & _ & C3 & _).
        cbn [bind]. eexists. split; [reflexivity|]. cbn [sar extreme_point af]. auto.
      * rewrite Hhi. cbn [bind].
        destruct (fgt hi' (extreme_point st));
          (eexists; split; [reflexivity|]; cbn [sar extreme_point af];
           auto using af_update_within).
    + rewrite Hh1. cbn [bind].
      assert (Hs2 : exists v2,
        (if 2 <=? i
         then let* h2 := getitem (fin high) (i - 2) in
              store dt s1 i (py_max v1 (py_max h1 h2))
         else store dt s1 i (py_max v1 h1)) = Ok (<[Z.to_nat i := v2]> s1) /\
        cell_within lo hi v2 /\
        getitem (<[Z.to_nat i := v2]> s1) i = Ok v2 /\
        sar_cells lo hi n first (i + 1) (<[Z.to_nat i := v2]> s1) /\
        sar_cells lo hi n first i (<[Z.to_nat i := v2]> s1)).
      { destruct (Z.leb_spec 2 i).
        - destruct (Hget high (i - 2) Wh) as (h2 & -> & Wh2); [unfold len, n in *; lia|].
          cbn [bind]. apply sar_store; auto. now repeat apply py_max_within.
        - apply sar_store; auto. now apply py_max_within. }
      destruct Hs2 as (v2 & -> & Wv2 & Hread & C2' & C2). cbn [bind].
      rewrite Hhi. cbn [bind]. rewrite Hread. cbn [bind].
      destruct (fgt hi' v2).
      * destruct (sar_store dt lo hi n first i _ _ Hb Hin C2 Wep)
          as (v3 & -> & _ & _ & C3 & _).
        cbn [bind]. eexists. split; [reflexivity|]. cbn [sar extreme_point af]. auto.
      * rewrite Hli. cbn [bind].
        destruct (flt li (extreme_point st));
          (eexists; split; [reflexivity|]; cbn [sar extreme_point af];
           auto using af_update_within).
  - cbn [bind]. exists (sar st). split; [reflexivity|]. split; [exact Hsl|].
    split; [exists l0; split; [exact Hl0 | exact Hs0]|].
    apply cells_of_lookup. intros k Hk. apply Hcells. unfold len. lia.
Qed.

Lemma parabolic_sar_within_range_witness :
  exists out,
    calculate_parabolic_sar_at int64 (fin [3; 4; 6; 5]%Q) (fin [3 # 2; 2; 3; 3]%Q)
      (fin [2; 3; 5; 4]%Q) (Fin (2 # 100)) (Fin (2 # 100)) (Fin (2 # 10)) = Ok out /\
    length out = 4%nat /\
    (exists l0, [3 # 2; 2; 3; 3]%Q !! 0%nat = Some l0 /\
                out !! 0%nat = Some (Fin (kept int64 l0))) /\
    Forall (cell_within 1 6) out.
Proof.
  apply (parabolic_sar_within_range int64 [3; 4; 6; 5]%Q [3 # 2; 2; 3; 3]%Q
           (fin [2; 3; 5; 4]%Q) 1 6);
    try reflexivity; try (split; discriminate); try discriminate;
    try (now vm_compute);
    try (intros _; split; eexists; reflexivity);
    repeat constructor; discriminate.
Defined.

(** An int64 close column keeps the whole part of the first low. *)
Example sar_int64_first_cell :
  match calculate_parabolic_sar_at int64 (fin [3; 4; 6; 5]%Q) (fin [3 # 2; 2; 3; 3]%Q)
          (fin [2; 3; 5; 4]%Q) (Fin (2 # 100)) (Fin (2 # 100)) (Fin (2 # 10)) with
  | Ok out => out !! 0%nat = Some (Fin 1)
  | Raise _ => False
  end.
Proof. reflexivity. Qed.

(** ** Requests that cannot raise, on a float64 close column *)



(** With whole-number closes (an int64 close column) one NaN high makes
    the first ATR store raise: an int64 array has no cell for NaN. *)
Example int64_close_nan_high_raises :
  calculate_atr_at int64 [Fin 3; NaN; Fin 5] (fin [1; 2; 3]%Q) (fin [2; 3; 4]%Q) 2 =
    Raise ValueError /\
  exists out,
    calculate_atr_at float64 [Fin 3; NaN; Fin 5] (fin [1; 2; 3]%Q) (fin [2; 3; 4]%Q) 2 =
      Ok out.
Proof. split; [reflexivity | eexists; reflexivity]. Qed.



(** ** Williams %R and the raw stochastic %K *)

Lemma Qtrunc_near q : (q - 1 < inject_Z (Qtrunc q) < q + 1)%Q.
Proof.
  destruct (Qtrunc_toward_zero q) as [Hp Hn].
  assert (H : (inject_Z (Qtrunc q) - 1 < q /\ q < inject_Z (Qtrunc q) + 1)%Q).
  { destruct q as [n d]. unfold Qlt, Qminus, Qplus, Qopp, Qtrunc.
    cbn [inject_Z Qnum Qden].
    pose proof (Z.quot_rem' n (Z.pos d)) as E.
    destruct (Z_le_gt_dec 0 n) as [H|H].
    - pose proof (Z.rem_bound_pos n (Z.pos d) H ltac:(lia)). split; nia.
    - pose proof (Z.rem_bound_pos_neg n (Z.pos d) ltac:(lia) ltac:(lia)). split; nia. }
  destruct H. split; lra.
Qed.

(** Two stored numbers that differ by 100 are stored 100 apart, up to the
    unit an int64 array drops. *)
Lemma kept_shift dt x y :
  (y == x - 100)%Q -> (Qabs (kept dt y - (kept dt x - 100)) <= 1)%Q.
Proof.
  intros E. apply Qabs_Qle_condition. destruct dt; cbn [kept]; [split; lra|].
  pose proof (Qtrunc_near x) as Hx. pose proof (Qtrunc_near y) as Hy.
  set (zx := Qtrunc x) in *. set (zy := Qtrunc y) in *.
  assert (Hm : (inject_Z zy - (inject_Z zx - 100) == inject_Z (zy - zx + 100))%Q).
  { unfold Z.sub. rewrite !inject_Z_plus, inject_Z_opp.
    change (inject_Z 100) with 100%Q. ring. }
  rewrite Hm.
  assert (Hlt : (inject_Z (-2) < inject_Z (zy - zx + 100) < inject_Z 2)%Q).
  { rewrite <- Hm. change (inject_Z (-2)) with (-2)%Q. change (inject_Z 2) with 2%Q.
    split; lra. }
  rewrite <- !Zlt_Qlt in Hlt.
  change (-(1))%Q with (inject_Z (-1)). change 1%Q with (inject_Z 1).
  rewrite <- !Zle_Qle. lia.
Qed.

(** The loop that writes the raw %K (lines 104-111) into an array of dtype
    [dt], on finite bars. *)
Lemma stochastic_raw_at dt (high low close : list Q) (P : Z) (a0 : array) :
  length high = length close -> length low = length close ->
  length a0 = length close -> 1 <= P ->
  exists out,
    for_range (P - 1) (len (fin close))
      (fun i k_raw =>
         let* (highest_high, lowest_low) := window_extremes (fin high) (fin low) i P in
         if fne highest_high lowest_low then
           let* c := getitem (fin close) i in
           store dt k_raw i ((c - lowest_low) / (highest_high - lowest_low) * Fin 100)%f
         else store dt k_raw i (Fin 50)) a0 = Ok out /\
    length out = length close /\
    (forall k, P - 1 <= Z.of_nat k < len close ->
       exists c, close !! k = Some c /\
         out !! k = Some (Fin (kept dt
           (stoch_q (Qmaximum (trailing high (Z.of_nat k) P))
                    (Qminimum (trailing low (Z.of_nat k) P)) c)))).
Proof.
  intros Hh Hl Ha HP.
  destruct (pointwise_loop
    (fun i v => exists c, close !! Z.to_nat i = Some c /\
       v = Fin (kept dt
             (stoch_q (Qmaximum (trailing high i P)) (Qminimum (trailing low i P)) c)))
    (fun i k_raw =>
         let* (highest_high, lowest_low) := window_extremes (fin high) (fin low) i P in
         if fne highest_high lowest_low then
           let* c := getitem (fin close) i in
           store dt k_raw i ((c - lowest_low) / (highest_high - lowest_low) * Fin 100)%f
         else store dt k_raw i (Fin 50))
    (P - 1) (len (fin close)) a0 (length close))
    as (out & Hout & Hlen & Hb & Hv).
  - lia.
  - unfold len. rewrite fin_length. lia.
  - exact Ha.
  - intros i a Hi Hla. unfold len in Hi. rewrite fin_length in Hi.
    rewrite window_extremes_fin by (unfold len; lia). cbn [bind].
    destruct (lookup_lt_is_Some_2 close (Z.to_nat i) ltac:(lia)) as [c Hc].
    unfold stoch_q.
    generalize (Qmaximum (trailing high i P)) (Qminimum (trailing low i P)).
    intros hh ll.
    unfold fne; cbn [feq]. destruct (Qeq_bool hh ll) eqn:E; cbn [negb].
    + rewrite store_fin by (unfold len; lia).
      eexists. split; [reflexivity|]. exists c. auto.
    + assert (Hne : ~ (hh == ll)%Q)
        by (intros H; apply Qeq_bool_iff in H; congruence).
      rewrite (getitem_in (fin close) i (Fin c))
        by (try lia; rewrite fin_lookup, Hc; reflexivity).
      cbn [bind fsub fadd fneg fdiv fmul].
      rewrite Qzero_b_false by (intros H; apply Hne; lra). cbn [fmul].
      rewrite store_fin by (unfold len; lia).
      eexists. split; [reflexivity|]. exists c. split; [exact Hc|]. reflexivity.
  - exists out. split; [exact Hout|]. split; [exact Hlen|].
    intros k Hk. destruct (Hv k) as (v & Hk1 & c & Hc & ->);
      [unfold len in *; rewrite fin_length; lia|].
    rewrite Nat2Z.id in Hc. exists c. auto.
Qed.

(** The loop of Williams %R (lines 244-252) into an array of dtype [dt],
    on finite bars. *)
Lemma williams_cells_at dt (high low close : list Q) (P : Z) :
  length high = length close -> length low = length close -> 1 <= P ->
  exists out,
    calculate_williams_r_at dt (fin high) (fin low) (fin close) P = Ok out /\
    length out = length close /\
    (forall k, P - 1 <= Z.of_nat k < len close ->
       exists c, close !! k = Some c /\
         out !! k = Some (Fin (kept dt
           (williams_q (Qmaximum (trailing high (Z.of_nat k) P))
                       (Qminimum (trailing low (Z.of_nat k) P)) c)))).
Proof.
  intros Hh Hl HP. unfold calculate_williams_r_at.
  destruct (pointwise_loop
    (fun i v => exists c, close !! Z.to_nat i = Some c /\
       v = Fin (kept dt
             (williams_q (Qmaximum (trailing high i P)) (Qminimum (trailing low i P)) c)))
    (fun i williams_r =>
       let* (highest_high, lowest_low) := window_extremes (fin high) (fin low) i P in
       if fne highest_high lowest_low then
         let* c := getitem (fin close) i in
         store dt williams_r i
           ((highest_high - c) / (highest_high - lowest_low) * Fin (-100))%f
       else store dt williams_r i (Fin (-50)))
    (P - 1) (len (fin close)) (np_zeros_like (fin close)) (length close))
    as (out & Hout & Hlen & Hb & Hv).
  - lia.
  - unfold len. rewrite fin_length. lia.
  - now rewrite zeros_length, fin_length.
  - intros i a Hi Hla. unfold len in Hi. rewrite fin_length in Hi.
    rewrite window_extremes_fin by (unfold len; lia). cbn [bind].
    destruct (lookup_lt_is_Some_2 close (Z.to_nat i) ltac:(lia)) as [c Hc].
    unfold williams_q.
    generalize (Qmaximum (trailing high i P)) (Qminimum (trailing low i P)).
    intros hh ll.
    unfold fne; cbn [feq]. destruct (Qeq_bool hh ll) eqn:E; cbn [negb].
    + rewrite store_fin by (unfold len; lia).
      eexists. split; [reflexivity|]. exists c. auto.
    + assert (Hne : ~ (hh == ll)%Q)
        by (intros H; apply Qeq_bool_iff in H; congruence).
      rewrite (getitem_in (fin close) i (Fin c))
        by (try lia; rewrite fin_lookup, Hc; reflexivity).
      cbn [bind fsub fadd fneg fdiv fmul].
      rewrite Qzero_b_false by (intros H; apply Hne; lra). cbn [fmul].
      rewrite store_fin by (unfold len; lia).
      eexists. split; [reflexivity|]. exists c. split; [exact Hc|]. reflexivity.
  - exists out. split; [exact Hout|]. split; [exact Hlen|].
    intros k Hk. destruct (Hv k) as (v & Hk1 & c & Hc & ->);
      [unfold len in *; rewrite fin_length; lia|].
    rewrite Nat2Z.id in Hc. exists c. auto.
Qed.

(** X8.  Williams %R follows the unsmoothed stochastic %K 100 below it:
    on the same finite bars and period, at every index from [period - 1]
    on (the flat-window defaults -50 and 50 included), [williams_r[k]]
    and [stoch_k[k] - 100] are at most 1 apart, for a float64 and for an
    int64 close column (where both arrays drop the fractional part of
    what they store). *)
Theorem williams_tracks_stochastic (dt : dtype) (high low close : list Q)
    (period d_period slowing : Z) :
  length high = length close -> length low = length close ->
  typed dt close ->
  1 <= period -> 0 <= d_period -> slowing <= 1 ->
  exists s w,
    calculate_stochastic_at dt (fin high) (fin low) (fin close)
      period d_period slowing = Ok s /\
    calculate_williams_r_at dt (fin high) (fin low) (fin close) period = Ok w /\
    forall k, period - 1 <= Z.of_nat k < len close ->
      exists a b, stoch_k s !! k = Some (Fin a) /\ w !! k = Some (Fin b) /\
        (Qabs (b - (a - 100)) <= 1)%Q.
Proof.
  intros Hh Hl _ HP HdP Hs.
  destruct (williams_cells_at dt high low close period Hh Hl HP) as (w & Hw & _ & Hwc).
  unfold calculate_stochastic_at.
  destruct (stochastic_raw_at dt high low close period (np_zeros_like (fin close)) Hh Hl)
    as (raw & -> & Hlen & Hv); [now rewrite zeros_length, fin_length | exact HP |].
  cbn [bind]. replace (1 <? slowing) with false by lia. cbn [bind].
  unfold calculate_sma, rolling. replace (d_period <? 0) with false by lia.
  cbn [bind]. eexists _, w. split; [reflexivity|]. split; [exact Hw|].
  intros k Hk. cbn [stoch_k].
  destruct (Hv k Hk) as (c & Hc & Hr). destruct (Hwc k Hk) as (c' & Hc' & Hw').
  assert (c' = c) by congruence. subst c'.
  eexists _, _. split; [exact Hr|]. split; [exact Hw'|].
  apply kept_shift, williams_q_stoch_q.
Qed.

Lemma williams_tracks_stochastic_witness :
  exists s w,
    calculate_stochastic_at int64 (fin [3; 4; 6]%Q) (fin [1; 2; 3]%Q) (fin [2; 3; 5]%Q)
      2 3 1 = Ok s /\
    calculate_williams_r_at int64 (fin [3; 4; 6]%Q) (fin [1; 2; 3]%Q) (fin [2; 3; 5]%Q)
      2 = Ok w /\
    forall k, 2 - 1 <= Z.of_nat k < len [2; 3; 5]%Q ->
      exists a b, stoch_k s !! k = Some (Fin a) /\ w !! k = Some (Fin b) /\
        (Qabs (b - (a - 100)) <= 1)%Q.
Proof.
  apply (williams_tracks_stochastic int64 [3; 4; 6]%Q [1; 2; 3]%Q [2; 3; 5]%Q 2 3 1);
    try reflexivity; try lia.
  repeat constructor; eexists; reflexivity.
Defined.

(** With whole-number closes the two arrays are one unit off: bars with
    highs 3, 4, lows 1, 2 and closes 2, 3 give %K 66 and %R -33. *)
Example williams_int64_one_off :
  match calculate_stochastic_at int64 (fin [3; 4]%Q) (fin [1; 2]%Q) (fin [2; 3]%Q) 2 1 1,
        calculate_williams_r_at int64 (fin [3; 4]%Q) (fin [1; 2]%Q) (fin [2; 3]%Q) 2 with
  | Ok s, Ok w => stoch_k s !! 1%nat = Some (Fin 66) /\ w !! 1%nat = Some (Fin (-33))
  | _, _ => False
  end.
Proof. split; reflexivity. Qed.
